(* ===== verification/_CoqProject ===== *)
-Q . S2P
Prelude.v
Float64.v
PyValue.v
HostText.v
JobResult.v
IncentiveConfig.v
Readings.v
Burn.v
Fixtures.v
Weights.v
IncentiveBase.v
Settlement.v
Availability.v
PriceProvider.v
Pipeline.v
PipelineLanes.v
GpuDrop.v
GpuLossHold.v
DefaultIncentive.v
RentalGates.v
RentalPrice.v
RentalShares.v
RentalScoring.v
RentalConservation.v
RentalSplit.v
Witnesses.v
ValidationWitnesses.v
ExpressLane.v
LaneWitnesses.v
Effects.v
IsoTime.v
RolloutTracker.v
RentedData.v
RolloutVerdicts.v
DelayedSettlement.v
SettlementDelivery.v
SettlementWindows.v
GpuReset.v
GpuResetSafety.v
GpuModels.v
ContainerCleanup.v
StaleContainers.v
ContainerSafety.v
ReapQueue.v
ReapDelivery.v
GpuUsage.v
GpuUsageSafety.v
ProviderLoad.v
ProviderLoadSafety.v
LoadPrecision.v
CpuTruth.v
PowerCap.v
PowerRestore.v
PowerRoundTrip.v
PowerCheck.v
PowerWitnesses.v
RolloutWitnesses.v
SettlementWitnesses.v
ResetWitnesses.v
CleanupWitnesses.v
UsageWitnesses.v
LoadWitnesses.v
