(* ===== verification/Prelude.v ===== *)
(** * Lium validator: verification library (root file)

    The program is the validator of the Lium subnet (src/neurons/validators/src).  A
    validator runs a cycle every 75 blocks: it asks every miner for its executors (GPU nodes),
    runs a pipeline of checks on each node, settles the results, scores them with an incentive
    algorithm, turns the scores into a vector of weights and submits it to the chain, or
    reports the cycle to the backend and submits the window the backend settles later.  Beside
    the cycle it verifies new nodes in an express lane, keeps the incidents of nodes that lost
    a GPU, caps and restores the power limits of GPUs that run filler jobs, resets the GPUs of a
    pod when its renter asks for it, and removes what ended rentals left on a node.  Source paths below are relative to src/neurons/validators/src.

    ** How the source is modelled

    - Python code that raises is a [res] (this file); attribute and key errors, [TypeError]s on
      missing values and the like are values of [exc], and a pass that raises half way keeps the
      writes made before where the caller can see them.
    - Floats are rationals with the rounding of an interface, [Rounding] (Float64.v): exact,
      and binary64 with ties to even.  A theorem over any [Rounding] holds of the doubles of
      the program; conservation laws are stated in exact arithmetic.
    - A dict is an association list in insertion order ([dget], [dset], [ddel], this file),
      because the code iterates over its dicts; JSON objects, where only lookup matters, are [gmap]s.
    - Objects that several lists refer to (a [JobResult], a [_Pending]) live in a store and are
      named by their address, so that a write through one list is seen through the others.
    - Coroutines run between awaits.  The lanes of a pipeline stage and the power-limit sets run
      under an explicit schedule; the express lane and the wave are a step relation.
    - Code that talks to Redis, the backend, the chain or a host through many calls is a program
      over a type of calls ([prog], Effects.v), the whole function with its [try] blocks; a
      handler gives each call its effect and the answer the outside chose.  A time limit of
      [asyncio.wait_for] is [cut]: the program ends after any number of calls.
    - Loops are structural or bounded by a constant (six attempts of a price fetch, two passes of
      a scoring cycle), but for two: the widening of a GPU reset to NVLink peers, whose fuel, one
      step for each requested GPU and each GPU of the pod, is proved enough
      ([nvlink_widening_ends]), and the removal of terminal codes from a text, whose fuel is the
      text's length.
    - Redis, the miners, the backend, SSH and the clock are inputs: what they answer, failures
      included, is quantified over.  Code outside the repository (bittensor's weight
      processing, numpy's float32, lium-core's price table, nvidia-smi) is a parameter, with
      the documented behaviour a theorem relies on as a named hypothesis.
    - Log lines and message texts are left out, except a line's kind and reason where the
      code hands it to the miner.

    ** The parts

    Values.  Float64: floats.  PyValue: JSON from the node, and Python's conversions of it.
    HostText: the string methods the parsers of host output use.  IsoTime: [isoformat] and
    [fromisoformat].
    JobResult: services/task/models.py and incentive/miner_incentive_log.py.  IncentiveConfig:
    incentive/config.py, utils.py, eligibility.py and what core/config.py gives them.
    Readings: what scoring reads from Redis (services/redis_service.py).

    Scoring.  IncentiveBase: the loop of incentive/base.py over an algorithm, the class
    [IncentiveAlgorithm].  DefaultIncentive: incentive/default.py, its instance, and the final
    scores (burn, exclusions, referral pool).  RentalGates, RentalPrice: incentive/rental_price.py,
    the other instance.  RentalShares (shares, caps, bucket reassignment), RentalScoring (which
    pool a node is paid from), RentalConservation (the cycle pays out exactly its shares) and
    RentalSplit (partially rented nodes scored as two results and merged) hold its theorems.
    Burn: incentive/burn_service.py.  PriceProvider: incentive/price_provider.py, refined by a
    provider that only knows the last good value.  Weights: clients/subtensor_client.py, from
    scores to the u16 vector.

    Settling.  Settlement: services/task/checks/duplicate_executor.py and settle_cycle_results
    of core/validator.py.  Availability: services/task/availability.py, the faults reported
    about a node and the silencer for the validator's own outages.  RolloutTracker:
    services/executor_rollout.py's tracker of a new executor image, with its state in Redis;
    RentedData: what protocol/vc_protocol/compute_requests.py says of rentals; RolloutVerdicts:
    the verdicts withheld for a rollout or for a renter's GPU reset, and the scores carried over
    such a reset.

    Submitting.  DelayedSettlement: core/settlement.py and the settlement methods of
    core/validator.py, from a cycle's report to the weights part of a tick.  SettlementDelivery:
    the world they run in, and no kept report is lost; SettlementWindows: a window waits for the
    reports of the ones before it.

    Validating.  Pipeline: services/task/pipeline.py; PipelineLanes: its parallel stages against
    the serial pipeline.  GpuDrop, GpuLossHold: services/task/checks/gpu_fingerprint.py,
    rented_gpu_drop.py, gpu_loss_hold.py, post_rental_gpu_recheck.py.  ExpressLane:
    core/express_lane.py with the claims of services/miner_service.py.  GpuModels:
    services/gpu_spec_table.py, gpu_reference_table.py, gpu_precheck.py and
    services/task/score_calculator.py, what card a node has and the gates of its score.  GpuUsage:
    services/task/checks/gpu_usage.py, rental_owner.py and the ghost detection of
    services/gpu_wedge.py, who the GPUs of a node work for; GpuUsageSafety: what its verdicts rest on.
    ProviderLoad: services/task/checks/provider_side_load.py and cpu_truth.py, what a node's owner
    takes of it beside Lium and how many cores it really has; ProviderLoadSafety: what a withheld
    payout rests on; LoadPrecision: how exact a reading is; CpuTruth: a kernel's list of CPUs
    counted back.

    Resetting.  GpuReset: services/gpu_reset.py, from the prechecks to the start of the
    container; the commands run on the host are values of [command].  GpuResetSafety: what holds
    of every run, whatever the host answers.

    Power.  Effects: programs over calls that may fail, run alone or side by side under a
    semaphore, with the proof rule for protocols they keep.  PowerCap: services/gpu_power_limit.py.
    PowerRestore: nothing loses a pre-cap limit.  PowerRoundTrip: a filler's caps set and given
    back on a host that obeys nvidia-smi's documentation.  PowerCheck:
    services/task/checks/gpu_power_limit.py and the revert history.

    Cleaning.  ContainerCleanup: services/container_cleanup.py, the containers, volumes and caches
    that ended workloads leave on a node; the commands run there are values of [host_command].
    StaleContainers: services/task/checks/stale_container_cleanup.py, the check that decides what
    may go, its backend lookups, its queue of reaped pods and its GPU exemptions.  ContainerSafety:
    the world a run lives in, and what justifies every destructive command.  ReapQueue: what the
    check remembers of exempted names; ReapDelivery: what becomes of a queued report.

    Fixtures holds a small concrete cycle; Witnesses, ValidationWitnesses, LaneWitnesses,
    PowerWitnesses, RolloutWitnesses, SettlementWitnesses, ResetWitnesses, CleanupWitnesses,
    UsageWitnesses and LoadWitnesses apply the theorems to concrete inputs.

    ** What the theorems show

    - Money: a cycle's incentives add up to the emission shares, also with split nodes; shares
      stay within the burn emission under any rounding; bucket reassignment never overfills a
      bucket; excluded nodes and hotkeys earn nothing; final scores, burn, referral pool and the
      u16 vector keep their totals and bounds.
    - Settling: one hotkey per endpoint, one executor per GPU; the running outage tally agrees
      with the silencer over the whole batch.
    - Withholding: rollout windows never chain; exactly what a rollout or a reset explains is
      withheld; a carried score was earned in the hour before and is never carried twice.
    - Submitting: a kept cycle report is delivered or still kept, through restarts, time limits
      and lost calls; with a working backend the kept ones drain in order; no settled window is
      submitted before the ones before it are acknowledged.
    - Cards: the score is one exactly when no gate fails; a probe fits the card that passed the
      precheck; an unknown card is scored as the cheapest of its memory.
    - Resetting: only the pod's own GPUs, whole NVLink groups of them, are reset; the container is
      never started under a running reset and is otherwise always started again; a report is ok
      only for a reset.
    - Validation: a parallel stage of independent lanes equals the serial pipeline under every
      interleaving; what a run returns; a node that lost a GPU stays off the market until its
      load test passes, then comes back; an incident that may be open gets its recovery; a passing
      usage check accounts for every GPU process, a failing one has evidence read in the same run; the owner's
      load costs a node its score only when two readings without Lium's containers show it; the CPU
      truth check counts what the kernel lists.
    - Concurrency: lane and wave never test one executor at once; the lane stays under its caps.
    - Cleaning: whatever the node and the backend answer, only a listed leftover that is old enough,
      known to be over and queued for its report is removed, and only volumes nobody needs; GPU
      processes stop counting only for a confirmed workload and once per name; a reap that waits in
      the queue is reported within the cycles it takes to send the ones ahead; no failure stops the
      check.
    - Power: pre-cap limits survive lost Redis calls, failing hosts and any interleaving; caps
      fail closed; caps then restore is the identity on an honest host.

    ** Not modelled

    The HTTP, SSH and Docker code around these parts (docker_service.py, most of
    miner_service.py, compute_client.py, the connector), the checks that are thresholds on a
    remote probe's output (rental_probe.py, verifyx.py), the machine scrape that
    runs on the node, the snapshot of rental_price.py for the dashboards, the miner and executor
    neurons and the protocol package: their effects are outside the process.  Of core/validator.py
    only settling, withholding, the weights and the cycle's end are modelled, of services/gpu_reset.py
    not the shell text of the host unit, the details of a report and the Redis marks the checks
    read; a coroutine that is cancelled other than by a time limit is not modelled.  Next in line:
    services/task/inspector_verdict.py and port_count.py, the executor image check
    and the repeat tracker of the pipeline's log sink. *)

From Stdlib Require Export ZArith QArith Qround Qpower Lqa Lia Morphisms Setoid.
From stdpp Require Export base decidable list strings sets sorting.


#[global] Arguments Qplus : simpl never.
#[global] Arguments Qminus : simpl never.
#[global] Arguments Qmult : simpl never.
#[global] Arguments Qdiv : simpl never.
#[global] Arguments Qopp : simpl never.
#[global] Arguments Qinv : simpl never.
#[global] Arguments Qle_bool : simpl never.
#[global] Arguments Qeq_bool : simpl never.
#[global] Arguments inject_Z : simpl never.
#[global] Arguments Qeq : simpl never.
#[global] Arguments Qle : simpl never.
#[global] Arguments Qlt : simpl never.

(** ** Exceptions and results

    Python code either returns a value or raises.  The only exceptions that the
    modelled code can raise by itself are the built-in ones below. *)
Inductive exc :=
| KeyError
| TypeError
| ValueError
| AttributeError
| IndexError
| AssertionError
| ZeroDivisionError
| StopIteration
| OtherError (name : string).

#[export] Instance exc_eq_dec : EqDecision exc.
Proof. solve_decision. Defined.

Inductive res (A : Type) :=
| Ok (a : A)
| Raise (e : exc).
Arguments Ok {A} a.
Arguments Raise {A} e.

#[export] Instance res_ret : MRet res := fun A a => Ok a.
#[export] Instance res_bind : MBind res := fun A B f m =>
  match m with Ok a => f a | Raise e => Raise e end.

(** [need e o]: use the value of an optional attribute; arithmetic on [None]
    raises [TypeError] in Python. *)
Definition need {A} (o : option A) : res A :=
  match o with Some a => Ok a | None => Raise TypeError end.

Definition is_ok {A} (r : res A) : Prop := exists a, r = Ok a.

Lemma bind_ok {A B} (m : res A) (f : A -> res B) b :
  (m ≫= f) = Ok b -> exists a, m = Ok a /\ f a = Ok b.
Proof. destruct m as [a|e]; cbn; [eauto | discriminate]. Qed.

Lemma need_ok {A} (o : option A) a : need o = Ok a -> o = Some a.
Proof. destruct o; cbn; congruence. Qed.

(** Take one successful monadic step apart. *)
Ltac bind_inv H :=
  let a := fresh "a" in let H1 := fresh H in let H2 := fresh H in
  apply bind_ok in H as (a & H1 & H2).

(** Effectful loops: [for x in l: state = f(state, x)]. *)
Fixpoint foldM {S A} (f : S -> A -> res S) (s : S) (l : list A) : res S :=
  match l with
  | [] => Ok s
  | x :: l' => f s x ≫= fun s' => foldM f s' l'
  end.

Lemma foldM_app {S A} (f : S -> A -> res S) s l1 l2 :
  foldM f s (l1 ++ l2) = foldM f s l1 ≫= fun s' => foldM f s' l2.
Proof.
  revert s; induction l1 as [|x l1 IH]; intros s; cbn; [done|].
  destruct (f s x); cbn; [apply IH | done].
Qed.

(** Invariant rule for a loop: what every iteration preserves holds at the end. *)
Lemma foldM_inv {S A} (P : S -> Prop) (f : S -> A -> res S) l s s' :
  (forall s x s', x ∈ l -> P s -> f s x = Ok s' -> P s') ->
  P s -> foldM f s l = Ok s' -> P s'.
Proof.
  revert s; induction l as [|x l IH]; cbn; intros s Hstep Hs H.
  - by simplify_eq.
  - bind_inv H. eapply (IH a); [|eapply Hstep|]; eauto; set_solver.
Qed.

(** ** Booleans over rationals *)
Definition Qleb (x y : Q) : bool := Qle_bool x y.
Definition Qltb (x y : Q) : bool := negb (Qle_bool y x).
Definition Qeqb (x y : Q) : bool := Qeq_bool x y.

Lemma Qleb_le x y : Qleb x y = true <-> (x <= y)%Q.
Proof. apply Qle_bool_iff. Qed.
Lemma Qleb_nle x y : Qleb x y = false <-> (y < x)%Q.
Proof.
  rewrite <- not_true_iff_false, Qleb_le. split; [apply Qnot_le_lt | apply Qlt_not_le].
Qed.
Lemma Qltb_lt x y : Qltb x y = true <-> (x < y)%Q.
Proof. unfold Qltb. rewrite negb_true_iff. apply Qleb_nle. Qed.
Lemma Qltb_nlt x y : Qltb x y = false <-> (y <= x)%Q.
Proof. unfold Qltb. rewrite negb_false_iff. apply Qleb_le. Qed.
Lemma Qeqb_eq x y : Qeqb x y = true <-> (x == y)%Q.
Proof. apply Qeq_bool_iff. Qed.
Lemma Qeqb_neq x y : Qeqb x y = false <-> ~ (x == y)%Q.
Proof. rewrite <- not_true_iff_false, Qeqb_eq. done. Qed.

(** Case analysis on a comparison of the code, leaving an inequality in [Q]. *)
Ltac qcase x y H :=
  lazymatch goal with
  | |- context [Qltb x y] =>
      destruct (Qltb x y) eqn:H; [rewrite Qltb_lt in H | rewrite Qltb_nlt in H]
  | |- context [Qleb x y] =>
      destruct (Qleb x y) eqn:H; [rewrite Qleb_le in H | rewrite Qleb_nle in H]
  end.

Ltac qbool :=
  repeat match goal with
  | H : Qltb _ _ = true |- _ => rewrite Qltb_lt in H
  | H : Qltb _ _ = false |- _ => rewrite Qltb_nlt in H
  | H : Qleb _ _ = true |- _ => rewrite Qleb_le in H
  | H : Qleb _ _ = false |- _ => rewrite Qleb_nle in H
  | H : Qeqb _ _ = true |- _ => rewrite Qeqb_eq in H
  | H : Qeqb _ _ = false |- _ => rewrite Qeqb_neq in H
  | |- Qltb _ _ = true => rewrite Qltb_lt
  | |- Qltb _ _ = false => rewrite Qltb_nlt
  | |- Qleb _ _ = true => rewrite Qleb_le
  | |- Qleb _ _ = false => rewrite Qleb_nle
  | |- Qeqb _ _ = true => rewrite Qeqb_eq
  end.

(** Split every rational comparison of the goal. *)
Ltac qsplit :=
  repeat match goal with
  | |- context [Qltb ?a ?b] => let H := fresh "Hq" in destruct (Qltb a b) eqn:H
  | |- context [Qleb ?a ?b] => let H := fresh "Hq" in destruct (Qleb a b) eqn:H
  | |- context [Qeqb ?a ?b] => let H := fresh "Hq" in destruct (Qeqb a b) eqn:H
  end; qbool.

#[export] Instance Qltb_proper : Proper (Qeq ==> Qeq ==> eq) Qltb.
Proof.
  intros x x' Hx y y' Hy. apply eq_true_iff_eq. rewrite !Qltb_lt. by rewrite Hx, Hy.
Qed.
#[export] Instance Qleb_proper : Proper (Qeq ==> Qeq ==> eq) Qleb.
Proof.
  intros x x' Hx y y' Hy. apply eq_true_iff_eq. rewrite !Qleb_le. by rewrite Hx, Hy.
Qed.
#[export] Instance Qeqb_proper : Proper (Qeq ==> Qeq ==> eq) Qeqb.
Proof.
  intros x x' Hx y y' Hy. apply eq_true_iff_eq. rewrite !Qeqb_eq. by rewrite Hx, Hy.
Qed.

(** Python's [min(a, b)] and [max(a, b)]: the first argument wins a tie. *)
Definition pymin (a b : Q) : Q := if Qltb b a then b else a.
Definition pymax (a b : Q) : Q := if Qltb a b then b else a.
Definition pyminZ (a b : Z) : Z := if (b <? a)%Z then b else a.
Definition pymaxZ (a b : Z) : Z := if (a <? b)%Z then b else a.

Lemma pymin_l a b : (pymin a b <= a)%Q.
Proof. unfold pymin. qcase b a H; lra. Qed.
Lemma pymin_r a b : (pymin a b <= b)%Q.
Proof. unfold pymin. qcase b a H; lra. Qed.
Lemma pymin_glb a b c : (c <= a -> c <= b -> c <= pymin a b)%Q.
Proof. unfold pymin. qcase b a H; lra. Qed.
Lemma pymin_cases a b : pymin a b = a /\ (a <= b)%Q \/ pymin a b = b /\ (b <= a)%Q.
Proof. unfold pymin. qcase b a H; [right|left]; split; try done; lra. Qed.
Lemma pymax_l a b : (a <= pymax a b)%Q.
Proof. unfold pymax. qcase a b H; lra. Qed.
Lemma pymax_r a b : (b <= pymax a b)%Q.
Proof. unfold pymax. qcase a b H; lra. Qed.
Lemma pymax_lub a b c : (a <= c -> b <= c -> pymax a b <= c)%Q.
Proof. unfold pymax. qcase a b H; lra. Qed.
Lemma pyminZ_min a b : pyminZ a b = Z.min a b.
Proof. unfold pyminZ. destruct (Z.ltb_spec b a); lia. Qed.
Lemma pymaxZ_max a b : pymaxZ a b = Z.max a b.
Proof. unfold pymaxZ. destruct (Z.ltb_spec a b); lia. Qed.

Create HintDb pyq.
Create HintDb rental.
#[export] Hint Resolve pymin_l pymin_r pymin_glb pymax_l pymax_r pymax_lub : pyq.

(** ** Dictionaries

    A Python [dict] keeps the insertion order of its keys, and iteration (hence
    every floating-point sum over the values) follows it, so a dict is modelled
    by an association list: assignment to a present key keeps its place, a new
    key goes last. *)
Section Dict.
Context {K V : Type} `{EqDecision K}.
Implicit Types (d : list (K * V)) (k : K) (v : V).

Fixpoint dget (k : K) (d : list (K * V)) : option V :=
  match d with
  | [] => None
  | (k', v) :: d' => if decide (k' = k) then Some v else dget k d'
  end.

(** [d.get(k, default)] *)
Definition dget_or (default : V) (k : K) (d : list (K * V)) : V :=
  match dget k d with Some v => v | None => default end.

(** [k in d] *)
Definition din (k : K) (d : list (K * V)) : bool :=
  match dget k d with Some _ => true | None => false end.

(** [d[k] = v] *)
Fixpoint dset (k : K) (v : V) (d : list (K * V)) : list (K * V) :=
  match d with
  | [] => [(k, v)]
  | (k', v') :: d' => if decide (k' = k) then (k', v) :: d' else (k', v') :: dset k v d'
  end.

Definition dkeys (d : list (K * V)) : list K := d.*1.
Definition dvalues (d : list (K * V)) : list V := d.*2.

Lemma dget_dset_eq k v d : dget k (dset k v d) = Some v.
Proof.
  induction d as [|[k' v'] d IH]; cbn.
  - by rewrite decide_True.
  - case_decide; cbn; [by rewrite decide_True | by rewrite decide_False].
Qed.

Lemma dget_dset_ne k k' v d : k <> k' -> dget k' (dset k v d) = dget k' d.
Proof.
  intros Hne. induction d as [|[k0 v0] d IH]; cbn.
  - by rewrite decide_False.
  - case_decide as H1; cbn.
    + subst. by rewrite !decide_False by done.
    + case_decide; [done | apply IH].
Qed.

Lemma dget_or_dset_eq a k v d : dget_or a k (dset k v d) = v.
Proof. unfold dget_or. by rewrite dget_dset_eq. Qed.
Lemma dget_or_dset_ne a k k' v d : k <> k' -> dget_or a k' (dset k v d) = dget_or a k' d.
Proof. intros. unfold dget_or. by rewrite dget_dset_ne. Qed.

Lemma dget_In k v d : dget k d = Some v -> (k, v) ∈ d.
Proof.
  induction d as [|[k' v'] d IH]; cbn; [done|].
  case_decide; intros; simplify_eq; set_solver.
Qed.

Lemma dget_None_keys k d : dget k d = None <-> k ∉ dkeys d.
Proof.
  unfold dkeys. induction d as [|[k' v'] d IH]; cbn; [set_solver|].
  rewrite not_elem_of_cons, <- IH. case_decide; naive_solver.
Qed.

Lemma din_keys k d : din k d = true <-> k ∈ dkeys d.
Proof.
  unfold din. destruct (dget k d) as [v|] eqn:E.
  - apply dget_In in E. split; [intros _ | done]. unfold dkeys.
    apply list_elem_of_fmap. exists (k, v). done.
  - apply dget_None_keys in E. by split.
Qed.

Lemma dkeys_dset k v d :
  dkeys (dset k v d) = if din k d then dkeys d else dkeys d ++ [k].
Proof.
  unfold dkeys, din. induction d as [|[k' v'] d IH]; cbn; [done|].
  case_decide; cbn; [done|]. rewrite IH. by destruct (dget k d).
Qed.

Lemma dset_fresh k v d : din k d = false -> dset k v d = d ++ [(k, v)].
Proof.
  unfold din. induction d as [|[k' v'] d IH]; cbn; [done|]. destruct (decide (k' = k)) as [->|]; [done|].
  intros Hd. f_equal. by apply IH.
Qed.

(** [del d[k]], [d.pop(k, None)] *)
Definition ddel (k : K) (d : list (K * V)) : list (K * V) := List.filter (fun kv => negb (bool_decide (kv.1 = k))) d.

Lemma dget_ddel_eq k d : dget k (ddel k d) = None.
Proof.
  induction d as [|[k' v'] d IH]; cbn; [done|]. destruct (bool_decide (k' = k)) eqn:E; cbn; [done|].
  apply bool_decide_eq_false in E. by rewrite decide_False.
Qed.
Lemma dget_ddel_ne k k' d : k <> k' -> dget k' (ddel k d) = dget k' d.
Proof.
  intros Hne. induction d as [|[k0 v0] d IH]; cbn; [done|]. destruct (bool_decide (k0 = k)) eqn:E; cbn.
  - apply bool_decide_eq_true in E as ->. by rewrite decide_False.
  - destruct (decide (k0 = k')); [done|apply IH].
Qed.

Lemma NoDup_dset k v d : NoDup (dkeys d) -> NoDup (dkeys (dset k v d)).
Proof.
  intros H. rewrite dkeys_dset. destruct (din k d) eqn:E; [done|].
  apply not_true_iff_false in E. rewrite din_keys in E.
  apply NoDup_app. split_and!; [done | | apply NoDup_singleton].
  by intros x Hx ->%list_elem_of_singleton.
Qed.

Lemma elem_of_dget k v d : NoDup (dkeys d) -> (k, v) ∈ d -> dget k d = Some v.
Proof.
  unfold dkeys. induction d as [|[k' v'] d IH]; cbn; [set_solver|].
  intros [Hn Hd]%NoDup_cons [Heq|Hin]%elem_of_cons.
  - simplify_eq. by rewrite decide_True.
  - rewrite decide_False; [by apply IH|]. intros ->. apply Hn.
    apply list_elem_of_fmap. by exists (k, v).
Qed.

Lemma elem_of_dset k v k' v' d :
  (k', v') ∈ dset k v d -> (k' = k /\ v' = v) \/ (k', v') ∈ d.
Proof.
  induction d as [|[k0 v0] d IH]; cbn.
  - intros ?%list_elem_of_singleton. naive_solver.
  - case_decide; rewrite !elem_of_cons; [naive_solver|].
    intros [?|?]; [by right; left|]. destruct IH as [?|?]; auto.
Qed.
End Dict.
#[global] Arguments dvalues : simpl never.
#[global] Arguments dkeys : simpl never.
#[global] Arguments dget_or : simpl never.
#[global] Arguments din : simpl never.

(** Sum of a list of rationals (exact; a reference definition for the float sums). *)
Fixpoint Qsum (l : list Q) : Q :=
  match l with [] => 0%Q | x :: l' => (x + Qsum l')%Q end.

Lemma Qsum_app l1 l2 : (Qsum (l1 ++ l2) == Qsum l1 + Qsum l2)%Q.
Proof. induction l1 as [|x l1 IH]; cbn; [ring | rewrite IH; ring]. Qed.

Lemma Qsum_nonneg l : (forall x, x ∈ l -> 0 <= x)%Q -> (0 <= Qsum l)%Q.
Proof.
  induction l as [|x l IH]; cbn; intros H; [lra|].
  pose proof (H x ltac:(set_solver)). specialize (IH ltac:(set_solver)). lra.
Qed.

Lemma Qsum_scale c l : (Qsum (map (fun x => c * x) l) == c * Qsum l)%Q.
Proof. induction l as [|x l IH]; cbn; [ring | rewrite IH; ring]. Qed.

Lemma Qsum_ext {A} (f g : A -> Q) l :
  (forall x, x ∈ l -> f x == g x)%Q -> (Qsum (map f l) == Qsum (map g l))%Q.
Proof.
  induction l as [|x l IH]; cbn; intros H; [lra|].
  rewrite (H x) by set_solver. rewrite IH by set_solver. lra.
Qed.

Lemma Qsum_perm l1 l2 : Permutation l1 l2 -> (Qsum l1 == Qsum l2)%Q.
Proof. induction 1; cbn; lra. Qed.

(** Writing one key of a dict moves the sum of its values by the difference. *)
Lemma Qsum_dset {K} `{EqDecision K} (k : K) (v : Q) (d : list (K * Q)) :
  (Qsum (dvalues (dset k v d)) == Qsum (dvalues d) - dget_or 0 k d + v)%Q.
Proof.
  unfold dvalues, dget_or. induction d as [|[k' v'] d IH]; cbn; [ring|].
  case_decide; cbn; [ring|]. rewrite IH. ring.
Qed.

Lemma Qsum_filter_split {K} (p : K * Q -> bool) (d : list (K * Q)) :
  ((Qsum (dvalues (List.filter p d)) + Qsum (dvalues (List.filter (fun kv => negb (p kv)) d)))
   == Qsum (dvalues d))%Q.
Proof.
  unfold dvalues. induction d as [|kv d IH]; cbn; [lra|].
  destruct (p kv); cbn; lra.
Qed.

(** A loop that writes [d[k] = op(d.get(k, 0), x)] for every item of a list. *)
Section DictFold.
Context {K : Type} `{EqDecision K} {A : Type} (key : A -> K) (op : Q -> A -> Q).

Definition dupd (d : list (K * Q)) (x : A) : list (K * Q) :=
  dset (key x) (op (dget_or 0%Q (key x) d) x) d.

Lemma dupd_fold_other l d k : k ∉ map key l -> dget k (fold_left dupd l d) = dget k d.
Proof.
  revert d; induction l as [|x l IH]; cbn; intros d Hk; [done|].
  rewrite IH by set_solver. apply dget_dset_ne. set_solver.
Qed.

Lemma dupd_fold_at l d x : NoDup (map key l) -> x ∈ l ->
  dget_or 0%Q (key x) (fold_left dupd l d) = op (dget_or 0%Q (key x) d) x.
Proof.
  revert d; induction l as [|y l IH]; cbn; intros d Hnd Hx; [set_solver|].
  apply NoDup_cons in Hnd as [Hy Hnd]. apply elem_of_cons in Hx as [->|Hx].
  - unfold dget_or at 1. rewrite dupd_fold_other by done. unfold dupd. by rewrite dget_dset_eq.
  - rewrite IH by done. unfold dupd at 1. rewrite dget_or_dset_ne; [done|].
    intros E. apply Hy. rewrite E. apply list_elem_of_fmap. by exists x.
Qed.

Lemma dupd_fold_keys l d k : k ∈ dkeys (fold_left dupd l d) <-> k ∈ dkeys d \/ k ∈ map key l.
Proof.
  revert d; induction l as [|x l IH]; cbn; intros d; [set_solver|].
  rewrite IH. unfold dupd. rewrite dkeys_dset. destruct (din (key x) d) eqn:E; [|set_solver].
  apply din_keys in E. set_solver.
Qed.

(** When [op] adds a delta, the sum of the values moves by the deltas. *)
Lemma dupd_fold_sum (delta : A -> Q) l d :
  (forall v x, x ∈ l -> op v x == v + delta x)%Q ->
  (Qsum (dvalues (fold_left dupd l d)) == Qsum (dvalues d) + Qsum (map delta l))%Q.
Proof.
  revert d; induction l as [|x l IH]; cbn; intros d Hop; [lra|].
  rewrite IH by set_solver. unfold dupd. rewrite Qsum_dset, Hop by set_solver. lra.
Qed.
End DictFold.

(** Sum of a list of integers. *)
Section IntegerSums.
Local Open Scope Z_scope.

Fixpoint Zsum (l : list Z) : Z := match l with [] => 0 | x :: l' => x + Zsum l' end.

Lemma Zsum_app l1 l2 : Zsum (l1 ++ l2) = Zsum l1 + Zsum l2.
Proof. induction l1; cbn; lia. Qed.
Lemma Zsum_insert l i x y : l !! i = Some x -> Zsum (<[i := y]> l) = Zsum l - x + y.
Proof.
revert i; induction l as [|z l IH]; intros [|i]; cbn; intros; simplify_eq; [lia|].
rewrite IH by done. lia.
Qed.

Lemma Zsum_dset {K} `{EqDecision K} (k : K) (v : Z) (d : list (K * Z)) :
Zsum (dvalues (dset k v d)) = Zsum (dvalues d) - dget_or 0 k d + v.
Proof.
unfold dvalues, dget_or. induction d as [|[k' v'] d IH]; cbn; [lia|].
case_decide; cbn; lia.
Qed.
End IntegerSums.

(** ** Boolean filters and sorting *)
Lemma filter_all {A} (p : A -> bool) l : (forall x, x ∈ l -> p x = true) -> List.filter p l = l.
Proof. induction l as [|x l IH]; cbn; intros H; [done|]. rewrite H by set_solver. f_equal. apply IH. set_solver. Qed.
Lemma filter_none {A} (p : A -> bool) l : (forall x, x ∈ l -> p x = false) -> List.filter p l = [].
Proof. induction l as [|x l IH]; cbn; intros H; [done|]. rewrite H by set_solver. apply IH. set_solver. Qed.
Lemma filter_filter_bool {A} (p q : A -> bool) l :
  List.filter p (List.filter q l) = List.filter (fun x => q x && p x) l.
Proof. induction l as [|x l IH]; cbn; [done|]. destruct (q x); cbn; [destruct (p x)|]; by rewrite ?IH. Qed.
Lemma filter_map_comm {A B} (f : A -> B) (p : B -> bool) l :
  List.filter p (map f l) = map f (List.filter (fun x => p (f x)) l).
Proof. induction l as [|x l IH]; cbn; [done|]. destruct (p (f x)); cbn; by rewrite IH. Qed.
Lemma NoDup_snd_inj {A B} (l : list (A * B)) a a' b :
  NoDup (map snd l) -> (a, b) ∈ l -> (a', b) ∈ l -> a = a'.
Proof.
  intros Hnd (i & Hi)%list_elem_of_lookup (j & Hj)%list_elem_of_lookup.
  assert (i = j) as ->; [|congruence]. eapply (NoDup_lookup (map snd l)); [done| |].
  - by rewrite list_lookup_fmap, Hi.
  - by rewrite list_lookup_fmap, Hj.
Qed.
(** Filtering by either of two tests that exclude each other. *)
Lemma filter_or_perm {A} (p q : A -> bool) l :
  (forall x, p x = true -> q x = false) ->
  List.filter (fun x => p x || q x) l ≡ₚ List.filter p l ++ List.filter q l.
Proof.
  intros H. induction l as [|x l IH]; cbn; [done|]. specialize (H x).
  destruct (p x); cbn; [rewrite (H eq_refl), IH; done|].
  destruct (q x); [|done]. rewrite IH. apply Permutation_middle.
Qed.
Lemma elem_of_bfilter {A} (f : A -> bool) (l : list A) x :
  x ∈ List.filter f l <-> x ∈ l /\ f x = true.
Proof. rewrite !list_elem_of_In. apply filter_In. Qed.

Lemma bfilter_sublist {A} (f : A -> bool) (l : list A) : List.filter f l `sublist_of` l.
Proof. induction l as [|x l IH]; cbn; [constructor|]. destruct (f x); by constructor. Qed.
Lemma elem_of_rev {A} (l : list A) x : x ∈ rev l <-> x ∈ l.
Proof. rewrite !list_elem_of_In. symmetry. apply in_rev. Qed.

Lemma map_filter_NoDup {A B} (f : A -> B) (p : A -> bool) l :
  NoDup (map f l) -> NoDup (map f (List.filter p l)).
Proof.
  induction l as [|x l IH]; cbn; [done|]. intros [Hn Hd]%NoDup_cons.
  destruct (p x); cbn; [|auto]. apply NoDup_cons. split; [|auto].
  intros (y & Hy & [Hin _]%elem_of_bfilter)%list_elem_of_fmap. apply Hn.
  apply list_elem_of_fmap. eauto.
Qed.

(** [sorted(l, key=...)] is stable: an element is inserted before the first one
    it does not exceed, from the right. *)
Section Sorting.
Context {A : Type} (leb : A -> A -> bool).

Fixpoint psort_insert (x : A) (l : list A) : list A :=
  match l with
  | [] => [x]
  | y :: l' => if leb x y then x :: l else y :: psort_insert x l'
  end.

Definition psort (l : list A) : list A := foldr psort_insert [] l.

Lemma psort_insert_perm x l : psort_insert x l ≡ₚ x :: l.
Proof.
  induction l as [|y l IH]; cbn; [done|]. destruct (leb x y); [done|].
  rewrite IH. apply perm_swap.
Qed.

Lemma psort_perm l : psort l ≡ₚ l.
Proof. induction l as [|x l IH]; cbn; [done|]. by rewrite psort_insert_perm, IH. Qed.

Lemma elem_of_psort x l : x ∈ psort l <-> x ∈ l.
Proof. by rewrite psort_perm. Qed.

Hypothesis leb_total : forall x y, leb x y = true \/ leb y x = true.
Hypothesis leb_trans : forall x y z, leb x y = true -> leb y z = true -> leb x z = true.

Lemma psort_insert_sorted x l :
  StronglySorted (fun a b => leb a b = true) l ->
  StronglySorted (fun a b => leb a b = true) (psort_insert x l).
Proof.
  induction 1 as [|y l Hs IH Hall]; cbn; [by repeat constructor|].
  destruct (leb x y) eqn:E.
  - constructor; [by constructor|]. constructor; [done|].
    eapply Forall_impl; [exact Hall|]. eauto.
  - constructor; [done|]. rewrite psort_insert_perm. constructor; [|done].
    destruct (leb_total x y); [congruence | done].
Qed.

Lemma psort_sorted l : StronglySorted (fun a b => leb a b = true) (psort l).
Proof. induction l; cbn; [constructor | by apply psort_insert_sorted]. Qed.
End Sorting.

(** The order on strings is total, so sorting a set gives one list. *)
Lemma string_leb_trans x y z : String.leb x y = true -> String.leb y z = true -> String.leb x z = true.
Proof.
  unfold String.leb. revert y z. induction x as [|a x IH]; intros [|b y] [|c z]; cbn; try done.
  unfold Ascii.compare. destruct (N.compare_spec (Ascii.N_of_ascii a) (Ascii.N_of_ascii b)) as [E|E|E],
    (N.compare_spec (Ascii.N_of_ascii b) (Ascii.N_of_ascii c)) as [E'|E'|E']; try done;
    destruct (N.compare_spec (Ascii.N_of_ascii a) (Ascii.N_of_ascii c)); try done; try lia. apply IH.
Qed.

Lemma psort_strings_eq l l' : l ≡ₚ l' -> psort String.leb l = psort String.leb l'.
Proof.
  intros Hp. assert (Hs : forall l, StronglySorted (fun a b => String.leb a b = true) (psort String.leb l)).
  { intros k. apply psort_sorted; [apply String.leb_total|apply string_leb_trans]. }
  assert (Hq : psort String.leb l ≡ₚ psort String.leb l') by (by rewrite !psort_perm).
  generalize (Hs l) (Hs l') Hq. generalize (psort String.leb l) (psort String.leb l'). clear.
  intros k k' Hk. revert k'. induction Hk as [|x k Hk IH Hx]; intros k' Hk' Hp.
  { by apply Permutation_nil_l in Hp. }
  destruct Hk' as [|y k' Hk' Hy]; [by symmetry in Hp; apply Permutation_nil_l in Hp|].
  assert (x = y) as ->.
  { apply String.leb_antisym.
    - assert (y ∈ x :: k) as [->|Hin]%elem_of_cons by (rewrite Hp; by apply elem_of_cons; left).
      + destruct (String.leb_total x x); done.
      + rewrite Forall_forall in Hx. by apply Hx.
    - assert (x ∈ y :: k') as [->|Hin]%elem_of_cons by (rewrite <- Hp; by apply elem_of_cons; left).
      + destruct (String.leb_total y y); done.
      + rewrite Forall_forall in Hy. by apply Hy. }
  f_equal. apply IH; [done|]. by apply Permutation_cons_inv in Hp.
Qed.

(** Python's order on (int, str) tuples. *)
Definition pair_leb (a b : Z * string) : bool :=
  (a.1 <? b.1)%Z || ((a.1 =? b.1)%Z && String.leb a.2 b.2).

(** Python's order on (str, str) tuples, and on (bool, str) tuples. *)
Definition string_pair_leb (a b : string * string) : bool :=
  String.ltb a.1 b.1 || (String.eqb a.1 b.1 && String.leb a.2 b.2).
Definition keeper_key_ltb (a b : bool * string) : bool :=
  (negb a.1 && b.1) || (Bool.eqb a.1 b.1 && String.ltb a.2 b.2).

(** ** Grouping
    [defaultdict(list)]: the values of each key, keys in order of appearance. *)
Section Grouping.
Context {K V : Type} `{EqDecision K}.

Definition group_add (d : list (K * list V)) (kv : K * V) : list (K * list V) :=
  dset kv.1 (dget_or [] kv.1 d ++ [kv.2]) d.
Definition group (l : list (K * V)) : list (K * list V) := fold_left group_add l [].

Definition values_of (k : K) (l : list (K * V)) : list V :=
  map snd (List.filter (fun kv => bool_decide (kv.1 = k)) l).

Lemma group_fold_get l d k :
  dget_or [] k (fold_left group_add l d) = dget_or [] k d ++ values_of k l.
Proof.
  revert d. induction l as [|[k' v] l IH]; cbn; intros d; [by rewrite app_nil_r|].
  rewrite IH. unfold group_add. cbn. unfold values_of. cbn. destruct (decide (k' = k)) as [->|Hne].
  - rewrite dget_or_dset_eq, bool_decide_eq_true_2 by done. cbn. by rewrite <- app_assoc.
  - rewrite dget_or_dset_ne, bool_decide_eq_false_2 by done. done.
Qed.

Lemma group_fold_keys l d : NoDup (dkeys d) -> NoDup (dkeys (fold_left group_add l d)).
Proof. revert d. induction l as [|kv l IH]; cbn; intros d H; [done|]. by apply IH, NoDup_dset. Qed.
Lemma group_keys l : NoDup (dkeys (group l)).
Proof. apply group_fold_keys. apply NoDup_nil_2. Qed.

Lemma group_get l k : dget_or [] k (group l) = values_of k l.
Proof. unfold group. by rewrite group_fold_get. Qed.

Lemma elem_of_values_of l k v : v ∈ values_of k l <-> (k, v) ∈ l.
Proof.
  unfold values_of. rewrite list_elem_of_fmap. split.
  - intros ([k' v'] & -> & [Hin Hk%bool_decide_eq_true]%elem_of_bfilter). cbn in Hk. by subst.
  - intros Hin. exists (k, v). split; [done|]. apply elem_of_bfilter. split; [done|by apply bool_decide_eq_true].
Qed.
End Grouping.
