(* ===== verification/Float64.v ===== *)
(** * Floating-point arithmetic of the scoring code

    Python floats are IEEE 754 binary64 values and every operation returns the
    exact result rounded to nearest, ties to even.  The scoring code is written
    here over an interface, [Rounding]: floats are rationals and an operation is
    the exact rational operation followed by [rnd].  Two instances discharge the
    interface: [exact_rounding] (no rounding) and [binary64_rounding] (53-bit
    significand, subnormals, round-half-even; overflow to infinity is outside
    the model, the values are prices, shares and scores of magnitude far below
    2^1023).  Theorems stated for an arbitrary [Rounding] hold of the doubles
    the program computes with; conservation laws are stated for
    [exact_rounding]. *)

From S2P Require Import Prelude.

Local Open Scope Q_scope.

(** ** The interface *)
Class Rounding := {
  rnd : Q -> Q;
  rnd_proper :: Proper (Qeq ==> Qeq) rnd;
  rnd_mono : forall x y, x <= y -> rnd x <= rnd y;
  rnd_idem : forall x, rnd (rnd x) == rnd x;
  rnd_opp : forall x, rnd (- x) == - rnd x;
  (** integers of at most 53 bits are representable *)
  rnd_int : forall n : Z, (Z.abs n <= 2 ^ 53)%Z -> rnd (inject_Z n) == inject_Z n
}.

Section Ops.
Context `{R : Rounding}.

Definition fadd (x y : Q) : Q := rnd (x + y).
Definition fsub (x y : Q) : Q := rnd (x - y).
Definition fmul (x y : Q) : Q := rnd (x * y).
(** Division by a number the code has tested to be positive. *)
Definition fdiv (x y : Q) : Q := rnd (x / y).
(** Division the code does not guard: [ZeroDivisionError] on 0. *)
Definition pydiv (x y : Q) : res Q :=
  if Qeqb y 0 then Raise ZeroDivisionError else Ok (fdiv x y).
(** An int operand of a mixed int/float operation. *)
Definition fint (n : Z) : Q := rnd (inject_Z n).
(** [sum(values)]: left to right from 0 (Python 3.11). *)
Definition fsum (l : list Q) : Q := foldl fadd 0 l.
End Ops.

Declare Scope float_scope.
Delimit Scope float_scope with float.
Infix "⊕" := fadd (at level 50, left associativity) : float_scope.
Infix "⊖" := fsub (at level 50, left associativity) : float_scope.
Infix "⊗" := fmul (at level 40, left associativity) : float_scope.
Infix "⊘" := fdiv (at level 40, left associativity) : float_scope.

Section Laws.
Context `{R : Rounding}.
Local Open Scope float_scope.

#[export] Instance fadd_proper : Proper (Qeq ==> Qeq ==> Qeq) fadd.
Proof. intros x x' Hx y y' Hy. unfold fadd. by rewrite Hx, Hy. Qed.
#[export] Instance fsub_proper : Proper (Qeq ==> Qeq ==> Qeq) fsub.
Proof. intros x x' Hx y y' Hy. unfold fsub. by rewrite Hx, Hy. Qed.
#[export] Instance fmul_proper : Proper (Qeq ==> Qeq ==> Qeq) fmul.
Proof. intros x x' Hx y y' Hy. unfold fmul. by rewrite Hx, Hy. Qed.
#[export] Instance fdiv_proper : Proper (Qeq ==> Qeq ==> Qeq) fdiv.
Proof. intros x x' Hx y y' Hy. unfold fdiv. by rewrite Hx, Hy. Qed.

Lemma rnd_0 : rnd 0 == 0.
Proof. apply (rnd_int 0). done. Qed.
Lemma rnd_1 : rnd 1 == 1.
Proof. apply (rnd_int 1). done. Qed.

Lemma rnd_nonneg x : 0 <= x -> 0 <= rnd x.
Proof. intros H. rewrite <- rnd_0. by apply rnd_mono. Qed.
Lemma rnd_nonpos x : x <= 0 -> rnd x <= 0.
Proof. intros H. rewrite <- rnd_0. by apply rnd_mono. Qed.
Lemma rnd_le_1 x : x <= 1 -> rnd x <= 1.
Proof. intros H. rewrite <- rnd_1. by apply rnd_mono. Qed.

Lemma rnd_le_rnd x y : x <= rnd y -> rnd x <= rnd y.
Proof. intros H. rewrite <- (rnd_idem y). by apply rnd_mono. Qed.
Lemma rnd_ge_rnd x y : rnd x <= y -> rnd x <= rnd y.
Proof. intros H. rewrite <- (rnd_idem x). by apply rnd_mono. Qed.

Lemma fadd_nonneg x y : 0 <= x -> 0 <= y -> 0 <= x ⊕ y.
Proof. intros. apply rnd_nonneg. lra. Qed.
Lemma fsub_nonneg x y : y <= x -> 0 <= x ⊖ y.
Proof. intros. apply rnd_nonneg. lra. Qed.
Lemma fmul_nonneg x y : 0 <= x -> 0 <= y -> 0 <= x ⊗ y.
Proof. intros. apply rnd_nonneg. nra. Qed.
Lemma fdiv_nonneg x y : 0 <= x -> 0 <= y -> 0 <= x ⊘ y.
Proof.
  intros. apply rnd_nonneg. unfold Qdiv. apply Qmult_le_0_compat; [done|].
  by apply Qinv_le_0_compat.
Qed.
Lemma fint_nonneg n : (0 <= n)%Z -> 0 <= fint n.
Proof. intros. apply rnd_nonneg. change 0 with (inject_Z 0). by rewrite <- Zle_Qle. Qed.
Lemma fsum_acc_nonneg l a : (forall x, x ∈ l -> 0 <= x) -> 0 <= a -> 0 <= foldl fadd a l.
Proof.
  revert a. induction l as [|x l IH]; cbn; intros a Hl Ha; [done|].
  apply IH; [set_solver|]. apply fadd_nonneg; [done | set_solver].
Qed.
Lemma fsum_nonneg l : (forall x, x ∈ l -> 0 <= x) -> 0 <= fsum l.
Proof. intros. apply fsum_acc_nonneg; [done | lra]. Qed.

Lemma fmul_0_l x : 0 ⊗ x == 0.
Proof. unfold fmul. rewrite Qmult_0_l. apply rnd_0. Qed.
Lemma fmul_0_r x : x ⊗ 0 == 0.
Proof. unfold fmul. rewrite Qmult_0_r. apply rnd_0. Qed.
Lemma fdiv_0_l x : 0 ⊘ x == 0.
Proof. unfold fdiv, Qdiv. rewrite Qmult_0_l. apply rnd_0. Qed.

(** Scaling by a factor in [0,1] does not increase a float. *)
Lemma fmul_le_l x y : 0 <= rnd x -> y <= 1 -> 0 <= y -> rnd x ⊗ y <= rnd x.
Proof. intros. apply rnd_le_rnd. nra. Qed.

Lemma fmul_mono x y x' y' : 0 <= x -> 0 <= y -> x <= x' -> y <= y' -> x ⊗ y <= x' ⊗ y'.
Proof. intros. apply rnd_mono. nra. Qed.
Lemma fadd_mono x y x' y' : x <= x' -> y <= y' -> x ⊕ y <= x' ⊕ y'.
Proof. intros. apply rnd_mono. lra. Qed.
End Laws.

#[export] Hint Resolve rnd_nonneg fadd_nonneg fsub_nonneg fmul_nonneg fdiv_nonneg
  fint_nonneg fsum_nonneg : pyq.

(** ** Exact arithmetic *)
Definition exact_rounding : Rounding.
Proof. by refine {| rnd := fun x => x |}. Defined.

Lemma rnd_exact x : @rnd exact_rounding x = x.
Proof. done. Qed.

(** Read the float operations of exact arithmetic as those of [Q]. *)
Ltac exactify := unfold fadd, fsub, fmul, fdiv, fint in *; rewrite ?rnd_exact in *.

Lemma foldl_exact (l : list Q) a : (foldl (@fadd exact_rounding) a l == a + Qsum l)%Q.
Proof. revert a; induction l as [|x l IH]; cbn; intros a; [lra|]. rewrite IH. exactify. lra. Qed.
Lemma fsum_exact (l : list Q) : (@fsum exact_rounding l == Qsum l)%Q.
Proof. unfold fsum. rewrite foldl_exact. lra. Qed.

(** ** binary64 *)
Module Binary64.
Definition pow2 (e : Z) : Q := Qpower 2 e.

Lemma pow2_pos e : 0 < pow2 e.
Proof. apply Qpower_0_lt. lra. Qed.
Lemma pow2_plus a b : pow2 (a + b) == pow2 a * pow2 b.
Proof. apply Qpower_plus. lra. Qed.
Lemma pow2_mono a b : (a <= b)%Z -> pow2 a <= pow2 b.
Proof. intros. apply Qpower_le_compat_l; [done | lra]. Qed.
Lemma pow2_lt_inv a b : pow2 a < pow2 b -> (a < b)%Z.
Proof. intros. by apply Qpower_lt_compat_l_inv with 2. Qed.
Lemma pow2_Z e : (0 <= e)%Z -> pow2 e == inject_Z (2 ^ e).
Proof. intros. symmetry. by apply Zpower_Qpower. Qed.

(** Round to the nearest integer, ties to even (Python's [round(x)]). *)
Definition rhe (x : Q) : Z :=
  let f := Qfloor x in
  let r := x - inject_Z f in
  if Qltb r (1 # 2) then f
  else if Qltb (1 # 2) r then (f + 1)%Z
  else if Z.even f then f else (f + 1)%Z.

Lemma rhe_floor x : rhe x = Qfloor x \/ rhe x = (Qfloor x + 1)%Z.
Proof.
  unfold rhe. destruct (Qltb _ _); [by left|]. destruct (Qltb _ _); [by right|].
  destruct (Z.even _); [by left | by right].
Qed.

#[global] Instance rhe_proper : Proper (Qeq ==> eq) rhe.
Proof.
  intros x y H. unfold rhe.
  assert (Qfloor x = Qfloor y) as -> by (by apply Qfloor_comp).
  assert (x - inject_Z (Qfloor y) == y - inject_Z (Qfloor y)) as E by lra.
  by rewrite !E.
Qed.

Lemma Qfloor_unique x n : inject_Z n <= x -> x < inject_Z (n + 1) -> Qfloor x = n.
Proof.
  intros H1 H2. pose proof (Qfloor_le x). pose proof (Qlt_floor x).
  apply Qfloor_resp_le in H1. rewrite Qfloor_Z in H1.
  assert (inject_Z (Qfloor x) < inject_Z (n + 1)) as H4 by (eapply Qle_lt_trans; eauto).
  rewrite <- Zlt_Qlt in H4. lia.
Qed.

Lemma rhe_mono x y : x <= y -> (rhe x <= rhe y)%Z.
Proof.
  intros H. pose proof (Qfloor_resp_le _ _ H) as Hf.
  destruct (Z.lt_ge_cases (Qfloor x) (Qfloor y)).
  { destruct (rhe_floor x), (rhe_floor y); lia. }
  assert (Qfloor y = Qfloor x) as E by lia. unfold rhe. rewrite E.
  set (f := Qfloor x).
  qsplit; destruct (Z.even f); try lia; lra.
Qed.

Lemma rhe_Z n : rhe (inject_Z n) = n.
Proof.
  unfold rhe. rewrite Qfloor_Z.
  qcase (inject_Z n - inject_Z n) (1 # 2) H; [done | lra].
Qed.

(** Exponent of the leading bit of a positive rational. *)
Definition Qlog2 (x : Q) : Z :=
  let e := (Z.log2 (Qnum x) - Z.log2 (Zpos (Qden x)))%Z in
  if Qleb (pow2 e) x then e else (e - 1)%Z.

Lemma Qlog2_spec x : 0 < x -> pow2 (Qlog2 x) <= x /\ x < pow2 (Qlog2 x + 1).
Proof.
  intros Hx. destruct x as [n d].
  assert (0 < n)%Z as Hn by (unfold Qlt in Hx; cbn in Hx; lia).
  pose proof (Z.log2_spec n Hn) as [N1 N2].
  pose proof (Z.log2_spec (Zpos d) ltac:(lia)) as [D1 D2].
  unfold Qlog2; cbn [Qnum Qden].
  set (a := Z.log2 n) in *. set (b := Z.log2 (Zpos d)) in *.
  assert (0 <= a)%Z by apply Z.log2_nonneg. assert (0 <= b)%Z by apply Z.log2_nonneg.
  assert (forall e, pow2 e * inject_Z (Zpos d) <= inject_Z n -> pow2 e <= n # d) as Hle.
  { intros e He. rewrite (Qmake_Qdiv n d). apply Qle_shift_div_l; [done | done]. }
  assert (forall e, inject_Z n < pow2 e * inject_Z (Zpos d) -> n # d < pow2 e) as Hlt.
  { intros e He. rewrite (Qmake_Qdiv n d). apply Qlt_shift_div_r; [done | done]. }
  rewrite Zle_Qle in N1, D1. rewrite Zlt_Qlt in N2, D2.
  rewrite <- pow2_Z in N1, N2, D1, D2 by lia.
  pose proof (pow2_pos (a - b)) as P. pose proof (pow2_pos (a - b - 1)) as P1.
  assert (pow2 (a - b + 1) * inject_Z (Zpos d) > inject_Z n) as U.
  { apply Qlt_le_trans with (pow2 (Z.succ a)); [done|].
    replace (Z.succ a) with ((a - b + 1) + b)%Z by lia. rewrite pow2_plus.
    pose proof (pow2_pos (a - b + 1)). nra. }
  assert (pow2 (a - b - 1) * inject_Z (Zpos d) <= inject_Z n) as L.
  { apply Qle_trans with (pow2 a); [|done].
    replace a with ((a - b - 1) + Z.succ b)%Z at 2 by lia. rewrite pow2_plus.
    nra. }
  qcase (pow2 (a - b)) (n # d) E; [split; [done | by apply Hlt] |].
  split; [by apply Hle|]. by replace (a - b - 1 + 1)%Z with (a - b)%Z by lia.
Qed.

Lemma Qlog2_mono x y : 0 < x -> x <= y -> (Qlog2 x <= Qlog2 y)%Z.
Proof.
  intros Hx H. destruct (Qlog2_spec x Hx) as [A _].
  destruct (Qlog2_spec y ltac:(lra)) as [_ B].
  assert (Qlog2 x < Qlog2 y + 1)%Z; [apply pow2_lt_inv; lra | lia].
Qed.

Lemma Qlog2_unique x y : 0 < x -> x == y -> Qlog2 x = Qlog2 y.
Proof. intros. apply Z.le_antisymm; apply Qlog2_mono; lra. Qed.

(** Exponent of the unit in the last place: 52 bits below the leading bit, or
    the fixed exponent of the subnormal range. *)
Definition ulp_exp (x : Q) : Z := (Z.max (Qlog2 x) (-1022) - 52)%Z.

Definition rpos (x : Q) : Q :=
  let u := pow2 (ulp_exp x) in Qred (inject_Z (rhe (x / u)) * u).

Definition round (x : Q) : Q :=
  if Qltb 0 x then rpos x
  else if Qltb x 0 then Qred (- rpos (- x))
  else 0.

Lemma ulp_exp_eq x y : 0 < x -> x == y -> ulp_exp x = ulp_exp y.
Proof. intros. unfold ulp_exp. by rewrite (Qlog2_unique x y). Qed.

Lemma rpos_eq x : rpos x == inject_Z (rhe (x / pow2 (ulp_exp x))) * pow2 (ulp_exp x).
Proof. apply Qred_correct. Qed.

Lemma div_pow2_le x y e : x <= y -> x / pow2 e <= y / pow2 e.
Proof.
  intros. unfold Qdiv. apply Qmult_le_compat_r; [done|].
  apply Qlt_le_weak, Qinv_lt_0_compat, pow2_pos.
Qed.

(** At most 53 significant bits: the value is below the next binade. *)
Lemma rpos_upper x : 0 < x -> rpos x <= pow2 (ulp_exp x + 53).
Proof.
  intros Hx. destruct (Qlog2_spec x Hx) as [_ U].
  rewrite rpos_eq, Z.add_comm, pow2_plus.
  assert (rhe (x / pow2 (ulp_exp x)) <= 2 ^ 53)%Z as H.
  { rewrite <- (rhe_Z (2 ^ 53)). apply rhe_mono. rewrite <- pow2_Z by lia.
    apply Qle_shift_div_r; [apply pow2_pos|]. rewrite <- pow2_plus.
    apply Qle_trans with (pow2 (Qlog2 x + 1)); [lra|]. apply pow2_mono.
    unfold ulp_exp. lia. }
  rewrite Zle_Qle, <- pow2_Z in H by lia. pose proof (pow2_pos (ulp_exp x)). nra.
Qed.

Lemma rpos_lower x : 0 < x -> (-1022 <= Qlog2 x)%Z -> pow2 (Qlog2 x) <= rpos x.
Proof.
  intros Hx He. destruct (Qlog2_spec x Hx) as [L _]. rewrite rpos_eq.
  assert (ulp_exp x = Qlog2 x - 52)%Z as E by (unfold ulp_exp; lia). rewrite E.
  assert (2 ^ 52 <= rhe (x / pow2 (Qlog2 x - 52)))%Z as H.
  { rewrite <- (rhe_Z (2 ^ 52)). apply rhe_mono. rewrite <- pow2_Z by lia.
    apply Qle_shift_div_l; [apply pow2_pos|]. rewrite <- pow2_plus.
    by replace (52 + (Qlog2 x - 52))%Z with (Qlog2 x) by lia. }
  rewrite Zle_Qle, <- pow2_Z in H by lia. pose proof (pow2_pos (Qlog2 x - 52)).
  replace (Qlog2 x) with (52 + (Qlog2 x - 52))%Z at 1 by lia. rewrite pow2_plus. nra.
Qed.

Lemma rpos_mono x y : 0 < x -> x <= y -> rpos x <= rpos y.
Proof.
  intros Hx H. pose proof (Qlog2_mono x y Hx H) as Hlog.
  destruct (Z.eq_dec (ulp_exp x) (ulp_exp y)) as [E|E].
  - rewrite !rpos_eq, E. pose proof (pow2_pos (ulp_exp y)).
    pose proof (rhe_mono _ _ (div_pow2_le x y (ulp_exp y) H)) as Hr.
    rewrite Zle_Qle in Hr. nra.
  - apply Qle_trans with (pow2 (ulp_exp x + 53)); [by apply rpos_upper|].
    apply Qle_trans with (pow2 (Qlog2 y)); [|apply rpos_lower; [lra | unfold ulp_exp in *; lia]].
    apply pow2_mono. unfold ulp_exp in *. lia.
Qed.

Lemma rpos_nonneg x : 0 < x -> 0 <= rpos x.
Proof.
  intros Hx. rewrite rpos_eq. pose proof (pow2_pos (ulp_exp x)) as P.
  assert (0 <= rhe (x / pow2 (ulp_exp x)))%Z as H.
  { rewrite <- (rhe_Z 0). apply rhe_mono. apply Qle_shift_div_l; [done|].
    change (inject_Z 0) with 0. lra. }
  rewrite Zle_Qle in H. change (inject_Z 0) with 0 in H. nra.
Qed.

#[global] Instance round_proper : Proper (Qeq ==> Qeq) round.
Proof.
  intros x y H. unfold round. qsplit; rewrite ?Qred_correct; try lra; try done.
  - apply Qle_antisym; apply rpos_mono; lra.
  - apply Qopp_comp, Qle_antisym; apply rpos_mono; lra.
Qed.

Lemma round_mono x y : x <= y -> round x <= round y.
Proof.
  intros H. unfold round. qsplit; rewrite ?Qred_correct; try lra.
  - by apply rpos_mono.
  - pose proof (rpos_nonneg y ltac:(done)). pose proof (rpos_nonneg (- x) ltac:(lra)). lra.
  - pose proof (rpos_mono (- y) (- x) ltac:(lra) ltac:(lra)). lra.
  - pose proof (rpos_nonneg (- x) ltac:(lra)). lra.
  - by apply rpos_nonneg.
Qed.

Lemma round_opp x : round (- x) == - round x.
Proof.
  unfold round. qsplit; rewrite ?Qred_correct; try lra.
  assert (rpos (- - x) == rpos x) as ->; [|done].
  apply Qle_antisym; apply rpos_mono; lra.
Qed.

(** Values with at most 53 significant bits and exponent at least -1074 are
    not changed by rounding. *)
Lemma rpos_representable m k :
  (0 < m <= 2 ^ 53)%Z -> (-1074 <= k)%Z -> rpos (inject_Z m * pow2 k) == inject_Z m * pow2 k.
Proof.
  intros Hm Hk. set (x := inject_Z m * pow2 k). pose proof (pow2_pos k) as Pk.
  assert (0 < inject_Z m) as Pm by (change 0 with (inject_Z 0); rewrite <- Zlt_Qlt; lia).
  assert (0 < x) as Hx by (unfold x; nra).
  destruct (Qlog2_spec x Hx) as [L _].
  assert (exists n, x / pow2 (ulp_exp x) == inject_Z n) as (n & Hn).
  { assert (forall e, x / pow2 e == inject_Z m * pow2 (k - e)) as Hdiv.
    { intros e. unfold x. pose proof (pow2_pos e).
      replace k with ((k - e) + e)%Z at 1 by lia. rewrite pow2_plus. field. lra. }
    destruct (Z.le_gt_cases (ulp_exp x) k) as [C|C].
    - exists (m * 2 ^ (k - ulp_exp x))%Z. rewrite Hdiv, pow2_Z by lia.
      by rewrite inject_Z_mult.
    - assert (pow2 (Qlog2 x) < pow2 (54 + k)) as B.
      { apply Qle_lt_trans with x; [done|]. rewrite pow2_plus. unfold x.
        destruct Hm as [_ Hm]. rewrite Zle_Qle in Hm.
        assert (inject_Z (2 ^ 53) < pow2 54) by done. nra. }
      apply pow2_lt_inv in B.
      assert (ulp_exp x = k + 1)%Z as E by (unfold ulp_exp in *; lia).
      assert (Qlog2 x = 53 + k)%Z as E2 by (unfold ulp_exp in *; lia).
      assert (m = 2 ^ 53)%Z as ->.
      { apply Z.le_antisymm; [lia|]. rewrite E2, pow2_plus in L. unfold x in L.
        rewrite Zle_Qle. change (inject_Z (2 ^ 53)) with (pow2 53). nra. }
      exists (2 ^ 52)%Z. rewrite Hdiv, E. by replace (k - (k + 1))%Z with (-1)%Z by lia. }
  rewrite rpos_eq, Hn, rhe_Z, <- Hn. field. pose proof (pow2_pos (ulp_exp x)). lra.
Qed.

Lemma rpos_idem x : 0 < x -> 0 < rpos x -> rpos (rpos x) == rpos x.
Proof.
  intros Hx Hp.
  set (m := rhe (x / pow2 (ulp_exp x))). set (k := ulp_exp x).
  assert (rpos x == inject_Z m * pow2 k) as E by apply rpos_eq.
  assert (rpos (rpos x) == rpos (inject_Z m * pow2 k)) as ->.
  { apply Qle_antisym; apply rpos_mono; lra. }
  rewrite rpos_representable; [done| |unfold k, ulp_exp; lia].
  pose proof (pow2_pos k). pose proof (rpos_upper x Hx) as U. fold k in U.
  rewrite Z.add_comm, pow2_plus, E in U. split.
  - rewrite Zlt_Qlt. change (inject_Z 0) with 0. rewrite E in Hp. nra.
  - rewrite Zle_Qle. change (inject_Z (2 ^ 53)) with (pow2 53). nra.
Qed.

Lemma round_idem x : round (round x) == round x.
Proof.
  assert (forall y, 0 < y -> round (rpos y) == rpos y) as Hpos.
  { intros y Hy. pose proof (rpos_nonneg y Hy). unfold round. qsplit; [|lra|lra].
    by apply rpos_idem. }
  unfold round at 2 3. qsplit; [by apply Hpos | | done].
  rewrite Qred_correct, round_opp, Hpos by lra. done.
Qed.

Lemma round_int n : (Z.abs n <= 2 ^ 53)%Z -> round (inject_Z n) == inject_Z n.
Proof.
  intros Hn. assert (forall m, (0 < m <= 2 ^ 53)%Z -> rpos (inject_Z m) == inject_Z m) as Hp.
  { intros m Hm. assert (0 < inject_Z m) by (change 0 with (inject_Z 0); rewrite <- Zlt_Qlt; lia).
    assert (inject_Z m == inject_Z m * pow2 0) as E by (change (pow2 0) with 1; ring).
    transitivity (rpos (inject_Z m * pow2 0)).
    - apply Qle_antisym; apply rpos_mono; lra.
    - rewrite rpos_representable by lia. by symmetry. }
  destruct (Z.lt_trichotomy n 0) as [H|[->|H]].
  - replace n with (- - n)%Z by lia. rewrite inject_Z_opp, round_opp.
    apply Qopp_comp. unfold round.
    assert (0 < inject_Z (- n)) as P by (change 0 with (inject_Z 0); rewrite <- Zlt_Qlt; lia).
    apply Qltb_lt in P. rewrite P. apply Hp. lia.
  - done.
  - unfold round. assert (0 < inject_Z n) as P
      by (change 0 with (inject_Z 0); rewrite <- Zlt_Qlt; lia).
    apply Qltb_lt in P. rewrite P. apply Hp. lia.
Qed.
End Binary64.

Definition binary64_rounding : Rounding := {|
  rnd := Binary64.round;
  rnd_proper := Binary64.round_proper;
  rnd_mono := Binary64.round_mono;
  rnd_idem := Binary64.round_idem;
  rnd_opp := Binary64.round_opp;
  rnd_int := Binary64.round_int
|}.

(** The literal 0.1 + 0.2 of Python: 0.30000000000000004 = 1351079888211149 / 2^52. *)
Example binary64_point_three :
  @fadd binary64_rounding (@rnd binary64_rounding (1 # 10)) (@rnd binary64_rounding (2 # 10))
  = (1351079888211149 # 4503599627370496).
Proof. vm_compute. reflexivity. Qed.
