(* ===== verification/PyValue.v ===== *)
(** * Python values read from untrusted input

    The validator judges JSON that the provider's own machine wrote (the scrape,
    [JobResult.spec]), so the code meets values of any JSON type.  This file
    models those values and the conversions the scoring code applies to them:
    truthiness, [dict.get], [int(s)], [int(s, 16)], [float(x)], [str.strip] and
    [str.split].  Strings are ASCII: Python also accepts Unicode digits and
    spaces in numbers, which are outside the model. *)

From Stdlib Require Import Ascii String.
From S2P Require Import Prelude Float64.

Local Open Scope Z_scope.

(** ** Text *)
Module Text.
Definition chars (s : string) : list ascii := list_ascii_of_string s.
Definition of_chars (l : list ascii) : string := string_of_list_ascii l.
Definition code (c : ascii) : Z := Z.of_nat (nat_of_ascii c).

Definition is_space (c : ascii) : bool :=
  ((9 <=? code c) && (code c <=? 13)) || ((28 <=? code c) && (code c <=? 32)).

Fixpoint lstrip (l : list ascii) : list ascii :=
  match l with
  | [] => []
  | c :: l' => if is_space c then lstrip l' else l
  end.
Definition strip_chars (l : list ascii) : list ascii := rev (lstrip (rev (lstrip l))).
(** [s.strip()] *)
Definition strip (s : string) : string := of_chars (strip_chars (chars s)).

(** [s.split(sep)] for a one-character separator: always at least one part. *)
Fixpoint split_chars (sep : ascii) (l : list ascii) : list (list ascii) :=
  match l with
  | [] => [[]]
  | c :: l' =>
      if Ascii.eqb c sep then [] :: split_chars sep l'
      else match split_chars sep l' with
           | [] => [[c]]
           | p :: ps => (c :: p) :: ps
           end
  end.
Definition split (sep : ascii) (s : string) : list string :=
  map of_chars (split_chars sep (chars s)).

Definition lower_char (c : ascii) : ascii :=
  if (65 <=? code c) && (code c <=? 90) then ascii_of_nat (Z.to_nat (code c + 32)) else c.
(** [s.lower()] *)
Definition lower (s : string) : string := of_chars (map lower_char (chars s)).

Definition digit_val (c : ascii) : option Z :=
  let n := code c in
  if (48 <=? n) && (n <=? 57) then Some (n - 48)
  else if (97 <=? n) && (n <=? 122) then Some (n - 87)
  else if (65 <=? n) && (n <=? 90) then Some (n - 55)
  else None.

(** Digits of a base; a single underscore is allowed between two digits. *)
Fixpoint digits_aux (base acc : Z) (after_digit : bool) (l : list ascii) : option Z :=
  match l with
  | [] => if after_digit then Some acc else None
  | c :: l' =>
      if Ascii.eqb c "_" then if after_digit then digits_aux base acc false l' else None
      else match digit_val c with
           | Some d => if d <? base then digits_aux base (acc * base + d) true l' else None
           | None => None
           end
  end.

Definition sign_of (l : list ascii) : bool * list ascii :=
  match l with
  | c :: l' => if Ascii.eqb c "-" then (true, l')
               else if Ascii.eqb c "+" then (false, l') else (false, l)
  | [] => (false, [])
  end.
Definition apply_sign (neg : bool) (n : Z) : Z := if neg then - n else n.

Definition count_digits (l : list ascii) : Z :=
  Z.of_nat (List.length (List.filter (fun c => negb (Ascii.eqb c "_")) l)).

(** [int(s)]: [None] is [ValueError] (also above Python's 4300-digit limit). *)
Definition py_int (s : string) : option Z :=
  let '(neg, l) := sign_of (strip_chars (chars s)) in
  if 4300 <? count_digits l then None
  else apply_sign neg <$> digits_aux 10 0 false l.

(** [int(s, 16)]: an optional [0x] prefix, no digit limit. *)
Definition py_int16 (s : string) : option Z :=
  let '(neg, l) := sign_of (strip_chars (chars s)) in
  let '(l1, prefixed) :=
    match l with
    | z :: x :: l' =>
        if Ascii.eqb z "0" && (Ascii.eqb x "x" || Ascii.eqb x "X") then (l', true) else (l, false)
    | _ => (l, false)
    end in
  let l2 := match l1 with
            | c :: l' => if prefixed && Ascii.eqb c "_" then l' else l1
            | [] => l1
            end in
  apply_sign neg <$> digits_aux 16 0 false l2.

(** [str(n)] *)
Fixpoint uint_chars (d : Decimal.uint) : list ascii :=
  match d with
  | Decimal.Nil => []
  | Decimal.D0 d => "0"%char :: uint_chars d
  | Decimal.D1 d => "1"%char :: uint_chars d
  | Decimal.D2 d => "2"%char :: uint_chars d
  | Decimal.D3 d => "3"%char :: uint_chars d
  | Decimal.D4 d => "4"%char :: uint_chars d
  | Decimal.D5 d => "5"%char :: uint_chars d
  | Decimal.D6 d => "6"%char :: uint_chars d
  | Decimal.D7 d => "7"%char :: uint_chars d
  | Decimal.D8 d => "8"%char :: uint_chars d
  | Decimal.D9 d => "9"%char :: uint_chars d
  end.
Definition str_of_Z (z : Z) : string :=
  of_chars (match Z.to_int z with
            | Decimal.Pos d => uint_chars d
            | Decimal.Neg d => "-"%char :: uint_chars d
            end).

Definition is_digit (c : ascii) : bool := (48 <=? code c) && (code c <=? 57).

(** Underscores of a float literal must stand between two digits. *)
Fixpoint drop_underscores (prev_digit : bool) (l : list ascii) : option (list ascii) :=
  match l with
  | [] => Some []
  | c :: l' =>
      if Ascii.eqb c "_" then
        match l' with
        | d :: _ => if prev_digit && is_digit d then drop_underscores false l' else None
        | [] => None
        end
      else cons c <$> drop_underscores (is_digit c) l'
  end.

Fixpoint span_digits (l : list ascii) : list ascii * list ascii :=
  match l with
  | [] => ([], [])
  | c :: l' => if is_digit c then let '(a, b) := span_digits l' in (c :: a, b) else ([], l)
  end.

Definition plain_digits (l : list ascii) : Z :=
  fold_left (fun acc c => acc * 10 + (code c - 48)) l 0.

(** The decimal value of an unsigned finite literal, exactly. *)
Definition decimal (l : list ascii) : option Q :=
  let '(ip, r) := span_digits l in
  let '(fp, r2) := match r with
                   | c :: r' => if Ascii.eqb c "." then span_digits r' else ([], r)
                   | [] => ([], [])
                   end in
  if (length ip + length fp =? 0)%nat then None
  else
    let m := plain_digits (ip ++ fp) in
    let e0 := - Z.of_nat (length fp) in
    match r2 with
    | [] => Some (inject_Z m * Qpower (inject_Z 10) e0)%Q
    | c :: r3 =>
        if Ascii.eqb (lower_char c) "e" then
          let '(neg, r4) := sign_of r3 in
          let '(ep, r5) := span_digits r4 in
          match r5, ep with
          | [], _ :: _ =>
              Some (inject_Z m * Qpower (inject_Z 10) (e0 + apply_sign neg (plain_digits ep)))%Q
          | _, _ => None
          end
        else None
    end.
End Text.

(** ** Floats with the IEEE special values *)
Inductive num :=
| Fin (q : Q)
| Inf (neg : bool)
| NaN.

Section Num.
Context `{R : Rounding}.

(** The double nearest to an exact value; infinity from 2^1024 on. *)
Definition num_of (q : Q) : num :=
  let r := rnd q in
  if Qleb (inject_Z (2 ^ 1024)) r then Inf false
  else if Qleb r (inject_Z (- 2 ^ 1024)) then Inf true
  else Fin r.

Definition num_add (x y : num) : num :=
  match x, y with
  | Fin a, Fin b => num_of (a + b)%Q
  | NaN, _ | _, NaN => NaN
  | Inf s, Inf t => if Bool.eqb s t then Inf s else NaN
  | Inf s, Fin _ => Inf s
  | Fin _, Inf t => Inf t
  end.

(** Multiplication and division by a positive finite constant. *)
Definition num_scale (c : Q) (x : num) : num :=
  match x with Fin a => num_of (a * c)%Q | Inf s => Inf s | NaN => NaN end.
Definition num_div_by (c : Q) (x : num) : num :=
  match x with Fin a => num_of (a / c)%Q | Inf s => Inf s | NaN => NaN end.

(** [x <= y]; every comparison with NaN is false. *)
Definition num_le (x y : num) : bool :=
  match x, y with
  | NaN, _ | _, NaN => false
  | Fin a, Fin b => Qleb a b
  | Inf true, _ => true
  | _, Inf false => true
  | Inf false, _ => false
  | Fin _, Inf true => false
  end.

(** [round(x, n)]: the nearest number of n decimals, ties to even, as a double. *)
Definition num_round (n : Z) (x : num) : num :=
  match x with
  | Fin a => num_of (inject_Z (Binary64.rhe (a * inject_Z (10 ^ n))) / inject_Z (10 ^ n))%Q
  | _ => x
  end.
Definition num_round1 (x : num) : num := num_round 1 x.

(** [float(s)] of a string: [None] is [ValueError]. *)
Definition float_of_str (s : string) : option num :=
  let '(neg, l) := Text.sign_of (Text.strip_chars (Text.chars s)) in
  let w := Text.of_chars (map Text.lower_char l) in
  if decide (w = "inf" \/ w = "infinity")%string then Some (Inf neg)
  else if decide (w = "nan")%string then Some NaN
  else
    l' ← Text.drop_underscores false l;
    q ← Text.decimal l';
    Some (num_of (if neg then - q else q)%Q).
End Num.

(** ** JSON *)
Inductive json :=
| JNull
| JBool (b : bool)
| JInt (z : Z)
| JFloat (x : num)
| JStr (s : string)
| JList (l : list json)
| JObj (d : list (string * json)).

#[export] Instance Q_eq_dec : EqDecision Q.
Proof. solve_decision. Defined.
#[export] Instance num_eq_dec : EqDecision num.
Proof. solve_decision. Defined.
Definition json_eq_dec : forall v w : json, Decision (v = w).
Proof.
  fix IH 1. intros v w. unfold Decision. destruct v as [|b|z|x|s|l|d], w as [|b'|z'|x'|s'|m|e];
    try (by left); try (right; discriminate).
  - destruct (decide (b = b')) as [->|]; [by left|right; congruence].
  - destruct (decide (z = z')) as [->|]; [by left|right; congruence].
  - destruct (decide (x = x')) as [->|]; [by left|right; congruence].
  - destruct (decide (s = s')) as [->|]; [by left|right; congruence].
  - assert (Decision (l = m)) as [->|]; [|by left|right; congruence].
    revert m. induction l as [|v l IHl]; intros [|w m]; [by left|by right|by right|].
    destruct (IH v w) as [->|]; [|right; congruence]. destruct (IHl m) as [->|]; [by left|right; congruence].
  - assert (Decision (d = e)) as [->|]; [|by left|right; congruence].
    revert e. induction d as [|[k v] d IHd]; intros [|[k' w] e]; [by left|by right|by right|].
    destruct (decide (k = k')) as [->|]; [|right; congruence].
    destruct (IH v w) as [->|]; [|right; congruence]. destruct (IHd e) as [->|]; [by left|right; congruence].
Defined.
#[export] Instance json_eq_decision : EqDecision json := json_eq_dec.

Definition num_truthy (x : num) : bool :=
  match x with Fin q => negb (Qeqb q 0) | _ => true end.

(** [bool(v)] *)
Definition truthy (v : json) : bool :=
  match v with
  | JNull => false
  | JBool b => b
  | JInt z => negb (z =? 0)
  | JFloat x => num_truthy x
  | JStr s => negb (String.eqb s "")
  | JList l => match l with [] => false | _ => true end
  | JObj d => match d with [] => false | _ => true end
  end.

(** [v or w] *)
Definition py_or (v w : json) : json := if truthy v then v else w.

(** [v.get(k)]: only a dict has [get]. *)
Definition jget (k : string) (v : json) : res json :=
  match v with
  | JObj d => Ok (dget_or JNull k d)
  | _ => Raise AttributeError
  end.

(** [for x in v]: a dict iterates over its keys, a string over its characters. *)
Definition jiter (v : json) : res (list json) :=
  match v with
  | JList l => Ok l
  | JObj d => Ok (map (fun kv => JStr kv.1) d)
  | JStr s => Ok (map (fun c => JStr (String c EmptyString)) (Text.chars s))
  | _ => Raise TypeError
  end.

(** [isinstance(v, int) and not isinstance(v, bool)] and its value. *)
Definition strict_int (v : json) : option Z :=
  match v with JInt z => Some z | _ => None end.

(** The value of a number or a bool. *)
Definition scalar_num (v : json) : option Q :=
  match v with
  | JBool b => Some (if b then 1 else 0)%Q
  | JInt z => Some (inject_Z z)
  | JFloat (Fin q) => Some q
  | _ => None
  end.

(** [v == w]: numbers by value whatever their type, dicts whatever their order.
    (NaN, equal to itself only as the same object, is equal to nothing here.) *)
Fixpoint json_eqb (v w : json) {struct v} : bool :=
  match v, w with
  | JNull, JNull => true
  | JStr s, JStr t => String.eqb s t
  | JFloat (Inf s), JFloat (Inf t) => Bool.eqb s t
  | JList l, JList m =>
      (fix go (l m : list json) : bool :=
         match l, m with
         | [], [] => true
         | x :: l', y :: m' => json_eqb x y && go l' m'
         | _, _ => false
         end) l m
  | JObj d, JObj e =>
      (length d =? length e)%nat &&
      (fix go (d : list (string * json)) : bool :=
         match d with
         | [] => true
         | (k, x) :: d' => match dget k e with Some y => json_eqb x y | None => false end && go d'
         end) d
  | _, _ => match scalar_num v, scalar_num w with Some a, Some b => Qeqb a b | _, _ => false end
  end.

Definition OverflowError : exc := OtherError "OverflowError".

(** [int(v)] *)
Definition int_of_json (v : json) : res Z :=
  match v with
  | JBool b => Ok (if b then 1 else 0)
  | JInt z => Ok z
  | JFloat (Fin q) => Ok (if Qleb 0 q then Qfloor q else Qceiling q)
  | JFloat (Inf _) => Raise OverflowError
  | JFloat NaN => Raise ValueError
  | JStr s => match Text.py_int s with Some z => Ok z | None => Raise ValueError end
  | _ => Raise TypeError
  end.

(** [float(v)]: an int too large for a double raises [OverflowError]. *)
Definition py_float `{R : Rounding} (v : json) : res num :=
  match v with
  | JBool b => Ok (Fin (if b then 1 else 0)%Q)
  | JInt z => match num_of (inject_Z z) with
              | Fin q => Ok (Fin q)
              | _ => Raise OverflowError
              end
  | JFloat x => Ok x
  | JStr s => match float_of_str s with Some x => Ok x | None => Raise ValueError end
  | _ => Raise TypeError
  end.

Example py_int_examples :
  Text.py_int " 580 " = Some 580 /\ Text.py_int "6_5" = Some 65 /\
  Text.py_int "" = None /\ Text.py_int "1a" = None /\
  Text.py_int16 "000001ffffffffff" = Some (2 ^ 41 - 1) /\ Text.py_int16 "0x_1f" = Some 31 /\
  Text.str_of_Z 8 = "8"%string /\ Text.str_of_Z (-120) = "-120"%string.
Proof. vm_compute. done. Qed.

Example float_examples :
  @float_of_str binary64_rounding "1e3" = Some (Fin 1000%Q) /\
  @float_of_str binary64_rounding "-.5" = Some (Fin (-1 # 2)%Q) /\
  @float_of_str binary64_rounding "1e999" = Some (Inf false) /\
  @float_of_str binary64_rounding "nan" = Some NaN /\
  @float_of_str binary64_rounding "24 GB" = None.
Proof. vm_compute. done. Qed.
