(* ===== verification/HostText.v ===== *)
(** * Text of host commands

    The Python string operations on what the hosts' commands print and on the commands themselves, on
    ASCII text: lines, words, substrings, ANSI colours, [shlex.quote]. *)

From Stdlib Require Import Ascii String.
From stdpp Require Import strings.
From S2P Require Import Prelude Float64 PyValue.
Import Text.

Local Open Scope Z_scope.
Local Open Scope list_scope.

Definition is_line_break (c : ascii) : bool :=
  let n := code c in ((10 <=? n) && (n <=? 13)) || ((28 <=? n) && (n <=? 30)).
(** [s.splitlines()]: CR LF is one break, and no empty line follows the last break. *)
Fixpoint splitlines_chars (cur : list ascii) (l : list ascii) : list (list ascii) :=
  match l with
  | [] => match cur with [] => [] | _ => [rev cur] end
  | c :: l' =>
      if is_line_break c
      then rev cur ::
        match l' with
        | d :: l'' => if (code c =? 13) && (code d =? 10) then splitlines_chars [] l'' else splitlines_chars [] l'
        | [] => []
        end
      else splitlines_chars (c :: cur) l'
  end.
Definition splitlines (s : string) : list string := map of_chars (splitlines_chars [] (chars s)).

(** [s.split()] *)
Fixpoint words_chars (cur : list ascii) (l : list ascii) : list (list ascii) :=
  match l with
  | [] => match cur with [] => [] | _ => [rev cur] end
  | c :: l' => if is_space c then match cur with [] => words_chars [] l' | _ => rev cur :: words_chars [] l' end
               else words_chars (c :: cur) l'
  end.
Definition words (s : string) : list string := map of_chars (words_chars [] (chars s)).
(** [s.partition(sep)], without the separator. *)
Fixpoint partition_at (sep : ascii) (l : list ascii) : list ascii * list ascii :=
  match l with
  | [] => ([], [])
  | c :: l' => if Ascii.eqb c sep then ([], l') else let '(a, b) := partition_at sep l' in (c :: a, b)
  end.
Definition partition (sep : ascii) (s : string) : string * string :=
  let '(a, b) := partition_at sep (chars s) in (of_chars a, of_chars b).

Fixpoint chars_prefix (p l : list ascii) : bool :=
  match p, l with
  | [], _ => true
  | a :: p', b :: l' => Ascii.eqb a b && chars_prefix p' l'
  | _, [] => false
  end.
(** [s.startswith(p)] and [p in s] *)
Definition startswith (p s : string) : bool := chars_prefix (chars p) (chars s).
Fixpoint chars_within (p l : list ascii) : bool :=
  chars_prefix p l || match l with [] => false | _ :: l' => chars_within p l' end.
Definition within (p s : string) : bool := chars_within (chars p) (chars s).
(** [s.removeprefix(p)] and [s.removesuffix(p)] *)
Definition removeprefix (p s : string) : string := if startswith p s then of_chars (drop (length (chars p)) (chars s)) else s.
Definition endswith (p s : string) : bool := chars_prefix (rev (chars p)) (rev (chars s)).
Definition removesuffix (p s : string) : string :=
  if endswith p s then of_chars (take (length (chars s) - length (chars p)) (chars s)) else s.
(** [s.replace(p, "")]: the first [skip] characters belong to a match already found. *)
Fixpoint remove_all (p : list ascii) (skip : nat) (l : list ascii) : list ascii :=
  match l with
  | [] => []
  | c :: l' =>
      match skip with
      | S skip' => remove_all p skip' l'
      | O => if chars_prefix p l then remove_all p (length p - 1) l' else c :: remove_all p 0 l'
      end
  end.
(** [re.match(r"^...$", s)]: the pattern matches the whole text, or the text before a final newline. *)
Definition dollar (p : list ascii -> bool) (s : string) : bool :=
  p (chars s) || match rev (chars s) with c :: l => (code c =? 10) && p (rev l) | [] => false end.
(** [s.isdigit()] *)
Definition isdigit (s : string) : bool := match chars s with [] => false | l => forallb is_digit l end.
(** [s[-n:]] *)
Definition tail_of (n : nat) (s : string) : string := let l := chars s in of_chars (drop (length l - n) l).
(** [sep.join(l)] *)
Definition join (sep : string) (l : list string) : string := String.concat sep l.

(** [re.sub(r"\x1b\[[0-9;]*m", "", s)]: [after_code] is the rest after a colour code. *)
Fixpoint after_code (l : list ascii) : option (list ascii) :=
  match l with
  | [] => None
  | c :: l' => if Ascii.eqb c "m" then Some l' else if is_digit c || Ascii.eqb c ";" then after_code l' else None
  end.
Definition after_ansi (l : list ascii) : option (list ascii) :=
  match l with e :: b :: l' => if (code e =? 27) && Ascii.eqb b "[" then after_code l' else None | _ => None end.
Fixpoint strip_ansi_chars (fuel : nat) (l : list ascii) : list ascii :=
  match fuel, l with
  | O, _ | _, [] => l
  | S fuel', c :: l' => match after_ansi l with Some rest => strip_ansi_chars fuel' rest | None => c :: strip_ansi_chars fuel' l' end
  end.
Definition strip_ansi (s : string) : string := let l := chars s in of_chars (strip_ansi_chars (length l) l).

(** [shlex.quote(s)]: single quotes around a text with an unsafe character, each inner one put in double quotes. *)
Definition is_safe (c : ascii) : bool :=
  let n := code c in
  is_digit c || ((65 <=? n) && (n <=? 90)) || ((97 <=? n) && (n <=? 122)) || existsb (Ascii.eqb c) (chars "_@%+=:,./-").
Definition single_quote : ascii := ascii_of_nat 39.
Definition double_quote : ascii := ascii_of_nat 34.
Definition quote_char (c : ascii) : list ascii :=
  if Ascii.eqb c single_quote then [single_quote; double_quote; single_quote; double_quote; single_quote] else [c].
Definition quote (s : string) : string :=
  match chars s with
  | [] => of_chars [single_quote; single_quote]
  | l => if forallb is_safe l then s else of_chars (single_quote :: flat_map quote_char l ++ [single_quote])
  end.

Example words_ex : words ("  GPU0 NV12" ++ String (ascii_of_nat 9) "X ") = ["GPU0"; "NV12"; "X"]%string.
Proof. reflexivity. Qed.
Example within_ex : within "dcgm-exporter" "nvcr.io/nvidia/k8s/dcgm-exporter:3" = true /\ within "ab" "aab" = true /\ within "b" "a" = false.
Proof. by vm_compute. Qed.
Example ansi_ex : strip_ansi ("a" ++ String (ascii_of_nat 27) "[4mGPU0" ++ String (ascii_of_nat 27) "[0m b") = "aGPU0 b"%string.
Proof. reflexivity. Qed.
Example quote_ex : quote "GPU-1,GPU-2" = "GPU-1,GPU-2"%string /\ quote "a b" = "'a b'"%string /\ tail_of 2 "abc" = "bc"%string.
Proof. by vm_compute. Qed.
