(* ===== verification/JobResult.v ===== *)
(** * The scored result of one node

    [services/task/models.py]: [JobResult], the object every part of a
    validation cycle reads and mutates, with its derived properties; and the
    catalogue of [incentive/miner_incentive_log.py]: the zero-incentive reason
    codes and the lines a miner is shown.  A line is modelled by its kind, its
    reason code and the node identity it carries; its English text is left out.
    Attributes of [JobResult] that no modelled component reads ([log_text],
    [ssh_pub_keys], [pod_states], ...) are left out. *)

From Stdlib Require Import String.
From S2P Require Import Prelude Float64 PyValue.

Local Open Scope string_scope.
Local Open Scope list_scope.

(** ** Reason codes *)
Inductive ZeroIncentiveReason :=
| BANNED_NETWORK_ABUSE
| SPOT_TIER
| PROVIDER_DISCORD_NOT_CONNECTED
| NEW_RENTALS_PAUSED
| PROVIDER_MAINTENANCE
| MINER_DEFAULT_JOB
| HOTKEY_EXCLUDED_FROM_SCORING
| GPU_MODEL_NOT_ELIGIBLE_FOR_UNRENTED_INCENTIVE
| PRICE_ABOVE_MARKET_P90_SOFT_LIMIT
| NO_UNRENTED_CAPACITY_FOR_GPU_COUNT
| NVIDIA_DRIVER_BELOW_MINIMUM
| INSUFFICIENT_DISK_FOR_VRAM
| SYSBOX_NOT_ENABLED
| FULL_8X_WITHOUT_NCU_OR_SPLIT
| CANNOT_APPLY_GPU_POWER_CAP
| OUTDATED_EXECUTOR_IMAGE
| PORT_LIMITED_REMAINDER
| REVERTS_GPU_POWER_CAP
| SPOT_WITHOUT_LIUM_FILLER
| SPOT_NO_FILLER_REVENUE_FOR_GPU_CONFIG
| SPOT_NO_HEADROOM_AT_BURN_CAP
| VALIDATION_FAILED
| PROVIDER_EMAIL_NOT_CONFIRMED
| RENTED_SYSBOX_NOT_CONFIRMED
| DISK_LIMITED_REMAINDER.

#[export] Instance ZeroIncentiveReason_eq_dec : EqDecision ZeroIncentiveReason.
Proof. solve_decision. Defined.

(** The wire code of a reason. *)
Definition reason_value (r : ZeroIncentiveReason) : string :=
  match r with
  | BANNED_NETWORK_ABUSE => "banned_network_abuse"
  | SPOT_TIER => "spot_tier"
  | PROVIDER_DISCORD_NOT_CONNECTED => "provider_discord_not_connected"
  | NEW_RENTALS_PAUSED => "new_rentals_paused"
  | PROVIDER_MAINTENANCE => "provider_maintenance"
  | MINER_DEFAULT_JOB => "miner_default_job"
  | HOTKEY_EXCLUDED_FROM_SCORING => "hotkey_excluded_from_scoring"
  | GPU_MODEL_NOT_ELIGIBLE_FOR_UNRENTED_INCENTIVE => "gpu_model_not_eligible_for_unrented_incentive"
  | PRICE_ABOVE_MARKET_P90_SOFT_LIMIT => "price_above_market_p90_soft_limit"
  | NO_UNRENTED_CAPACITY_FOR_GPU_COUNT => "no_unrented_capacity_for_gpu_count"
  | NVIDIA_DRIVER_BELOW_MINIMUM => "nvidia_driver_below_minimum"
  | INSUFFICIENT_DISK_FOR_VRAM => "insufficient_disk_for_vram"
  | SYSBOX_NOT_ENABLED => "sysbox_not_enabled"
  | FULL_8X_WITHOUT_NCU_OR_SPLIT => "flagship_without_ncu_or_split"
  | CANNOT_APPLY_GPU_POWER_CAP => "cannot_apply_gpu_power_cap"
  | OUTDATED_EXECUTOR_IMAGE => "outdated_executor_image"
  | PORT_LIMITED_REMAINDER => "port_limited_remainder"
  | REVERTS_GPU_POWER_CAP => "reverts_gpu_power_cap"
  | SPOT_WITHOUT_LIUM_FILLER => "spot_without_lium_filler"
  | SPOT_NO_FILLER_REVENUE_FOR_GPU_CONFIG => "spot_no_filler_revenue_for_gpu_config"
  | SPOT_NO_HEADROOM_AT_BURN_CAP => "spot_no_headroom_at_burn_cap"
  | VALIDATION_FAILED => "validation_failed"
  | PROVIDER_EMAIL_NOT_CONFIRMED => "provider_email_not_confirmed"
  | RENTED_SYSBOX_NOT_CONFIRMED => "rented_sysbox_not_confirmed"
  | DISK_LIMITED_REMAINDER => "disk_limited_remainder"
  end.

(** ** Log lines *)
Inductive line_kind :=
| NoPayout (reason : ZeroIncentiveReason)
| MiningScoreCalculated
| MiningIncentiveCalculated
| RentalIncentiveCalculated
| SpotPayIncentiveCalculated
| SecureFloorApplied
| SecureFloorNotPaid
| UnrentedBucketReassigned
| MiningScoreMissing.

#[export] Instance line_kind_eq_dec : EqDecision line_kind.
Proof. solve_decision. Defined.

Record MinerLogLine := mkLine {
  ll_kind : line_kind;
  ll_executor_id : string;
  ll_gpu_model : option string;
  ll_gpu_count : Z
}.

(** [MinerLogLine.reason]: set on the no-payout lines only. *)
Definition ll_reason (l : MinerLogLine) : option ZeroIncentiveReason :=
  match ll_kind l with NoPayout r => Some r | _ => None end.

(** ** Data *)
Record ExecutorSSHInfo := mkExecutor {
  ex_uuid : string;
  ex_address : string;
  ex_port : Z;
  ex_ssh_port : Z;
  ex_price_per_gpu : option Q;
  ex_ssh_host_key : option string;
  ex_tdx_quote : option string
}.

Record ValidationEvent := mkEvent {
  ev_event : string;
  ev_reason_code : string;
  ev_severity : string;
  ev_category : string;
  ev_impact : string;
  ev_remediation : option string;
  ev_what_we_saw : list (string * json);
  ev_check_id : option string
}.

(** Values of a published formula snapshot. *)
Inductive fval :=
| FNone
| FQ (q : Q)
| FZ (z : Z)
| FBool (b : bool)
| FStr (s : string)
| FDict (d : list (string * fval)).

Record MixedFormulaInputs := mkMixed {
  mx_rented_gpu_count : Z;
  mx_free_gpu_count : Z;
  mx_mining : list (string * fval);
  mx_unrented : list (string * fval)
}.

Record JobResult := mkJobResult {
  jr_spec : option (list (string * json));
  jr_executor_info : ExecutorSSHInfo;
  jr_score : Q;
  jr_job_score : Q;
  jr_collateral_deposited : bool;
  jr_job_batch_id : string;
  jr_validation_event : option ValidationEvent;
  jr_gpu_model : option string;
  jr_gpu_count : Z;
  jr_sysbox_runtime : bool;
  jr_nvidia_driver_version : string;
  jr_supports_gpu_splitting : bool;
  jr_gpu_splitting_min_count : option Z;
  jr_is_rented : bool;
  jr_rented_gpu_count : option Z;
  jr_is_split_remainder : bool;
  jr_port_unpaid_gpu_count : Z;
  jr_is_spot : bool;
  jr_is_on_spot_pay_list : bool;
  jr_is_new_rentals_paused : bool;
  jr_is_in_maintenance : bool;
  jr_is_provider_banned : bool;
  jr_is_hotkey_excluded_from_scoring : bool;
  jr_provider_discord_connected : bool;
  jr_is_provider_email_held : bool;
  jr_rental_created_at : option Z;
  jr_default_job_owner : option string;
  jr_has_lium_filler : bool;
  jr_filler_revenue_per_gpu_hour : option Q;
  jr_filler_revenue_usd_per_hour : option Q;
  jr_attestation_digest : option string;
  jr_executor_image_report : option (list (string * json));
  jr_ssh_host_key_verified : bool;
  jr_availability_errors : option (list (list (string * json)));
  jr_failure_reason_code : option string;
  jr_duplicate_kept_by : option string;
  jr_duplicate_shares_kept_row : bool;
  jr_carried_for_renter_gpu_reset : bool;
  jr_mining_score : option Q;
  jr_sysbox_multiplier : option Q;
  jr_driver_multiplier : option Q;
  jr_uptime_multiplier : option Q;
  jr_gpu_portion : option Q;
  jr_total_gpu_count : option Z;
  jr_incentive : option Q;
  jr_incentive_rented : option Q;
  jr_incentive_idle : option Q;
  jr_mining_share : option Q;
  jr_total_mining_score : option Q;
  jr_effective_rate : option Q;
  jr_hourly_rate : option Q;
  jr_max_cap : option Z;
  jr_count_bucket : option Z;
  jr_bucket_reassigned_from : option Z;
  jr_bucket_reassigned_from_multiplier : option Q;
  jr_total_unrented_by_gpu_type : option Z;
  jr_cap_dilution_applied : option bool;
  jr_eligible_for_rental_share : bool;
  jr_spot_pay_candidate : bool;
  jr_spot_pool_multiplier : option Q;
  jr_unbucketed_share : option Q;
  jr_unbucketed_rental_cost : option Q;
  jr_floor_top_up_rate : option Q;
  jr_unrented_cap_multiplier : option Q;
  jr_rental_share : option Q;
  jr_burn_share : option Q;
  jr_total_rental_cost : option Q;
  jr_rental_share_raw : option Q;
  jr_total_burn_emission : option Q;
  jr_validator_tao_price_usd : option Q;
  jr_validator_alpha_rate_tao_per_block : option Q;
  jr_estimated_epoch_emission_usd : option Q;
  jr_tempo_blocks : option Z;
  jr_seconds_per_block : option Z;
  jr_fixed_ratio : option Q;
  jr_incentive_logs : list MinerLogLine;
  jr_zero_incentive_reasons : list ZeroIncentiveReason;
  jr_mixed_formula_inputs : option MixedFormulaInputs
}.

(** One functional update per attribute the code assigns. *)
Definition jr_eta (r : JobResult) : JobResult := mkJobResult
  (jr_spec r) (jr_executor_info r) (jr_score r) (jr_job_score r) (jr_collateral_deposited r)
  (jr_job_batch_id r) (jr_validation_event r) (jr_gpu_model r) (jr_gpu_count r)
  (jr_sysbox_runtime r) (jr_nvidia_driver_version r) (jr_supports_gpu_splitting r)
  (jr_gpu_splitting_min_count r) (jr_is_rented r) (jr_rented_gpu_count r)
  (jr_is_split_remainder r) (jr_port_unpaid_gpu_count r) (jr_is_spot r)
  (jr_is_on_spot_pay_list r) (jr_is_new_rentals_paused r) (jr_is_in_maintenance r)
  (jr_is_provider_banned r) (jr_is_hotkey_excluded_from_scoring r)
  (jr_provider_discord_connected r) (jr_is_provider_email_held r) (jr_rental_created_at r)
  (jr_default_job_owner r) (jr_has_lium_filler r) (jr_filler_revenue_per_gpu_hour r)
  (jr_filler_revenue_usd_per_hour r) (jr_attestation_digest r) (jr_executor_image_report r)
  (jr_ssh_host_key_verified r) (jr_availability_errors r) (jr_failure_reason_code r)
  (jr_duplicate_kept_by r) (jr_duplicate_shares_kept_row r) (jr_carried_for_renter_gpu_reset r)
  (jr_mining_score r) (jr_sysbox_multiplier r) (jr_driver_multiplier r)
  (jr_uptime_multiplier r) (jr_gpu_portion r) (jr_total_gpu_count r) (jr_incentive r)
  (jr_incentive_rented r) (jr_incentive_idle r) (jr_mining_share r) (jr_total_mining_score r)
  (jr_effective_rate r) (jr_hourly_rate r) (jr_max_cap r) (jr_count_bucket r)
  (jr_bucket_reassigned_from r) (jr_bucket_reassigned_from_multiplier r)
  (jr_total_unrented_by_gpu_type r) (jr_cap_dilution_applied r)
  (jr_eligible_for_rental_share r) (jr_spot_pay_candidate r) (jr_spot_pool_multiplier r)
  (jr_unbucketed_share r) (jr_unbucketed_rental_cost r) (jr_floor_top_up_rate r)
  (jr_unrented_cap_multiplier r) (jr_rental_share r) (jr_burn_share r) (jr_total_rental_cost r)
  (jr_rental_share_raw r) (jr_total_burn_emission r) (jr_validator_tao_price_usd r)
  (jr_validator_alpha_rate_tao_per_block r) (jr_estimated_epoch_emission_usd r)
  (jr_tempo_blocks r) (jr_seconds_per_block r) (jr_fixed_ratio r) (jr_incentive_logs r)
  (jr_zero_incentive_reasons r) (jr_mixed_formula_inputs r).

Ltac jr_setter proj :=
  let e := eval cbv beta delta [jr_eta] in jr_eta in
  match eval pattern proj in e with
  | ?setter _ =>
      let t := constr:(fun v (r : JobResult) => setter (fun _ => v) r) in
      let t := eval cbv beta in t in exact t
  end.

Definition set_score (v : Q) (r : JobResult) : JobResult :=
  ltac:(jr_setter jr_score) v r.
Definition set_job_score (v : Q) (r : JobResult) : JobResult :=
  ltac:(jr_setter jr_job_score) v r.
Definition set_validation_event (v : option ValidationEvent) (r : JobResult) : JobResult :=
  ltac:(jr_setter jr_validation_event) v r.
Definition set_gpu_count (v : Z) (r : JobResult) : JobResult :=
  ltac:(jr_setter jr_gpu_count) v r.
Definition set_is_rented (v : bool) (r : JobResult) : JobResult :=
  ltac:(jr_setter jr_is_rented) v r.
Definition set_rented_gpu_count (v : option Z) (r : JobResult) : JobResult :=
  ltac:(jr_setter jr_rented_gpu_count) v r.
Definition set_is_split_remainder (v : bool) (r : JobResult) : JobResult :=
  ltac:(jr_setter jr_is_split_remainder) v r.
Definition set_port_unpaid_gpu_count (v : Z) (r : JobResult) : JobResult :=
  ltac:(jr_setter jr_port_unpaid_gpu_count) v r.
Definition set_is_hotkey_excluded_from_scoring (v : bool) (r : JobResult) : JobResult :=
  ltac:(jr_setter jr_is_hotkey_excluded_from_scoring) v r.
Definition set_rental_created_at (v : option Z) (r : JobResult) : JobResult :=
  ltac:(jr_setter jr_rental_created_at) v r.
Definition set_filler_revenue_per_gpu_hour (v : option Q) (r : JobResult) : JobResult :=
  ltac:(jr_setter jr_filler_revenue_per_gpu_hour) v r.
Definition set_availability_errors (v : option (list (list (string * json)))) (r : JobResult) : JobResult :=
  ltac:(jr_setter jr_availability_errors) v r.
Definition set_failure_reason_code (v : option string) (r : JobResult) : JobResult :=
  ltac:(jr_setter jr_failure_reason_code) v r.
Definition set_duplicate_kept_by (v : option string) (r : JobResult) : JobResult :=
  ltac:(jr_setter jr_duplicate_kept_by) v r.
Definition set_duplicate_shares_kept_row (v : bool) (r : JobResult) : JobResult :=
  ltac:(jr_setter jr_duplicate_shares_kept_row) v r.
Definition set_mining_score (v : option Q) (r : JobResult) : JobResult :=
  ltac:(jr_setter jr_mining_score) v r.
Definition set_sysbox_multiplier (v : option Q) (r : JobResult) : JobResult :=
  ltac:(jr_setter jr_sysbox_multiplier) v r.
Definition set_driver_multiplier (v : option Q) (r : JobResult) : JobResult :=
  ltac:(jr_setter jr_driver_multiplier) v r.
Definition set_uptime_multiplier (v : option Q) (r : JobResult) : JobResult :=
  ltac:(jr_setter jr_uptime_multiplier) v r.
Definition set_gpu_portion (v : option Q) (r : JobResult) : JobResult :=
  ltac:(jr_setter jr_gpu_portion) v r.
Definition set_total_gpu_count (v : option Z) (r : JobResult) : JobResult :=
  ltac:(jr_setter jr_total_gpu_count) v r.
Definition set_incentive (v : option Q) (r : JobResult) : JobResult :=
  ltac:(jr_setter jr_incentive) v r.
Definition set_incentive_rented (v : option Q) (r : JobResult) : JobResult :=
  ltac:(jr_setter jr_incentive_rented) v r.
Definition set_incentive_idle (v : option Q) (r : JobResult) : JobResult :=
  ltac:(jr_setter jr_incentive_idle) v r.
Definition set_mining_share (v : option Q) (r : JobResult) : JobResult :=
  ltac:(jr_setter jr_mining_share) v r.
Definition set_total_mining_score (v : option Q) (r : JobResult) : JobResult :=
  ltac:(jr_setter jr_total_mining_score) v r.
Definition set_effective_rate (v : option Q) (r : JobResult) : JobResult :=
  ltac:(jr_setter jr_effective_rate) v r.
Definition set_hourly_rate (v : option Q) (r : JobResult) : JobResult :=
  ltac:(jr_setter jr_hourly_rate) v r.
Definition set_max_cap (v : option Z) (r : JobResult) : JobResult :=
  ltac:(jr_setter jr_max_cap) v r.
Definition set_count_bucket (v : option Z) (r : JobResult) : JobResult :=
  ltac:(jr_setter jr_count_bucket) v r.
Definition set_bucket_reassigned_from (v : option Z) (r : JobResult) : JobResult :=
  ltac:(jr_setter jr_bucket_reassigned_from) v r.
Definition set_bucket_reassigned_from_multiplier (v : option Q) (r : JobResult) : JobResult :=
  ltac:(jr_setter jr_bucket_reassigned_from_multiplier) v r.
Definition set_total_unrented_by_gpu_type (v : option Z) (r : JobResult) : JobResult :=
  ltac:(jr_setter jr_total_unrented_by_gpu_type) v r.
Definition set_cap_dilution_applied (v : option bool) (r : JobResult) : JobResult :=
  ltac:(jr_setter jr_cap_dilution_applied) v r.
Definition set_eligible_for_rental_share (v : bool) (r : JobResult) : JobResult :=
  ltac:(jr_setter jr_eligible_for_rental_share) v r.
Definition set_spot_pay_candidate (v : bool) (r : JobResult) : JobResult :=
  ltac:(jr_setter jr_spot_pay_candidate) v r.
Definition set_spot_pool_multiplier (v : option Q) (r : JobResult) : JobResult :=
  ltac:(jr_setter jr_spot_pool_multiplier) v r.
Definition set_unbucketed_share (v : option Q) (r : JobResult) : JobResult :=
  ltac:(jr_setter jr_unbucketed_share) v r.
Definition set_unbucketed_rental_cost (v : option Q) (r : JobResult) : JobResult :=
  ltac:(jr_setter jr_unbucketed_rental_cost) v r.
Definition set_floor_top_up_rate (v : option Q) (r : JobResult) : JobResult :=
  ltac:(jr_setter jr_floor_top_up_rate) v r.
Definition set_unrented_cap_multiplier (v : option Q) (r : JobResult) : JobResult :=
  ltac:(jr_setter jr_unrented_cap_multiplier) v r.
Definition set_rental_share (v : option Q) (r : JobResult) : JobResult :=
  ltac:(jr_setter jr_rental_share) v r.
Definition set_burn_share (v : option Q) (r : JobResult) : JobResult :=
  ltac:(jr_setter jr_burn_share) v r.
Definition set_total_rental_cost (v : option Q) (r : JobResult) : JobResult :=
  ltac:(jr_setter jr_total_rental_cost) v r.
Definition set_rental_share_raw (v : option Q) (r : JobResult) : JobResult :=
  ltac:(jr_setter jr_rental_share_raw) v r.
Definition set_total_burn_emission (v : option Q) (r : JobResult) : JobResult :=
  ltac:(jr_setter jr_total_burn_emission) v r.
Definition set_validator_tao_price_usd (v : option Q) (r : JobResult) : JobResult :=
  ltac:(jr_setter jr_validator_tao_price_usd) v r.
Definition set_validator_alpha_rate_tao_per_block (v : option Q) (r : JobResult) : JobResult :=
  ltac:(jr_setter jr_validator_alpha_rate_tao_per_block) v r.
Definition set_estimated_epoch_emission_usd (v : option Q) (r : JobResult) : JobResult :=
  ltac:(jr_setter jr_estimated_epoch_emission_usd) v r.
Definition set_tempo_blocks (v : option Z) (r : JobResult) : JobResult :=
  ltac:(jr_setter jr_tempo_blocks) v r.
Definition set_seconds_per_block (v : option Z) (r : JobResult) : JobResult :=
  ltac:(jr_setter jr_seconds_per_block) v r.
Definition set_fixed_ratio (v : option Q) (r : JobResult) : JobResult :=
  ltac:(jr_setter jr_fixed_ratio) v r.
Definition set_executor_info (v : ExecutorSSHInfo) (r : JobResult) : JobResult :=
  ltac:(jr_setter jr_executor_info) v r.
Definition set_job_batch_id (v : string) (r : JobResult) : JobResult :=
  ltac:(jr_setter jr_job_batch_id) v r.
Definition set_is_spot (v : bool) (r : JobResult) : JobResult :=
  ltac:(jr_setter jr_is_spot) v r.
Definition set_is_on_spot_pay_list (v : bool) (r : JobResult) : JobResult :=
  ltac:(jr_setter jr_is_on_spot_pay_list) v r.
Definition set_is_new_rentals_paused (v : bool) (r : JobResult) : JobResult :=
  ltac:(jr_setter jr_is_new_rentals_paused) v r.
Definition set_is_provider_banned (v : bool) (r : JobResult) : JobResult :=
  ltac:(jr_setter jr_is_provider_banned) v r.
Definition set_provider_discord_connected (v : bool) (r : JobResult) : JobResult :=
  ltac:(jr_setter jr_provider_discord_connected) v r.
Definition set_is_provider_email_held (v : bool) (r : JobResult) : JobResult :=
  ltac:(jr_setter jr_is_provider_email_held) v r.
Definition set_default_job_owner (v : option string) (r : JobResult) : JobResult :=
  ltac:(jr_setter jr_default_job_owner) v r.
Definition set_has_lium_filler (v : bool) (r : JobResult) : JobResult :=
  ltac:(jr_setter jr_has_lium_filler) v r.
Definition set_filler_revenue_usd_per_hour (v : option Q) (r : JobResult) : JobResult :=
  ltac:(jr_setter jr_filler_revenue_usd_per_hour) v r.
Definition set_carried_for_renter_gpu_reset (v : bool) (r : JobResult) : JobResult :=
  ltac:(jr_setter jr_carried_for_renter_gpu_reset) v r.
Definition set_incentive_logs (v : list MinerLogLine) (r : JobResult) : JobResult :=
  ltac:(jr_setter jr_incentive_logs) v r.
Definition set_zero_incentive_reasons (v : list ZeroIncentiveReason) (r : JobResult) : JobResult :=
  ltac:(jr_setter jr_zero_incentive_reasons) v r.
Definition set_mixed_formula_inputs (v : option MixedFormulaInputs) (r : JobResult) : JobResult :=
  ltac:(jr_setter jr_mixed_formula_inputs) v r.

(** ** Derived properties *)
Section Methods.
Context `{R : Rounding}.
Local Open Scope float_scope.

(** [JobResult.set_incentive_split] *)
Definition set_incentive_split (rented idle : Q) (r : JobResult) : JobResult :=
  set_incentive (Some (rented ⊕ idle))
    (set_incentive_idle (Some idle) (set_incentive_rented (Some rented) r)).
End Methods.

(** [JobResult.record_mixed_formula_inputs] *)
Definition record_mixed_formula_inputs (inputs : MixedFormulaInputs) (r : JobResult) : JobResult :=
  set_mixed_formula_inputs (Some inputs) r.

(** [JobResult.record_incentive_log] *)
Definition record_incentive_log (l : MinerLogLine) (r : JobResult) : JobResult :=
  let r := set_incentive_logs (jr_incentive_logs r ++ [l]) r in
  match ll_reason l with
  | Some reason => set_zero_incentive_reasons (jr_zero_incentive_reasons r ++ [reason]) r
  | None => r
  end.

Definition line_of (k : line_kind) (r : JobResult) : MinerLogLine :=
  mkLine k (ex_uuid (jr_executor_info r)) (jr_gpu_model r) (jr_gpu_count r).

(** Record one line built from the result itself. *)
Definition log_line (k : line_kind) (r : JobResult) : JobResult :=
  record_incentive_log (line_of k r) r.
(** The shared shape of every [MinerLogLine.no_payout_because_*] constructor. *)
Definition log_no_payout (reason : ZeroIncentiveReason) (r : JobResult) : JobResult :=
  log_line (NoPayout reason) r.

(** A truthy optional string. *)
Definition nonempty (o : option string) : bool :=
  match o with Some s => negb (String.eqb s "") | None => false end.

(** A truthy optional int. *)
Definition truthyZ (o : option Z) : bool :=
  match o with Some z => negb (z =? 0)%Z | None => false end.

(** [JobResult.is_successful] *)
Definition is_successful (r : JobResult) : bool :=
  (Qltb 0 (jr_score r) || Qltb 0 (jr_job_score r))
  && nonempty (jr_gpu_model r) && (0 <? jr_gpu_count r)%Z.

Definition is_mixed (r : JobResult) : bool :=
  match jr_mixed_formula_inputs r with Some _ => true | None => false end.

(** [JobResult.incentive_source] *)
Definition incentive_source (r : JobResult) : string :=
  match jr_incentive r with
  | None => "unknown"
  | Some i =>
      if Qleb i 0 then "zero_incentive"
      else if is_mixed r then "mixed"
      else if jr_is_rented r then "rented_emission" else "idle_incentive"
  end.

(** [JobResult.node_state_at_cycle] *)
Definition node_state_at_cycle (r : JobResult) : string :=
  if is_mixed r then "mixed" else if jr_is_rented r then "rented" else "idle".

Definition paid_from_rental_share (r : JobResult) : bool :=
  jr_eligible_for_rental_share r || jr_spot_pay_candidate r.

(** [JobResult.incentive_formula_version] *)
Definition incentive_formula_version (r : JobResult) : string :=
  if is_mixed r then "mixed_v1"
  else if paid_from_rental_share r then "rental_price_v2" else "mining_v1".

Definition fq (o : option Q) : fval := match o with Some q => FQ q | None => FNone end.
Definition fz (o : option Z) : fval := match o with Some z => FZ z | None => FNone end.
Definition fb (o : option bool) : fval := match o with Some b => FBool b | None => FNone end.
Definition fs (o : option string) : fval := match o with Some s => FStr s | None => FNone end.

(** The unbucketed keys of a [rental_price_v2] snapshot. *)
Definition unbucketed_inputs (r : JobResult) : list (string * fval) :=
  match jr_unbucketed_share r with
  | None => []
  | Some _ =>
      [("unbucketed_share", fq (jr_unbucketed_share r));
       ("unbucketed_rental_cost", fq (jr_unbucketed_rental_cost r));
       ("floor_top_up_rate", fq (jr_floor_top_up_rate r))]
      ++ (if jr_spot_pay_candidate r then [("spot_pay", FBool true)] else [])
  end.

(** [JobResult.incentive_formula_inputs] *)
Definition incentive_formula_inputs (r : JobResult) : list (string * fval) :=
  match jr_mixed_formula_inputs r with
  | Some m =>
      [("rented_gpu_count", FZ (mx_rented_gpu_count m));
       ("free_gpu_count", FZ (mx_free_gpu_count m));
       ("mining", FDict (mx_mining m)); ("unrented", FDict (mx_unrented m))]
  | None =>
      if paid_from_rental_share r then
        [("rental_share", fq (jr_rental_share r));
         ("rental_share_raw", fq (jr_rental_share_raw r));
         ("total_burn_emission", fq (jr_total_burn_emission r));
         ("burn_share", fq (jr_burn_share r));
         ("gpu_model", fs (jr_gpu_model r));
         ("gpu_count", FZ (jr_gpu_count r));
         ("hourly_rate", fq (jr_hourly_rate r));
         ("unrented_cap_multiplier", fq (jr_unrented_cap_multiplier r));
         ("sysbox_multiplier", fq (jr_sysbox_multiplier r));
         ("driver_multiplier", fq (jr_driver_multiplier r));
         ("effective_rate", fq (jr_effective_rate r));
         ("total_rental_cost", fq (jr_total_rental_cost r));
         ("count_bucket", fz (jr_count_bucket r));
         ("bucket_reassigned_from", fz (jr_bucket_reassigned_from r));
         ("bucket_reassigned_from_multiplier", fq (jr_bucket_reassigned_from_multiplier r));
         ("max_cap", fz (jr_max_cap r));
         ("total_unrented_by_gpu_type", fz (jr_total_unrented_by_gpu_type r));
         ("cap_dilution_applied", fb (jr_cap_dilution_applied r));
         ("validator_tao_price_usd", fq (jr_validator_tao_price_usd r));
         ("validator_alpha_rate_tao_per_block", fq (jr_validator_alpha_rate_tao_per_block r));
         ("estimated_epoch_emission_usd", fq (jr_estimated_epoch_emission_usd r));
         ("tempo_blocks", fz (jr_tempo_blocks r));
         ("seconds_per_block", fz (jr_seconds_per_block r));
         ("fixed_ratio", fq (jr_fixed_ratio r))]
        ++ unbucketed_inputs r
      else
        [("score", FQ (jr_score r));
         ("mining_share", fq (jr_mining_share r));
         ("mining_score", fq (jr_mining_score r));
         ("total_mining_score", fq (jr_total_mining_score r));
         ("rental_share", fq (jr_rental_share r));
         ("rental_share_raw", fq (jr_rental_share_raw r));
         ("total_burn_emission", fq (jr_total_burn_emission r));
         ("burn_share", fq (jr_burn_share r));
         ("gpu_portion", fq (jr_gpu_portion r));
         ("gpu_model", fs (jr_gpu_model r));
         ("gpu_count", FZ (jr_gpu_count r));
         ("total_gpu_count", fz (jr_total_gpu_count r));
         ("sysbox_multiplier", fq (jr_sysbox_multiplier r));
         ("uptime_multiplier", fq (jr_uptime_multiplier r));
         ("driver_multiplier", fq (jr_driver_multiplier r));
         ("validator_tao_price_usd", fq (jr_validator_tao_price_usd r));
         ("validator_alpha_rate_tao_per_block", fq (jr_validator_alpha_rate_tao_per_block r));
         ("estimated_epoch_emission_usd", fq (jr_estimated_epoch_emission_usd r));
         ("tempo_blocks", fz (jr_tempo_blocks r));
         ("seconds_per_block", fz (jr_seconds_per_block r));
         ("fixed_ratio", fq (jr_fixed_ratio r))]
  end.

(** Two reasons never share a wire code. *)
Lemma reason_value_inj r1 r2 : reason_value r1 = reason_value r2 -> r1 = r2.
Proof. destruct r1, r2; first [reflexivity | discriminate]. Qed.
