(* ===== verification/IncentiveConfig.v ===== *)
(** * Configuration of the incentive engine

    [incentive/config.py] (price anchors, idle-pay caps, base models, validators),
    [incentive/utils.py] ([get_hourly_rate]), [incentive/eligibility.py], and what
    [core/config.py] provides to them ([settings], [get_total_burn_emission]).
    The tables are transcribed literal by literal.  [machine_prices] comes from
    the installed lium-core release, outside the repository: it is an argument.
    A [datetime] is a number of seconds (naive UTC). *)

From Stdlib Require Import Ascii String.
From S2P Require Import Prelude Float64 PyValue JobResult.

Local Open Scope string_scope.
Local Open Scope list_scope.
Local Open Scope Z_scope.

(** ** Settings *)
Record Settings := mkSettings {
  EXECUTOR_IMAGE_CHECK_ENFORCE : bool;
  ENABLE_SPOT_RENTAL_INCENTIVE : bool;
  SPOT_IDLE_PAY_SECURE_DECISION_ENABLED : bool;
  ENABLE_UNRENTED_POWER_CAP_REVERT_LIMIT : bool;
  RTX_4090_48GB_MODEL_ENABLED : bool;
  SKIP_COLLATERAL_PENALTY : bool;
  PORTION_FOR_UPTIME : Q;
  UPTIME_REQUIRED_MINUTES : Z;
  PORTION_FOR_SYSBOX : Q;
  PORTION_FOR_SYSBOX_UNRENTED : Q;
  PORTION_FOR_SYSBOX_RENTED : Q;
  SYSBOX_RENTED_CUTOFF : Z;
  DISCORD_INCENTIVE_CUTOFF : Z;
  MIN_NVIDIA_DRIVER_VERSION : string;
  MIN_DRIVER_CUTOFF : Z;
  REFERRAL_EMISSION_SHARE : num;
  SCORING_EXCLUDED_HOTKEYS : string;
  IDLE_INCENTIVE_EXCLUDED_HOTKEYS : string;
  BURNERS : list Z;
  NEW_BURNERS : list Z;
  BURNER_COLDKEYS : list (Z * string)
}.

(** [settings.get_scoring_excluded_hotkeys] and its idle twin: the set of the
    non-empty items of a comma list. *)
Definition comma_hotkeys (s : string) : list string :=
  remove_dups (List.filter (fun h => negb (String.eqb h "")) (map Text.strip (Text.split "," s))).
Definition get_scoring_excluded_hotkeys (st : Settings) : list string :=
  comma_hotkeys (SCORING_EXCLUDED_HOTKEYS st).
Definition get_idle_incentive_excluded_hotkeys (st : Settings) : list string :=
  comma_hotkeys (IDLE_INCENTIVE_EXCLUDED_HOTKEYS st).

Definition in_list (s : string) (l : list string) : bool := bool_decide (s ∈ l).

(** The defaults of [core/config.py]. *)
Definition default_settings `{R : Rounding} : Settings := {|
  EXECUTOR_IMAGE_CHECK_ENFORCE := false;
  ENABLE_SPOT_RENTAL_INCENTIVE := false;
  SPOT_IDLE_PAY_SECURE_DECISION_ENABLED := false;
  ENABLE_UNRENTED_POWER_CAP_REVERT_LIMIT := false;
  RTX_4090_48GB_MODEL_ENABLED := false;
  SKIP_COLLATERAL_PENALTY := true;
  PORTION_FOR_UPTIME := 1;
  UPTIME_REQUIRED_MINUTES := 60 * 24 * 14;
  PORTION_FOR_SYSBOX := rnd (2 # 10);
  PORTION_FOR_SYSBOX_UNRENTED := 1;
  PORTION_FOR_SYSBOX_RENTED := 1;
  SYSBOX_RENTED_CUTOFF := 1775217600;
  DISCORD_INCENTIVE_CUTOFF := 1781524800;
  MIN_NVIDIA_DRIVER_VERSION := "580.65.06";
  MIN_DRIVER_CUTOFF := 1782820800;
  REFERRAL_EMISSION_SHARE := Fin 0;
  SCORING_EXCLUDED_HOTKEYS := "";
  IDLE_INCENTIVE_EXCLUDED_HOTKEYS := "";
  BURNERS := [4; 206; 207; 208];
  NEW_BURNERS := [47; 47; 47; 47; 47; 47; 47; 47; 47; 47];
  BURNER_COLDKEYS := [(47, "5G694c15wAu1LKi9rpSQqJjpBfg4K1oiBxEm5QSVdVZAfp9f")]
|}.

(** ** Shared configuration served by the backend *)
Record SharedConfig := mkShared {
  sc_total_burn_emission : num;
  sc_machine_prices : list (string * Q);
  sc_machine_max_price_rate : Q;
  sc_machine_prices_p90 : list (string * Q);
  sc_soft_limit_price_rate : Q
}.

(** [core.config.get_total_burn_emission]; [default] is lium-core's own value. *)
Definition get_total_burn_emission (default : Q) (sc : SharedConfig) : Q :=
  match sc_total_burn_emission sc with
  | Fin v => if Qleb 0 v && Qleb v 1 then v else default
  | _ => default
  end.

(** ** Price anchors *)
Definition price_update_1 : list (string * Q) := [
  ("NVIDIA GeForce RTX 5080", 3 # 20);
  ("NVIDIA GeForce RTX 5070 Ti", 3 # 25);
  ("NVIDIA GeForce RTX 5060 Ti", 3 # 25);
  ("NVIDIA GeForce RTX 4060 Ti", 11 # 100);
  ("NVIDIA GeForce RTX 4070 SUPER", 9 # 100);
  ("NVIDIA GeForce RTX 3080", 9 # 100);
  ("NVIDIA GeForce RTX 3060", 3 # 50);
  ("NVIDIA GeForce RTX 2080 Ti", 2 # 25);
  ("NVIDIA Tesla V100 Tensor Core GPU", 17 # 100);
  ("NVIDIA RTX PRO 5000 Blackwell", 67 # 100);
  ("NVIDIA RTX PRO 4500 Blackwell", 2 # 5);
  ("NVIDIA RTX PRO 4500 Blackwell Server Edition", 2 # 5);
  ("NVIDIA RTX PRO 6000D Blackwell Workstation Edition", 41 # 50);
  ("NVIDIA RTX 6000D", 41 # 50);
  ("NVIDIA GeForce RTX 4080", 4 # 25);
  ("NVIDIA GeForce RTX 4080 SUPER", 4 # 25);
  ("NVIDIA GeForce RTX 3070", 7 # 100);
  ("NVIDIA Quadro RTX 8000", 21 # 100);
  ("NVIDIA CMP 170HX", 3 # 10)
]%Q.

Definition price_update_2 : list (string * Q) := [
  ("NVIDIA GeForce RTX 5090 D", 3 # 20);
  ("NVIDIA GeForce RTX 5070", 9 # 100);
  ("NVIDIA GeForce RTX 5060", 11 # 100);
  ("NVIDIA GeForce RTX 4070 Ti", 11 # 100);
  ("NVIDIA GeForce RTX 4070 Ti SUPER", 9 # 50);
  ("NVIDIA GeForce RTX 4070", 2 # 25);
  ("NVIDIA GeForce RTX 4060", 3 # 50);
  ("NVIDIA RTX PRO 2000 Blackwell", 17 # 100);
  ("NVIDIA RTX PRO 4000 Blackwell", 1 # 5);
  ("NVIDIA RTX 4500 Ada Generation", 1 # 5);
  ("NVIDIA RTX 5000 Ada Generation", 27 # 100);
  ("NVIDIA RTX 5880 Ada Generation", 17 # 50);
  ("NVIDIA A800 80GB PCIe", 31 # 100);
  ("NVIDIA A10 Tensor Core GPU", 1 # 5);
  ("NVIDIA RTX A2000", 3 # 50);
  ("NVIDIA T4 Tensor Core GPU", 3 # 20);
  ("NVIDIA TITAN V", 1 # 10);
  ("NVIDIA GeForce RTX 3090 Ti", 4 # 25);
  ("NVIDIA GeForce RTX 3080 Ti", 1 # 10);
  ("NVIDIA GeForce RTX 3070 Ti", 9 # 100);
  ("NVIDIA GeForce RTX 3060 Ti", 3 # 50);
  ("NVIDIA GeForce RTX 3060 Laptop GPU", 2 # 25);
  ("NVIDIA GeForce RTX 3050", 1 # 20);
  ("NVIDIA Quadro RTX 6000", 13 # 100);
  ("NVIDIA Quadro RTX 5000", 7 # 100);
  ("NVIDIA TITAN RTX", 3 # 25);
  ("NVIDIA GeForce RTX 2080 SUPER", 2 # 25);
  ("NVIDIA GeForce RTX 2070 SUPER", 7 # 100);
  ("NVIDIA GeForce RTX 2060 SUPER", 3 # 50);
  ("NVIDIA GeForce RTX 2060", 1 # 25);
  ("NVIDIA GeForce GTX 1660 Ti", 7 # 100);
  ("NVIDIA GeForce GTX 1660 SUPER", 1 # 20);
  ("NVIDIA GeForce GTX 1660", 7 # 100);
  ("NVIDIA Tesla P100", 2 # 25);
  ("NVIDIA Tesla P40", 7 # 100);
  ("NVIDIA Quadro P4000", 1 # 20);
  ("NVIDIA TITAN Xp", 1 # 25);
  ("NVIDIA GeForce GTX 1080 Ti", 1 # 25);
  ("NVIDIA GeForce GTX 1080", 3 # 100);
  ("NVIDIA GeForce GTX 1070 Ti", 1 # 25);
  ("NVIDIA GeForce GTX 1070", 1 # 25);
  ("NVIDIA GeForce GTX 1060", 9 # 100);
  ("NVIDIA Tesla M40", 2 # 25)
]%Q.

Definition price_update_3 : list (string * Q) := [
  ("NVIDIA A100-PCIE-40GB", 37 # 100);
  ("NVIDIA A100-SXM4-40GB", 12 # 25)
]%Q.

Definition MAX_UNRENTED_LITERAL : list (string * list (Z * Z)) := [
  ("B300", [(1, 4); (8, 32)]);
  ("B200", [(1, 10); (8, 64)]);
  ("H200", [(1, 10); (8, 64)]);
  ("H100", [(1, 10); (8, 64)]);
  ("RTX 4090", [(1, 10); (8, 64)]);
  ("A100", [(1, 10); (8, 40)]);
  ("RTX A6000", [(1, 10); (8, 64)]);
  ("RTX 3090", [(1, 10); (8, 64)]);
  ("H800", [(1, 10); (8, 64)]);
  ("A800", [(1, 10); (8, 64)]);
  ("A100 40GB", [(1, 10); (8, 64)]);
  ("CMP 170HX", [(1, 10); (8, 64)]);
  ("RTX 5090", [(1, 10); (8, 64)]);
  ("RTX 5090 D", [(1, 10); (8, 64)]);
  ("RTX 4000 Ada Generation", [(1, 10); (8, 64)]);
  ("RTX 6000 Ada Generation", [(1, 10); (8, 64)]);
  ("RTX PRO 6000", [(1, 10); (8, 64)]);
  ("L4", [(1, 10); (8, 64)]);
  ("L40S", [(1, 10); (8, 16)]);
  ("L40", [(1, 10); (8, 64)]);
  ("RTX 2000 Ada Generation", [(1, 10); (8, 64)]);
  ("RTX A5000", [(1, 10); (8, 64)]);
  ("RTX A4500", [(1, 10); (8, 64)]);
  ("RTX A4000", [(1, 10); (8, 64)]);
  ("A40", [(1, 10); (8, 64)]);
  ("A30", [(1, 10); (8, 64)]);
  ("RTX 5080", [(1, 10); (8, 64)]);
  ("RTX 5070 Ti", [(1, 10); (8, 64)]);
  ("RTX 5070", [(1, 10); (8, 64)]);
  ("RTX 5060 Ti", [(1, 10); (8, 64)]);
  ("RTX 5060", [(1, 10); (8, 64)]);
  ("RTX 4080 SUPER", [(1, 10); (8, 64)]);
  ("RTX 4080", [(1, 10); (8, 64)]);
  ("RTX 4070 Ti", [(1, 10); (8, 64)]);
  ("RTX 4070 Ti SUPER", [(1, 10); (8, 64)]);
  ("RTX 4070 SUPER", [(1, 10); (8, 64)]);
  ("RTX 4070", [(1, 10); (8, 64)]);
  ("RTX 4060 Ti", [(1, 10); (8, 64)]);
  ("RTX 4060", [(1, 10); (8, 64)]);
  ("RTX PRO 2000", [(1, 10); (8, 64)]);
  ("RTX PRO 4000", [(1, 10); (8, 64)]);
  ("RTX PRO 4500", [(1, 10); (8, 64)]);
  ("RTX PRO 5000", [(1, 10); (8, 64)]);
  ("RTX PRO 6000D", [(1, 10); (8, 64)]);
  ("RTX 4500 Ada Generation", [(1, 10); (8, 64)]);
  ("RTX 5000 Ada Generation", [(1, 10); (8, 64)]);
  ("RTX 5880 Ada Generation", [(1, 10); (8, 64)]);
  ("A10", [(1, 10); (8, 64)]);
  ("RTX A2000", [(1, 10); (8, 64)]);
  ("T4", [(1, 10); (8, 64)]);
  ("V100", []);
  ("TITAN V", [(1, 10); (8, 64)]);
  ("RTX 3090 Ti", [(1, 10); (8, 64)]);
  ("RTX 3080 Ti", [(1, 10); (8, 64)]);
  ("RTX 3080", [(1, 10); (8, 64)]);
  ("RTX 3070 Ti", [(1, 10); (8, 64)]);
  ("RTX 3070", [(1, 10); (8, 64)]);
  ("RTX 3060 Ti", [(1, 10); (8, 64)]);
  ("RTX 3060 Laptop", [(1, 10); (8, 64)]);
  ("RTX 3060", [(1, 10); (8, 64)]);
  ("RTX 3050", [(1, 10); (8, 64)]);
  ("Quadro RTX 8000", [(1, 10); (8, 64)]);
  ("Quadro RTX 6000", [(1, 10); (8, 64)]);
  ("Quadro RTX 5000", [(1, 10); (8, 64)]);
  ("TITAN RTX", [(1, 10); (8, 64)]);
  ("RTX 2080 Ti", [(1, 10); (8, 64)]);
  ("RTX 2080 SUPER", [(1, 10); (8, 64)]);
  ("RTX 2070 SUPER", [(1, 10); (8, 64)]);
  ("RTX 2060 SUPER", [(1, 10); (8, 64)]);
  ("RTX 2060", [(1, 10); (8, 64)]);
  ("GTX 1660 Ti", [(1, 10); (8, 64)]);
  ("GTX 1660 SUPER", [(1, 10); (8, 64)]);
  ("GTX 1660", [(1, 10); (8, 64)]);
  ("Tesla P100", [(1, 10); (8, 64)]);
  ("Tesla P40", [(1, 10); (8, 64)]);
  ("Quadro P4000", [(1, 10); (8, 64)]);
  ("TITAN Xp", [(1, 10); (8, 64)]);
  ("GTX 1080 Ti", [(1, 10); (8, 64)]);
  ("GTX 1080", [(1, 10); (8, 64)]);
  ("GTX 1070 Ti", [(1, 10); (8, 64)]);
  ("GTX 1070", [(1, 10); (8, 64)]);
  ("GTX 1060", [(1, 10); (8, 64)]);
  ("Tesla M40", [(1, 10); (8, 64)])
].

Definition BASE_GPU_LITERAL : list (string * string) := [
  ("NVIDIA B300 SXM6 AC", "B300");
  ("NVIDIA B200", "B200");
  ("NVIDIA H200", "H200");
  ("NVIDIA H200 NVL", "H200");
  ("NVIDIA H100 80GB HBM3", "H100");
  ("NVIDIA H100 NVL", "H100");
  ("NVIDIA H100 PCIe", "H100");
  ("NVIDIA H800 80GB HBM3", "H800");
  ("NVIDIA H800 NVL", "H800");
  ("NVIDIA H800 PCIe", "H800");
  ("NVIDIA GeForce RTX 5090", "RTX 5090");
  ("NVIDIA GeForce RTX 5090 D", "RTX 5090 D");
  ("NVIDIA GeForce RTX 5080", "RTX 5080");
  ("NVIDIA GeForce RTX 5070 Ti", "RTX 5070 Ti");
  ("NVIDIA GeForce RTX 5070", "RTX 5070");
  ("NVIDIA GeForce RTX 5060 Ti", "RTX 5060 Ti");
  ("NVIDIA GeForce RTX 5060", "RTX 5060");
  ("NVIDIA GeForce RTX 4090", "RTX 4090");
  ("NVIDIA GeForce RTX 4090 D", "RTX 4090");
  ("NVIDIA GeForce RTX 4080 SUPER", "RTX 4080 SUPER");
  ("NVIDIA GeForce RTX 4080", "RTX 4080");
  ("NVIDIA GeForce RTX 4070 Ti", "RTX 4070 Ti");
  ("NVIDIA GeForce RTX 4070 Ti SUPER", "RTX 4070 Ti SUPER");
  ("NVIDIA GeForce RTX 4070 SUPER", "RTX 4070 SUPER");
  ("NVIDIA GeForce RTX 4070", "RTX 4070");
  ("NVIDIA GeForce RTX 4060 Ti", "RTX 4060 Ti");
  ("NVIDIA GeForce RTX 4060", "RTX 4060");
  ("NVIDIA RTX 4000 Ada Generation", "RTX 4000 Ada Generation");
  ("NVIDIA RTX PRO 2000 Blackwell", "RTX PRO 2000");
  ("NVIDIA RTX PRO 4000 Blackwell", "RTX PRO 4000");
  ("NVIDIA RTX PRO 4500 Blackwell", "RTX PRO 4500");
  ("NVIDIA RTX PRO 4500 Blackwell Server Edition", "RTX PRO 4500");
  ("NVIDIA RTX PRO 5000 Blackwell", "RTX PRO 5000");
  ("NVIDIA RTX 4500 Ada Generation", "RTX 4500 Ada Generation");
  ("NVIDIA RTX 5000 Ada Generation", "RTX 5000 Ada Generation");
  ("NVIDIA RTX 5880 Ada Generation", "RTX 5880 Ada Generation");
  ("NVIDIA RTX 6000 Ada Generation", "RTX 6000 Ada Generation");
  ("NVIDIA RTX PRO 6000 Blackwell Server Edition", "RTX PRO 6000");
  ("NVIDIA RTX PRO 6000 Blackwell Workstation Edition", "RTX PRO 6000");
  ("NVIDIA RTX PRO 6000 Blackwell Max-Q Workstation Edition", "RTX PRO 6000");
  ("NVIDIA RTX PRO 6000D Blackwell Workstation Edition", "RTX PRO 6000D");
  ("NVIDIA RTX 6000D", "RTX PRO 6000D");
  ("NVIDIA L4", "L4");
  ("NVIDIA L40S", "L40S");
  ("NVIDIA L40", "L40");
  ("NVIDIA RTX 2000 Ada Generation", "RTX 2000 Ada Generation");
  ("NVIDIA A100 80GB PCIe", "A100");
  ("NVIDIA A100-SXM4-80GB", "A100");
  ("NVIDIA A100-PCIE-40GB", "A100 40GB");
  ("NVIDIA A100-SXM4-40GB", "A100 40GB");
  ("NVIDIA A800 80GB PCIe", "A800");
  ("NVIDIA CMP 170HX", "CMP 170HX");
  ("NVIDIA A10 Tensor Core GPU", "A10");
  ("NVIDIA RTX A6000", "RTX A6000");
  ("NVIDIA RTX A5000", "RTX A5000");
  ("NVIDIA RTX A4500", "RTX A4500");
  ("NVIDIA RTX A4000", "RTX A4000");
  ("NVIDIA RTX A2000", "RTX A2000");
  ("NVIDIA A40", "A40");
  ("NVIDIA A30", "A30");
  ("NVIDIA T4 Tensor Core GPU", "T4");
  ("NVIDIA Tesla V100 Tensor Core GPU", "V100");
  ("NVIDIA TITAN V", "TITAN V");
  ("NVIDIA GeForce RTX 3090 Ti", "RTX 3090 Ti");
  ("NVIDIA GeForce RTX 3090", "RTX 3090");
  ("NVIDIA GeForce RTX 3080 Ti", "RTX 3080 Ti");
  ("NVIDIA GeForce RTX 3080", "RTX 3080");
  ("NVIDIA GeForce RTX 3070 Ti", "RTX 3070 Ti");
  ("NVIDIA GeForce RTX 3070", "RTX 3070");
  ("NVIDIA GeForce RTX 3060 Ti", "RTX 3060 Ti");
  ("NVIDIA GeForce RTX 3060 Laptop GPU", "RTX 3060 Laptop");
  ("NVIDIA GeForce RTX 3060", "RTX 3060");
  ("NVIDIA GeForce RTX 3050", "RTX 3050");
  ("NVIDIA Quadro RTX 8000", "Quadro RTX 8000");
  ("NVIDIA Quadro RTX 6000", "Quadro RTX 6000");
  ("NVIDIA Quadro RTX 5000", "Quadro RTX 5000");
  ("NVIDIA TITAN RTX", "TITAN RTX");
  ("NVIDIA GeForce RTX 2080 Ti", "RTX 2080 Ti");
  ("NVIDIA GeForce RTX 2080 SUPER", "RTX 2080 SUPER");
  ("NVIDIA GeForce RTX 2070 SUPER", "RTX 2070 SUPER");
  ("NVIDIA GeForce RTX 2060 SUPER", "RTX 2060 SUPER");
  ("NVIDIA GeForce RTX 2060", "RTX 2060");
  ("NVIDIA GeForce GTX 1660 Ti", "GTX 1660 Ti");
  ("NVIDIA GeForce GTX 1660 SUPER", "GTX 1660 SUPER");
  ("NVIDIA GeForce GTX 1660", "GTX 1660");
  ("NVIDIA Tesla P100", "Tesla P100");
  ("NVIDIA Tesla P40", "Tesla P40");
  ("NVIDIA Quadro P4000", "Quadro P4000");
  ("NVIDIA TITAN Xp", "TITAN Xp");
  ("NVIDIA GeForce GTX 1080 Ti", "GTX 1080 Ti");
  ("NVIDIA GeForce GTX 1080", "GTX 1080");
  ("NVIDIA GeForce GTX 1070 Ti", "GTX 1070 Ti");
  ("NVIDIA GeForce GTX 1070", "GTX 1070");
  ("NVIDIA GeForce GTX 1060", "GTX 1060");
  ("NVIDIA Tesla M40", "Tesla M40")
].

(** [dict.update] with a literal, as doubles. *)
Definition price_update `{R : Rounding} (upd d : list (string * Q)) : list (string * Q) :=
  fold_left (fun d kv => dset kv.1 (rnd kv.2) d) upd d.

Definition key_of {V} (k : string) (d : list (string * V)) : res V :=
  match dget k d with Some v => Ok v | None => Raise KeyError end.

Definition copy_price (src dst : string) (d : list (string * Q)) : res (list (string * Q)) :=
  v ← key_of src d; Ok (dset dst v d).

(** [RENTAL_PRICES_PER_HOUR], built by the module's statements in order. *)
Definition RENTAL_PRICES_PER_HOUR `{R : Rounding} (machine_prices : list (string * Q))
    : res (list (string * Q)) :=
  d ← copy_price "NVIDIA RTX PRO 6000 Blackwell Workstation Edition"
        "NVIDIA RTX PRO 6000 Blackwell Server Edition" machine_prices;
  let d := dset "NVIDIA B300 SXM6 AC" (rnd (64 # 10)) d in
  d ← copy_price "NVIDIA RTX PRO 6000 Blackwell Workstation Edition"
        "NVIDIA RTX PRO 6000 Blackwell Max-Q Workstation Edition" d;
  d ← copy_price "NVIDIA B300 SXM6 AC" "NVIDIA B300 SXM6 PC" d;
  d ← copy_price "NVIDIA B300 SXM6 AC" "NVIDIA GB300" d;
  let d := dset "NVIDIA GeForce RTX 4090 48GB" (rnd (48 # 100)) d in
  Ok (price_update price_update_3 (price_update price_update_2 (price_update price_update_1 d))).

(** ** Caps and base models *)
Definition MAX_UNRENTED_GPUS_BY_TYPE : list (string * list (Z * Z)) :=
  dset "RTX 4090 48GB" [(1, 10); (8, 64)]
    (dset "GB300" (dget_or [] "B300" MAX_UNRENTED_LITERAL) MAX_UNRENTED_LITERAL).

Definition BASE_GPU_MAP : list (string * string) :=
  dset "NVIDIA GeForce RTX 4090 48GB" "RTX 4090 48GB"
    (dset "NVIDIA GB300" "GB300"
      (dset "NVIDIA B300 SXM6 PC" (dget_or "" "NVIDIA B300 SXM6 AC" BASE_GPU_LITERAL)
        BASE_GPU_LITERAL)).

(** [get_base_model_for_gpu]: [KeyError] on a model the table does not know. *)
Definition get_base_model_for_gpu (gpu_model : option string) : res string :=
  match gpu_model with
  | Some m => key_of m BASE_GPU_MAP
  | None => Raise KeyError
  end.

(** A custom price: a fixed one, or the sentinel [DefaultPrice(multiplier)]. *)
Inductive price :=
| PFixed (usd : Q)
| PDefault (multiplier : Q).

Definition star_1_8 : list (string * price) := [("*", PFixed 0); ("1", PDefault 1); ("8", PDefault 1)].

Definition GPU_COUNT_CUSTOM_PRICES : list (string * list (string * price)) := [
  ("*", star_1_8);
  ("NVIDIA B200", star_1_8);
  ("NVIDIA H100 80GB HBM3", star_1_8);
  ("NVIDIA H100 NVL", star_1_8);
  ("NVIDIA H100 PCIe", star_1_8);
  ("NVIDIA A100 80GB PCIe", star_1_8);
  ("NVIDIA A100-SXM4-80GB", star_1_8);
  ("NVIDIA RTX A6000", star_1_8);
  ("RTX PRO 6000", star_1_8)
].

(** ** [IncentiveConfig] *)
Record IncentiveConfig := mkConfig {
  cfg_algorithm : string;
  cfg_rental_incentive_gpu_types : list string;
  cfg_max_unrented_gpus : list (string * list (Z * Z));
  cfg_rental_prices_per_hour : list (string * Q);
  cfg_gpu_count_custom_prices : list (string * list (string * price))
}.

(** The default of [rental_incentive_gpu_types]: types with a positive bucket cap. *)
Definition types_with_positive_cap (caps : list (string * list (Z * Z))) : list string :=
  map fst (List.filter (fun kv => existsb (fun bc => 0 <? bc.2) kv.2) caps).

Definition validate_algorithm (v : string) : res string :=
  if in_list v ["default"; "rental_price"] then Ok v else Raise ValueError.

(** [validate_max_unrented_gpus] on an int-to-int table (the non-int cases are
    excluded by the type). *)
Definition validate_max_unrented_gpus (v : list (string * list (Z * Z)))
    : res (list (string * list (Z * Z))) :=
  if forallb (fun kv => forallb (fun bc => (0 <? bc.1) && (0 <=? bc.2)) kv.2) v
  then Ok v else Raise ValueError.

Definition validate_rental_prices (v : list (string * Q)) : res (list (string * Q)) :=
  if forallb (fun kv => negb (Qltb kv.2 0)) v then Ok v else Raise ValueError.

(** [IncentiveConfig(...)] with explicit values: the field validators run. *)
Definition make_config (c : IncentiveConfig) : res IncentiveConfig :=
  _ ← validate_algorithm (cfg_algorithm c);
  _ ← validate_max_unrented_gpus (cfg_max_unrented_gpus c);
  _ ← validate_rental_prices (cfg_rental_prices_per_hour c);
  Ok c.

(** [IncentiveConfig()]: every field at its default (defaults are not validated). *)
Definition default_config `{R : Rounding} (machine_prices : list (string * Q))
    : res IncentiveConfig :=
  prices ← RENTAL_PRICES_PER_HOUR machine_prices;
  Ok {|
    cfg_algorithm := "rental_price";
    cfg_rental_incentive_gpu_types := types_with_positive_cap MAX_UNRENTED_GPUS_BY_TYPE;
    cfg_max_unrented_gpus := MAX_UNRENTED_GPUS_BY_TYPE;
    cfg_rental_prices_per_hour := prices;
    cfg_gpu_count_custom_prices := GPU_COUNT_CUSTOM_PRICES
  |}.

(** [cap_spec = config.max_unrented_gpus.get(base_model, {})] *)
Definition cap_spec_of (c : IncentiveConfig) (base_model : string) : list (Z * Z) :=
  dget_or [] base_model (cfg_max_unrented_gpus c).

(** ** [incentive/utils.py]: [get_hourly_rate] *)
Section Rates.
Context `{R : Rounding}.
Local Open Scope float_scope.

Definition get_hourly_rate (gpu_model : option string) (gpu_count : Z)
    (custom_prices : list (string * list (string * price)))
    (default_prices : list (string * Q)) : Q :=
  let m := match gpu_model with Some m => m | None => "" end in
  let known := match gpu_model with Some m => din m custom_prices | None => false end in
  let gpu_config :=
    if known then dget m custom_prices else dget "*" custom_prices in
  match gpu_config with
  | None => 0%Q
  | Some gc =>
      let value := match dget (Text.str_of_Z gpu_count) gc with
                   | Some v => Some v
                   | None => dget "*" gc
                   end in
      match value with
      | None => 0%Q
      | Some (PDefault multiplier) =>
          (match gpu_model with Some m => dget_or 0%Q m default_prices | None => 0%Q end)
            ⊗ multiplier
      | Some (PFixed usd) => rnd usd
      end
  end.
End Rates.

(** ** [incentive/eligibility.py] *)
Definition is_missing_discord_after_cutoff (st : Settings) (now : Z) (r : JobResult) : bool :=
  (DISCORD_INCENTIVE_CUTOFF st <=? now) && negb (jr_provider_discord_connected r).

Definition earns_spot_rental_incentive (st : Settings) (r : JobResult) : bool :=
  ENABLE_SPOT_RENTAL_INCENTIVE st && jr_is_spot r && jr_is_on_spot_pay_list r
  && jr_is_rented r && negb (jr_is_split_remainder r).
