(* ===== verification/Readings.v ===== *)
(** * What the scoring code reads from Redis and from outside

    [services/redis_service.py] ([get_portion_per_gpu_type],
    [get_executor_uptime]), the default rates of [services/const.py], the power
    cap revert history of [services/gpu_power_limit.py], and the record [Env] of
    everything a scoring cycle reads without writing.  The clock is read once per
    cycle: [env_now] is naive UTC seconds, [env_time] the unix time as a float. *)

From Stdlib Require Import Ascii String.
From S2P Require Import Prelude Float64 PyValue JobResult IncentiveConfig.

Local Open Scope string_scope.
Local Open Scope list_scope.
Local Open Scope Z_scope.

(** ** Default emission portion per GPU model *)
Definition GPU_MODEL_RATES_LITERAL : list (string * Q) := [
  ("NVIDIA B300 SXM6 AC", 1 # 20);
  ("NVIDIA B200", 1 # 20);
  ("NVIDIA H200", 14 # 25);
  ("NVIDIA H200 NVL", 49 # 100);
  ("NVIDIA H100 80GB HBM3", 1 # 10);
  ("NVIDIA H100 NVL", 1 # 100);
  ("NVIDIA H100 PCIe", 1 # 100);
  ("NVIDIA H800 80GB HBM3", 1 # 50);
  ("NVIDIA H800 NVL", 1 # 100);
  ("NVIDIA H800 PCIe", 1 # 100);
  ("NVIDIA GeForce RTX 5080", 0);
  ("NVIDIA GeForce RTX 5070 Ti", 0);
  ("NVIDIA GeForce RTX 5070", 0);
  ("NVIDIA GeForce RTX 5060 Ti", 0);
  ("NVIDIA GeForce RTX 5060", 0);
  ("NVIDIA GeForce RTX 5090", 1 # 40);
  ("NVIDIA GeForce RTX 5090 D", 0);
  ("NVIDIA GeForce RTX 4080 SUPER", 0);
  ("NVIDIA GeForce RTX 4080", 0);
  ("NVIDIA GeForce RTX 4070 Ti", 0);
  ("NVIDIA GeForce RTX 4070 Ti SUPER", 0);
  ("NVIDIA GeForce RTX 4070 SUPER", 0);
  ("NVIDIA GeForce RTX 4070", 0);
  ("NVIDIA GeForce RTX 4060 Ti", 0);
  ("NVIDIA GeForce RTX 4060", 0);
  ("NVIDIA GeForce RTX 4090", 1 # 20);
  ("NVIDIA GeForce RTX 4090 D", 1 # 50);
  ("NVIDIA GeForce RTX 4090 48GB", 0);
  ("NVIDIA RTX PRO 2000 Blackwell", 0);
  ("NVIDIA RTX PRO 4000 Blackwell", 0);
  ("NVIDIA RTX PRO 4500 Blackwell", 0);
  ("NVIDIA RTX PRO 4500 Blackwell Server Edition", 0);
  ("NVIDIA RTX PRO 5000 Blackwell", 0);
  ("NVIDIA RTX 4500 Ada Generation", 0);
  ("NVIDIA RTX 5000 Ada Generation", 0);
  ("NVIDIA RTX 5880 Ada Generation", 0);
  ("NVIDIA RTX 6000 Ada Generation", 1 # 100);
  ("NVIDIA L4", 1 # 100);
  ("NVIDIA L40S", 1 # 100);
  ("NVIDIA L40", 1 # 100);
  ("NVIDIA A100 80GB PCIe", 1 # 100);
  ("NVIDIA A100-SXM4-80GB", 1 # 20);
  ("NVIDIA A100-PCIE-40GB", 0);
  ("NVIDIA A100-SXM4-40GB", 0);
  ("NVIDIA A800 80GB PCIe", 0);
  ("NVIDIA CMP 170HX", 0);
  ("NVIDIA A10 Tensor Core GPU", 0);
  ("NVIDIA RTX A6000", 9 # 1000);
  ("NVIDIA RTX PRO 6000 Blackwell Server Edition", 1 # 40);
  ("NVIDIA RTX PRO 6000 Blackwell Workstation Edition", 27 # 1000);
  ("NVIDIA RTX PRO 6000 Blackwell Max-Q Workstation Edition", 3 # 125);
  ("NVIDIA RTX PRO 6000D Blackwell Workstation Edition", 0);
  ("NVIDIA RTX 6000D", 0);
  ("NVIDIA RTX A5000", 1 # 500);
  ("NVIDIA RTX A4500", 1 # 500);
  ("NVIDIA RTX A4000", 1 # 500);
  ("NVIDIA RTX A2000", 0);
  ("NVIDIA T4 Tensor Core GPU", 0);
  ("NVIDIA Tesla V100 Tensor Core GPU", 0);
  ("NVIDIA TITAN V", 0);
  ("NVIDIA GeForce RTX 3090 Ti", 0);
  ("NVIDIA GeForce RTX 3090", 1 # 50);
  ("NVIDIA GeForce RTX 3080 Ti", 0);
  ("NVIDIA GeForce RTX 3080", 0);
  ("NVIDIA GeForce RTX 3070 Ti", 0);
  ("NVIDIA GeForce RTX 3070", 0);
  ("NVIDIA GeForce RTX 3060 Ti", 0);
  ("NVIDIA GeForce RTX 3060 Laptop GPU", 0);
  ("NVIDIA GeForce RTX 3060", 0);
  ("NVIDIA GeForce RTX 3050", 0);
  ("NVIDIA Quadro RTX 8000", 0);
  ("NVIDIA Quadro RTX 6000", 0);
  ("NVIDIA Quadro RTX 5000", 0);
  ("NVIDIA TITAN RTX", 0);
  ("NVIDIA GeForce RTX 2080 Ti", 0);
  ("NVIDIA GeForce RTX 2080 SUPER", 0);
  ("NVIDIA GeForce RTX 2070 SUPER", 0);
  ("NVIDIA GeForce RTX 2060 SUPER", 0);
  ("NVIDIA GeForce RTX 2060", 0);
  ("NVIDIA GeForce GTX 1660 Ti", 0);
  ("NVIDIA GeForce GTX 1660 SUPER", 0);
  ("NVIDIA GeForce GTX 1660", 0);
  ("NVIDIA Tesla P100", 0);
  ("NVIDIA Tesla P40", 0);
  ("NVIDIA Quadro P4000", 0);
  ("NVIDIA TITAN Xp", 0);
  ("NVIDIA GeForce GTX 1080 Ti", 0);
  ("NVIDIA GeForce GTX 1080", 0);
  ("NVIDIA GeForce GTX 1070 Ti", 0);
  ("NVIDIA GeForce GTX 1070", 0);
  ("NVIDIA GeForce GTX 1060", 0);
  ("NVIDIA Tesla M40", 0)
]%Q.

Definition GPU_MODEL_RATES : list (string * Q) :=
  let b300 := dget_or 0%Q "NVIDIA B300 SXM6 AC" GPU_MODEL_RATES_LITERAL in
  dset "NVIDIA GB300" b300 (dset "NVIDIA B300 SXM6 PC" b300 GPU_MODEL_RATES_LITERAL).

Section Redis.
Context `{R : Rounding}.

(** [RedisService.get_portion_per_gpu_type]; [stored] is the hash the service
    keeps, whose values are [str] of finite floats. *)
Definition get_portion_per_gpu_type (stored : string -> option Q) (gpu_type : option string) : Q :=
  match gpu_type with
  | None => 0%Q
  | Some g =>
      let portion := match stored g with Some q => q | None => 0%Q end in
      if Qeqb portion 0 then rnd (dget_or 0%Q g GPU_MODEL_RATES) else portion
  end.
End Redis.

(** [RedisService.get_executor_uptime]; [stored] is the hash of decimal strings. *)
Definition get_executor_uptime (stored : string -> option string) (executor : ExecutorSSHInfo) : Z :=
  match stored (ex_address executor ++ ":" ++ Text.str_of_Z (ex_port executor))%string with
  | None => 0
  | Some data =>
      if String.eqb data "" then 0
      else match Text.py_int data with Some n => n | None => 0 end
  end.

(** ** Power cap reverts *)
Record GpuPowerCapRevert := mkRevert {
  pr_observed_at : Q;
  pr_pod_id : string;
  pr_gpu_uuid : string;
  pr_capped_to_watts : Z;
  pr_found_watts : Z
}.

Definition CAP_REVERT_WINDOW_SECONDS : Z := 24 * 3600.

(** [_reverts_inside_window] *)
Definition reverts_inside_window `{R : Rounding} (reverts : list GpuPowerCapRevert) (now : Q)
    : list GpuPowerCapRevert :=
  List.filter (fun v => Qleb (fsub now (pr_observed_at v)) (inject_Z CAP_REVERT_WINDOW_SECONDS)) reverts.

(** [_reverts_of_jobs_not_already_recorded] *)
Fixpoint reverts_not_seen (seen_pod_ids : list string) (reverted_gpus : list GpuPowerCapRevert)
    : list GpuPowerCapRevert :=
  match reverted_gpus with
  | [] => []
  | v :: rest =>
      if in_list (pr_pod_id v) seen_pod_ids then reverts_not_seen seen_pod_ids rest
      else v :: reverts_not_seen (seen_pod_ids ++ [pr_pod_id v]) rest
  end.
Definition reverts_of_jobs_not_already_recorded (reverted_gpus already_recorded : list GpuPowerCapRevert)
    : list GpuPowerCapRevert :=
  reverts_not_seen (map pr_pod_id already_recorded) reverted_gpus.

(** ** Everything a cycle reads *)
Record Env := mkEnv {
  env_settings : Settings;
  env_config : IncentiveConfig;
  env_shared : SharedConfig;
  env_default_burn_emission : Q;
  env_now : Z;
  env_time : Q;
  env_portions : string -> option Q;
  env_uptimes : string -> option string;
  (** the stored revert history of an executor; empty when Redis does not answer *)
  env_revert_history : string -> list GpuPowerCapRevert;
  env_tao_price : option Q;
  env_alpha_rate : option Q
}.

(** [read_gpu_power_cap_reverts] *)
Definition read_gpu_power_cap_reverts `{R : Rounding} (env : Env) (executor_id : string)
    : list GpuPowerCapRevert :=
  reverts_inside_window (env_revert_history env executor_id) (env_time env).
