(* ===== verification/Burn.v ===== *)
(** * Burn emission

    [incentive/burn_service.py]: the burn share is split over the slots of
    [NEW_BURNERS]; a uid whose coldkey is not the configured one gets nothing. *)

From Stdlib Require Import String.
From S2P Require Import Prelude Float64 PyValue JobResult IncentiveConfig.

Local Open Scope Z_scope.

(** What the scoring code reads of [bittensor.NeuronInfo]. *)
Record Neuron := mkNeuron { n_uid : Z; n_hotkey : string; n_coldkey : string }.

(** [_burner_coldkey_matches] *)
Definition burner_coldkey_matches (st : Settings) (m : Neuron) : bool :=
  match dget (n_uid m) (BURNER_COLDKEYS st) with
  | None => true
  | Some expected => String.eqb (n_coldkey m) expected
  end.

(** [verified_burner_hotkey]: [IndexError] when no burner slot is configured. *)
Definition verified_burner_hotkey (st : Settings) (miners : list Neuron) : res (option string) :=
  match NEW_BURNERS st with
  | [] => Raise IndexError
  | burner_uid :: _ =>
      Ok (match List.find (fun m => n_uid m =? burner_uid) miners with
          | None => None
          | Some burner =>
              if burner_coldkey_matches st burner then Some (n_hotkey burner) else None
          end)
  end.

(** [Counter(burner_slots).get(uid, 0)] *)
Definition slots_of (st : Settings) (uid : Z) : Z :=
  Z.of_nat (List.length (List.filter (fun u => u =? uid) (NEW_BURNERS st))).

Section Burn.
Context `{R : Rounding}.
Local Open Scope float_scope.

(** One iteration of [_calculate_new_burn_logic]. *)
Definition burn_step (st : Settings) (per_slot : Q) (d : list (string * Q)) (m : Neuron)
    : list (string * Q) :=
  let slots := slots_of st (n_uid m) in
  if slots =? 0 then d
  else if negb (burner_coldkey_matches st m) then d
  else dset (n_hotkey m) (per_slot ⊗ fint slots) d.

(** [BurnService._calculate_new_burn_logic] *)
Definition calculate_new_burn_logic (st : Settings) (miners : list Neuron) (burn_share : Q)
    : res (list (string * Q)) :=
  per_slot ← pydiv burn_share (fint (Z.of_nat (length (NEW_BURNERS st))));
  Ok (fold_left (burn_step st per_slot) miners []).

(** [BurnService.calculate_burn_scores] (the rest of the method only logs). *)
Definition calculate_burn_scores (st : Settings) (miners : list Neuron) (burn_share : Q)
    : res (list (string * Q)) :=
  calculate_new_burn_logic st miners burn_share.

(** [BurnService.is_burner] *)
Definition is_burner (st : Settings) (uid : Z) : bool := bool_decide (uid ∈ NEW_BURNERS st).

(** Who is paid burn: a slot holder under the configured coldkey. *)
Definition is_paid_burner (st : Settings) (m : Neuron) : bool :=
  negb (slots_of st (n_uid m) =? 0) && burner_coldkey_matches st m.
End Burn.

Lemma slots_of_pos st uid : 0 <= slots_of st uid.
Proof. unfold slots_of. lia. Qed.

Section BurnFacts.
Context `{R : Rounding}.

Lemma burn_step_skip st p d m : is_paid_burner st m = false -> burn_step st p d m = d.
Proof.
  unfold burn_step, is_paid_burner. destruct (_ =? 0), (burner_coldkey_matches _ _); cbn;
    congruence.
Qed.

Lemma burn_step_paid st p d m : is_paid_burner st m = true ->
  burn_step st p d m = dset (n_hotkey m) (fmul p (fint (slots_of st (n_uid m)))) d.
Proof.
  unfold burn_step, is_paid_burner. destruct (_ =? 0), (burner_coldkey_matches _ _); cbn;
    congruence.
Qed.

Lemma burn_fold_inv st p miners d (P : string -> Q -> Prop) :
  (forall k v, (k, v) ∈ d -> P k v) ->
  (forall m, m ∈ miners -> is_paid_burner st m = true ->
     P (n_hotkey m) (fmul p (fint (slots_of st (n_uid m))))) ->
  forall k v, (k, v) ∈ fold_left (burn_step st p) miners d -> P k v.
Proof.
  revert d. induction miners as [|m ms IH]; cbn; intros d Hd Hm; [done|].
  apply IH; [|intros; apply Hm; set_solver].
  destruct (is_paid_burner st m) eqn:E.
  - rewrite burn_step_paid by done. intros k v Hin.
    apply elem_of_dset in Hin as [[-> ->]|]; [apply Hm; set_solver | auto].
  - by rewrite burn_step_skip.
Qed.
End BurnFacts.

(** Slots of [NEW_BURNERS] whose uid is held by a paid burner. *)
Definition covered_slots (st : Settings) (miners : list Neuron) : Z :=
  Z.of_nat (List.length (List.filter
    (fun u => existsb (fun m => is_paid_burner st m && (n_uid m =? u)) miners) (NEW_BURNERS st))).

Fixpoint paid_slots (st : Settings) (miners : list Neuron) : Z :=
  match miners with
  | [] => 0
  | m :: ms => (if is_paid_burner st m then slots_of st (n_uid m) else 0) + paid_slots st ms
  end.

(** With one neuron per uid, summing each paid burner's slots counts every
    covered slot once. *)
Lemma paid_slots_covered st miners :
  NoDup (map n_uid miners) -> paid_slots st miners = covered_slots st miners.
Proof.
  unfold covered_slots. intros Hnd. induction miners as [|m ms IH]; cbn.
  - by induction (NEW_BURNERS st).
  - unfold slots_of. cbn in Hnd. apply NoDup_cons in Hnd as [Hn Hnd]. rewrite IH by done. clear IH.
    assert (forall u, n_uid m = u -> existsb (fun m0 => is_paid_burner st m0 && (n_uid m0 =? u)) ms = false)
      as Hdisj.
    { intros u Hu. apply not_true_iff_false. intros (m0 & Hin & Hm0)%existsb_exists.
      apply andb_true_iff in Hm0 as [_ Hm0%Z.eqb_eq]. apply Hn.
      rewrite Hu, <- Hm0. apply list_elem_of_fmap. exists m0. by rewrite list_elem_of_In. }
    destruct (is_paid_burner st m) eqn:Hp; cbn; [|done].
    induction (NEW_BURNERS st) as [|u us IHu]; cbn; [done|].
    rewrite (Z.eqb_sym (n_uid m) u). destruct (Z.eqb_spec u (n_uid m)) as [E|E]; cbn.
    + rewrite (Hdisj u) by done. cbn. lia.
    + destruct (existsb _ ms); cbn; lia.
Qed.

Lemma covered_slots_le st miners :
  0 <= covered_slots st miners <= Z.of_nat (length (NEW_BURNERS st)).
Proof.
  unfold covered_slots. split; [lia|]. apply inj_le.
  induction (NEW_BURNERS st) as [|u us IH]; cbn; [done|]. destruct (existsb _ _); cbn; lia.
Qed.

(** The keys written by the loop. *)
Lemma burn_fold_sum st p miners d :
  NoDup (map n_hotkey miners) ->
  (forall m, m ∈ miners -> dget (n_hotkey m) d = None) ->
  (Qsum (dvalues (fold_left (@burn_step exact_rounding st p) miners d))
   == Qsum (dvalues d) + p * inject_Z (paid_slots st miners))%Q.
Proof.
  revert d. induction miners as [|m ms IH]; cbn; intros d Hnd Hd.
  - change (inject_Z 0) with 0%Q. ring.
  - apply NoDup_cons in Hnd as [Hn Hnd]. rewrite IH; [|done|].
    + destruct (is_paid_burner st m) eqn:E.
      * rewrite burn_step_paid, Qsum_dset by done. unfold dget_or.
        rewrite Hd by set_solver. rewrite inject_Z_plus. exactify. ring.
      * rewrite burn_step_skip by done. done.
    + intros m' Hm'. destruct (is_paid_burner st m) eqn:E.
      * rewrite burn_step_paid, dget_dset_ne; [apply Hd; set_solver| |done].
        intros Heq. apply Hn. rewrite Heq. by apply list_elem_of_fmap_2.
      * rewrite burn_step_skip by done. apply Hd. set_solver.
Qed.

(** Who a burn score belongs to. *)
Definition verified_burner (st : Settings) (miners : list Neuron) (hotkey : string) : Prop :=
  exists m, m ∈ miners /\ n_hotkey m = hotkey /\ n_uid m ∈ NEW_BURNERS st /\
    burner_coldkey_matches st m = true.

Lemma is_paid_burner_slot st m : is_paid_burner st m = true -> n_uid m ∈ NEW_BURNERS st.
Proof.
  unfold is_paid_burner, slots_of. intros [Hslot _]%andb_true_iff.
  destruct (List.filter _ _) as [|u us] eqn:E; [done|].
  assert (u ∈ List.filter (fun u => u =? n_uid m) (NEW_BURNERS st)) as Hu by (rewrite E; set_solver).
  apply elem_of_bfilter in Hu as [Hu ->%Z.eqb_eq]. done.
Qed.

(** Burn scores are never negative and only the holder of a burner slot
    whose coldkey is the configured one is paid, under any rounding. *)
Theorem burn_scores_only_verified `{R : Rounding} st miners burn_share scores :
  (0 <= burn_share)%Q ->
  calculate_burn_scores st miners burn_share = Ok scores ->
  forall hotkey v, (hotkey, v) ∈ scores -> (0 <= v)%Q /\ verified_burner st miners hotkey.
Proof.
  intros Hs H. unfold calculate_burn_scores, calculate_new_burn_logic, pydiv in H.
  destruct (Qeqb _ _); [done|]. cbn in H. injection H as <-.
  apply (burn_fold_inv st _ miners []
    (fun hotkey v => (0 <= v)%Q /\ verified_burner st miners hotkey)); [set_solver|].
  intros m Hm Hp. split.
  - apply fmul_nonneg; [apply fdiv_nonneg; [done | apply fint_nonneg; lia]|].
    apply fint_nonneg, slots_of_pos.
  - exists m. pose proof (is_paid_burner_slot _ _ Hp).
    apply andb_true_iff in Hp as [_ Hc]. done.
Qed.

(** In exact arithmetic the burn scores add up to the part of the burn share
    whose slots are held by verified burners; with every slot held, to the whole
    burn share: no burn emission is created or lost by the split. *)
Theorem burn_scores_conserve st miners burn_share scores :
  NEW_BURNERS st <> [] ->
  NoDup (map n_hotkey miners) -> NoDup (map n_uid miners) ->
  @calculate_burn_scores exact_rounding st miners burn_share = Ok scores ->
  (Qsum (dvalues scores) ==
     burn_share * inject_Z (covered_slots st miners) / inject_Z (Z.of_nat (length (NEW_BURNERS st))))%Q
  /\ ((forall u, u ∈ NEW_BURNERS st -> exists m, m ∈ miners /\ n_uid m = u /\ is_paid_burner st m = true) ->
      Qsum (dvalues scores) == burn_share)%Q.
Proof.
  intros Hne Hh Hu H.
  assert (0 < inject_Z (Z.of_nat (length (NEW_BURNERS st))))%Q as Hlen.
  { change 0%Q with (inject_Z 0). rewrite <- Zlt_Qlt. destruct (NEW_BURNERS st); cbn; [done|lia]. }
  unfold calculate_burn_scores, calculate_new_burn_logic, pydiv in H.
  destruct (Qeqb _ _); [done|]. cbn in H. injection H as <-.
  assert (Qsum (dvalues (fold_left (@burn_step exact_rounding st
      (@fdiv exact_rounding burn_share (@fint exact_rounding (Z.of_nat (length (NEW_BURNERS st))))))
      miners [])) == burn_share * inject_Z (covered_slots st miners) /
      inject_Z (Z.of_nat (length (NEW_BURNERS st))))%Q as E.
  { rewrite burn_fold_sum, paid_slots_covered by done. exactify. unfold dvalues; cbn. field. lra. }
  split; [done|]. intros Hall. rewrite E.
  assert (covered_slots st miners = Z.of_nat (length (NEW_BURNERS st))) as ->; [|field; lra].
  unfold covered_slots. f_equal. f_equal. clear -Hall.
  induction (NEW_BURNERS st) as [|u us IH]; cbn; [done|].
  destruct (Hall u ltac:(set_solver)) as (m & Hm & Hmu & Hp).
  assert (existsb (fun m => is_paid_burner st m && (n_uid m =? u)) miners = true) as ->.
  { apply existsb_exists. exists m. rewrite <- list_elem_of_In, Hp, Hmu, Z.eqb_refl. done. }
  f_equal. apply IH. intros; apply Hall; set_solver.
Qed.
