(* ===== verification/Fixtures.v ===== *)
(** * A small concrete cycle

    Data the witnesses evaluate the model on: one executor, results of an idle,
    a rented, a partially rented and a spot node, the default configuration over
    a short price table, and the readings of one cycle. *)

From Stdlib Require Import String.
From S2P Require Import Prelude Float64 PyValue JobResult IncentiveConfig Readings Burn.

Local Open Scope string_scope.
Local Open Scope list_scope.
Local Open Scope Z_scope.

(** A result as a passed validation leaves it: every scoring attribute unset. *)
Definition passed_result (uuid gpu_model : string) (gpu_count : Z) (rented : bool)
    (split_min : option Z) : JobResult := {|
  jr_spec := None;
  jr_executor_info := mkExecutor uuid "10.0.0.1" 8001 22 (Some (1 # 2)) None None;
  jr_score := 1; jr_job_score := 1;
  jr_collateral_deposited := false; jr_job_batch_id := "batch"; jr_validation_event := None;
  jr_gpu_model := Some gpu_model; jr_gpu_count := gpu_count; jr_sysbox_runtime := true;
  jr_nvidia_driver_version := "580.95.05"; jr_supports_gpu_splitting := match split_min with Some _ => true | None => false end;
  jr_gpu_splitting_min_count := split_min; jr_is_rented := rented; jr_rented_gpu_count := None;
  jr_is_split_remainder := false; jr_port_unpaid_gpu_count := 0; jr_is_spot := false;
  jr_is_on_spot_pay_list := false; jr_is_new_rentals_paused := false; jr_is_in_maintenance := false;
  jr_is_provider_banned := false; jr_is_hotkey_excluded_from_scoring := false;
  jr_provider_discord_connected := true; jr_is_provider_email_held := false;
  jr_rental_created_at := None; jr_default_job_owner := None; jr_has_lium_filler := false;
  jr_filler_revenue_per_gpu_hour := None; jr_filler_revenue_usd_per_hour := None;
  jr_attestation_digest := None; jr_executor_image_report := None; jr_ssh_host_key_verified := false;
  jr_availability_errors := None; jr_failure_reason_code := None; jr_duplicate_kept_by := None;
  jr_duplicate_shares_kept_row := false; jr_carried_for_renter_gpu_reset := false;
  jr_mining_score := None; jr_sysbox_multiplier := None; jr_driver_multiplier := None;
  jr_uptime_multiplier := None; jr_gpu_portion := None; jr_total_gpu_count := None;
  jr_incentive := None; jr_incentive_rented := None; jr_incentive_idle := None;
  jr_mining_share := None; jr_total_mining_score := None; jr_effective_rate := None;
  jr_hourly_rate := None; jr_max_cap := None; jr_count_bucket := None;
  jr_bucket_reassigned_from := None; jr_bucket_reassigned_from_multiplier := None;
  jr_total_unrented_by_gpu_type := None; jr_cap_dilution_applied := None;
  jr_eligible_for_rental_share := false; jr_spot_pay_candidate := false;
  jr_spot_pool_multiplier := None; jr_unbucketed_share := None; jr_unbucketed_rental_cost := None;
  jr_floor_top_up_rate := None; jr_unrented_cap_multiplier := None; jr_rental_share := None;
  jr_burn_share := None; jr_total_rental_cost := None; jr_rental_share_raw := None;
  jr_total_burn_emission := None; jr_validator_tao_price_usd := None;
  jr_validator_alpha_rate_tao_per_block := None; jr_estimated_epoch_emission_usd := None;
  jr_tempo_blocks := None; jr_seconds_per_block := None; jr_fixed_ratio := None;
  jr_incentive_logs := []; jr_zero_incentive_reasons := []; jr_mixed_formula_inputs := None
|}.

Definition h100 : string := "NVIDIA H100 80GB HBM3".
Definition idle_result : JobResult := passed_result "aaaa" h100 8 false None.
Definition rented_result : JobResult := passed_result "bbbb" h100 8 true None.

(** A node that may be split down to single GPUs. *)
Definition split_result : JobResult := passed_result "dddd" h100 8 false (Some 1).

(** A split node with three of its eight GPUs rented. *)
Definition partly_rented_result : JobResult :=
  set_rented_gpu_count (Some 3) (passed_result "eeee" h100 8 true (Some 1)).

(** An idle node with a filler, hence a filler-revenue floor. *)
Definition floored_result : JobResult :=
  set_filler_revenue_per_gpu_hour (Some 9%Q) (passed_result "cccc" h100 8 false None).

(** A result that reports the given GPU UUIDs. *)
Definition with_gpus (gpus : list string) (r : JobResult) : JobResult :=
  ltac:(jr_setter jr_spec) (Some [("gpu", JObj [("details", JList (map (fun g => JObj [("uuid", JStr g)]) gpus))])]) r.

Definition sample_settings : Settings := {|
  EXECUTOR_IMAGE_CHECK_ENFORCE := false; ENABLE_SPOT_RENTAL_INCENTIVE := false;
  SPOT_IDLE_PAY_SECURE_DECISION_ENABLED := false; ENABLE_UNRENTED_POWER_CAP_REVERT_LIMIT := false;
  RTX_4090_48GB_MODEL_ENABLED := false; SKIP_COLLATERAL_PENALTY := true;
  PORTION_FOR_UPTIME := 1; UPTIME_REQUIRED_MINUTES := 60 * 24 * 14;
  PORTION_FOR_SYSBOX := 1 # 4; PORTION_FOR_SYSBOX_UNRENTED := 1; PORTION_FOR_SYSBOX_RENTED := 1;
  SYSBOX_RENTED_CUTOFF := 1775217600; DISCORD_INCENTIVE_CUTOFF := 1781524800;
  MIN_NVIDIA_DRIVER_VERSION := "580.65.06"; MIN_DRIVER_CUTOFF := 1782820800;
  REFERRAL_EMISSION_SHARE := Fin (1 # 10); SCORING_EXCLUDED_HOTKEYS := "evil, bad";
  IDLE_INCENTIVE_EXCLUDED_HOTKEYS := ""; BURNERS := [4]; NEW_BURNERS := [47; 47; 48];
  BURNER_COLDKEYS := [(47, "cold")]
|}.

Definition sample_prices : list (string * Q) :=
  [("NVIDIA RTX PRO 6000 Blackwell Workstation Edition", 1%Q); (h100, 2%Q)].

Definition sample_shared : SharedConfig := {|
  sc_total_burn_emission := Fin (91 # 100); sc_machine_prices := sample_prices;
  sc_machine_max_price_rate := 2; sc_machine_prices_p90 := []; sc_soft_limit_price_rate := 2
|}.

Definition empty_config : IncentiveConfig := mkConfig "rental_price" [] [] [] [].
Definition sample_config `{R : Rounding} : IncentiveConfig :=
  match default_config sample_prices with Ok c => c | Raise _ => empty_config end.

Definition sample_env `{R : Rounding} : Env := {|
  env_settings := sample_settings; env_config := sample_config; env_shared := sample_shared;
  env_default_burn_emission := 91 # 100; env_now := 1790000000; env_time := 1790000000;
  env_portions := fun m => if String.eqb m h100 then Some 100%Q else None;
  env_uptimes := fun _ => Some "30000"; env_revert_history := fun _ => [];
  env_tao_price := Some 400%Q; env_alpha_rate := Some (1 # 20)
|}.

Definition exact_env : Env := @sample_env exact_rounding.
Definition binary64_env : Env := @sample_env binary64_rounding.

(** Two scored hotkeys. *)
Definition sample_heap : list JobResult := [rented_result; idle_result; floored_result].
Definition sample_jobs : list (string * list nat) := [("alice", [0%nat; 1%nat]); ("bob", [2%nat])].
Definition sample_counts : list (string * Z) := [(h100, 24)].

Definition burner : Neuron := mkNeuron 47 "burn" "cold".
Definition second_burner : Neuron := mkNeuron 48 "burn2" "cold2".
Definition sample_miners : list Neuron :=
  [mkNeuron 1 "alice" "ca"; burner; mkNeuron 2 "bob" "cb"; second_burner; mkNeuron 3 "evil" "ce"].
