(* ===== verification/Weights.v ===== *)
(** * Submitting weights to the chain

    [clients/subtensor_client.py]: the accumulated scores of a cycle become the
    u16 vector sent to the chain.  [process_weights_for_netuid] (bittensor) and
    the numpy float32 conversion are arguments of the model. *)

From Stdlib Require Import String.
From S2P Require Import Prelude Float64 PyValue JobResult IncentiveConfig Burn.

Local Open Scope Z_scope.

Definition member (s : string) (l : list string) : bool := bool_decide (s ∈ l).
Definition memberZ (z : Z) (l : list Z) : bool := bool_decide (z ∈ l).

(** [scored_registered_neurons] *)
Definition scored_registered_neurons (miners registered : list Neuron)
    (miner_scores : list (string * Q)) : list Neuron :=
  let selected := map n_hotkey miners in
  List.filter (fun n => din (n_hotkey n) miner_scores && negb (member (n_hotkey n) selected))
    registered.

Section Floats.
Context `{R : Rounding}.
Local Open Scope float_scope.

(** [fold_unregistered_into_burner] *)
Definition fold_unregistered_into_burner (miner_scores : list (string * Q))
    (present_hotkeys : list string) (burner_hotkey : option string) : list (string * Q) :=
  let folded := List.filter (fun kv => member kv.1 present_hotkeys) miner_scores in
  let lost := fsum (dvalues (List.filter (fun kv => negb (member kv.1 present_hotkeys)) miner_scores)) in
  match burner_hotkey with
  | Some b =>
      if Qltb 0 lost && member b present_hotkeys
      then dset b (dget_or 0%Q b folded ⊕ lost) folded else folded
  | None => folded
  end.

(** Python's [max] of a non-empty list of floats. *)
Definition list_max (w : Q) (ws : list Q) : Q := fold_left pymax ws w.

(** [round(wf / max_w * 65535)] *)
Definition scale_u16 (max_w wf : Q) : Z := Binary64.rhe ((wf ⊘ max_w) ⊗ fint 65535).

(** One entry of [_convert_weights_with_positive_floor]: the u16 value, and
    whether it was lifted from 0 to 1. *)
Definition u16_entry (max_w wf : Q) : Z * bool :=
  let v := scale_u16 max_w wf in if v =? 0 then (1, true) else (v, false).

Fixpoint convert_loop (max_w : Q) (l : list (Z * Q)) : list Z * list Z * list (Z * Q) :=
  match l with
  | [] => ([], [], [])
  | (u, wf) :: l' =>
      let '(us, vs, fl) := convert_loop max_w l' in
      if Qleb wf 0 then (us, vs, fl)
      else
        let '(v, lifted) := u16_entry max_w wf in
        (u :: us, v :: vs, if lifted then (u, wf) :: fl else fl)
  end.

(** [_convert_weights_with_positive_floor] *)
Definition convert_weights_with_positive_floor (uids : list Z) (weights : list Q)
    : list Z * list Z * list (Z * Q) :=
  match weights with
  | [] => ([], [], [])
  | w :: ws =>
      let max_w := list_max w ws in
      if Qleb max_w 0 then ([], [], []) else convert_loop max_w (combine uids weights)
  end.
End Floats.

(** [_select_floor_candidates] *)
Definition select_floor_candidates (uint_uids : list Z) (miners : list Neuron)
    (active_hotkeys : list string) (burn_uids : list Z) : list (Z * string) :=
  psort pair_leb
    (map (fun m => (n_uid m, n_hotkey m))
      (List.filter (fun m => member (n_hotkey m) active_hotkeys
                        && negb (memberZ (n_uid m) uint_uids)
                        && negb (memberZ (n_uid m) burn_uids)) miners)).

(** [_largest_burn_index]: [max] keeps the first of the largest. *)
Fixpoint largest_burn_from (i : nat) (best : option (nat * Z)) (uids weights : list Z)
    (burn_uids : list Z) : option (nat * Z) :=
  match uids, weights with
  | u :: us, w :: ws =>
      let best' :=
        if memberZ u burn_uids then
          match best with
          | None => Some (i, w)
          | Some (_, bw) => if bw <? w then Some (i, w) else best
          end
        else best in
      largest_burn_from (S i) best' us ws burn_uids
  | _, _ => best
  end.
Definition largest_burn_index (uids weights : list Z) (burn_uids : list Z) : option nat :=
  fst <$> largest_burn_from 0 None uids weights burn_uids.

(** The loop of [_apply_eligibility_floor]: one u16 unit per candidate, taken
    from the largest burn entry, until that entry is down to 1. *)
Fixpoint floor_loop (candidates : list (Z * string)) (burn_uids : list Z)
    (uids weights : list Z) (floored : list string) : list Z * list Z * list string :=
  match candidates with
  | [] => (uids, weights, floored)
  | (uid, hotkey) :: rest =>
      match largest_burn_index uids weights burn_uids with
      | None => (uids, weights, floored)
      | Some donor =>
          match weights !! donor with
          | Some w =>
              if w <=? 1 then (uids, weights, floored)
              else floor_loop rest burn_uids (uids ++ [uid])
                     (<[donor := w - 1]> weights ++ [1]) (floored ++ [hotkey])
          | None => (uids, weights, floored)
          end
      end
  end.

(** [_apply_eligibility_floor] *)
Definition apply_eligibility_floor (uint_uids uint_weights : list Z) (miners : list Neuron)
    (active_hotkeys : list string) (burn_uids : list Z) : list Z * list Z * list string :=
  floor_loop (select_floor_candidates uint_uids miners active_hotkeys burn_uids)
    burn_uids uint_uids uint_weights [].

(** [_classify_missing_scored_hotkeys] *)
Definition classify_missing_scored_hotkeys (miner_scores : list (string * Q))
    (selected registered active_hotkeys : list string) : list string * list string :=
  let missing :=
    psort String.leb
      (map fst (List.filter (fun kv => Qltb 0 kv.2 && member kv.1 registered
                                  && negb (member kv.1 selected)) miner_scores)) in
  (List.filter (fun h => member h active_hotkeys) missing,
   List.filter (fun h => negb (member h active_hotkeys)) missing).

(** [should_set_weights]: the decision on the chain readings. *)
Definition should_set_weights (last_update tempo : Z) : bool := tempo <=? last_update.

Section SetWeights.
Context `{R : Rounding}.
(** numpy's conversion to float32, and bittensor's processing of the vector. *)
Context (to_float32 : Q -> Q).
Context (process_weights_for_netuid : list Z -> list Q -> list Z * list Q).

(** [set_weights]: the vector handed to [subtensor.set_weights]; [None] when
    there are no scores and nothing is sent. *)
Definition set_weights (st : Settings) (served metagraph : list Neuron)
    (miner_scores : list (string * Q)) (active_hotkeys : list string)
    (include_registered_scored : bool) : res (option (list Z * list Z)) :=
  match miner_scores with
  | [] => Ok None
  | _ =>
      ms ← (if include_registered_scored then
              let miners := served ++ scored_registered_neurons served metagraph miner_scores in
              burner ← verified_burner_hotkey st metagraph;
              Ok (miners, fold_unregistered_into_burner miner_scores (map n_hotkey miners) burner)
            else Ok (served, miner_scores));
      let '(miners, scores) := ms in
      let uids := map n_uid miners in
      let weights := map (fun m => to_float32 (dget_or 0%Q (n_hotkey m) scores)) miners in
      let '(puids, pweights) := process_weights_for_netuid uids weights in
      let '(uint_uids, uint_weights, _) := convert_weights_with_positive_floor puids pweights in
      let '(uint_uids, uint_weights, _) :=
        apply_eligibility_floor uint_uids uint_weights miners active_hotkeys (NEW_BURNERS st) in
      Ok (Some (uint_uids, uint_weights))
  end.
End SetWeights.

(** ** Facts about the u16 conversion *)
Section ConvertFacts.
Context `{R : Rounding}.

Lemma list_max_ge_acc ws w : (w <= list_max w ws)%Q.
Proof.
  unfold list_max. revert w; induction ws as [|x ws IH]; cbn; intros w; [lra|].
  eapply Qle_trans; [apply pymax_l | apply IH].
Qed.
Lemma list_max_ge ws w x : x ∈ w :: ws -> (x <= list_max w ws)%Q.
Proof.
  revert w; induction ws as [|y ws IH]; intros w.
  - intros ->%list_elem_of_singleton. cbn. lra.
  - intros [->|H]%elem_of_cons; [apply list_max_ge_acc|]. cbn.
    apply elem_of_cons in H as [->|H].
    + eapply Qle_trans; [apply (pymax_r w)|apply (list_max_ge_acc ws)].
    + apply (IH (pymax w y)). set_solver.
Qed.
Lemma list_max_in ws w : list_max w ws ∈ w :: ws.
Proof.
  unfold list_max. revert w; induction ws as [|y ws IH]; cbn; intros w; [set_solver|].
  specialize (IH (pymax w y)). unfold pymax at 1 in IH. unfold pymax at 2 in IH.
  destruct (Qltb w y); set_solver.
Qed.

Lemma scale_u16_bounds max_w wf : (0 <= wf)%Q -> (wf <= max_w)%Q -> (0 < max_w)%Q ->
  0 <= scale_u16 max_w wf <= 65535.
Proof.
  intros H0 H1 H2. unfold scale_u16.
  assert (fint 65535 == inject_Z 65535)%Q as E by (apply rnd_int; done).
  assert (0 <= fdiv wf max_w <= 1)%Q as [L U].
  { split; [apply fdiv_nonneg; lra|]. apply rnd_le_1. apply Qle_shift_div_r; lra. }
  split.
  - rewrite <- (Binary64.rhe_Z 0). apply Binary64.rhe_mono.
    apply fmul_nonneg; [done | rewrite E; done].
  - rewrite <- (Binary64.rhe_Z 65535). apply Binary64.rhe_mono.
    apply Qle_trans with (rnd (inject_Z 65535)); [|pose proof (rnd_int 65535 ltac:(done)); lra].
    apply rnd_mono. rewrite E. change (inject_Z 65535) with (65535 # 1). nra.
Qed.

Lemma u16_entry_bounds max_w wf : (0 <= wf)%Q -> (wf <= max_w)%Q -> (0 < max_w)%Q ->
  1 <= (u16_entry max_w wf).1 <= 65535.
Proof.
  intros H0 H1 H2. pose proof (scale_u16_bounds max_w wf H0 H1 H2). unfold u16_entry.
  destruct (Z.eqb_spec (scale_u16 max_w wf) 0); cbn; lia.
Qed.

Lemma u16_entry_mono max_w w1 w2 : (0 < max_w)%Q -> (0 <= w1)%Q -> (w1 <= w2)%Q ->
  (w2 <= max_w)%Q -> (u16_entry max_w w1).1 <= (u16_entry max_w w2).1.
Proof.
  intros Hm H0 H1 H2.
  assert (scale_u16 max_w w1 <= scale_u16 max_w w2) as Hs.
  { apply Binary64.rhe_mono, rnd_mono.
    assert (fdiv w1 max_w <= fdiv w2 max_w)%Q.
    { apply rnd_mono. unfold Qdiv. apply Qmult_le_compat_r; [done|].
      apply Qlt_le_weak, Qinv_lt_0_compat. lra. }
    assert (0 <= fint 65535)%Q by (apply fint_nonneg; lia). nra. }
  pose proof (scale_u16_bounds max_w w1 ltac:(lra) ltac:(lra) ltac:(lra)).
  pose proof (scale_u16_bounds max_w w2 ltac:(lra) ltac:(lra) ltac:(lra)).
  unfold u16_entry.
  destruct (Z.eqb_spec (scale_u16 max_w w1) 0), (Z.eqb_spec (scale_u16 max_w w2) 0); cbn; lia.
Qed.

Lemma u16_entry_max max_w : (0 < max_w)%Q -> (u16_entry max_w max_w).1 = 65535.
Proof.
  intros H. assert (scale_u16 max_w max_w = 65535) as E; [|unfold u16_entry; by rewrite E].
  unfold scale_u16.
  assert (fmul (fdiv max_w max_w) (fint 65535) == inject_Z 65535)%Q as ->; [|apply Binary64.rhe_Z].
  pose proof (rnd_int 65535 ltac:(done)) as E. unfold fmul, fint. rewrite E.
  assert (fdiv max_w max_w == 1)%Q as ->.
  { unfold fdiv. assert (max_w / max_w == 1)%Q as -> by (field; lra). apply rnd_1. }
  by rewrite Qmult_1_l.
Qed.

(** The loop keeps the positive entries, in order. *)
Lemma convert_loop_spec max_w l :
  (convert_loop max_w l).1.1 = map fst (List.filter (fun uw => negb (Qleb uw.2 0)) l) /\
  (convert_loop max_w l).1.2
    = map (fun uw => (u16_entry max_w uw.2).1) (List.filter (fun uw => negb (Qleb uw.2 0)) l).
Proof.
  induction l as [|[u w] l [IH1 IH2]]; cbn; [done|].
  destruct (convert_loop max_w l) as [[us vs] fl]. cbn in *.
  destruct (Qleb w 0); cbn; [done|].
  destruct (u16_entry max_w w) as [v lifted] eqn:E. cbn. by rewrite IH1, IH2.
Qed.
End ConvertFacts.

Definition positive_entries (uids : list Z) (weights : list Q) : list (Z * Q) :=
  List.filter (fun uw => negb (Qleb uw.2 0)) (combine uids weights).

(** The five guarantees of the conversion, shared by the theorems below. *)
Lemma convert_weights_facts `{R : Rounding} uids weights us vs fl :
  length uids = length weights ->
  convert_weights_with_positive_floor uids weights = (us, vs, fl) ->
  us = map fst (positive_entries uids weights) /\
  length vs = length us /\
  (forall v, v ∈ vs -> 1 <= v <= 65535) /\
  (forall i j wi wj vi vj,
     (map snd (positive_entries uids weights)) !! i = Some wi ->
     (map snd (positive_entries uids weights)) !! j = Some wj ->
     vs !! i = Some vi -> vs !! j = Some vj -> (wi <= wj)%Q -> vi <= vj) /\
  (forall i wi vi, (map snd (positive_entries uids weights)) !! i = Some wi -> vs !! i = Some vi ->
     (forall w, w ∈ weights -> (w <= wi)%Q) -> vi = 65535).
Proof.
  intros Hlen H. unfold convert_weights_with_positive_floor in H.
  destruct weights as [|w ws]; [destruct uids; [|done]; by simplify_eq; set_solver|].
  set (mw := list_max w ws) in *.
  assert (forall u x, (u, x) ∈ positive_entries uids (w :: ws) -> (0 < x)%Q /\ x ∈ w :: ws) as Hpos.
  { intros u x [Hin Hb]%elem_of_bfilter. apply negb_true_iff in Hb; cbn in Hb; qbool. split; [done|].
    apply list_elem_of_In in Hin. apply in_combine_r in Hin. by apply list_elem_of_In. }
  destruct (Qleb mw 0) eqn:Hm; qbool.
  - simplify_eq. assert (positive_entries uids (w :: ws) = []) as ->; [|set_solver].
    destruct (positive_entries uids (w :: ws)) as [|[u x] l]; [done|].
    destruct (Hpos u x ltac:(set_solver)) as [Hx Hin]. apply list_max_ge in Hin. unfold mw in Hm. lra.
  - destruct (convert_loop_spec mw (combine uids (w :: ws))) as [E1 E2].
    rewrite H in E1, E2. cbn in E1, E2. fold (positive_entries uids (w :: ws)) in E1, E2. subst us vs.
    rewrite !length_map. split_and!; [done|done| | |].
    + intros v ([u x] & -> & Hin)%list_elem_of_fmap. destruct (Hpos _ _ Hin) as [Hx Hw].
      apply list_max_ge in Hw. apply u16_entry_bounds; cbn; try lra. done.
    + intros i j wi wj vi vj. rewrite !list_lookup_fmap.
      destruct (_ !! i) as [[ui xi]|] eqn:Ei; [|done]. destruct (_ !! j) as [[uj xj]|] eqn:Ej; [|done].
      cbn. intros [= ->] [= ->] [= <-] [= <-] Hle.
      apply list_elem_of_lookup_2, Hpos in Ei as [Hi Hi2]. apply list_elem_of_lookup_2, Hpos in Ej as [Hj Hj2].
      apply list_max_ge in Hi2, Hj2. apply u16_entry_mono; try lra; done.
    + intros i wi vi. rewrite !list_lookup_fmap.
      destruct (_ !! i) as [[ui xi]|] eqn:Ei; [|done]. cbn. intros [= ->] [= <-] Hall.
      apply list_elem_of_lookup_2, Hpos in Ei as [Hi Hi2]. apply list_max_ge in Hi2. fold mw in Hi2.
      pose proof (Hall _ (list_max_in ws w)) as Hmax. fold mw in Hmax.
      apply Z.le_antisymm; [apply u16_entry_bounds; try lra; done|].
      rewrite <- (u16_entry_max mw Hm). apply u16_entry_mono; lra.
Qed.

(** The u16 vector keeps exactly the entries with a positive weight, in
    order; every value is between 1 and 65535 (no positive weight is rounded
    away); a larger weight never gets a smaller value; and an entry holding the
    largest weight gets 65535.  Under any rounding. *)
Theorem convert_weights_spec `{R : Rounding} uids weights us vs fl :
  length uids = length weights ->
  convert_weights_with_positive_floor uids weights = (us, vs, fl) ->
  us = map fst (positive_entries uids weights) /\
  length vs = length us /\
  (forall v, v ∈ vs -> 1 <= v <= 65535) /\
  (forall i j wi wj vi vj,
     (map snd (positive_entries uids weights)) !! i = Some wi ->
     (map snd (positive_entries uids weights)) !! j = Some wj ->
     vs !! i = Some vi -> vs !! j = Some vj -> (wi <= wj)%Q -> vi <= vj) /\
  (forall i wi vi, (map snd (positive_entries uids weights)) !! i = Some wi -> vs !! i = Some vi ->
     (forall w, w ∈ weights -> (w <= wi)%Q) -> vi = 65535).
Proof. exact (convert_weights_facts uids weights us vs fl). Qed.

(** ** Facts about the eligibility floor *)
Section LargestBurn.
Context (burn_uids : list Z).

Definition burn_at (uids weights : list Z) (i : nat) (w : Z) : Prop :=
  exists u, uids !! i = Some u /\ u ∈ burn_uids /\ weights !! i = Some w.

Lemma largest_burn_from_spec i best uids weights j w :
  largest_burn_from i best uids weights burn_uids = Some (j, w) ->
  (best = Some (j, w) \/ exists k, j = (i + k)%nat /\ burn_at uids weights k w) /\
  (forall k v, burn_at uids weights k v -> v <= w) /\
  (forall b bw, best = Some (b, bw) -> bw <= w).
Proof.
  revert i best weights; induction uids as [|u us IH]; intros i best [|x ws]; cbn.
  1,2,3: intros ->; split_and!; [by left|intros [|] ? (? & ? & _ & ?); done|intros; simplify_eq; lia].
  intros H. apply IH in H as (H1 & H2 & H3). unfold memberZ in *. split_and!.
  - destruct H1 as [H1|(k & -> & v & Hv)].
    + case_bool_decide; [|by left]. destruct best as [[b bw]|].
      * destruct (bw <? x); simplify_eq; [right; exists 0%nat | by left].
        split; [lia|]. by exists u.
      * simplify_eq. right. exists 0%nat. split; [lia|]. by exists u.
    + right. exists (S k). split; [lia|]. by exists v.
  - intros [|k] v (v0 & Hu & Hb & Hw); cbn in *; simplify_eq.
    + rewrite bool_decide_true in H3 by done. destruct best as [[b bw]|]; [|by eapply H3].
      destruct (Z.ltb_spec bw v); [by eapply H3|]. specialize (H3 b bw eq_refl). lia.
    + apply (H2 k). by exists v0.
  - intros b bw ->. case_bool_decide; [|by eapply H3].
    destruct (Z.ltb_spec bw x); [specialize (H3 i x eq_refl); lia | by eapply H3].
Qed.

Lemma largest_burn_from_None i uids weights :
  largest_burn_from i None uids weights burn_uids = None ->
  forall k v, ~ burn_at uids weights k v.
Proof.
  assert (forall i p uids weights, largest_burn_from i (Some p) uids weights burn_uids <> None) as Hs.
  { clear. intros i p uids. revert i p.
    induction uids as [|u us IH]; intros i [b bw] [|w ws]; cbn; try done.
    destruct (memberZ _ _); [destruct (_ <? _)|]; apply IH. }
  revert i weights; induction uids as [|u us IH]; intros i [|x ws]; cbn; intros H k v (u' & Hu & Hb & Hw).
  1,2,3: by destruct k.
  unfold memberZ in H. destruct (bool_decide_reflect (u ∈ burn_uids)); [by apply Hs in H|].
  destruct k as [|k]; cbn in *; simplify_eq; [done|]. eapply (IH _ _ H k). by exists u'.
Qed.

Lemma largest_burn_index_Some uids weights i :
  largest_burn_index uids weights burn_uids = Some i ->
  exists w, burn_at uids weights i w /\ forall k v, burn_at uids weights k v -> v <= w.
Proof.
  unfold largest_burn_index. destruct (largest_burn_from _ _ _ _ _) as [[j w]|] eqn:E; [|done].
  cbn. intros [= ->]. apply largest_burn_from_spec in E as ([?|(k & -> & Hk)] & Hmax & _); [done|].
  exists w. done.
Qed.
End LargestBurn.

(** What the floor loop guarantees, relative to the vector it starts from. *)
Record floor_spec (burn_uids : list Z) (cand : list (Z * string))
    (uids weights uids' weights' : list Z) (fl : list string) : Prop := {
  fs_uids : exists n, uids' = uids ++ map fst (firstn n cand) /\ fl = map snd (firstn n cand) /\
              (n = length cand \/ forall k v, burn_at burn_uids uids' weights' k v -> v <= 1);
  fs_len : length weights' = length uids';
  fs_sum : Zsum weights' = Zsum weights;
  fs_miners : forall i u, uids !! i = Some u -> u ∉ burn_uids -> weights' !! i = weights !! i;
  fs_burners : forall i, (i < length uids)%nat -> forall w w', weights !! i = Some w ->
                 weights' !! i = Some w' -> w' <= w;
  fs_floor : forall i, (length uids <= i < length uids')%nat -> weights' !! i = Some 1;
  fs_pos : (forall w, w ∈ weights -> 1 <= w) -> forall w, w ∈ weights' -> 1 <= w
}.

Lemma floor_spec_stop burn cand uids weights :
  length weights = length uids ->
  (forall k v, burn_at burn uids weights k v -> v <= 1) ->
  floor_spec burn cand uids weights uids weights [].
Proof.
  intros Hl Hstop. split; try done.
  - exists 0%nat. cbn. rewrite app_nil_r. auto.
  - intros. simplify_eq. lia.
  - lia.
Qed.

Lemma floor_loop_spec burn cand uids weights fl0 :
  length weights = length uids ->
  (forall c, c ∈ cand -> c.1 ∉ burn) ->
  exists fl, (floor_loop cand burn uids weights fl0).2 = fl0 ++ fl /\
    floor_spec burn cand uids weights
      (floor_loop cand burn uids weights fl0).1.1 (floor_loop cand burn uids weights fl0).1.2 fl.
Proof.
  revert uids weights fl0; induction cand as [|[uid hk] rest IH]; intros uids weights fl0 Hl Hc; cbn.
  { exists []. rewrite app_nil_r. split; [done|]. split; try done; try (cbn; lia).
    - exists 0%nat. cbn. rewrite app_nil_r. auto.
    - intros. simplify_eq. lia. }
  destruct (largest_burn_index uids weights burn) as [i|] eqn:Ei.
  2:{ exists []. rewrite app_nil_r. split; [done|]. apply floor_spec_stop; [done|].
      intros k v Hk. unfold largest_burn_index in Ei. apply fmap_None in Ei.
      by eapply largest_burn_from_None in Ei. }
  apply largest_burn_index_Some in Ei as (w & (u & Hu & Hub & Hw) & Hmax). rewrite Hw.
  destruct (Z.leb_spec w 1) as [Hw1|Hw1].
  { exists []. rewrite app_nil_r. split; [done|]. apply floor_spec_stop; [done|].
    intros k v Hk. specialize (Hmax k v Hk). lia. }
  assert (i < length weights)%nat as Hi by (by eapply lookup_lt_Some).
  destruct (IH (uids ++ [uid]) (<[i := w - 1]> weights ++ [1]) (fl0 ++ [hk])) as (fl & E & S).
  { rewrite !length_app, length_insert. cbn. lia. }
  { intros c ?. apply Hc. set_solver. }
  exists (hk :: fl). rewrite E, <- app_assoc. split; [done|].
  destruct S as [(n & E1 & E2 & E3) Slen Ssum Sm Sb Sf Sp].
  rewrite length_app in *. cbn [length] in *.
  split.
  - exists (S n). cbn. rewrite E1 at 1. rewrite <- app_assoc. cbn. split_and!; [done|by f_equal|].
    destruct E3; [left; lia | by right].
  - done.
  - rewrite Ssum, Zsum_app, (Zsum_insert _ _ w) by done. cbn. lia.
  - intros j v Hj Hv. assert (j < length uids)%nat by (by eapply lookup_lt_Some).
    rewrite (Sm j v) by (try rewrite lookup_app_l; done).
    rewrite lookup_app_l by (rewrite length_insert; lia).
    rewrite list_lookup_insert_ne; [done|]. intros ->. simplify_eq. done.
  - intros j Hj x x' Hx Hx'. destruct (decide (i = j)) as [<-|Hne].
    + simplify_eq. assert (x' <= w - 1); [|lia]. eapply (Sb i); [lia| |done].
      rewrite lookup_app_l by (rewrite length_insert; lia). by rewrite list_lookup_insert_eq.
    + eapply (Sb j); [lia| |done]. rewrite lookup_app_l by (rewrite length_insert; lia).
      by rewrite list_lookup_insert_ne.
  - intros j Hj. destruct (decide (j = length uids)) as [->|]; [|apply Sf; lia].
    rewrite (Sm (length uids) uid).
    + rewrite lookup_app_r by (rewrite length_insert; lia). rewrite length_insert, Hl, Nat.sub_diag. done.
    + by rewrite list_lookup_middle.
    + apply (Hc (uid, hk)). set_solver.
  - intros Hp x Hx. apply Sp; [|done]. intros y [Hy|Hy%list_elem_of_singleton]%elem_of_app; [|lia].
    apply list_elem_of_lookup in Hy as (j & Hj). destruct (decide (i = j)) as [<-|].
    + rewrite list_lookup_insert_eq in Hj by done. simplify_eq. lia.
    + rewrite list_lookup_insert_ne in Hj by done. apply Hp. by eapply list_elem_of_lookup_2.
Qed.

Lemma floor_spec_upper burn cand uids weights uids' weights' fl b :
  length weights = length uids -> floor_spec burn cand uids weights uids' weights' fl ->
  1 <= b -> (forall w, w ∈ weights -> w <= b) -> forall w, w ∈ weights' -> w <= b.
Proof.
  intros Hl [(n & Hu & _) Slen _ _ Sb Sf _] Hb Hw w (i & Hi)%list_elem_of_lookup.
  assert (i < length uids')%nat as Hlt by (rewrite <- Slen; by eapply lookup_lt_Some).
  destruct (decide (i < length uids)%nat) as [C|C].
  - destruct (lookup_lt_is_Some_2 weights i) as [x Hx]; [lia|].
    specialize (Sb i C _ _ Hx Hi). apply list_elem_of_lookup_2, Hw in Hx. lia.
  - rewrite Sf in Hi by lia. simplify_eq. lia.
Qed.

(** Who may receive a floor unit: an active miner without an entry, not a burner. *)
Definition floor_eligible (uint_uids : list Z) (active : list string) (burn_uids : list Z)
    (m : Neuron) : Prop :=
  n_hotkey m ∈ active /\ n_uid m ∉ uint_uids /\ n_uid m ∉ burn_uids.

Lemma elem_of_floor_candidates uids miners active burn c :
  c ∈ select_floor_candidates uids miners active burn <->
  exists m, m ∈ miners /\ floor_eligible uids active burn m /\ c = (n_uid m, n_hotkey m).
Proof.
  unfold select_floor_candidates, floor_eligible, member, memberZ.
  rewrite elem_of_psort, list_elem_of_fmap. split.
  - intros (m & -> & [Hm Hb]%elem_of_bfilter). exists m.
    rewrite !andb_true_iff, !negb_true_iff, bool_decide_eq_true, !bool_decide_eq_false in Hb.
    naive_solver.
  - intros (m & Hm & Hb & ->). exists m. split; [done|]. apply elem_of_bfilter. split; [done|].
    rewrite !andb_true_iff, !negb_true_iff, bool_decide_eq_true, !bool_decide_eq_false. naive_solver.
Qed.

Lemma floor_candidates_NoDup uids miners active burn :
  NoDup (map n_uid miners) -> NoDup (map fst (select_floor_candidates uids miners active burn)).
Proof.
  intros H. unfold select_floor_candidates.
  rewrite (Permutation_map fst (psort_perm pair_leb _)), map_map. cbn. by apply map_filter_NoDup.
Qed.

(** The eligibility floor redistributes u16 units and never creates or
    destroys one: the total is kept, entries of uids that are not burners keep
    their value, burner entries only shrink, every appended uid is an active
    miner that had no entry and holds exactly 1; no uid is listed twice and no
    entry drops to 0; and afterwards either every active miner has an entry or no burner
    has more than one unit left to give. *)
Theorem eligibility_floor_spec uids weights miners active burn us vs floored :
  length weights = length uids -> NoDup uids -> NoDup (map n_uid miners) ->
  (forall w, w ∈ weights -> 1 <= w) ->
  apply_eligibility_floor uids weights miners active burn = (us, vs, floored) ->
  length vs = length us /\ NoDup us /\ Zsum vs = Zsum weights /\
  (forall v, v ∈ vs -> 1 <= v) /\
  (forall i u, uids !! i = Some u -> us !! i = Some u) /\
  (forall i u, uids !! i = Some u -> u ∉ burn -> vs !! i = weights !! i) /\
  (forall i u w v, uids !! i = Some u -> weights !! i = Some w -> vs !! i = Some v -> v <= w) /\
  (forall i u, (length uids <= i)%nat -> us !! i = Some u ->
     vs !! i = Some 1 /\ exists m, m ∈ miners /\ floor_eligible uids active burn m /\ u = n_uid m) /\
  ((forall m, m ∈ miners -> n_hotkey m ∈ active -> n_uid m ∉ burn -> n_uid m ∈ us) \/
   (forall i u v, us !! i = Some u -> u ∈ burn -> vs !! i = Some v -> v <= 1)).
Proof.
  intros Hl Hnd Hmu Hpos H. unfold apply_eligibility_floor in H.
  set (cand := select_floor_candidates uids miners active burn) in *.
  assert (forall c, c ∈ cand -> exists m, m ∈ miners /\ floor_eligible uids active burn m
            /\ c = (n_uid m, n_hotkey m)) as Hc by (intros; by apply elem_of_floor_candidates).
  destruct (floor_loop_spec burn cand uids weights []) as (fl & E & S); [done| |].
  { intros c (m & _ & (_ & _ & ?) & ->)%Hc. done. }
  rewrite H in E, S. cbn in E, S.
  destruct S as [(n & -> & -> & Hdone) Slen Ssum Sm Sb Sf Sp]. clear E.
  assert (NoDup (map fst (firstn n cand))) as Hcd.
  { eapply (NoDup_app (map fst (firstn n cand)) (map fst (skipn n cand))).
    rewrite <- map_app, firstn_skipn. by apply floor_candidates_NoDup. }
  assert (forall u, u ∈ map fst (firstn n cand) -> exists m, m ∈ miners /\
            floor_eligible uids active burn m /\ u = n_uid m) as Hin.
  { intros u (c & -> & Hcn)%list_elem_of_fmap.
    destruct (Hc c) as (m & ? & ? & ->); [|by exists m].
    rewrite <- (firstn_skipn n cand). set_solver. }
  split_and!; [done| |done|by apply Sp| | | | |].
  - apply NoDup_app. split_and!; [done| |done].
    intros u Hu (m & _ & (_ & Hn & _) & ->)%Hin. done.
  - intros i u Hi. rewrite lookup_app_l; [done|]. by eapply lookup_lt_Some.
  - done.
  - intros i u w v Hi. apply Sb. by eapply lookup_lt_Some.
  - intros i u Hi Hu. split.
    + apply Sf. split; [done|]. by eapply lookup_lt_Some.
    + rewrite lookup_app_r in Hu by done. by apply list_elem_of_lookup_2, Hin in Hu.
  - destruct Hdone as [->|Hd]; [left|right].
    + intros m Hm Ha Hb. rewrite firstn_all. apply elem_of_app.
      destruct (decide (n_uid m ∈ uids)) as [|Hn]; [by left|right].
      apply list_elem_of_fmap. exists (n_uid m, n_hotkey m). split; [done|].
      apply elem_of_floor_candidates. by exists m.
    + intros i u v Hu Hb Hv. apply (Hd i). by exists u.
Qed.

(** ** Folding the scores of unregistered hotkeys *)
(** When the burner is among the present hotkeys, the emission scored to
    hotkeys that left the metagraph is moved to it: in exact arithmetic the
    total is kept, every present hotkey other than the burner keeps its score,
    and no absent hotkey is left with one. *)
Theorem fold_unregistered_conserves scores present b :
  (forall k v, (k, v) ∈ scores -> 0 <= v)%Q -> b ∈ present ->
  let folded := @fold_unregistered_into_burner exact_rounding scores present (Some b) in
  (Qsum (dvalues folded) == Qsum (dvalues scores))%Q /\
  (forall k, k ∈ present -> k <> b -> dget k folded = dget k scores) /\
  (forall k, k ∈ dkeys folded -> k ∈ present).
Proof.
  intros Hpos Hb. cbv zeta. unfold fold_unregistered_into_burner, member.
  set (keep := List.filter (fun kv : string * Q => bool_decide (kv.1 ∈ present)) scores).
  set (gone := List.filter (fun kv : string * Q => negb (bool_decide (kv.1 ∈ present))) scores).
  rewrite (bool_decide_true (b ∈ present)), andb_true_r by done.
  assert (Qsum (dvalues keep) + Qsum (dvalues gone) == Qsum (dvalues scores))%Q as Hsplit
    by exact (Qsum_filter_split (fun kv : string * Q => bool_decide (kv.1 ∈ present)) scores).
  assert (0 <= Qsum (dvalues gone))%Q as Hgone.
  { apply Qsum_nonneg. intros x ([k v] & -> & [Hin _]%elem_of_bfilter)%list_elem_of_fmap. eauto. }
  assert (forall k, k ∈ present -> dget k keep = dget k scores) as Hkeep.
  { intros k Hk. unfold keep. clear -Hk. induction scores as [|[k' v] d IH]; cbn; [done|].
    case_bool_decide; cbn; [by rewrite IH|]. rewrite IH. rewrite decide_False; [done|congruence]. }
  assert (forall k, k ∈ dkeys keep -> k ∈ present) as Hdom.
  { intros k ([k' v] & -> & [_ Hp%bool_decide_eq_true]%elem_of_bfilter)%list_elem_of_fmap. done. }
  destruct (Qltb 0 _) eqn:El; qbool; rewrite fsum_exact in El.
  - split_and!.
    + rewrite Qsum_dset. exactify. pose proof (fsum_exact (dvalues gone)). lra.
    + intros k Hk Hne. rewrite dget_dset_ne by done. auto.
    + intros k. rewrite dkeys_dset. destruct (din b keep); [auto|]. set_solver.
  - split_and!; [lra|auto|auto].
Qed.

(** C29. Whatever bittensor's weight processing returns (one weight per uid),
    the vector handed to the chain pairs every uid with a value in 1..65535:
    no zero, no overflow of the u16 range. *)
Theorem set_weights_u16 `{R : Rounding} to_float32 process st served metagraph scores active incl us vs :
  (forall uids ws, length uids = length ws ->
     length (process uids ws).1 = length (process uids ws).2) ->
  set_weights to_float32 process st served metagraph scores active incl = Ok (Some (us, vs)) ->
  length vs = length us /\ forall v, v ∈ vs -> 1 <= v <= 65535.
Proof.
  intros Hproc H. unfold set_weights in H. destruct scores as [|s0 scores']; [done|].
  set (scores := s0 :: scores') in *. bind_inv H. destruct a as [miners sc].
  destruct (process _ _) as [pu pw] eqn:Ep.
  destruct (convert_weights_with_positive_floor pu pw) as [[cu cv] fl] eqn:Ec.
  destruct (apply_eligibility_floor _ _ _ _ _) as [[au av] fl2] eqn:Ea. injection H1 as <- <-.
  assert (length pu = length pw) as Hlp.
  { pose proof (Hproc (map n_uid miners)
      (map (fun m => to_float32 (dget_or 0%Q (n_hotkey m) sc)) miners)) as Hx.
    rewrite Ep in Hx. apply Hx. by rewrite !length_map. }
  destruct (convert_weights_facts _ _ _ _ _ Hlp Ec) as (_ & Hlen & Hb & _).
  unfold apply_eligibility_floor in Ea.
  destruct (floor_loop_spec (NEW_BURNERS st)
    (select_floor_candidates cu miners active (NEW_BURNERS st)) cu cv []) as (fl' & _ & S); [done| |].
  { intros c (m & _ & (_ & _ & ?) & ->)%elem_of_floor_candidates. done. }
  rewrite Ea in S. cbn in S. split; [apply S|]. intros v Hv. split.
  - eapply (fs_pos _ _ _ _ _ _ _ S); [|done]. intros w Hw. by apply Hb.
  - eapply floor_spec_upper; [exact Hlen|exact S|lia| |exact Hv]. intros w Hw. by apply Hb.
Qed.
