(* ===== verification/IncentiveBase.v ===== *)
(** * The scoring loop shared by the incentive algorithms

    [incentive/base.py]: [BaseIncentive.calculate_mining_scores] runs one
    callback on every result, one callback in between, and a second callback on
    every result.  The results are Python objects that the miner's list, the
    engine's candidate lists and the caller all refer to, so they live in a
    store: a [JobResult] is named by its address.

    What an algorithm provides is the class [IncentiveAlgorithm]; the default
    and the rental-price algorithms are its instances. *)

From Stdlib Require Import String.
From S2P Require Import Prelude Float64 PyValue JobResult IncentiveConfig Burn.

Local Open Scope Z_scope.

Notation addr := nat (only parsing).

(** The store, [self.job_results] and the attributes of the algorithm object. *)
Record World (S : Type) := mkWorld {
  w_heap : list JobResult;
  w_jobs : list (string * list addr);
  w_eng : S
}.
Arguments mkWorld {S} _ _ _.
Arguments w_heap {S} _.
Arguments w_jobs {S} _.
Arguments w_eng {S} _.

(** The three callbacks.  The per-result ones change the result they are given
    and the algorithm's own attributes; the one in between may touch any result. *)
Class IncentiveAlgorithm (S : Type) := {
  ia_pre : string -> addr -> JobResult -> S -> res (JobResult * S);
  ia_finish : list JobResult -> S -> res (list JobResult * S);
  ia_post : string -> JobResult -> S -> res (JobResult * S)
}.

Definition deref (heap : list JobResult) (a : addr) : res JobResult :=
  match heap !! a with Some r => Ok r | None => Raise (OtherError "dangling reference") end.

(** [for hotkey, results in self.job_results.items(): for result in results] *)
Definition scored_pairs (jobs : list (string * list addr)) : list (string * addr) :=
  flat_map (fun hr => map (pair hr.1) hr.2) jobs.

Lemma scored_pairs_hotkey jobs h a : (h, a) ∈ scored_pairs jobs -> h ∈ map fst jobs.
Proof.
  unfold scored_pairs. intros ((h', l) & Hin & Ha)%list_elem_of_In%in_flat_map.
  apply in_map_iff in Ha as (b & [= -> _] & _). apply list_elem_of_In, in_map_iff. by exists (h, l).
Qed.

(** One iteration of a loop over the results. *)
Definition step_at {S} (f : string -> addr -> JobResult -> S -> res (JobResult * S))
    (hs : list JobResult * S) (p : string * addr) : res (list JobResult * S) :=
  r ← deref hs.1 p.2;
  rs ← f p.1 p.2 r hs.2;
  Ok (<[p.2 := rs.1]> hs.1, rs.2).

Section Base.
Context `{R : Rounding}.
Local Open Scope float_scope.

(** [BaseIncentive._split_incentive_across_pools] *)
Definition split_incentive_across_pools (r : JobResult) : JobResult :=
  match jr_incentive r with
  | None => r
  | Some incentive =>
      let rented := if jr_is_rented r then incentive else 0%Q in
      set_incentive_split rented (incentive ⊖ rented) r
  end.

(** The exclusion flag [calculate_mining_scores] sets on every result. *)
Definition mark_excluded_hotkey (st : Settings) (hotkey : string) (r : JobResult) : JobResult :=
  set_is_hotkey_excluded_from_scoring
    (in_list hotkey (get_scoring_excluded_hotkeys st)
     || (in_list hotkey (get_idle_incentive_excluded_hotkeys st) && negb (jr_is_rented r))) r.

Context {S : Type} `{IncentiveAlgorithm S}.

Definition pre_callback (st : Settings) (hotkey : string) (a : addr) (r : JobResult) (s : S) :=
  ia_pre hotkey a (mark_excluded_hotkey st hotkey r) s.

Definition post_callback (hotkey : string) (_ : addr) (r : JobResult) (s : S) :=
  rs ← ia_post hotkey r s; Ok (split_incentive_across_pools rs.1, rs.2).

(** [BaseIncentive.calculate_mining_scores] (the timing log at the end is left out) *)
Definition calculate_mining_scores (st : Settings) (w : World S) : res (World S) :=
  w1 ← foldM (step_at (pre_callback st)) (w_heap w, w_eng w) (scored_pairs (w_jobs w));
  w2 ← ia_finish w1.1 w1.2;
  w3 ← foldM (step_at post_callback) w2 (scored_pairs (w_jobs w));
  Ok (mkWorld w3.1 (w_jobs w) w3.2).
End Base.

(** ** Facts about the loop *)

(** What one iteration saw and left. *)
Record visit := mkVisit { v_hotkey : string; v_addr : addr; v_before : JobResult; v_after : JobResult }.
Definition v_pair (v : visit) : string * addr := (v_hotkey v, v_addr v).

(** The visits of a loop, one after the other, threading the algorithm's
    attributes. *)
Inductive runs {S} (f : string -> addr -> JobResult -> S -> res (JobResult * S)) : S -> list visit -> S -> Prop :=
| runs_nil s : runs f s [] s
| runs_cons v tr s s1 s2 :
    f (v_hotkey v) (v_addr v) (v_before v) s = Ok (v_after v, s1) ->
    runs f s1 tr s2 -> runs f s (v :: tr) s2.

Lemma runs_in {S} (f : string -> addr -> JobResult -> S -> res (JobResult * S)) s tr s' :
  runs f s tr s' -> forall v, v ∈ tr -> exists s1 s2, f (v_hotkey v) (v_addr v) (v_before v) s1 = Ok (v_after v, s2).
Proof. induction 1; intros u Hu; [set_solver|]. apply elem_of_cons in Hu as [->|Hu]; eauto. Qed.

(** Run over distinct addresses, the loop leaves every other result alone and
    replaces each visited result once. *)
Lemma step_loop_runs {S} (f : string -> addr -> JobResult -> S -> res (JobResult * S)) pairs heap s heap' s' :
  NoDup (map snd pairs) ->
  foldM (step_at f) (heap, s) pairs = Ok (heap', s') ->
  length heap' = length heap /\
  (forall a, a ∉ map snd pairs -> heap' !! a = heap !! a) /\
  exists tr, map v_pair tr = pairs /\ runs f s tr s' /\
    forall v, v ∈ tr -> heap !! v_addr v = Some (v_before v) /\ heap' !! v_addr v = Some (v_after v).
Proof.
  revert heap s; induction pairs as [|[h a] pairs IH]; cbn; intros heap s Hnd H.
  { simplify_eq. split_and!; [done|done|]. exists []. split_and!; [done|constructor|set_solver]. }
  apply NoDup_cons in Hnd as [Ha Hnd]. apply bind_ok in H as ([heap1 s1] & H1 & H).
  apply bind_ok in H1 as (r & Hr & H1). cbn in Hr, H1. apply bind_ok in H1 as ([r' s2] & Hf & H1).
  injection H1 as <- <-. unfold deref in Hr. destruct (heap !! a) as [r0|] eqn:Er; [|done].
  injection Hr as ->.
  apply IH in H as (Hlen & Hother & tr & Htr & Hruns & Hall); [|done].
  rewrite length_insert in Hlen. split_and!; [done| |].
  - intros b Hb. rewrite Hother by set_solver. apply list_lookup_insert_ne. set_solver.
  - exists (mkVisit h a r r' :: tr). cbn. rewrite Htr. split_and!; [done|by econstructor|].
    assert (a < length heap)%nat as Hlt by (by eapply lookup_lt_Some).
    intros v [->|Hv]%elem_of_cons; cbn.
    + split; [done|]. rewrite Hother by done. by apply list_lookup_insert_eq.
    + destruct (Hall v Hv) as [H1 H2]. split; [|done].
      assert (a <> v_addr v) as Hne.
      { intros ->. apply Ha. rewrite <- Htr, map_map. apply list_elem_of_fmap. by exists v. }
      by rewrite list_lookup_insert_ne in H1.
Qed.

(** Two passes over the same pairs meet at every address. *)
Lemma visits_meet pairs (heap : list JobResult) tr1 tr2 v :
  map v_pair tr1 = pairs -> map v_pair tr2 = pairs ->
  (forall u, u ∈ tr1 -> heap !! v_addr u = Some (v_after u)) ->
  (forall u, u ∈ tr2 -> heap !! v_addr u = Some (v_before u)) ->
  v ∈ tr2 -> exists u, u ∈ tr1 /\ v_after u = v_before v /\ v_pair u = v_pair v.
Proof.
  intros E1 E2 H1 H2 Hv.
  assert (v_pair v ∈ map v_pair tr1) as (u & Eu & Hu)%list_elem_of_fmap
    by (rewrite E1, <- E2; apply list_elem_of_fmap; by exists v).
  exists u. split_and!; [done| |done]. specialize (H1 u Hu). specialize (H2 v Hv).
  unfold v_pair in Eu. simplify_eq. congruence.
Qed.

(** The rented/idle pair of a whole node re-adds to its incentive, which the
    split leaves as it was when it is a float. *)
Lemma split_incentive_keeps `{R : Rounding} r i :
  jr_incentive r = Some i -> (rnd i == i)%Q ->
  exists i' rented idle, jr_incentive (split_incentive_across_pools r) = Some i' /\ (i' == i)%Q /\
    jr_incentive_rented (split_incentive_across_pools r) = Some rented /\
    jr_incentive_idle (split_incentive_across_pools r) = Some idle /\
    (rented == if jr_is_rented r then i else 0)%Q /\
    (idle == if jr_is_rented r then 0 else i)%Q.
Proof.
  intros Hi Hr. unfold split_incentive_across_pools. rewrite Hi.
  eexists _, _, _. cbn. split_and!; [done| |done|done| |]; destruct (jr_is_rented r); try done;
    unfold fadd, fsub.
  - assert (i - i == 0)%Q as -> by lra. rewrite rnd_0, Qplus_0_r. done.
  - assert (i - 0 == i)%Q as -> by lra. rewrite Qplus_0_l, rnd_idem. done.
  - assert (i - i == 0)%Q as -> by lra. apply rnd_0.
  - assert (i - 0 == i)%Q as -> by lra. done.
Qed.

(** Sum of a quantity over the results at some addresses. *)
Definition results_sum (g : JobResult -> Q) (heap : list JobResult) (addrs : list addr) : Q :=
  Qsum (map (fun a => match heap !! a with Some r => g r | None => 0%Q end) addrs).

Lemma results_sum_visits (g : JobResult -> Q) heap pairs tr (sel : visit -> JobResult) :
  map v_pair tr = pairs -> (forall v, v ∈ tr -> heap !! v_addr v = Some (sel v)) ->
  results_sum g heap (map snd pairs) = Qsum (map (fun v => g (sel v)) tr).
Proof.
  intros <- H. unfold results_sum. rewrite !map_map. induction tr as [|v tr IH]; cbn in *; [done|].
  rewrite (H v) by set_solver. rewrite IH by set_solver. done.
Qed.

(** Replacing one result moves the sum by the difference. *)
Lemma results_sum_insert (g : JobResult -> Q) heap addrs a r r' :
  NoDup addrs -> a ∈ addrs -> heap !! a = Some r ->
  (results_sum g (<[a := r']> heap) addrs == results_sum g heap addrs - g r + g r')%Q.
Proof.
  intros Hnd Ha Hr. assert (a < length heap)%nat as Hlt by (by eapply lookup_lt_Some).
  unfold results_sum. induction addrs as [|b addrs IH]; cbn; [set_solver|].
  apply NoDup_cons in Hnd as [Hb Hnd]. apply elem_of_cons in Ha as [->|Ha].
  - rewrite list_lookup_insert_eq by done. rewrite Hr.
    match goal with |- (_ + Qsum (map ?f _) == _ + Qsum (map ?h _) - _ + _)%Q =>
      pose proof (Qsum_ext f h addrs) as E end.
    rewrite E; [ring|]. intros x Hx. rewrite list_lookup_insert_ne; [done|]. set_solver.
  - rewrite IH by done. rewrite list_lookup_insert_ne by set_solver. ring.
Qed.

Lemma results_sum_ext (g g' : JobResult -> Q) heap addrs :
  (forall a r, a ∈ addrs -> heap !! a = Some r -> g r == g' r)%Q ->
  (results_sum g heap addrs == results_sum g' heap addrs)%Q.
Proof.
  intros H. apply Qsum_ext. intros a Ha. destruct (heap !! a) eqn:E; [by eapply H|done].
Qed.

(** The addresses one hotkey's results live at. *)
Definition addrs_of (hotkey : string) (pairs : list (string * addr)) : list addr :=
  map snd (List.filter (fun p => String.eqb p.1 hotkey) pairs).

Lemma results_sum_visits_of (g : JobResult -> Q) heap pairs tr (sel : visit -> JobResult) hotkey :
  map v_pair tr = pairs -> (forall v, v ∈ tr -> heap !! v_addr v = Some (sel v)) ->
  results_sum g heap (addrs_of hotkey pairs) =
    Qsum (map (fun v => g (sel v)) (List.filter (fun v => String.eqb (v_hotkey v) hotkey) tr)).
Proof.
  intros <- H. unfold results_sum, addrs_of. induction tr as [|v tr IH]; cbn in *; [done|].
  assert (forall u, u ∈ tr -> heap !! v_addr u = Some (sel u)) as H' by set_solver.
  destruct (String.eqb (v_hotkey v) hotkey); cbn; [|by apply IH].
  rewrite (H v) by set_solver. by rewrite IH.
Qed.

Definition incentive_of (r : JobResult) : Q := match jr_incentive r with Some q => q | None => 0%Q end.
Definition mining_score_of (r : JobResult) : Q :=
  match jr_mining_score r with Some q => q | None => 0%Q end.

Lemma incentive_of_split r : (incentive_of (@split_incentive_across_pools exact_rounding r) == incentive_of r)%Q.
Proof.
  unfold split_incentive_across_pools. destruct (jr_incentive r) as [i|] eqn:E; [|done].
  unfold incentive_of. cbn. rewrite E. exactify. destruct (jr_is_rented r); lra.
Qed.
