(* ===== verification/Settlement.v ===== *)
(** * Settling the results of a cycle

    [services/task/checks/duplicate_executor.py] ([keep_one_miner_per_executor],
    [keep_one_executor_per_gpu]) and [settle_cycle_results], [specs_to_publish]
    of [core/validator.py]: a machine scored under several hotkeys, or a GPU
    listed under several executors of one miner, keeps one score; then the scored
    GPUs are counted per model, the denominators of the mining pool.

    The results live in the store of [IncentiveBase]: the passes read them, zero
    some of them in place and compare them by identity (their address). *)

From Stdlib Require Import Ascii String.
From S2P Require Import Prelude Float64 PyValue JobResult IncentiveConfig Readings Burn IncentiveBase.

Local Open Scope string_scope.
Local Open Scope list_scope.
Local Open Scope Z_scope.

(** ** Keys of a machine *)
Definition MATCH_SSH_ENDPOINT : string := "ssh_endpoint".
Definition MATCH_EXECUTOR_UUID : string := "executor_uuid".
Definition MATCH_IP_PORT : string := "ip_port".
Definition MATCH_GPU_UUID : string := "gpu_uuid".
Definition MATCH_SSH_HOST_KEY : string := "ssh_host_key".
Definition CYCLE_CHECK_ID : string := "executor.cycle.duplicate_across_miners".
Definition GPU_ALIAS_CHECK_ID : string := "executor.cycle.gpu_alias_same_miner".

Definition address_port (address : string) (port : Z) : string :=
  Text.lower (Text.strip address) ++ ":" ++ Text.str_of_Z port.

(** [_ssh_endpoint] *)
Definition ssh_endpoint (r : JobResult) : string :=
  address_port (ex_address (jr_executor_info r)) (ex_ssh_port (jr_executor_info r)).

(** [str(result.executor_info.uuid).lower()] *)
Definition uuid_lower (r : JobResult) : string := Text.lower (ex_uuid (jr_executor_info r)).

(** [sorted] of a set of strings. *)
Definition sorted_set (l : list string) : list string := psort String.leb (remove_dups l).

(** One scored result with the hotkey it was reported under. *)
Record copy := mkCopy { c_hotkey : string; c_addr : addr; c_result : JobResult }.

Definition hotkeys_of (copies : list copy) : list string := remove_dups (map c_hotkey copies).

(** [min] of a non-empty set of strings. *)
Definition smaller (x y : string) : string := if String.leb x y then x else y.
Definition min_string (l : list string) : res string :=
  match l with [] => Raise ValueError | x :: l => Ok (fold_left smaller l x) end.

(** [a or b] on collections. *)
Definition or_list {A} (a b : list A) : list A := match a with [] => b | _ => a end.

(** [_keeper] *)
Definition keeper (copies : list copy) (rental_hotkeys : list (string * string)) : res string :=
  let hotkeys := hotkeys_of copies in
  let rented := List.filter (fun c => jr_is_rented (c_result c)) copies in
  let holders := List.filter (fun h => in_list h hotkeys)
    (omap (fun c => dget (uuid_lower (c_result c)) rental_hotkeys) rented) in
  min_string (or_list (remove_dups holders) (or_list (hotkeys_of rented) hotkeys)).

(** [AcrossMinersDuplicate] *)
Record AcrossMinersDuplicate := mkDuplicate {
  ad_executor_uuid : string;
  ad_hotkey : string;
  ad_other_hotkeys : list string;
  ad_matched_on : string;
  ad_kept_by : option string;
  ad_enforced : bool
}.

(** An entry of [zeroed]. *)
Record zeroing := mkZeroing {
  z_addr : addr;
  z_kept_by : string;
  z_shares_row : bool;
  z_what : list (string * json)
}.

Definition across_miners_event (what : list (string * json)) : ValidationEvent := {|
  ev_event := "Executor also scored under another miner this cycle";
  ev_reason_code := "EXECUTOR_DUPLICATE_ACROSS_MINERS";
  ev_severity := "warning"; ev_category := "policy";
  ev_impact := "Score set to 0 for this cycle; the other miner keeps it";
  ev_remediation := Some "One machine earns under one miner per cycle. Register it under one miner only.";
  ev_what_we_saw := what; ev_check_id := Some CYCLE_CHECK_ID
|}.

Definition gpu_alias_event (what : list (string * json)) : ValidationEvent := {|
  ev_event := "GPU also reported by another executor of this miner this cycle";
  ev_reason_code := "EXECUTOR_GPU_ALIAS";
  ev_severity := "warning"; ev_category := "policy";
  ev_impact := "Score set to 0 for this cycle; the other executor keeps it";
  ev_remediation := Some "Each physical GPU earns under one executor. Register every machine once.";
  ev_what_we_saw := what; ev_check_id := Some GPU_ALIAS_CHECK_ID
|}.

(** The duplicates of one group of copies that are only logged. *)
Definition logged_duplicate (kind : string) (hotkeys : list string) (c : copy) : AcrossMinersDuplicate :=
  mkDuplicate (ex_uuid (jr_executor_info (c_result c))) (c_hotkey c)
    (psort String.leb (List.filter (fun h => negb (String.eqb h (c_hotkey c))) hotkeys)) kind None false.

Section Settlement.
(** [str(v)] of a float, a list or a dict. *)
Context (str_of_other : json -> string).

Definition json_str (v : json) : string :=
  match v with
  | JStr s => s
  | JInt z => Text.str_of_Z z
  | JBool b => if b then "True" else "False"
  | JNull => "None"
  | _ => str_of_other v
  end.

(** [_gpu_uuids] *)
Definition uuid_of_detail (d : json) : option string :=
  match d with
  | JObj o => let u := dget_or JNull "uuid" o in if truthy u then Some (json_str u) else None
  | _ => None
  end.
Definition gpu_uuids (r : JobResult) : res (list string) :=
  let spec := match jr_spec r with Some d => d | None => [] end in
  details ← jget "details" (py_or (dget_or JNull "gpu" spec) (JObj []));
  items ← jiter (py_or details (JList []));
  Ok (sorted_set (omap uuid_of_detail items)).

(** [_reported_keys] *)
Definition reported_keys (r : JobResult) : res (list (string * string)) :=
  gpus ← gpu_uuids r;
  Ok ([(MATCH_EXECUTOR_UUID, uuid_lower r);
       (MATCH_IP_PORT, address_port (ex_address (jr_executor_info r)) (ex_port (jr_executor_info r)))]
      ++ map (pair MATCH_GPU_UUID) gpus).

(** The scored copies, hotkey by hotkey in sorted order. *)
Definition scored_copies (heap : list JobResult) (jobs : list (string * list addr)) : res (list copy) :=
  foldM (fun acc p => r ← deref heap p.2;
                      Ok (if is_successful r then acc ++ [mkCopy p.1 p.2 r] else acc))
    [] (scored_pairs (psort (fun a b => String.leb a.1 b.1) jobs)).

(** The body of the loop over [by_endpoint]. *)
Definition settle_endpoint (rental_hotkeys : list (string * string)) (endpoint : string) (copies : list copy)
    : res (list AcrossMinersDuplicate * list zeroing) :=
  let hotkeys := hotkeys_of copies in
  if (length hotkeys <? 2)%nat then Ok ([], [])
  else
    kept_by ← keeper copies rental_hotkeys;
    let kept := List.filter (fun c => String.eqb (c_hotkey c) kept_by) copies in
    let lost := List.filter (fun c => negb (String.eqb (c_hotkey c) kept_by)) copies in
    let duplicate c := mkDuplicate (ex_uuid (jr_executor_info (c_result c))) (c_hotkey c)
      (psort String.leb (List.filter (fun h => negb (String.eqb h (c_hotkey c))) hotkeys))
      MATCH_SSH_ENDPOINT (Some kept_by) true in
    let zero c := mkZeroing (c_addr c) kept_by
      (in_list (uuid_lower (c_result c)) (map (fun k => uuid_lower (c_result k)) kept))
      [("executor_uuid", JStr (ex_uuid (jr_executor_info (c_result c)))); ("ssh_endpoint", JStr endpoint);
       ("miner_hotkey", JStr (c_hotkey c)); ("kept_by_hotkey", JStr kept_by)] in
    Ok (map duplicate lost, map zero lost).

(** The body of the loop over [by_reported]; [once] is [reported_once]. *)
Definition report_step (hotkeys : list string) (kind : string)
    (acc : list AcrossMinersDuplicate * list (string * addr)) (c : copy)
    : list AcrossMinersDuplicate * list (string * addr) :=
  if bool_decide ((c_hotkey c, c_addr c) ∈ acc.2) then acc
  else (acc.1 ++ [logged_duplicate kind hotkeys c], acc.2 ++ [(c_hotkey c, c_addr c)]).
Definition report_group (acc : list AcrossMinersDuplicate * list (string * addr))
    (group : string * string * list copy) : list AcrossMinersDuplicate * list (string * addr) :=
  let '((kind, _), copies) := group in
  let hotkeys := hotkeys_of copies in
  if (length hotkeys <? 2)%nat
     || (length (remove_dups (map (fun c => ssh_endpoint (c_result c)) copies)) =? 1)%nat
  then acc else fold_left (report_step hotkeys kind) copies acc.

(** The loop over [by_host_key]. *)
Definition host_key_copy (c : copy) : option (string * copy) :=
  let key := Text.strip (match ex_ssh_host_key (jr_executor_info (c_result c)) with Some k => k | None => "" end) in
  if jr_ssh_host_key_verified (c_result c) && negb (String.eqb key "")
     && (0 <? ex_ssh_port (jr_executor_info (c_result c)))
  then Some (key, c) else None.
Definition host_key_group (group : string * list copy) : list AcrossMinersDuplicate :=
  if (length (remove_dups (map (fun c => ssh_endpoint (c_result c)) group.2)) <? 2)%nat then []
  else map (logged_duplicate MATCH_SSH_HOST_KEY (hotkeys_of group.2)) group.2.

(** The last loop: the zeroed copies. *)
Definition zero_copy (heap : list JobResult) (z : zeroing) : res (list JobResult) :=
  r ← deref heap (z_addr z);
  let r := set_job_score 0%Q (set_score 0%Q r) in
  let r := set_failure_reason_code (Some "EXECUTOR_DUPLICATE_ACROSS_MINERS") r in
  let r := set_validation_event (Some (across_miners_event (z_what z))) r in
  let r := set_duplicate_kept_by (Some (z_kept_by z)) r in
  Ok (<[z_addr z := set_duplicate_shares_kept_row (z_shares_row z) r]> heap).

(** The scored copies by the SSH endpoint they were reached on. *)
Definition by_endpoint (scored : list copy) : list (string * list copy) :=
  group (map (fun c => (ssh_endpoint (c_result c), c))
    (List.filter (fun c => 0 <? ex_ssh_port (jr_executor_info (c_result c))) scored)).

(** [keep_one_miner_per_executor] *)
Definition keep_one_miner_per_executor (heap : list JobResult) (jobs : list (string * list addr))
    (rental_hotkeys : list (string * string)) : res (list AcrossMinersDuplicate * list JobResult) :=
  scored ← scored_copies heap jobs;
  settled ← foldM (fun acc g => dz ← settle_endpoint rental_hotkeys g.1 g.2;
                                Ok (acc.1 ++ dz.1, acc.2 ++ dz.2)) ([], []) (by_endpoint scored);
  keyed ← foldM (fun acc c => keys ← reported_keys (c_result c);
                              Ok (acc ++ map (fun k => (k, c)) keys)) [] scored;
  let by_reported := psort (fun a b => string_pair_leb a.1 b.1) (group keyed) in
  let reported := (fold_left report_group by_reported ([], [])).1 in
  let by_host_key := psort (fun a b => String.leb a.1 b.1) (group (omap host_key_copy scored)) in
  heap' ← foldM zero_copy heap settled.2;
  Ok (settled.1 ++ reported ++ flat_map host_key_group by_host_key, heap').

(** ** One executor per GPU *)

(** The first copy with the least [(not is_rented, uuid)]. *)
Definition better_keeper (x y : copy) : copy :=
  let key c := (negb (jr_is_rented (c_result c)), uuid_lower (c_result c)) in
  if keeper_key_ltb (key y) (key x) then y else x.

(** The body of the loop over [by_gpu]; [seen] are the addresses already zeroed. *)
Definition alias_step (hotkey gpu_uuid : string) (kept : copy)
    (acc : list JobResult * list addr * list (string * addr)) (c : copy)
    : res (list JobResult * list addr * list (string * addr)) :=
  let '(heap, seen, aliases) := acc in
  if Nat.eqb (c_addr c) (c_addr kept) || jr_is_rented (c_result c) || bool_decide (c_addr c ∈ seen) then Ok acc
  else
    r ← deref heap (c_addr c);
    let what := [("executor_uuid", JStr (ex_uuid (jr_executor_info (c_result c))));
                 ("kept_by_executor_uuid", JStr (ex_uuid (jr_executor_info (c_result kept))));
                 ("gpu_uuid", JStr gpu_uuid); ("miner_hotkey", JStr hotkey)] in
    let r := set_job_score 0%Q (set_score 0%Q r) in
    let r := set_failure_reason_code (Some "EXECUTOR_GPU_ALIAS") r in
    let r := set_validation_event (Some (gpu_alias_event what)) r in
    Ok (<[c_addr c := r]> heap, seen ++ [c_addr c], aliases ++ [(hotkey, c_addr c)]).

Definition alias_group (hotkey : string) (acc : list JobResult * list addr * list (string * addr))
    (group : string * list copy) : res (list JobResult * list addr * list (string * addr)) :=
  match group.2 with
  | [] => Ok acc
  | first :: rest =>
      if (length (remove_dups (map (fun c => uuid_lower (c_result c)) group.2)) <? 2)%nat then Ok acc
      else foldM (alias_step hotkey group.1 (fold_left better_keeper rest first)) acc group.2
  end.

(** The scored copies of one miner by the GPU they report. *)
Definition by_gpu (scored : list copy) : res (list (string * list copy)) :=
  keyed ← foldM (fun acc c => gpus ← gpu_uuids (c_result c); Ok (acc ++ map (fun g => (g, c)) gpus)) [] scored;
  Ok (group keyed).

(** One miner of [keep_one_executor_per_gpu]. *)
Definition alias_miner (acc : list JobResult * list (string * addr)) (job : string * list addr)
    : res (list JobResult * list (string * addr)) :=
  scored ← scored_copies acc.1 [job];
  groups ← by_gpu scored;
  hsa ← foldM (alias_group job.1) (acc.1, [], acc.2) (psort (fun a b => String.leb a.1 b.1) groups);
  let '(heap, _, aliases) := hsa in
  Ok (heap, aliases).

(** [keep_one_executor_per_gpu]: the store, and the pairs that lost the score. *)
Definition keep_one_executor_per_gpu (heap : list JobResult) (jobs : list (string * list addr))
    : res (list JobResult * list (string * addr)) :=
  foldM alias_miner (heap, []) (psort (fun a b => String.leb a.1 b.1) jobs).

(** The miners of [keep_one_executor_per_gpu] up to one whose results cannot be
    read: what the pass has written when it raises. *)
Fixpoint alias_until_error (heap : list JobResult) (jobs : list (string * list addr)) : list JobResult :=
  match jobs with
  | [] => heap
  | job :: rest =>
      match alias_miner (heap, []) job with
      | Ok (heap', _) => alias_until_error heap' rest
      | Raise _ => heap
      end
  end.

(** The [try] block of [settle_cycle_results].  The first pass reads everything
    before it writes anything. *)
Definition settle_duplicates (heap : list JobResult) (jobs : list (string * list addr))
    (rented_executors : list (string * string)) : list JobResult :=
  let rental_hotkeys := fold_left (fun d eh => dset (Text.lower eh.1) eh.2 d) rented_executors [] in
  match keep_one_miner_per_executor heap jobs rental_hotkeys with
  | Raise _ => heap
  | Ok (_, heap') => alias_until_error heap' (psort (fun a b => String.leb a.1 b.1) jobs)
  end.

(** Which results count towards the GPUs of their model. *)
Definition counts_in_total (st : Settings) (now : Z) (r : JobResult) : bool :=
  nonempty (jr_gpu_model r) && negb (jr_gpu_count r =? 0)
  && (Qltb 0 (jr_score r) || Qltb 0 (jr_job_score r))
  && (negb (jr_is_spot r) || earns_spot_rental_incentive st r)
  && negb (is_missing_discord_after_cutoff st now r)
  && negb (jr_is_new_rentals_paused r && negb (jr_is_rented r))
  && negb (jr_is_in_maintenance r).
Definition count_step (st : Settings) (now : Z) (m : list (string * Z)) (r : JobResult) : list (string * Z) :=
  match jr_gpu_model r with
  | Some g => if counts_in_total st now r then dset g (dget_or 0 g m + jr_gpu_count r) m else m
  | None => m
  end.

(** [settle_cycle_results]: the settled store and [total_gpu_model_count_map]. *)
Definition settle_cycle_results (st : Settings) (now : Z) (heap : list JobResult)
    (jobs : list (string * list addr)) (rented_executors : list (string * string))
    : res (list JobResult * list (string * Z)) :=
  let heap := settle_duplicates heap jobs rented_executors in
  results ← foldM (fun acc p => r ← deref heap p.2; Ok (acc ++ [r])) [] (scored_pairs jobs);
  Ok (heap, fold_left (count_step st now) results []).

(** [specs_to_publish] *)
Definition specs_to_publish (results : list JobResult) : list JobResult :=
  List.filter (fun r => negb (jr_duplicate_shares_kept_row r) && negb (jr_carried_for_renter_gpu_reset r)) results.
End Settlement.

(** ** The scored copies *)
Lemma scored_pairs_perm jobs jobs' : jobs ≡ₚ jobs' -> scored_pairs jobs ≡ₚ scored_pairs jobs'.
Proof. intros H. unfold scored_pairs. by apply Permutation_flat_map. Qed.

(** A copy that was scored, as the store has it. *)
Definition is_copy (heap : list JobResult) (pairs : list (string * addr)) (c : copy) : Prop :=
  (c_hotkey c, c_addr c) ∈ pairs /\ heap !! c_addr c = Some (c_result c) /\ is_successful (c_result c) = true.

Lemma scored_fold_spec heap pairs acc cs :
  foldM (fun acc p => r ← deref heap p.2; Ok (if is_successful r then acc ++ [mkCopy p.1 p.2 r] else acc))
    acc pairs = Ok cs ->
  (forall c, c ∈ cs <-> c ∈ acc \/ is_copy heap pairs c) /\
  exists l, cs = acc ++ l /\ sublist (map c_addr l) (map snd pairs).
Proof.
  revert acc. induction pairs as [|[h a] pairs IH]; cbn; intros acc H.
  { injection H as <-. split; [intros c; unfold is_copy; set_solver|]. exists []. by rewrite app_nil_r. }
  apply bind_ok in H as (acc1 & H1 & H). apply bind_ok in H1 as (r & Hr & H1). unfold deref in Hr. cbn in Hr.
  destruct (heap !! a) as [r0|] eqn:Ea; [|done]. injection Hr as ->. injection H1 as <-.
  apply IH in H as (Hin & l & -> & Hl). destruct (is_successful r) eqn:Es.
  - split.
    + intros c. rewrite Hin, elem_of_app, list_elem_of_singleton. unfold is_copy. rewrite elem_of_cons.
      split; [intros [[?|[= ->]]|?]; naive_solver|]. intros [?|([[= <- <-]|?] & Hc & ?)]; [naive_solver| |naive_solver].
      rewrite Ea in Hc. injection Hc as ->. left. right. by destruct c.
    + exists (mkCopy h a r :: l). rewrite <- app_assoc. split; [done|]. by constructor.
  - split.
    + intros c. rewrite Hin. unfold is_copy. rewrite elem_of_cons. split; [naive_solver|].
      intros [?|([[= <- <-]|?] & Hc & ?)]; [naive_solver| |naive_solver]. congruence.
    + exists l. split; [done|]. by constructor.
Qed.

Lemma scored_copies_spec heap jobs cs :
  scored_copies heap jobs = Ok cs ->
  (forall c, c ∈ cs <-> is_copy heap (scored_pairs jobs) c) /\
  (NoDup (map snd (scored_pairs jobs)) -> NoDup (map c_addr cs)).
Proof.
  intros H. apply scored_fold_spec in H as (Hin & l & -> & Hl). rewrite app_nil_l in *.
  pose proof (scored_pairs_perm _ _ (psort_perm (fun a b => String.leb a.1 b.1) jobs)) as Hp. split.
  - intros c. rewrite Hin. unfold is_copy. rewrite Hp, elem_of_nil. tauto.
  - intros Hnd. eapply sublist_NoDup; [|exact Hl]. by rewrite Hp.
Qed.

(** ** Choosing the keeper *)
Lemma min_string_in l x : min_string l = Ok x -> x ∈ l.
Proof.
  destruct l as [|y l]; [done|]. cbn. intros [= <-]. revert y. induction l as [|z l IH]; cbn; intros y; [set_solver|].
  specialize (IH (smaller y z)). unfold smaller in *. destruct (String.leb y z); set_solver.
Qed.

Lemma elem_of_hotkeys_of cs h : h ∈ hotkeys_of cs <-> exists c, c ∈ cs /\ c_hotkey c = h.
Proof.
  unfold hotkeys_of. rewrite elem_of_remove_dups, list_elem_of_fmap. naive_solver.
Qed.

Lemma keeper_in cs rh k : keeper cs rh = Ok k -> k ∈ hotkeys_of cs.
Proof.
  intros H%min_string_in. revert H. unfold or_list.
  destruct (remove_dups _) as [|x l] eqn:E.
  - destruct (hotkeys_of (List.filter _ cs)) as [|y l'] eqn:E'; [done|]. rewrite <- E'.
    intros (c & [Hc _]%elem_of_bfilter & <-)%elem_of_hotkeys_of. apply elem_of_hotkeys_of. by exists c.
  - rewrite <- E. intros [_ Hin]%elem_of_remove_dups%elem_of_bfilter. by apply bool_decide_eq_true in Hin.
Qed.

Lemma two_hotkeys cs h1 h2 : h1 ∈ hotkeys_of cs -> h2 ∈ hotkeys_of cs -> h1 <> h2 -> (length (hotkeys_of cs) <? 2)%nat = false.
Proof.
  intros H1 H2 Hne. apply Nat.ltb_ge. destruct (hotkeys_of cs) as [|x [|y l]]; [set_solver|set_solver|cbn; lia].
Qed.

(** ** What the pass over the endpoints zeroes *)
Lemma settle_fold_spec {Z0 D} (f : string * list copy -> res (list D * list Z0)) groups acc out :
  foldM (fun acc g => dz ← f g; Ok (acc.1 ++ dz.1, acc.2 ++ dz.2)) acc groups = Ok out ->
  (forall g, g ∈ groups -> exists dz, f g = Ok dz) /\
  (forall z, z ∈ out.2 <-> z ∈ acc.2 \/ exists g dz, g ∈ groups /\ f g = Ok dz /\ z ∈ dz.2).
Proof.
  revert acc. induction groups as [|g groups IH]; cbn; intros acc H.
  { injection H as <-. split; [set_solver|]. intros z. set_solver. }
  apply bind_ok in H as (acc1 & H1 & H). apply bind_ok in H1 as (dz & Hf & H1). injection H1 as <-.
  apply IH in H as [Hok Hin]. split.
  - intros g' [->|Hg]%elem_of_cons; [by exists dz|auto].
  - intros z. rewrite Hin. cbn. rewrite elem_of_app. split.
    + intros [[?|?]|(g' & dz' & ? & ? & ?)]; [tauto|right; exists g, dz; set_solver|right; exists g', dz'; set_solver].
    + intros [?|(g' & dz' & [->|Hg]%elem_of_cons & Hf' & Hz)]; [tauto| |right; by exists g', dz'].
      rewrite Hf in Hf'. injection Hf' as <-. tauto.
Qed.

(** The addresses one endpoint loses: all copies of the hotkeys that do not keep it. *)
Lemma settle_endpoint_spec rh e cs ds zs :
  settle_endpoint rh e cs = Ok (ds, zs) ->
  (length (hotkeys_of cs) < 2)%nat /\ zs = [] \/
  exists k, k ∈ hotkeys_of cs /\ keeper cs rh = Ok k /\
    forall a, a ∈ map z_addr zs <-> exists c, c ∈ cs /\ c_addr c = a /\ c_hotkey c <> k.
Proof.
  unfold settle_endpoint. destruct (Nat.ltb_spec (length (hotkeys_of cs)) 2); [intros [= <- <-]; by left|].
  intros (k & Hk & E)%bind_ok. injection E as <- <-. right. exists k. split_and!; [by eapply keeper_in|done|].
  intros a. rewrite map_map, list_elem_of_fmap. cbn. split.
  - intros (c & -> & [Hc Hn%negb_true_iff%String.eqb_neq]%elem_of_bfilter). by exists c.
  - intros (c & Hc & <- & Hn). exists c. split; [done|]. apply elem_of_bfilter. split; [done|].
    by apply negb_true_iff, String.eqb_neq.
Qed.

(** A result that lost its score to another copy, everything else about the node kept. *)
Record zeroed_from (r r' : JobResult) : Prop := {
  zf_score : jr_score r' = 0%Q;
  zf_job_score : jr_job_score r' = 0%Q;
  zf_executor : jr_executor_info r' = jr_executor_info r;
  zf_rented : jr_is_rented r' = jr_is_rented r;
  zf_spec : jr_spec r' = jr_spec r;
  zf_reason : exists c, jr_failure_reason_code r' = Some c
}.
Lemma zeroed_unsuccessful r r' : zeroed_from r r' -> is_successful r' = false.
Proof. intros [S J _ _ _ _]. unfold is_successful. rewrite S, J. done. Qed.

Lemma zero_fold_spec zs heap heap' :
  foldM zero_copy heap zs = Ok heap' ->
  length heap' = length heap /\
  (forall a, a ∉ map z_addr zs -> heap' !! a = heap !! a) /\
  (forall a r, a ∈ map z_addr zs -> heap !! a = Some r -> exists r', heap' !! a = Some r' /\ zeroed_from r r').
Proof.
  revert heap. induction zs as [|z zs IH]; cbn; intros heap H.
  { injection H as <-. split_and!; [done|done|set_solver]. }
  apply bind_ok in H as (h1 & H1 & H). unfold zero_copy in H1. apply bind_ok in H1 as (r & Hr & H1).
  unfold deref in Hr. destruct (heap !! z_addr z) as [r0|] eqn:Ea; [|done]. injection Hr as ->. injection H1 as <-.
  assert (z_addr z < length heap)%nat as Hlt by (by eapply lookup_lt_Some).
  apply IH in H as (Hlen & Hother & Hz). rewrite length_insert in Hlen. split_and!; [done| |].
  - intros a Ha. rewrite Hother by set_solver. apply list_lookup_insert_ne. set_solver.
  - intros a x Ha Hx. destruct (decide (a = z_addr z)) as [->|Hne].
    + rewrite Ea in Hx. injection Hx as <-.
      destruct (decide (z_addr z ∈ map z_addr zs)) as [Hin|Hin].
      * destruct (Hz _ _ Hin (list_lookup_insert_eq _ _ _ Hlt)) as (r' & Hr' & [S J E I P F]).
        exists r'. split; [done|]. by split.
      * rewrite Hother, list_lookup_insert_eq by done. eexists. split; [done|]. split; try done. by eexists.
    + apply Hz; [set_solver|]. by rewrite list_lookup_insert_ne.
Qed.

Section OneMiner.
Context (rental_hotkeys : list (string * string)) (scored : list copy).

(** The group of an endpoint. *)
Definition at_endpoint (e : string) : list copy :=
  List.filter (fun c => (0 <? ex_ssh_port (jr_executor_info (c_result c))) && String.eqb (ssh_endpoint (c_result c)) e) scored.

Lemma by_endpoint_group e cs : (e, cs) ∈ by_endpoint scored -> cs = at_endpoint e.
Proof.
  intros H. pose proof (group_keys (map (fun c => (ssh_endpoint (c_result c), c))
    (List.filter (fun c => 0 <? ex_ssh_port (jr_executor_info (c_result c))) scored))) as Hnd.
  fold (by_endpoint scored) in Hnd. apply elem_of_dget in H; [|done].
  assert (dget_or [] e (by_endpoint scored) = cs) as <- by (unfold dget_or; by rewrite H).
  unfold by_endpoint. rewrite group_get. unfold values_of. rewrite filter_map_comm, map_map, map_id, filter_filter_bool.
  apply filter_ext. intros c. cbn. f_equal. apply eq_true_iff_eq. by rewrite bool_decide_eq_true, String.eqb_eq.
Qed.

Lemma endpoint_in c : c ∈ scored -> 0 < ex_ssh_port (jr_executor_info (c_result c)) ->
  (ssh_endpoint (c_result c), at_endpoint (ssh_endpoint (c_result c))) ∈ by_endpoint scored /\
  c ∈ at_endpoint (ssh_endpoint (c_result c)).
Proof.
  intros Hc Hp. assert (c ∈ at_endpoint (ssh_endpoint (c_result c))) as Hin.
  { apply elem_of_bfilter. split; [done|]. rewrite String.eqb_refl, andb_true_r. lia. }
  split; [|done].
  destruct (dget (ssh_endpoint (c_result c)) (by_endpoint scored)) as [cs|] eqn:E.
  - apply dget_In in E. by rewrite <- (by_endpoint_group _ _ E).
  - exfalso. assert (c ∈ dget_or [] (ssh_endpoint (c_result c)) (by_endpoint scored)) as Hg.
    { unfold by_endpoint. rewrite group_get. apply elem_of_values_of, list_elem_of_fmap. exists c. split; [done|].
      apply elem_of_bfilter. split; [done|lia]. }
    unfold dget_or in Hg. rewrite E in Hg. set_solver.
Qed.

(** A copy loses its score to the keeper of its endpoint. *)
Definition loses (c : copy) (k : string) : Prop :=
  c ∈ scored /\ 0 < ex_ssh_port (jr_executor_info (c_result c)) /\
  keeper (at_endpoint (ssh_endpoint (c_result c))) rental_hotkeys = Ok k /\
  k ∈ hotkeys_of (at_endpoint (ssh_endpoint (c_result c))) /\ c_hotkey c <> k.

Context (out : list AcrossMinersDuplicate * list zeroing).
Hypothesis out_ok : foldM (fun acc g => dz ← settle_endpoint rental_hotkeys g.1 g.2;
  Ok (acc.1 ++ dz.1, acc.2 ++ dz.2)) ([], []) (by_endpoint scored) = Ok out.

(** Two hotkeys at an endpoint: one of them is its keeper. *)
Lemma contested c1 c2 :
  c1 ∈ scored -> c2 ∈ scored -> 0 < ex_ssh_port (jr_executor_info (c_result c1)) ->
  0 < ex_ssh_port (jr_executor_info (c_result c2)) ->
  ssh_endpoint (c_result c1) = ssh_endpoint (c_result c2) -> c_hotkey c1 <> c_hotkey c2 ->
  exists k ds zs, settle_endpoint rental_hotkeys (ssh_endpoint (c_result c1))
      (at_endpoint (ssh_endpoint (c_result c1))) = Ok (ds, zs) /\ (forall z, z ∈ zs -> z ∈ out.2) /\
    keeper (at_endpoint (ssh_endpoint (c_result c1))) rental_hotkeys = Ok k /\
    k ∈ hotkeys_of (at_endpoint (ssh_endpoint (c_result c1))) /\
    forall a, a ∈ map z_addr zs <-> exists c, c ∈ at_endpoint (ssh_endpoint (c_result c1)) /\ c_addr c = a /\ c_hotkey c <> k.
Proof.
  intros H1 H2 P1 P2 He Hne. destruct (endpoint_in _ H1 P1) as [Hg I1]. destruct (endpoint_in _ H2 P2) as [_ I2].
  rewrite <- He in I2. apply settle_fold_spec in out_ok as [Hok Hin]. destruct (Hok _ Hg) as ([ds zs] & Hs). cbn in Hs.
  pose proof Hs as Hs'. apply settle_endpoint_spec in Hs' as [[Hl _]|(k & Hk & Hkp & Ha)].
  - exfalso. pose proof (two_hotkeys (at_endpoint (ssh_endpoint (c_result c1))) (c_hotkey c1) (c_hotkey c2)) as Ht.
    rewrite Nat.ltb_ge in Ht. enough (2 <= length (hotkeys_of (at_endpoint (ssh_endpoint (c_result c1)))))%nat by lia.
    apply Ht; [apply elem_of_hotkeys_of; by exists c1|apply elem_of_hotkeys_of; by exists c2|done].
  - exists k, ds, zs. split_and!; try done. intros z Hz. apply Hin. right. eexists _, _. split_and!; [exact Hg|exact Hs|done].
Qed.

Lemma at_endpoint_in c e : c ∈ at_endpoint e ->
  c ∈ scored /\ 0 < ex_ssh_port (jr_executor_info (c_result c)) /\ ssh_endpoint (c_result c) = e.
Proof. intros [Hc [Hp He]%andb_true_iff]%elem_of_bfilter. apply String.eqb_eq in He. split_and!; [done|lia|done]. Qed.

Lemma lost_spec a : a ∈ map z_addr out.2 <-> exists c k, c_addr c = a /\ loses c k.
Proof.
  split.
  - intros (z & -> & Hz)%list_elem_of_fmap. apply settle_fold_spec in out_ok as [_ Hin]. apply Hin in Hz as [Hz|Hz]; [set_solver|].
    destruct Hz as ([e cs] & [ds zs] & Hg & Hs & Hz). cbn in Hs, Hz. rewrite (by_endpoint_group _ _ Hg) in Hs.
    apply settle_endpoint_spec in Hs as [[_ ->]|(k & Hk & Hkp & Ha)]; [set_solver|].
    assert (z_addr z ∈ map z_addr zs) as (c & Hc & Ec & Hn)%Ha by (apply list_elem_of_fmap; by exists z).
    apply at_endpoint_in in Hc as (Hc & Hp & <-). by exists c, k.
  - intros (c & k & <- & Hc & Hp & Hkp & (c' & Hc' & <-)%elem_of_hotkeys_of & Hn).
    apply at_endpoint_in in Hc' as (Hc' & Hp' & He).
    destruct (contested c c') as (k' & ds & zs & Hs & Hsub & Hkp' & _ & Ha); try done.
    rewrite Hkp in Hkp'. injection Hkp' as <-.
    assert (c_addr c ∈ map z_addr zs) as (z & E & Hz)%list_elem_of_fmap.
    { apply Ha. exists c. split_and!; [|done|done]. by apply endpoint_in. }
    rewrite E. apply list_elem_of_fmap. exists z. split; [done|by apply Hsub].
Qed.

Hypothesis addrs_nodup : NoDup (map c_addr scored).

Lemma same_copy c c' : c ∈ scored -> c' ∈ scored -> c_addr c = c_addr c' -> c = c'.
Proof.
  intros (i & Hi)%list_elem_of_lookup (j & Hj)%list_elem_of_lookup E.
  assert (i = j) as ->; [|congruence]. eapply (NoDup_lookup (map c_addr scored)); [done| |].
  - by rewrite list_lookup_fmap, Hi.
  - rewrite list_lookup_fmap, Hj. cbn. by rewrite E.
Qed.

(** The keeper's copy stays. *)
Lemma keeper_survives c k : loses c k ->
  exists c', c' ∈ scored /\ c_hotkey c' = k /\ 0 < ex_ssh_port (jr_executor_info (c_result c')) /\
    ssh_endpoint (c_result c') = ssh_endpoint (c_result c) /\ c_addr c' ∉ map z_addr out.2.
Proof.
  intros (Hc & Hp & Hkp & (c' & Hc' & Hk)%elem_of_hotkeys_of & Hn). apply at_endpoint_in in Hc' as (Hc' & Hp' & He).
  exists c'. split_and!; try done. intros (c3 & k3 & E & H3 & _ & Hk3 & _ & Hn3)%lost_spec.
  apply same_copy in E as ->; [|done|done]. rewrite He, Hkp in Hk3. injection Hk3 as <-. done.
Qed.
End OneMiner.

(** C31. One machine earns under one miner per cycle: after
    [keep_one_miner_per_executor] two results that still score and were reached
    on the same SSH endpoint belong to one hotkey; every endpoint that had a
    scored copy keeps one, untouched; and a result that loses its score was
    reached on the endpoint of a copy that another hotkey keeps. *)
Theorem one_miner_per_endpoint str_of_other heap jobs rental_hotkeys dups heap' :
  NoDup (map snd (scored_pairs jobs)) ->
  keep_one_miner_per_executor str_of_other heap jobs rental_hotkeys = Ok (dups, heap') ->
  let live hp p r := p ∈ scored_pairs jobs /\ hp !! p.2 = Some r /\ is_successful r = true /\
    0 < ex_ssh_port (jr_executor_info r) in
  (forall p1 p2 r1 r2, live heap' p1 r1 -> live heap' p2 r2 -> ssh_endpoint r1 = ssh_endpoint r2 -> p1.1 = p2.1) /\
  (forall p r, live heap p r -> exists p' r', live heap p' r' /\ heap' !! p'.2 = Some r' /\ ssh_endpoint r' = ssh_endpoint r) /\
  (forall p r, p ∈ scored_pairs jobs -> heap !! p.2 = Some r -> heap' !! p.2 = Some r \/
     (exists r', heap' !! p.2 = Some r' /\ zeroed_from r r') /\
     exists p' r', live heap' p' r' /\ p'.1 <> p.1 /\ ssh_endpoint r' = ssh_endpoint r).
Proof.
  intros Hnd H live. unfold keep_one_miner_per_executor in H.
  apply bind_ok in H as (scored & Hsc & H). apply bind_ok in H as (out & Hout & H).
  apply bind_ok in H as (keyed & _ & H). apply bind_ok in H as (h2 & Hz & H). injection H as _ ->.
  apply zero_fold_spec in Hz as (Hlen & Hother & Hzero).
  pose proof (scored_copies_spec _ _ _ Hsc) as [Hcopy Hnd'%(fun f => f Hnd)].
  assert (forall p r, live heap p r -> mkCopy p.1 p.2 r ∈ scored) as Hlive.
  { intros [h a] r (Hp & Hr & Hs & _). by apply Hcopy. }
  assert (forall p r, live heap' p r -> p.2 ∉ map z_addr out.2 /\ live heap p r) as Hkept.
  { intros p r (Hp & Hr & Hs & Hport). assert (p.2 ∉ map z_addr out.2) as Hn.
    { intros Hin. destruct (lookup_lt_is_Some_2 heap p.2) as [r0 Hr0]; [rewrite <- Hlen; by eapply lookup_lt_Some|].
      destruct (Hzero _ _ Hin Hr0) as (r' & Hr' & Hz%zeroed_unsuccessful). congruence. }
    split; [done|]. rewrite Hother in Hr by done. by split_and!. }
  assert (forall c k p r, loses rental_hotkeys scored c k -> c_addr c = p.2 -> p ∈ scored_pairs jobs -> heap !! p.2 = Some r ->
    exists p' r', live heap p' r' /\ heap' !! p'.2 = Some r' /\ ssh_endpoint r' = ssh_endpoint r /\ p'.1 <> p.1) as Hkeep.
  { intros c k [h a] r Hl Ea Hp Hr. cbn in Ea, Hr. pose proof Hl as (Hc & _ & _ & _ & Hne).
    destruct (keeper_survives _ _ _ Hout Hnd' _ _ Hl) as (c' & Hc' & Hk & Hport & He & Hn).
    apply Hcopy in Hc as (Hcp & Hcr & _). rewrite Ea, Hr in Hcr. injection Hcr as ->. rewrite Ea in Hcp.
    apply Hcopy in Hc' as (Hp' & Hr' & Hs'). exists (c_hotkey c', c_addr c'), (c_result c').
    split_and!; try done; [by rewrite Hother|]. cbn. rewrite (NoDup_snd_inj _ _ _ _ Hnd Hp Hcp). congruence. }
  split_and!.
  - intros p1 p2 r1 r2 L1 L2 He. destruct (Hkept _ _ L1) as [N1 L1'], (Hkept _ _ L2) as [N2 L2'].
    destruct (decide (p1.1 = p2.1)) as [|Hne]; [done|]. exfalso.
    pose proof (Hlive _ _ L1') as C1. pose proof (Hlive _ _ L2') as C2.
    destruct (contested rental_hotkeys scored _ Hout _ _ C1 C2) as (k & ds & zs & _ & _ & Hkp & Hk & _);
      [apply L1|apply L2|done|done|].
    destruct (decide (p1.1 = k)) as [Ek|Hn1].
    + apply N2. apply (lost_spec _ _ _ Hout). exists (mkCopy p2.1 p2.2 r2), k. split; [reflexivity|].
      unfold loses. cbn [c_result c_hotkey c_addr] in *. split_and!; [done|apply L2|by rewrite <- He|by rewrite <- He|congruence].
    + apply N1. apply (lost_spec _ _ _ Hout). exists (mkCopy p1.1 p1.2 r1), k. split; [reflexivity|].
      unfold loses. cbn [c_result c_hotkey c_addr] in *. split_and!; [done|apply L1|done|done|done].
  - intros p r L. destruct (decide (p.2 ∈ map z_addr out.2)) as [Hin|Hin].
    + apply (lost_spec _ _ _ Hout) in Hin as (c & k & E & Hl). destruct L as (Hp & Hr & _).
      destruct (Hkeep _ _ p r Hl E Hp Hr) as (p' & r' & ? & ? & ? & _). by exists p', r'.
    + exists p, r. split_and!; [done| |done]. rewrite Hother by done. apply L.
  - intros p r Hp Hr. destruct (decide (p.2 ∈ map z_addr out.2)) as [Hin|Hin]; [right|left; by rewrite Hother].
    split; [by apply Hzero|]. apply (lost_spec _ _ _ Hout) in Hin as (c & k & E & Hl).
    destruct (Hkeep _ _ p r Hl E Hp Hr) as (p' & r' & (L1 & _ & L3 & L4) & Hr' & ? & ?). exists p', r'. by split_and!.
Qed.

(** ** One executor per GPU *)

(** The store after some results, at the addresses [seen], lost their score. *)
Record aliased (heap heap' : list JobResult) (seen : list addr) : Prop := {
  al_length : length heap' = length heap;
  al_other : forall a, a ∉ seen -> heap' !! a = heap !! a;
  al_seen : forall a r, a ∈ seen -> heap !! a = Some r -> exists r', heap' !! a = Some r' /\ zeroed_from r r'
}.

Lemma alias_step_spec h g kept heap0 heap seen al c heap' seen' al' :
  aliased heap0 heap seen -> alias_step h g kept (heap, seen, al) c = Ok (heap', seen', al') ->
  aliased heap0 heap' seen' /\ seen ⊆ seen' /\
  (forall a, a ∈ seen' -> a ∈ seen \/ a = c_addr c /\ jr_is_rented (c_result c) = false) /\
  (c_addr c = c_addr kept \/ jr_is_rented (c_result c) = true \/ c_addr c ∈ seen').
Proof.
  intros I H. unfold alias_step in H. destruct (_ || _ || _) eqn:E.
  - injection H as <- <- <-. split_and!; [done|done|tauto|].
    rewrite !orb_true_iff, Nat.eqb_eq, bool_decide_eq_true in E. tauto.
  - rewrite !orb_false_iff, bool_decide_eq_false in E. destruct E as [[Ek Er] Es].
    apply bind_ok in H as (r & Hr & H). cbv zeta in H. unfold deref in Hr.
    destruct (heap !! c_addr c) as [r0|] eqn:Ea; [|done]. injection Hr as ->. injection H as <- <- <-.
    assert (c_addr c < length heap)%nat as Hlt by (by eapply lookup_lt_Some).
    split_and!; [|set_solver| |set_solver].
    + split.
      * rewrite length_insert. apply I.
      * intros a Ha. rewrite list_lookup_insert_ne by set_solver. apply I. set_solver.
      * intros a x [Ha| ->%list_elem_of_singleton]%elem_of_app Hx.
        -- rewrite list_lookup_insert_ne by set_solver. by apply I.
        -- rewrite list_lookup_insert_eq by done. rewrite (al_other _ _ _ I) in Ea by done.
           rewrite Hx in Ea. injection Ea as ->. eexists. split; [done|]. split; try done. by eexists.
    + intros a [Ha| ->%list_elem_of_singleton]%elem_of_app; tauto.
Qed.

Lemma alias_fold_spec h g kept cs heap0 heap seen al heap' seen' al' :
  aliased heap0 heap seen -> foldM (alias_step h g kept) (heap, seen, al) cs = Ok (heap', seen', al') ->
  aliased heap0 heap' seen' /\ seen ⊆ seen' /\
  (forall a, a ∈ seen' -> a ∈ seen \/ exists c, c ∈ cs /\ c_addr c = a /\ jr_is_rented (c_result c) = false) /\
  (forall c, c ∈ cs -> c_addr c = c_addr kept \/ jr_is_rented (c_result c) = true \/ c_addr c ∈ seen').
Proof.
  revert heap seen al. induction cs as [|c cs IH]; cbn; intros heap seen al I H.
  { injection H as <- <- <-. split_and!; [done|done|tauto|set_solver]. }
  apply bind_ok in H as ([[h1 s1] a1] & H1 & H). apply (alias_step_spec _ _ _ heap0) in H1 as (I1 & S1 & N1 & K1); [|done].
  apply IH in H as (I2 & S2 & N2 & K2); [|done]. split_and!; [done|set_solver| |].
  - intros a Ha. apply N2 in Ha as [Ha|(c' & ? & ? & ?)]; [|right; exists c'; set_solver].
    apply N1 in Ha as [?|[-> ?]]; [tauto|]. right. exists c. set_solver.
  - intros c' [->|Hc]%elem_of_cons; [|auto]. destruct K1 as [?|[?|?]]; [tauto|tauto|right; right; set_solver].
Qed.

Lemma better_keeper_in cs x : fold_left better_keeper cs x = x \/ fold_left better_keeper cs x ∈ cs.
Proof.
  revert x. induction cs as [|c cs IH]; cbn; intros x; [tauto|].
  destruct (IH (better_keeper x c)) as [->|?]; [|set_solver]. unfold better_keeper. destruct (keeper_key_ltb _ _); set_solver.
Qed.

(** A rented copy beats every idle one. *)
Lemma better_keeper_rented cs x :
  (exists c, c ∈ x :: cs /\ jr_is_rented (c_result c) = true) ->
  jr_is_rented (c_result (fold_left better_keeper cs x)) = true.
Proof.
  revert x. induction cs as [|c cs IH]; cbn; intros x (c' & Hin & Hr).
  { apply list_elem_of_singleton in Hin as <-. done. }
  apply IH. clear IH. unfold better_keeper, keeper_key_ltb. cbn.
  destruct (jr_is_rented (c_result x)) eqn:Ex, (jr_is_rented (c_result c)) eqn:Ec; cbn;
    rewrite ?andb_false_r, ?orb_false_r; cbn.
  - eexists. split; [left|]. by destruct (String.ltb _ _).
  - exists x. split; [left|done].
  - exists c. split; [left|done].
  - exists c'. split; [|done]. rewrite !elem_of_cons in Hin. destruct Hin as [->|[->|Hin]]; [congruence|congruence|by right].
Qed.

Section OneExecutor.
Context (str_of_other : json -> string).

(** Two results that report a GPU of each other under two executor UUIDs. *)
Definition share_gpu (r1 r2 : JobResult) : Prop :=
  uuid_lower r1 <> uuid_lower r2 /\
  exists g gs1 gs2, gpu_uuids str_of_other r1 = Ok gs1 /\ gpu_uuids str_of_other r2 = Ok gs2 /\ g ∈ gs1 /\ g ∈ gs2.

(** No GPU of a miner earns idle under two executors. *)
Definition settled_gpus (heap : list JobResult) (addrs : list addr) : Prop :=
  forall a1 a2 r1 r2, a1 ∈ addrs -> a2 ∈ addrs -> heap !! a1 = Some r1 -> heap !! a2 = Some r2 ->
    is_successful r1 = true -> is_successful r2 = true -> share_gpu r1 r2 ->
    jr_is_rented r1 = true /\ jr_is_rented r2 = true.

Lemma by_gpu_spec scored groups :
  by_gpu str_of_other scored = Ok groups ->
  NoDup (dkeys groups) /\
  forall g c, c ∈ dget_or [] g groups <-> c ∈ scored /\ exists gs, gpu_uuids str_of_other (c_result c) = Ok gs /\ g ∈ gs.
Proof.
  intros (keyed & Hk & E)%bind_ok. injection E as <-. split; [apply group_keys|].
  intros g c. rewrite group_get, elem_of_values_of.
  enough (forall acc, foldM (fun acc c => gpus ← gpu_uuids str_of_other (c_result c); Ok (acc ++ map (fun g => (g, c)) gpus))
    acc scored = Ok keyed -> (g, c) ∈ keyed <-> (g, c) ∈ acc \/
      c ∈ scored /\ exists gs, gpu_uuids str_of_other (c_result c) = Ok gs /\ g ∈ gs) as Hx.
  { rewrite (Hx [] Hk). set_solver. }
  clear Hk. induction scored as [|c0 cs IH]; cbn; intros acc H; [injection H as <-; set_solver|].
  apply bind_ok in H as (acc1 & H1 & H). apply bind_ok in H1 as (gs & Hg & H1). injection H1 as <-.
  rewrite (IH _ H), elem_of_app, list_elem_of_fmap, elem_of_cons. split.
  - intros [[?|(g' & [= -> ->] & ?)]|?]; [tauto| |tauto]. right. split; [by left|by exists gs].
  - intros [?|[[->|?] (gs' & Hg' & ?)]]; [tauto| |right; split; [done|by exists gs']].
    left. right. exists g. split; [done|]. congruence.
Qed.

(** What a group with two executor UUIDs leaves: the keeper, and rented copies. *)
Definition group_settled (cs : list copy) (seen : list addr) : Prop :=
  forall c1 c2, c1 ∈ cs -> c2 ∈ cs -> uuid_lower (c_result c1) <> uuid_lower (c_result c2) ->
  exists kept, kept ∈ cs /\ ((exists c, c ∈ cs /\ jr_is_rented (c_result c) = true) -> jr_is_rented (c_result kept) = true) /\
    forall c, c ∈ cs -> c_addr c = c_addr kept \/ jr_is_rented (c_result c) = true \/ c_addr c ∈ seen.

Lemma group_settled_mono cs seen seen' : seen ⊆ seen' -> group_settled cs seen -> group_settled cs seen'.
Proof.
  intros Hs H c1 c2 H1 H2 Hn. destruct (H c1 c2 H1 H2 Hn) as (kept & Hin & Hr & Hk). exists kept. split_and!; [done|done|].
  intros c Hc. destruct (Hk c Hc) as [?|[?|?]]; [tauto|tauto|right; right; by apply Hs].
Qed.

Lemma alias_group_spec h g cs heap0 heap seen al heap' seen' al' :
  aliased heap0 heap seen -> alias_group h (heap, seen, al) (g, cs) = Ok (heap', seen', al') ->
  aliased heap0 heap' seen' /\ seen ⊆ seen' /\ group_settled cs seen' /\
  (forall a, a ∈ seen' -> a ∈ seen \/ exists c, c ∈ cs /\ c_addr c = a /\ jr_is_rented (c_result c) = false).
Proof.
  intros I H. unfold alias_group in H. cbn [snd fst] in H. destruct cs as [|first rest].
  { injection H as <- <- <-. split_and!; [done|done| |tauto]. intros c1 c2 Hc. set_solver. }
  destruct (Nat.ltb_spec (length (remove_dups (map (fun c => uuid_lower (c_result c)) (first :: rest)))) 2) as [Hl|_].
  - injection H as <- <- <-. split_and!; [done|done| |tauto]. intros c1 c2 H1 H2 Hn. exfalso. revert Hl.
    assert (forall c, c ∈ first :: rest -> uuid_lower (c_result c) ∈ remove_dups (map (fun c => uuid_lower (c_result c)) (first :: rest))) as Hm.
    { intros c Hc. apply elem_of_remove_dups, list_elem_of_fmap. by exists c. }
    pose proof (Hm _ H1) as M1. pose proof (Hm _ H2) as M2.
    destruct (remove_dups _) as [|x [|y l]]; [set_solver| |cbn; lia]. set_solver.
  - apply (alias_fold_spec _ _ _ _ heap0) in H as (I' & S & N & K); [|done]. split_and!; try done.
    intros c1 c2 _ _ _. eexists. split_and!; [|apply better_keeper_rented|exact K].
    destruct (better_keeper_in rest first) as [->|?]; [left|by right].
Qed.

Lemma alias_groups_spec h groups heap0 heap seen al heap' seen' al' :
  aliased heap0 heap seen -> foldM (alias_group h) (heap, seen, al) groups = Ok (heap', seen', al') ->
  aliased heap0 heap' seen' /\ seen ⊆ seen' /\ (forall g cs, (g, cs) ∈ groups -> group_settled cs seen') /\
  (forall a, a ∈ seen' -> a ∈ seen \/
     exists g cs c, (g, cs) ∈ groups /\ c ∈ cs /\ c_addr c = a /\ jr_is_rented (c_result c) = false).
Proof.
  revert heap seen al. induction groups as [|[g cs] groups IH]; cbn; intros heap seen al I H.
  { injection H as <- <- <-. split_and!; [done|done|set_solver|tauto]. }
  apply bind_ok in H as ([[h1 s1] a1] & H1 & H). apply (alias_group_spec _ _ _ heap0) in H1 as (I1 & S1 & G1 & N1); [|done].
  apply IH in H as (I2 & S2 & G2 & N2); [|done]. split_and!; [done|set_solver| |].
  - intros g' cs' [[= -> ->]|Hin]%elem_of_cons; [by eapply group_settled_mono|by eapply G2].
  - intros a Ha. apply N2 in Ha as [Ha|(g' & cs' & c & ? & ? & ? & ?)].
    + apply N1 in Ha as [?|(c & ? & ? & ?)]; [tauto|]. right. exists g, cs, c. split_and!; [left|done|done|done].
    + right. exists g', cs', c. split_and!; [by right|done|done|done].
Qed.

Lemma group_leaves_rented scored cs seen c1 c2 :
  NoDup (map c_addr scored) -> (forall c, c ∈ cs -> c ∈ scored) -> group_settled cs seen ->
  c1 ∈ cs -> c2 ∈ cs -> c_addr c1 ∉ seen -> c_addr c2 ∉ seen ->
  uuid_lower (c_result c1) <> uuid_lower (c_result c2) ->
  jr_is_rented (c_result c1) = true /\ jr_is_rented (c_result c2) = true.
Proof.
  intros Hnd Hsub G D1 D2 N1 N2 Hu. destruct (G _ _ D1 D2 Hu) as (kept & Hin & Hk & Hall).
  assert (forall c, c ∈ cs -> c_addr c = c_addr kept -> c = kept) as Hkept.
  { intros c Hc E. apply (same_copy scored Hnd); auto. }
  destruct (Hall _ D1) as [K1|[K1|K1]], (Hall _ D2) as [K2|[K2|K2]]; try done.
  - apply Hkept in K1 as ->; [|done]. apply Hkept in K2 as ->; [|done]. done.
  - apply Hkept in K1 as ->; [|done]. split; [|done]. apply Hk. by exists c2.
  - apply Hkept in K2 as ->; [|done]. split; [done|]. apply Hk. by exists c1.
Qed.

(** What settling one miner may change. *)
Record miner_settled (addrs : list addr) (heap heap' : list JobResult) : Prop := {
  ms_other : forall a, a ∉ addrs -> heap' !! a = heap !! a;
  ms_result : forall a r, heap !! a = Some r -> heap' !! a = Some r \/
    jr_is_rented r = false /\ exists r', heap' !! a = Some r' /\ zeroed_from r r';
  ms_gpus : settled_gpus heap' addrs
}.

Lemma gpu_uuids_zeroed r r' : zeroed_from r r' -> gpu_uuids str_of_other r' = gpu_uuids str_of_other r.
Proof. intros Z. unfold gpu_uuids. by rewrite (zf_spec _ _ Z). Qed.

Lemma alias_miner_spec heap al h addrs heap' al' :
  NoDup addrs -> alias_miner str_of_other (heap, al) (h, addrs) = Ok (heap', al') -> miner_settled addrs heap heap'.
Proof.
  intros Hnd H. unfold alias_miner in H. cbn [fst snd] in H. apply bind_ok in H as (scored & Hsc & H).
  apply bind_ok in H as (groups & Hg & H). apply bind_ok in H as ([[h1 seen] a1] & H1 & H). injection H as -> ->.
  assert (scored_pairs [(h, addrs)] = map (pair h) addrs) as Ep by (cbn; apply app_nil_r).
  assert (map snd (map (pair h) addrs) = addrs) as Es by (rewrite map_map; apply map_id).
  apply scored_copies_spec in Hsc as [Hcopy Hnd']. rewrite Ep, Es in *. specialize (Hnd' Hnd).
  apply by_gpu_spec in Hg as [Hkeys Hgroups].
  apply (alias_groups_spec _ _ heap) in H1 as (I & _ & G & N); [|split; [done|done|set_solver]].
  assert (forall a, a ∈ seen -> exists c, c ∈ scored /\ c_addr c = a /\ jr_is_rented (c_result c) = false) as Hseen.
  { intros a Ha. apply N in Ha as [Ha|(g & cs & c & Hin & Hc & ? & ?)]; [set_solver|]. exists c. split_and!; [|done|done].
    apply elem_of_psort, elem_of_dget in Hin; [|done]. apply (Hgroups g c). unfold dget_or. by rewrite Hin. }
  split.
  - intros a Ha. apply (al_other _ _ _ I). intros (c & Hc & <- & _)%Hseen. apply Hcopy in Hc as (Hp & _).
    apply list_elem_of_fmap in Hp as (b & [= _ Eb] & ?). congruence.
  - intros a r Hr. destruct (decide (a ∈ seen)) as [Ha|Ha]; [right|left; by rewrite (al_other _ _ _ I)].
    split; [|by apply I]. destruct (Hseen a Ha) as (c & Hc & <- & Hn). apply Hcopy in Hc as (_ & Hr' & _). congruence.
  - intros a1 a2 r1 r2 A1 A2 R1 R2 S1 S2 (Hu & g & gs1 & gs2 & G1 & G2 & I1 & I2).
    assert (forall a r, a ∈ addrs -> heap' !! a = Some r -> is_successful r = true ->
      a ∉ seen /\ mkCopy h a r ∈ scored) as Hlive.
    { intros a r Ha Hr Hs. assert (a ∉ seen) as Hn.
      { intros Hin. destruct (lookup_lt_is_Some_2 heap a) as [r0 Hr0];
          [rewrite <- (al_length _ _ _ I); by eapply lookup_lt_Some|].
        destruct (al_seen _ _ _ I a r0 Hin Hr0) as (r' & Hr' & Hz%zeroed_unsuccessful). congruence. }
      split; [done|]. apply Hcopy. rewrite (al_other _ _ _ I) in Hr by done. split_and!; [|done|done].
      apply list_elem_of_fmap. by exists a. }
    destruct (Hlive _ _ A1 R1 S1) as [N1 C1], (Hlive _ _ A2 R2 S2) as [N2 C2].
    assert (mkCopy h a1 r1 ∈ dget_or [] g groups) as D1 by (apply Hgroups; split; [done|by exists gs1]).
    assert (mkCopy h a2 r2 ∈ dget_or [] g groups) as D2 by (apply Hgroups; split; [done|by exists gs2]).
    destruct (dget g groups) as [cs|] eqn:Eg; unfold dget_or in D1, D2; rewrite Eg in D1, D2; [|set_solver].
    pose proof (dget_In _ _ _ Eg) as Eg'. rewrite <- (elem_of_psort (fun a b => String.leb a.1 b.1)) in Eg'.
    apply (group_leaves_rented scored cs seen _ _ Hnd' (fun c Hc => proj1 (proj1 (Hgroups g c) ltac:(unfold dget_or; by rewrite Eg)))
      (G g cs Eg') D1 D2 N1 N2 Hu).
Qed.

Lemma settled_gpus_ext heap heap' addrs :
  (forall a, a ∈ addrs -> heap' !! a = heap !! a) -> settled_gpus heap addrs -> settled_gpus heap' addrs.
Proof. intros E H a1 a2 r1 r2 A1 A2. rewrite !E by done. by apply H. Qed.

Lemma alias_miners_spec jobs heap al heap' al' :
  NoDup (map snd (scored_pairs jobs)) -> foldM (alias_miner str_of_other) (heap, al) jobs = Ok (heap', al') ->
  (forall a, a ∉ map snd (scored_pairs jobs) -> heap' !! a = heap !! a) /\
  (forall a r, heap !! a = Some r -> heap' !! a = Some r \/
    jr_is_rented r = false /\ exists r', heap' !! a = Some r' /\ zeroed_from r r') /\
  (forall h addrs, (h, addrs) ∈ jobs -> settled_gpus heap' addrs).
Proof.
  revert heap al. induction jobs as [|[h addrs] jobs IH]; intros heap al Hnd H.
  { cbn in H. injection H as <- <-. split_and!; [done|tauto|set_solver]. }
  cbn [foldM] in H. apply bind_ok in H as ([h1 a1] & H1 & H).
  change (scored_pairs ((h, addrs) :: jobs)) with (map (pair h) addrs ++ scored_pairs jobs) in *.
  assert (map snd (map (pair h) addrs) = addrs) as Es by (rewrite map_map; apply map_id).
  rewrite map_app, Es in *. apply NoDup_app in Hnd as (N1 & N12 & N2).
  apply alias_miner_spec in H1 as [O1 R1 G1]; [|done]. apply IH in H as (O2 & R2 & G2); [|done]. split_and!.
  - intros a Ha. rewrite elem_of_app in Ha. rewrite O2 by tauto. apply O1. tauto.
  - intros a r Hr. destruct (decide (a ∈ addrs)) as [Ha|Ha].
    + rewrite O2 by auto. by apply R1.
    + rewrite <- (O1 a Ha) in Hr. destruct (R2 a r Hr) as [?|(? & ?)]; auto.
  - intros h' l [[= -> ->]|Hin]%elem_of_cons; [|by eapply G2].
    eapply settled_gpus_ext; [|exact G1]. intros a Ha. apply O2. auto.
Qed.
End OneExecutor.

(** One miner's GPU earns under one of its executors per cycle: after
    [keep_one_executor_per_gpu] two results of a miner that still score under
    different executor UUIDs and report a common GPU are both rented; a rented
    result is never touched; and a result either stays as it was or is zeroed
    with a reason, its node unchanged. *)
Theorem one_executor_per_gpu str_of_other heap jobs heap' aliases :
  NoDup (map snd (scored_pairs jobs)) ->
  keep_one_executor_per_gpu str_of_other heap jobs = Ok (heap', aliases) ->
  (forall h addrs, (h, addrs) ∈ jobs -> settled_gpus str_of_other heap' addrs) /\
  (forall a r, heap !! a = Some r -> jr_is_rented r = true -> heap' !! a = Some r) /\
  (forall a r, heap !! a = Some r -> heap' !! a = Some r \/ exists r', heap' !! a = Some r' /\ zeroed_from r r').
Proof.
  intros Hnd H. pose proof (psort_perm (fun a b => String.leb a.1 b.1) jobs) as Hp.
  apply alias_miners_spec in H as (_ & R & G); [|by rewrite (scored_pairs_perm _ _ Hp)]. split_and!.
  - intros h addrs Hin. apply (G h). by rewrite Hp.
  - intros a r Hr Hren. destruct (R a r Hr) as [?|[? _]]; [done|congruence].
  - intros a r Hr. destruct (R a r Hr) as [?|[_ ?]]; auto.
Qed.

(** ** Counting *)
Lemma count_fold_get st now rs m g :
  dget_or 0 g (fold_left (count_step st now) rs m) = dget_or 0 g m +
    Zsum (map jr_gpu_count (List.filter (fun r => counts_in_total st now r && bool_decide (jr_gpu_model r = Some g)) rs)).
Proof.
  revert m. induction rs as [|r rs IH]; cbn; intros m; [lia|]. rewrite IH. unfold count_step.
  destruct (jr_gpu_model r) as [g'|] eqn:Eg.
  - destruct (counts_in_total st now r); cbn; [|lia]. destruct (decide (g' = g)) as [->|Hne].
    + rewrite dget_or_dset_eq, bool_decide_eq_true_2 by done. cbn. lia.
    + rewrite dget_or_dset_ne, bool_decide_eq_false_2 by congruence. done.
  - rewrite bool_decide_eq_false_2, andb_false_r by done. lia.
Qed.
