(* ===== verification/Availability.v ===== *)
(** * Availability errors

    [services/task/availability.py]: the errors a cycle raises about reaching a
    node, the silencer for a cycle that is the validator's own outage, and the
    running share that decides what may be published before the cycle ends.
    An entry of [JobResult.availability_errors] is the JSON object the backend
    stores. *)

From Stdlib Require Import String.
From S2P Require Import Prelude Float64 PyValue JobResult IncentiveConfig Readings Burn IncentiveBase Settlement.

Local Open Scope string_scope.
Local Open Scope list_scope.
Local Open Scope Z_scope.

(** ** Codes *)
Inductive ReachSource := VALIDATOR | CONTAINER | MINER.
Definition reach_source_value (s : ReachSource) : string :=
  match s with VALIDATOR => "validator" | CONTAINER => "container" | MINER => "miner" end.

Inductive ReachTarget := EXECUTOR_SSH | EXECUTOR_API | GPU | EXECUTOR_PORTS | NODE.
Definition reach_target_value (t : ReachTarget) : string :=
  match t with
  | EXECUTOR_SSH => "executor_ssh"
  | EXECUTOR_API => "executor_api"
  | GPU => "gpu"
  | EXECUTOR_PORTS => "executor_ports"
  | NODE => "node"
  end.

Inductive AvailabilityErrorCode :=
| EXECUTOR_SSH_UNREACHABLE
| RENTED_EXECUTOR_NOT_LISTED
| EXECUTOR_UNREACHABLE_BY_MINER
| GPU_LOST
| GPU_MEMORY_HEALTH_FAILED
| VERIFICATION_FAILED
| GPU_THERMAL_COLLAPSE.
Definition code_value (c : AvailabilityErrorCode) : string :=
  match c with
  | EXECUTOR_SSH_UNREACHABLE => "EXECUTOR_SSH_UNREACHABLE"
  | RENTED_EXECUTOR_NOT_LISTED => "RENTED_EXECUTOR_NOT_LISTED"
  | EXECUTOR_UNREACHABLE_BY_MINER => "EXECUTOR_UNREACHABLE_BY_MINER"
  | GPU_LOST => "GPU_LOST"
  | GPU_MEMORY_HEALTH_FAILED => "GPU_MEMORY_HEALTH_FAILED"
  | VERIFICATION_FAILED => "VERIFICATION_FAILED"
  | GPU_THERMAL_COLLAPSE => "GPU_THERMAL_COLLAPSE"
  end.

Definition SMALLEST_FLEET_THAT_CAN_SHOW_AN_OUTAGE : Z := 5.
Definition NODE_GPU_FAULT_CODES : list AvailabilityErrorCode :=
  [GPU_LOST; GPU_MEMORY_HEALTH_FAILED; GPU_THERMAL_COLLAPSE; VERIFICATION_FAILED].
Definition REASONS_THAT_HIDE_AT_ONCE : list string := ["GPU_DETAILS_MISMATCH"; "GPU_UUID_CHANGED"; "NVLINK_FAULT"].
Definition AVAILABILITY_CATEGORY : string := "availability".

(** ** One error *)
Notation error := (list (string * json)) (only parsing).

(** [isinstance(v, int)] and its value: a bool is an int. *)
Definition int_value (v : json) : option Z :=
  match v with JInt z => Some z | JBool b => Some (if b then 1 else 0) | _ => None end.

(** [_is_the_nodes_own_fault] *)
Definition is_the_nodes_own_fault (e : error) : res bool :=
  let code := dget_or JNull "reason_code" e in
  if match code with JList _ | JObj _ => true | _ => false end then Raise TypeError
  else if existsb (fun c => json_eqb code (JStr (code_value c))) NODE_GPU_FAULT_CODES then Ok true
  else
    let seen := py_or (dget_or JNull "what_we_saw" e) (JObj []) in
    declared ← jget "declared_port_count" seen;
    required ← jget "required" seen;
    Ok (json_eqb code (JStr "INSUFFICIENT_PORTS")
        && match int_value declared, int_value required with Some d, Some r => d <? r | _, _ => false end).

(** [_is_the_validators_own_reading] *)
Definition is_the_validators_own_reading (r : JobResult) : bool :=
  match jr_availability_errors r with
  | None => false
  | Some [] => true
  | Some errors =>
      existsb (fun e => negb (json_eqb (dget_or JNull "reach_source" e) (JStr (reach_source_value MINER)))) errors
  end.

Definition errors_of (r : JobResult) : list error :=
  match jr_availability_errors r with Some l => l | None => [] end.

(** [any(not _is_the_nodes_own_fault(error) for error in errors)] *)
Fixpoint any_reach_failure (errors : list error) : res bool :=
  match errors with
  | [] => Ok false
  | e :: rest => own ← is_the_nodes_own_fault e; if (own : bool) then any_reach_failure rest else Ok true
  end.

(** The entries of a list that are the node's own faults. *)
Fixpoint own_faults (errors : list error) : res (list error) :=
  match errors with
  | [] => Ok []
  | e :: rest =>
      own ← is_the_nodes_own_fault e;
      kept ← own_faults rest;
      Ok (if (own : bool) then e :: kept else kept)
  end.

(** ** The share of a cycle *)
Section Share.
Context `{R : Rounding}.

(** The literal [0.5]. *)
Definition FLEET_SHARE_THAT_MEANS_OUR_OWN_OUTAGE : Q := rnd (1 # 2).

(** [is_our_own_outage] *)
Definition is_our_own_outage (unreachable_count checked_count : Z) : bool :=
  if checked_count <? SMALLEST_FLEET_THAT_CAN_SHOW_AN_OUTAGE then false
  else Qltb FLEET_SHARE_THAT_MEANS_OUR_OWN_OUTAGE (rnd (inject_Z unreachable_count / inject_Z checked_count)).

(** [_checked_and_unreachable] on the results at some addresses. *)
Fixpoint unreachable_among (checked : list (addr * JobResult)) : res (list (addr * JobResult)) :=
  match checked with
  | [] => Ok []
  | ar :: rest =>
      u ← any_reach_failure (errors_of ar.2);
      us ← unreachable_among rest;
      Ok (if (u : bool) then ar :: us else us)
  end.
Definition checked_and_unreachable (results : list (addr * JobResult))
    : res (list (addr * JobResult) * list (addr * JobResult)) :=
  let checked := List.filter (fun ar => is_the_validators_own_reading ar.2) results in
  unreachable ← unreachable_among checked;
  Ok (checked, unreachable).

(** [list or None] *)
Definition or_none (l : list error) : option (list error) := match l with [] => None | _ => Some l end.

(** [silence_availability_errors_on_our_own_outage] on the results of a cycle:
    the store afterwards and how many results were silenced. *)
Definition silence_step (heap : list JobResult) (ar : addr * JobResult) : res (list JobResult) :=
  r ← deref heap ar.1;
  kept ← own_faults (errors_of r);
  Ok (<[ar.1 := set_availability_errors (or_none kept) r]> heap).
Definition results_at (heap : list JobResult) (addrs : list addr) : res (list (addr * JobResult)) :=
  foldM (fun acc a => r ← deref heap a; Ok (acc ++ [(a, r)])) [] addrs.
Definition silence_availability_errors_on_our_own_outage (heap : list JobResult) (addrs : list addr)
    : res (list JobResult * Z) :=
  results ← results_at heap addrs;
  cu ← checked_and_unreachable results;
  let '(checked, unreachable) := cu in
  if negb (is_our_own_outage (Z.of_nat (length unreachable)) (Z.of_nat (length checked))) then Ok (heap, 0)
  else
    heap' ← foldM silence_step heap checked;
    Ok (heap', Z.of_nat (length checked)).

(** [RunningOutageTally] *)
Record RunningOutageTally := mkTally {
  t_job_batch_id : string;
  t_rented_executor_ids : list string;
  t_checked_count : Z;
  t_unreachable_count : Z;
  t_published_early : list string
}.
Definition new_tally (job_batch_id : string) (rented_executor_ids : list string) : RunningOutageTally :=
  mkTally job_batch_id rented_executor_ids 0 0 [].

(** [RunningOutageTally.add] *)
Definition may_publish (t : RunningOutageTally) (r : JobResult) : bool :=
  match errors_of r with [] => false | _ => true end && negb (is_successful r) && negb (jr_is_rented r)
  && negb (in_list (uuid_lower r) (t_rented_executor_ids t)).
Definition tally_add (t : RunningOutageTally) (results : list (addr * JobResult))
    : res (RunningOutageTally * list (addr * JobResult)) :=
  cu ← checked_and_unreachable (List.filter (fun ar => String.eqb (jr_job_batch_id ar.2) (t_job_batch_id t)) results);
  let '(checked, unreachable) := cu in
  let t := mkTally (t_job_batch_id t) (t_rented_executor_ids t)
    (t_checked_count t + Z.of_nat (length checked)) (t_unreachable_count t + Z.of_nat (length unreachable))
    (t_published_early t) in
  if (t_checked_count t <? SMALLEST_FLEET_THAT_CAN_SHOW_AN_OUTAGE)
     || is_our_own_outage (t_unreachable_count t) (t_checked_count t)
  then Ok (t, [])
  else Ok (t, List.filter (fun ar => may_publish t ar.2) checked).

(** [MinerService.publish_unreachable_early] on a job (its results, and whether it
    has a coldkey): what is recorded and handed to the publisher; the publish itself
    is I/O. Every exception is caught, and [add] raises before it changes a count. *)
Definition record_early (t : RunningOutageTally) (early : list (addr * JobResult)) : RunningOutageTally :=
  mkTally (t_job_batch_id t) (t_rented_executor_ids t) (t_checked_count t) (t_unreachable_count t)
    (t_published_early t ++ map (fun ar => ex_uuid (jr_executor_info ar.2)) early).
Definition publish_unreachable_early (tally : option RunningOutageTally)
    (job : option (list (addr * JobResult) * bool)) : option RunningOutageTally * list (addr * JobResult) :=
  match job, tally with
  | None, _ => (tally, [])
  | _, None => (None, [])
  | Some (results, has_coldkey), Some t =>
      match tally_add t results with
      | Raise _ => (Some t, [])
      | Ok (t', []) => (Some t', [])
      | Ok (t', early) => if (has_coldkey : bool) then (Some (record_early t' early), early) else (Some t', [])
      end
  end.

(** [RunningOutageTally.restore_published_early] *)
Definition restore_step (t : RunningOutageTally) (published_before : list (string * list error))
    (heap : list JobResult) (a : addr) : res (list JobResult) :=
  r ← deref heap a;
  if negb (in_list (ex_uuid (jr_executor_info r)) (t_published_early t)) then Ok heap
  else match dget (uuid_lower r) published_before with
  | None => Ok heap
  | Some before =>
      let kept := errors_of r in
      Ok (<[a := set_availability_errors (Some (kept ++
            List.filter (fun e => negb (existsb (fun k => json_eqb (JObj e) (JObj k)) kept)) before)) r]> heap)
  end.
Definition restore_published_early (t : RunningOutageTally) (heap : list JobResult) (addrs : list addr)
    (published_before : list (string * list error)) : res (list JobResult) :=
  foldM (restore_step t published_before) heap addrs.

(** The end of the cycle in [Validator.sync]: silence, and when anything was
    silenced give the nodes published early their last published list back. *)
Definition report_reachability (heap : list JobResult) (cycle_results : list addr)
    (tally : option RunningOutageTally) (cycle_published_availability : list (string * list error))
    : res (list JobResult) :=
  hn ← silence_availability_errors_on_our_own_outage heap cycle_results;
  let '(heap, silenced_count) := hn in
  if silenced_count =? 0 then Ok heap
  else match tally with
  | None => Ok heap
  | Some t => restore_published_early t heap cycle_results cycle_published_availability
  end.
End Share.

(** ** Errors of the events of a run *)
Record AvailabilityError := mkAvailabilityError {
  ae_reason_code : string;
  ae_reach_source : string;
  ae_reach_target : string;
  ae_message : string;
  ae_remediation : option string;
  ae_what_we_saw : list (string * json)
}.

Definition is_availability_error (e : ValidationEvent) : bool := String.eqb (ev_category e) AVAILABILITY_CATEGORY.

Definition ddel (k : string) (d : list (string * json)) : list (string * json) :=
  List.filter (fun kv => negb (String.eqb kv.1 k)) d.

Section Events.
Context (str_of_other : json -> string).

(** [str(seen.pop(k, ""))] *)
Definition pop_str (k : string) (d : list (string * json)) : string :=
  json_str str_of_other (dget_or (JStr "") k d).

Definition error_of_event (e : ValidationEvent) : AvailabilityError := {|
  ae_reason_code := ev_reason_code e;
  ae_reach_source := pop_str "reach_source" (ev_what_we_saw e);
  ae_reach_target := pop_str "reach_target" (ddel "reach_source" (ev_what_we_saw e));
  ae_message := ev_event e;
  ae_remediation := ev_remediation e;
  ae_what_we_saw := ddel "reach_target" (ddel "reach_source" (ev_what_we_saw e))
|}.

(** [availability_errors] *)
Definition collect_error (d : list (string * AvailabilityError)) (e : ValidationEvent)
    : list (string * AvailabilityError) :=
  if negb (is_availability_error e) || din (ev_reason_code e) d then d
  else dset (ev_reason_code e) (error_of_event e) d.
Definition availability_errors (events : list ValidationEvent) : list AvailabilityError :=
  dvalues (fold_left collect_error events []).
End Events.

(** [build_availability_event] *)
Definition build_availability_event (code : AvailabilityErrorCode) (source : ReachSource) (target : ReachTarget)
    (event_text impact remediation : string) (what_we_saw : list (string * json)) : ValidationEvent := {|
  ev_event := event_text;
  ev_reason_code := code_value code;
  ev_severity := "error";
  ev_category := AVAILABILITY_CATEGORY;
  ev_impact := impact;
  ev_remediation := Some remediation;
  ev_what_we_saw := fold_left (fun d kv => dset kv.1 kv.2 d) what_we_saw
    [("reach_source", JStr (reach_source_value source)); ("reach_target", JStr (reach_target_value target))];
  ev_check_id := Some ""
|}.

(** [failed_check_event] *)
Definition failed_check_event (ok : bool) (events : list ValidationEvent) : option ValidationEvent :=
  match List.rev events with
  | [] => None
  | last_event :: _ =>
      if ok || existsb is_availability_error events then None
      else if negb (in_list (ev_reason_code last_event) REASONS_THAT_HIDE_AT_ONCE) then None
      else Some (build_availability_event VERIFICATION_FAILED VALIDATOR NODE "The node failed a verification check"
        "Hidden and takes no new rentals until a check passes; a rental already on it is not touched"
        "See the failed check's message for the cause. The node is listed again on the first check that passes."
        [("failed_check", match ev_check_id last_event with Some c => JStr c | None => JNull end);
         ("failed_reason", JStr (ev_reason_code last_event))])
  end.

(** ** What the readings of a cycle say *)
Definition own_fault (e : error) : bool := match is_the_nodes_own_fault e with Ok b => b | Raise _ => false end.
Definition reach_failed (r : JobResult) : bool := existsb (fun e => negb (own_fault e)) (errors_of r).

Lemma own_faults_filter l kept : own_faults l = Ok kept -> kept = List.filter own_fault l.
Proof.
  revert kept. induction l as [|e l IH]; intros kept H; cbn [own_faults] in H; [by injection H as <-|].
  apply bind_ok in H as (own & Ho & H). apply bind_ok in H as (k & Hk & H). apply IH in Hk as ->.
  injection H as <-. cbn [List.filter]. replace (own_fault e) with own; [done|]. unfold own_fault. by rewrite Ho.
Qed.

Lemma any_reach_failure_exists l b :
  any_reach_failure l = Ok b -> b = existsb (fun e => negb (own_fault e)) l.
Proof.
  revert b. induction l as [|e l IH]; intros b H; cbn [any_reach_failure] in H; [by injection H as <-|].
  apply bind_ok in H as (own & Ho & H). cbn [existsb]. unfold own_fault at 1. rewrite Ho.
  destruct own; cbn; [by apply IH|congruence].
Qed.

Lemma unreachable_among_filter l us :
  unreachable_among l = Ok us -> us = List.filter (fun ar => reach_failed ar.2) l.
Proof.
  revert us. induction l as [|ar l IH]; intros us H; cbn [unreachable_among] in H; [by injection H as <-|].
  apply bind_ok in H as (u & Hu & H). apply bind_ok in H as (us' & Hus & H). apply IH in Hus as ->.
  apply any_reach_failure_exists in Hu as ->. injection H as <-. done.
Qed.

(** The two sides of the share are filters of the results. *)
Lemma checked_and_unreachable_filters l checked unreachable :
  checked_and_unreachable l = Ok (checked, unreachable) ->
  checked = List.filter (fun ar => is_the_validators_own_reading ar.2) l /\
  unreachable = List.filter (fun ar => reach_failed ar.2) checked.
Proof.
  unfold checked_and_unreachable. intros H. apply bind_ok in H as (us & Hu & H). injection H as <- <-.
  split; [done|by apply unreachable_among_filter].
Qed.

Lemma results_at_spec heap addrs rs :
  results_at heap addrs = Ok rs -> map fst rs = addrs /\ Forall (fun ar => heap !! ar.1 = Some ar.2) rs.
Proof.
  unfold results_at. enough (forall acc, foldM (fun acc a => r ← deref heap a; Ok (acc ++ [(a, r)])) acc addrs = Ok rs ->
    Forall (fun ar => heap !! ar.1 = Some ar.2) acc ->
    map fst rs = map fst acc ++ addrs /\ Forall (fun ar => heap !! ar.1 = Some ar.2) rs) as G.
  { intros H. by apply (G [] H). }
  induction addrs as [|a l IH]; intros acc H Ha; cbn [foldM] in H.
  { injection H as <-. by rewrite app_nil_r. }
  apply bind_ok in H as (acc' & H1 & H). apply bind_ok in H1 as (r & Hr & H1). injection H1 as <-.
  unfold deref in Hr. destruct (heap !! a) as [r0|] eqn:Ea; [|done]. injection Hr as ->.
  destruct (IH _ H) as [Hm Hf]; [apply Forall_app; split; [done|by constructor]|].
  rewrite Hm, map_app, <- app_assoc. done.
Qed.

(** ** Silencing *)
Section Silencing.
Context `{R : Rounding}.

(** The addresses whose result is the validator's own reading, and those of them
    that carry a failure to reach the node. *)
Definition at_addr (p : JobResult -> bool) (heap : list JobResult) (a : addr) : bool :=
  match heap !! a with Some r => p r | None => false end.
Definition own_readings (heap : list JobResult) (addrs : list addr) : list addr :=
  List.filter (at_addr is_the_validators_own_reading heap) addrs.
Definition unreachable_readings (heap : list JobResult) (addrs : list addr) : list addr :=
  List.filter (at_addr reach_failed heap) (own_readings heap addrs).

(** A silenced result keeps the node's own faults and nothing else. *)
Definition silenced (r : JobResult) : JobResult :=
  set_availability_errors (or_none (List.filter own_fault (errors_of r))) r.

(** The share that silences a cycle is a strict majority of at least five readings,
    however the division rounds. *)
Lemma own_outage_majority u c :
  is_our_own_outage u c = true -> SMALLEST_FLEET_THAT_CAN_SHOW_AN_OUTAGE <= c /\ c < 2 * u.
Proof.
  unfold is_our_own_outage. destruct (Z.ltb_spec c SMALLEST_FLEET_THAT_CAN_SHOW_AN_OUTAGE) as [|Hc]; [done|].
  intros H. split; [done|]. apply Qltb_lt in H. destruct (Z.lt_ge_cases c (2 * u)) as [|Hu]; [done|]. exfalso.
  unfold SMALLEST_FLEET_THAT_CAN_SHOW_AN_OUTAGE in Hc. apply Qlt_not_le in H. apply H, rnd_mono.
  apply Qle_shift_div_r; [change 0%Q with (inject_Z 0); rewrite <- Zlt_Qlt; lia|].
  unfold Qle, Qmult, inject_Z. cbn. lia.
Qed.

Lemma own_readings_of heap addrs rs :
  map fst rs = addrs -> Forall (fun ar => heap !! ar.1 = Some ar.2) rs ->
  map fst (List.filter (fun ar => is_the_validators_own_reading ar.2) rs) = own_readings heap addrs.
Proof.
  intros <- Hf. unfold own_readings. induction Hf as [|[a r] rs Ha Hf IH]; [done|]. cbn in *.
  unfold at_addr at 1. rewrite Ha. destruct (is_the_validators_own_reading r); cbn; congruence.
Qed.

Lemma unreachable_readings_of heap rs :
  Forall (fun ar => heap !! ar.1 = Some ar.2) rs ->
  length (List.filter (fun ar => reach_failed ar.2) rs)
    = length (List.filter (at_addr reach_failed heap) (map fst rs)).
Proof.
  intros Hf. induction Hf as [|[a r] rs Ha Hf IH]; [done|]. cbn in *.
  unfold at_addr at 1. rewrite Ha. destruct (reach_failed r); cbn; congruence.
Qed.

(** A loop whose iterations each rewrite their own address by a function of what is
    there rewrites exactly the given addresses. *)
Lemma foldM_update {A} (key : A -> addr) (f : JobResult -> JobResult) step (l : list A) (heap heap' : list JobResult) :
  (forall h x h', step h x = Ok h' -> exists r, h !! key x = Some r /\ h' = <[key x := f r]> h) ->
  NoDup (map key l) -> foldM step heap l = Ok heap' ->
  forall a, heap' !! a = (if bool_decide (a ∈ map key l) then f <$> heap !! a else heap !! a).
Proof.
  intros Hstep. revert heap. induction l as [|x l IH]; intros heap Hnd H a; cbn [foldM map] in *.
  { injection H as <-. by case_bool_decide as Hb; [apply not_elem_of_nil in Hb|]. }
  apply bind_ok in H as (h1 & H1 & H). destruct (Hstep _ _ _ H1) as (r & Er & ->).
  apply NoDup_cons in Hnd as [Hb Hnd]. rewrite (IH _ Hnd H a).
  destruct (decide (a = key x)) as [->|Hab].
  - rewrite bool_decide_eq_false_2 by done. rewrite bool_decide_eq_true_2 by (by apply elem_of_cons; left).
    rewrite list_lookup_insert_eq by (by eapply lookup_lt_Some). by rewrite Er.
  - rewrite list_lookup_insert_ne by done.
    rewrite (bool_decide_ext (a ∈ key x :: map key l) (a ∈ map key l)); [done|]. rewrite elem_of_cons. naive_solver.
Qed.

Lemma deref_lookup heap a r : deref heap a = Ok r -> heap !! a = Some r.
Proof. unfold deref. destruct (heap !! a); congruence. Qed.

Lemma silence_step_update h ar h' :
  silence_step h ar = Ok h' -> exists r, h !! ar.1 = Some r /\ h' = <[ar.1 := silenced r]> h.
Proof.
  intros H. apply bind_ok in H as (r & Hr%deref_lookup & H). apply bind_ok in H as (k & Hk & H).
  apply own_faults_filter in Hk as ->. injection H as <-. by exists r.
Qed.

(** Silencing a cycle: either the share is trusted and no result changes, or at
    least five of the validator's own readings were checked and a strict majority of
    them could not be reached; then each of those readings keeps exactly the node's
    own faults (None when there are none), and every other result is untouched. *)
Lemma silence_spec heap addrs heap' n :
  NoDup addrs -> silence_availability_errors_on_our_own_outage heap addrs = Ok (heap', n) ->
  let c := Z.of_nat (length (own_readings heap addrs)) in
  let u := Z.of_nat (length (unreachable_readings heap addrs)) in
  (is_our_own_outage u c = false /\ n = 0 /\ heap' = heap) \/
  (is_our_own_outage u c = true /\ 5 <= c < 2 * u /\ n = c /\
   forall a, heap' !! a = (if bool_decide (a ∈ own_readings heap addrs) then silenced <$> heap !! a else heap !! a)).
Proof.
  intros Hnd H c u. apply bind_ok in H as (rs & Hrs & H). apply results_at_spec in Hrs as [Hm Hf].
  apply bind_ok in H as ([checked un] & Hcu & H). apply checked_and_unreachable_filters in Hcu as [Hc Hu].
  assert (Hown : map fst checked = own_readings heap addrs) by (rewrite Hc; by apply own_readings_of).
  assert (Ec : Z.of_nat (length checked) = c) by (unfold c; by rewrite <- Hown, length_map).
  assert (Eu : Z.of_nat (length un) = u).
  { unfold u, unreachable_readings. rewrite <- Hown, <- unreachable_readings_of; [by rewrite Hu|].
    rewrite Hc. apply Forall_forall. intros ar Har. apply elem_of_bfilter in Har as [Hin _].
    by apply (proj1 (Forall_forall _ _) Hf). }
  rewrite Ec, Eu in H. destruct (is_our_own_outage u c) eqn:Eo; cbn [negb] in H.
  - right. apply bind_ok in H as (h & Hh & H). injection H as -> <-.
    destruct (own_outage_majority _ _ Eo). split_and!; try done.
    rewrite <- Hown. eapply foldM_update; [exact silence_step_update| |done]. rewrite Hc. apply map_filter_NoDup. by rewrite Hm.
  - left. by injection H as <- <-.
Qed.

(** ** The end of a cycle *)

(** The result [restore_published_early] leaves for a silenced one. *)
Definition restored (t : RunningOutageTally) (published_before : list (string * list error)) (r : JobResult) : JobResult :=
  if negb (in_list (ex_uuid (jr_executor_info r)) (t_published_early t)) then r
  else match dget (uuid_lower r) published_before with
  | None => r
  | Some before => set_availability_errors (Some (errors_of r ++
      List.filter (fun e => negb (existsb (fun k => json_eqb (JObj e) (JObj k)) (errors_of r))) before)) r
  end.

Lemma restore_step_update t before h a h' :
  restore_step t before h a = Ok h' -> exists r, h !! a = Some r /\ h' = <[a := restored t before r]> h.
Proof.
  intros H. apply bind_ok in H as (r & Hr%deref_lookup & H). exists r. split; [done|]. unfold restored.
  destruct (negb _); [injection H as <-; by rewrite list_insert_id|].
  destruct (dget _ before); injection H as <-; [done|by rewrite list_insert_id].
Qed.

(** The errors a node published early had before the cycle. *)
Definition published_list (t : RunningOutageTally) (before : list (string * list error)) (r : JobResult) : list error :=
  if in_list (ex_uuid (jr_executor_info r)) (t_published_early t)
  then match dget (uuid_lower r) before with Some l => l | None => [] end else [].

Lemma errors_of_set l r : errors_of (set_availability_errors (Some l) r) = l.
Proof. done. Qed.

Lemma restored_errors t before r e :
  e ∈ errors_of (restored t before r) ->
  e ∈ errors_of r \/ e ∈ published_list t before r.
Proof.
  unfold restored, published_list. destruct (in_list _ _); cbn [negb]; [|tauto].
  destruct (dget (uuid_lower r) before) as [l|]; [|tauto]. rewrite errors_of_set.
  intros [?|[? _]%elem_of_bfilter]%elem_of_app; tauto.
Qed.

Lemma restored_keeps t before r e : e ∈ errors_of r -> e ∈ errors_of (restored t before r).
Proof.
  unfold restored. destruct (negb _); [done|]. destruct (dget (uuid_lower r) before); [|done].
  rewrite errors_of_set. intros. apply elem_of_app. by left.
Qed.

Lemma restored_has t before r e : e ∈ published_list t before r ->
  exists e', e' ∈ errors_of (restored t before r) /\ (e' = e \/ json_eqb (JObj e) (JObj e') = true).
Proof.
  unfold restored, published_list. destruct (in_list _ _); cbn [negb]; [|by intros ?%not_elem_of_nil].
  destruct (dget (uuid_lower r) before) as [l|]; [|by intros ?%not_elem_of_nil]. intros He. rewrite errors_of_set.
  destruct (existsb (fun k => json_eqb (JObj e) (JObj k)) (errors_of r)) eqn:Ek.
  - apply existsb_exists in Ek as (k & Hk%list_elem_of_In & E). exists k. split; [apply elem_of_app; by left|by right].
  - exists e. split; [|by left]. apply elem_of_app. right. apply elem_of_bfilter. by rewrite Ek.
Qed.

Lemma errors_of_silenced r : errors_of (silenced r) = List.filter own_fault (errors_of r).
Proof. unfold errors_of at 1, silenced. cbn. by destruct (List.filter _ _). Qed.

(** What a cycle reports about reachability. A fault the node itself proved is
    always reported. When the validator's own reach is not in doubt every result is
    reported as found. Otherwise one of the validator's own readings reports only the
    node's own faults and, if the node was published early, the list the last cycle
    published for it, which it then reports in full. *)
Theorem report_reachability_spec heap addrs t before heap' :
  NoDup addrs -> report_reachability heap addrs (Some t) before = Ok heap' ->
  forall a r, a ∈ addrs -> heap !! a = Some r -> exists r', heap' !! a = Some r' /\
    (forall e, e ∈ errors_of r -> own_fault e = true -> e ∈ errors_of r') /\
    (is_our_own_outage (Z.of_nat (length (unreachable_readings heap addrs)))
       (Z.of_nat (length (own_readings heap addrs))) = false -> r' = r) /\
    (is_our_own_outage (Z.of_nat (length (unreachable_readings heap addrs)))
       (Z.of_nat (length (own_readings heap addrs))) = true -> is_the_validators_own_reading r = true ->
     (forall e, e ∈ errors_of r' -> (e ∈ errors_of r /\ own_fault e = true) \/ e ∈ published_list t before r) /\
     forall e, e ∈ published_list t before r ->
       exists e', e' ∈ errors_of r' /\ (e' = e \/ json_eqb (JObj e) (JObj e') = true)).
Proof.
  intros Hnd H a r Ha Hr. apply bind_ok in H as ([h n] & Hs & H).
  destruct (silence_spec _ _ _ _ Hnd Hs) as [(Eo & -> & ->)|(Eo & Hc & -> & Hh)]; rewrite Eo.
  - injection H as <-. exists r. done.
  - replace (_ =? 0) with false in H by lia.
    pose proof (foldM_update (fun a => a) (restored t before) _ _ _ _ (restore_step_update t before)
      (ltac:(by rewrite map_id)) H a) as Hf.
    rewrite map_id, bool_decide_eq_true_2, Hh in Hf by done.
    set (s := if bool_decide (a ∈ own_readings heap addrs) then silenced r else r).
    assert (Hf' : heap' !! a = Some (restored t before s)).
    { rewrite Hf, Hr. unfold s. by destruct (bool_decide _). }
    assert (Hp : published_list t before s = published_list t before r) by (unfold s; by destruct (bool_decide _)).
    exists (restored t before s). split; [done|]. split_and!; [|done|].
    + intros e He Hown. apply restored_keeps. unfold s. destruct (bool_decide _); [|done].
      rewrite errors_of_silenced. by apply elem_of_bfilter.
    + intros _ Hread. assert (Hs' : s = silenced r).
      { unfold s. rewrite bool_decide_eq_true_2; [done|]. apply elem_of_bfilter. unfold at_addr. by rewrite Hr. }
      rewrite <- Hp. split; [|by apply restored_has].
      intros e [He|He]%restored_errors; [left|by right].
      rewrite Hs', errors_of_silenced in He. by apply elem_of_bfilter in He.
Qed.

(** ** The running tally *)

(** A cycle's jobs, in the order they return. *)
Definition run_jobs (tally : option RunningOutageTally) (jobs : list (option (list (addr * JobResult) * bool)))
    : option RunningOutageTally * list (addr * JobResult) :=
  fold_left (fun acc job =>
    let '(tally, early) := publish_unreachable_early acc.1 job in (tally, acc.2 ++ early)) jobs (tally, []).

(** The results of the jobs that belong to the batch. *)
Definition batch_results (batch : string) (jobs : list (option (list (addr * JobResult) * bool)))
    : list (addr * JobResult) :=
  flat_map (fun job => match job with
    | Some (results, _) => List.filter (fun ar => String.eqb (jr_job_batch_id ar.2) batch) results
    | None => []
    end) jobs.

Definition own_of (l : list (addr * JobResult)) : list (addr * JobResult) :=
  List.filter (fun ar => is_the_validators_own_reading ar.2) l.
Definition unreached_of (l : list (addr * JobResult)) : list (addr * JobResult) :=
  List.filter (fun ar => reach_failed ar.2) (own_of l).
(** The share of some results is one the tally publishes under. *)
Definition trusted_share (l : list (addr * JobResult)) : Prop :=
  SMALLEST_FLEET_THAT_CAN_SHOW_AN_OUTAGE <= Z.of_nat (length (own_of l)) /\
  is_our_own_outage (Z.of_nat (length (unreached_of l))) (Z.of_nat (length (own_of l))) = false.

Lemma unreachable_among_app l1 l2 :
  is_ok (unreachable_among (l1 ++ l2)) -> is_ok (unreachable_among l1) /\ is_ok (unreachable_among l2).
Proof.
  induction l1 as [|ar l1 IH]; cbn [unreachable_among app]; intros [us H]; [split; [by eexists|by exists us]|].
  apply bind_ok in H as (u & Hu & H). apply bind_ok in H as (us' & Hus & _).
  destruct (IH (ex_intro _ _ Hus)) as [[k Hk] H2]. split; [|done]. rewrite Hu, Hk. by eexists.
Qed.

Lemma own_of_app l1 l2 : own_of (l1 ++ l2) = own_of l1 ++ own_of l2.
Proof. apply List.filter_app. Qed.
Lemma unreached_of_app l1 l2 : unreached_of (l1 ++ l2) = unreached_of l1 ++ unreached_of l2.
Proof. unfold unreached_of. rewrite own_of_app. apply List.filter_app. Qed.

Lemma may_publish_spec t r : may_publish t r = true ->
  errors_of r <> [] /\ is_successful r = false /\ jr_is_rented r = false /\ uuid_lower r ∉ t_rented_executor_ids t.
Proof.
  unfold may_publish. rewrite !andb_true_iff, !negb_true_iff. intros [[[He Hs] Hr] Hi]. split_and!; try done.
  - by intros E; rewrite E in He.
  - by apply bool_decide_eq_false in Hi.
Qed.

(** One [add], when its results are readable. *)
Lemma tally_add_spec t results :
  is_ok (unreachable_among (own_of (List.filter (fun ar => String.eqb (jr_job_batch_id ar.2) (t_job_batch_id t)) results))) ->
  exists t' early, tally_add t results = Ok (t', early) /\
    let l := List.filter (fun ar => String.eqb (jr_job_batch_id ar.2) (t_job_batch_id t)) results in
    t' = mkTally (t_job_batch_id t) (t_rented_executor_ids t)
           (t_checked_count t + Z.of_nat (length (own_of l))) (t_unreachable_count t + Z.of_nat (length (unreached_of l)))
           (t_published_early t) /\
    forall ar, ar ∈ early -> ar ∈ own_of l /\ may_publish t ar.2 = true /\
      SMALLEST_FLEET_THAT_CAN_SHOW_AN_OUTAGE <= t_checked_count t' /\
      is_our_own_outage (t_unreachable_count t') (t_checked_count t') = false.
Proof.
  intros [us Hus]. unfold tally_add, checked_and_unreachable. fold (own_of (List.filter
    (fun ar => String.eqb (jr_job_batch_id ar.2) (t_job_batch_id t)) results)).
  rewrite Hus. apply unreachable_among_filter in Hus as ->. cbn [mbind res_bind t_checked_count t_unreachable_count].
  destruct (_ <? _) eqn:Ec; cbn [orb]; [do 2 eexists; split; [done|]; split; [done|]; by intros ? ?%not_elem_of_nil|].
  destruct (is_our_own_outage _ _) eqn:Eo; do 2 eexists; (split; [done|]; split; [done|]).
  - by intros ? ?%not_elem_of_nil.
  - intros ar [Hin Hp]%elem_of_bfilter. cbn [t_checked_count t_unreachable_count]. apply Z.ltb_ge in Ec. done.
Qed.

Lemma batch_results_snoc batch jobs job :
  batch_results batch (jobs ++ [job]) = batch_results batch jobs ++ batch_results batch [job].
Proof. unfold batch_results. by rewrite flat_map_app. Qed.

Lemma run_jobs_snoc tally jobs job :
  run_jobs tally (jobs ++ [job]) =
    let '(tally', early) := publish_unreachable_early (run_jobs tally jobs).1 job in
    (tally', (run_jobs tally jobs).2 ++ early).
Proof. unfold run_jobs. by rewrite fold_left_app. Qed.

(** One job: the counts grow by the job's readings, and what it publishes is
    recorded and allowed. *)
Lemma publish_early_spec t job :
  is_ok (unreachable_among (own_of (batch_results (t_job_batch_id t) [job]))) ->
  let l := batch_results (t_job_batch_id t) [job] in
  exists t' early, publish_unreachable_early (Some t) job = (Some t', early) /\
    t' = mkTally (t_job_batch_id t) (t_rented_executor_ids t)
           (t_checked_count t + Z.of_nat (length (own_of l))) (t_unreachable_count t + Z.of_nat (length (unreached_of l)))
           (t_published_early t ++ map (fun ar => ex_uuid (jr_executor_info ar.2)) early) /\
    forall ar, ar ∈ early -> ar ∈ own_of l /\ may_publish t ar.2 = true /\
      SMALLEST_FLEET_THAT_CAN_SHOW_AN_OUTAGE <= t_checked_count t' /\
      is_our_own_outage (t_unreachable_count t') (t_checked_count t') = false.
Proof.
  destruct job as [[results ck]|]; cbn [batch_results flat_map]; rewrite ?app_nil_r; intros Hok; cbv zeta.
  - destruct (tally_add_spec t results Hok) as (t1 & early & Ht & -> & He). cbn [publish_unreachable_early]. rewrite Ht.
    destruct early as [|e early]; [|destruct ck].
    1,3: do 2 eexists; split; [done|]; split; [cbn [map]; by rewrite app_nil_r|by intros ? ?%not_elem_of_nil].
    do 2 eexists. split; [done|]. split; [done|]. exact He.
  - do 2 eexists. split; [done|]. cbn. rewrite !Z.add_0_r, app_nil_r. destruct t. split; [done|].
    by intros ? ?%not_elem_of_nil.
Qed.

End Silencing.

(** ** One entry per reason *)
Section Entries.
Context (str_of_other : json -> string).

(** An event of the run that an entry is made from: the first availability error of
    its reason code. *)
Definition first_of_its_code (events : list ValidationEvent) (e : ValidationEvent) : Prop :=
  exists before after, events = before ++ e :: after /\ is_availability_error e = true /\
    forall e', e' ∈ before -> is_availability_error e' = true -> ev_reason_code e' <> ev_reason_code e.

(** The collected dictionary: its entries come from a subsequence of the events, and
    it has a key for every availability error. *)
Lemma collect_errors_inv events :
  exists l, fold_left (collect_error str_of_other) events [] =
      map (fun e => (ev_reason_code e, error_of_event str_of_other e)) l /\
    l `sublist_of` events /\ NoDup (map ev_reason_code l) /\
    (forall e, e ∈ l -> first_of_its_code events e) /\
    forall e, e ∈ events -> is_availability_error e = true -> ev_reason_code e ∈ map ev_reason_code l.
Proof.
  induction events as [|e events IH] using rev_ind.
  { exists []. split_and!; [done|done|by apply NoDup_nil|by intros ? ?%not_elem_of_nil|by intros ? ?%not_elem_of_nil]. }
  destruct IH as (l & Hf & Hs & Hnd & Hfirst & Hall). rewrite fold_left_app, Hf. cbn [fold_left].
  assert (Hext : forall x, x ∈ l -> first_of_its_code (events ++ [e]) x).
  { intros x (b & a & -> & Hav & Hb)%Hfirst. exists b, (a ++ [e]). split; [by rewrite <- app_assoc|done]. }
  assert (Hk : dkeys (map (fun e => (ev_reason_code e, error_of_event str_of_other e)) l) = map ev_reason_code l).
  { unfold dkeys. by rewrite <- list_fmap_compose. }
  unfold collect_error. destruct (is_availability_error e) eqn:Eav; cbn [negb orb].
  2: { exists l. split_and!; [done|by apply sublist_inserts_r|done|done|].
       intros x [Hx|Hx]%elem_of_app Hav; [by apply Hall|]. apply list_elem_of_singleton in Hx as ->. congruence. }
  destruct (din _ _) eqn:Ed.
  { apply din_keys in Ed. rewrite Hk in Ed. exists l. split_and!; [done|by apply sublist_inserts_r|done|done|].
    intros x [Hx|Hx]%elem_of_app Hav; [by apply Hall|]. by apply list_elem_of_singleton in Hx as ->. }
  assert (Hn : ev_reason_code e ∉ map ev_reason_code l).
  { intros Hin. rewrite <- Hk in Hin. apply din_keys in Hin. congruence. }
  exists (l ++ [e]). rewrite dset_fresh, map_app by (by rewrite Ed). split_and!.
  - done.
  - by apply sublist_app.
  - rewrite map_app. apply NoDup_app. split_and!; [done| |apply NoDup_singleton].
    intros x Hx ->%list_elem_of_singleton. done.
  - intros x [Hx|Hx]%elem_of_app; [by apply Hext|]. apply list_elem_of_singleton in Hx as ->.
    exists events, []. split_and!; [done|done|]. intros e' He' Hav E. apply Hn. rewrite <- E. by apply Hall.
  - intros x [Hx|Hx]%elem_of_app Hav; rewrite map_app, elem_of_app; [left; by apply Hall|right].
    apply list_elem_of_singleton in Hx as ->. by apply list_elem_of_singleton.
Qed.

Lemma first_of_its_code_unique events e e' :
  first_of_its_code events e -> first_of_its_code events e' -> ev_reason_code e = ev_reason_code e' -> e = e'.
Proof.
  intros (b & a & -> & He & Hb) (b' & a' & E & He' & Hb') Hc.
  destruct (decide (length b < length b')%nat) as [Hlt|Hge]; [|destruct (decide (length b' < length b)%nat) as [Hlt|]].
  - exfalso. apply (Hb' e); [|done|done]. apply list_elem_of_lookup. exists (length b).
    rewrite <- (lookup_app_l b' (e' :: a')) by done. rewrite <- E. by apply list_lookup_middle.
  - exfalso. apply (Hb e'); [|done|done]. apply list_elem_of_lookup. exists (length b').
    rewrite <- (lookup_app_l b (e :: a)) by done. rewrite E. by apply list_lookup_middle.
  - assert (length b = length b') as El by lia. apply app_inj_1 in E as [_ [=]]; done.
Qed.

(** The errors of a run: at most one entry per reason code, in the order of the
    run's events, and an entry for a code is made from the first availability error
    of that code, wherever it is in the run, and from nothing else. *)
Theorem availability_errors_first events :
  let errors := availability_errors str_of_other events in
  NoDup (map ae_reason_code errors) /\
  (exists l, l `sublist_of` events /\ errors = map (error_of_event str_of_other) l) /\
  (forall err, err ∈ errors <-> exists e, first_of_its_code events e /\ err = error_of_event str_of_other e) /\
  forall e, e ∈ events -> is_availability_error e = true -> ev_reason_code e ∈ map ae_reason_code errors.
Proof.
  cbv zeta. destruct (collect_errors_inv events) as (l & Hf & Hs & Hnd & Hfirst & Hall).
  assert (He : availability_errors str_of_other events = map (error_of_event str_of_other) l).
  { unfold availability_errors. rewrite Hf. unfold dvalues. by rewrite <- list_fmap_compose. }
  rewrite He.
  assert (Hc : map ae_reason_code (map (error_of_event str_of_other) l) = map ev_reason_code l) by (by rewrite map_map).
  rewrite Hc. split_and!; [done|by exists l| |done].
  intros err. rewrite list_elem_of_fmap. split.
  - intros (e & -> & Hin). exists e. split; [by apply Hfirst|done].
  - intros (e & Hfe & ->). pose proof Hfe as (b & a & E & Hav & _).
    assert (Hin : ev_reason_code e ∈ map ev_reason_code l).
    { apply Hall; [|done]. rewrite E. apply elem_of_app. right. by apply elem_of_cons; left. }
    apply list_elem_of_fmap in Hin as (e' & Hc' & Hin). exists e'. split; [|done].
    f_equal. apply (first_of_its_code_unique events); [done|by apply Hfirst|done].
Qed.
End Entries.
