(* ===== verification/PriceProvider.v ===== *)
(** * TAO price and alpha rate

    [incentive/price_provider.py]: two values, each cached for 15 minutes, fetched
    from outside (three HTTP price feeds, the chain) with retries, and falling back
    to the last value known or to a default.  What the outside answers is an input
    of each call: the body or the exception of every request, and the clock. *)

From Stdlib Require Import String.
From S2P Require Import Prelude Float64 PyValue.

Local Open Scope string_scope.
Local Open Scope list_scope.
Local Open Scope Z_scope.

(** ** The feeds *)

(** [aiohttp.ClientError] or a subclass of it. *)
Definition ClientError : exc := OtherError "aiohttp.ClientError".

Inductive RateProvider := CoinGeckoProvider | CoinbaseProvider | CryptoCompareProvider.
Definition providers : list RateProvider := [CoinGeckoProvider; CoinbaseProvider; CryptoCompareProvider].

(** [v[k]] for a string key. *)
Definition jitem (k : string) (v : json) : res json :=
  match v with
  | JObj d => match dget k d with Some x => Ok x | None => Raise KeyError end
  | _ => Raise TypeError
  end.

Section Provider.
Context `{R : Rounding}.

Definition DEFAULT_TAO_PRICE : num := Fin (rnd 200).
Definition DEFAULT_ALPHA_RATE : num := Fin (rnd (1 # 1000)).

(** [get_rate] of each feed on the body of the response. *)
Definition rate_path (p : RateProvider) : list string :=
  match p with
  | CoinGeckoProvider => ["market_data"; "current_price"; "usd"]
  | CoinbaseProvider => ["data"; "amount"]
  | CryptoCompareProvider => ["USD"]
  end.
Definition get_rate (p : RateProvider) (response : res json) : res num :=
  body ← response;
  rate ← foldM (fun v k => jitem k v) body (rate_path p);
  py_float rate.

(** One attempt of [_get_current_rate]: the first feed that answers. *)
Fixpoint first_rate (last_error : option exc) (ps : list RateProvider) (response : RateProvider -> res json) : res num :=
  match ps with
  | [] => Raise (match last_error with Some e => e | None => OtherError "All currency providers failed" end)
  | p :: rest =>
      match get_rate p (response p) with
      | Ok rate => Ok rate
      | Raise e => first_rate (Some e) rest response
      end
  end.

(** [tenacity.retry(stop_after_attempt(n), retry_if_exception_type, reraise=True)]. *)
Fixpoint retry {A} (retryable : exc -> bool) (attempt : nat -> res A) (i : nat) (left : nat) : res A :=
  match attempt i with
  | Ok a => Ok a
  | Raise e =>
      match left with
      | S left' => if retryable e then retry retryable attempt (S i) left' else Raise e
      | O => Raise e
      end
  end.
Definition MAX_ATTEMPTS : nat := 6.

Definition get_current_rate (responses : nat -> RateProvider -> res json) : res num :=
  retry (fun e => bool_decide (e = ClientError)) (fun i => first_rate None providers (responses i)) 0 (MAX_ATTEMPTS - 1).
(** The chain client's [get_alpha_rate] is outside; every exception is retried. *)
Definition get_chain_alpha_rate (replies : nat -> res num) : res num :=
  retry (fun _ => true) replies 0 (MAX_ATTEMPTS - 1).

(** ** The cache *)
Record slot := mkSlot { cached : option num; timestamp : option Q }.
Definition empty_slot : slot := mkSlot None None.
Record PriceProvider := mkPrices { tao_price : slot; alpha_rate : slot }.
Definition new_provider : PriceProvider := mkPrices empty_slot empty_slot.
Definition cache_ttl : Q := 900.

(** [_is_cache_valid] *)
Definition is_cache_valid (now : Q) (timestamp : option Q) : bool :=
  match timestamp with
  | None => false
  | Some t => Qltb (fsub now t) cache_ttl
  end.

(** The clock when a call starts and when its fetch has returned. *)
Record clock := mkClock { before_fetch : Q; after_fetch : Q }.

(** The body [get_tao_price] and [get_alpha_rate] share: the slot afterwards and
    the value returned. *)
Definition cached_get (default : num) (fetch : res num) (t : clock) (s : slot) : slot * option num :=
  if is_cache_valid (before_fetch t) (timestamp s) then (s, cached s)
  else match fetch with
  | Ok v => (mkSlot (Some v) (Some (after_fetch t)), Some v)
  | Raise _ => match cached s with
               | Some v => (s, Some v)
               | None => (s, Some default)
               end
  end.

Definition get_tao_price (responses : nat -> RateProvider -> res json) (t : clock) (p : PriceProvider)
    : PriceProvider * option num :=
  let '(s, v) := cached_get DEFAULT_TAO_PRICE (get_current_rate responses) t (tao_price p) in
  (mkPrices s (alpha_rate p), v).
Definition get_alpha_rate (replies : nat -> res num) (t : clock) (p : PriceProvider) : PriceProvider * option num :=
  let '(s, v) := cached_get DEFAULT_ALPHA_RATE (get_chain_alpha_rate replies) t (alpha_rate p) in
  (mkPrices (tao_price p) s, v).
Definition clear_cache (p : PriceProvider) : PriceProvider := mkPrices empty_slot empty_slot.
Definition refresh_cache (responses : nat -> RateProvider -> res json) (t1 : clock)
    (replies : nat -> res num) (t2 : clock) (p : PriceProvider) : PriceProvider :=
  (get_alpha_rate replies t2 (get_tao_price responses t1 (clear_cache p)).1).1.
Definition set_mock_prices (price rate : num) (now1 now2 : Q) (p : PriceProvider) : PriceProvider :=
  mkPrices (mkSlot (Some price) (Some now1)) (mkSlot (Some rate) (Some now2)).

(** [get_cache_status] reports each slot's value, stamp, age and validity. *)
Record slot_status := mkStatus { st_value : option num; st_timestamp : option Q; st_age : option Q; st_is_valid : bool }.
Definition status_of (now now_valid : Q) (s : slot) : slot_status := {|
  st_value := cached s; st_timestamp := timestamp s;
  st_age := match timestamp s with
            | Some t => if Qeqb t 0 then None else Some (fsub now t)
            | None => None
            end;
  st_is_valid := is_cache_valid now_valid (timestamp s) |}.
Definition get_cache_status (now now_tao now_alpha : Q) (p : PriceProvider) : slot_status * slot_status :=
  (status_of now now_tao (tao_price p), status_of now now_alpha (alpha_rate p)).

(** ** Retries *)

(** What a retried call returns: the first attempt that answers, if every attempt
    before it failed in a way that is retried; else the failure it stopped at. *)
Lemma retry_spec {A} retryable (attempt : nat -> res A) i left r :
  retry retryable attempt i left = r ->
  exists k, (k <= left)%nat /\ attempt (i + k)%nat = r /\
    (forall j, (j < k)%nat -> exists e, attempt (i + j)%nat = Raise e /\ retryable e = true) /\
    (forall e, r = Raise e -> k = left \/ retryable e = false).
Proof.
  revert i. induction left as [|left IH]; intros i; cbn [retry].
  - intros H. exists 0%nat. rewrite Nat.add_0_r. split_and!; [lia| |lia|tauto]. by destruct (attempt i).
  - destruct (attempt i) as [a|e] eqn:Ea.
    { intros <-. exists 0%nat. rewrite Nat.add_0_r. split_and!; [lia|done|lia|done]. }
    destruct (retryable e) eqn:Er.
    + intros (k & Hk & Hr & Hj & He)%IH. exists (S k). split_and!; [lia| | |].
      * by rewrite <- Hr, <- Nat.add_succ_comm.
      * intros [|j] Hlt; [rewrite Nat.add_0_r; by exists e|]. rewrite <- Nat.add_succ_comm. apply Hj. lia.
      * intros e' E. destruct (He e' E); [left; lia|by right].
    + intros <-. exists 0%nat. rewrite Nat.add_0_r. split_and!; [lia|done|lia|]. intros e' [= <-]. by right.
Qed.

Lemma first_rate_spec last ps response v :
  first_rate last ps response = Ok v <->
  exists l p l', ps = l ++ p :: l' /\ get_rate p (response p) = Ok v /\
    forall q, q ∈ l -> exists e, get_rate q (response q) = Raise e.
Proof.
  revert last. induction ps as [|p ps IH]; intros last; cbn [first_rate].
  { split; [done|]. by intros ([|? ?] & ? & ? & ? & _). }
  destruct (get_rate p (response p)) as [w|e] eqn:Ep.
  - split; [intros [= ->]; exists [], p, ps; split_and!; [done|done|by intros ? ?%not_elem_of_nil]|].
    intros ([|q l] & p' & l' & E & Hp & Hl); injection E as <- _; [congruence|].
    destruct (Hl p) as [e' He']; [by apply elem_of_cons; left|]. congruence.
  - rewrite IH. split.
    + intros (l & p' & l' & -> & Hp & Hl). exists (p :: l), p', l'. split_and!; [done|done|].
      intros q [->|Hq]%elem_of_cons; [by exists e|by apply Hl].
    + intros ([|q l] & p' & l' & E & Hp & Hl); injection E as -> ->; [congruence|].
      exists l, p', l'. split_and!; [done|done|]. intros q' Hq. apply Hl. by apply elem_of_cons; right.
Qed.

(** The price of a call that is not served from the cache: it is answered exactly
    when one of the first six attempts has a feed that answers and every attempt
    before it ended in a client error of its last feed; the answer is that of the first
    feed, in the order CoinGecko, Coinbase, CryptoCompare, that answered then. So a
    call makes at most eighteen requests. *)
Theorem current_rate_spec responses v :
  get_current_rate responses = Ok v <->
  exists k, (k < 6)%nat /\ first_rate None providers (responses k) = Ok v /\
    (exists l p l', providers = l ++ p :: l' /\ get_rate p (responses k p) = Ok v /\
       forall q, q ∈ l -> exists e, get_rate q (responses k q) = Raise e) /\
    forall j, (j < k)%nat -> first_rate None providers (responses j) = Raise ClientError.
Proof.
  split.
  - intros H. apply retry_spec in H as (k & Hk & Ha & Hj & _). cbn in Hk. exists k. rewrite Nat.add_0_l in Ha.
    split_and!; [lia|done|by apply first_rate_spec in Ha|].
    intros j Hlt. destruct (Hj j Hlt) as (e & He & Hr). apply bool_decide_eq_true in Hr as ->. done.
  - intros (k & Hk & Ha & _ & Hj). unfold get_current_rate.
    enough (forall n i, (i + n = k)%nat -> (forall left, (n <= left)%nat ->
      retry (fun e => bool_decide (e = ClientError)) (fun i => first_rate None providers (responses i)) i left = Ok v)) as G
      by (apply (G k 0%nat); unfold MAX_ATTEMPTS; lia).
    induction n as [|n IH]; intros i Hi left Hn.
    + rewrite Nat.add_0_r in Hi. subst i. destruct left; cbn [retry]; by rewrite Ha.
    + destruct left as [|left]; [lia|]. cbn [retry]. rewrite Hj by lia. cbn. apply IH; lia.
Qed.

(** ** What the provider promises

    The abstract provider knows one value at most: the last one fetched or set. A
    call answers with it, with a fresh value that becomes the known one, or, when
    nothing is known and the fetch failed, with the default. *)
Inductive answers (default : num) (fetch : res num) : option num -> option num -> num -> Prop :=
| answers_known v : answers default fetch (Some v) (Some v) v
| answers_fresh known v : fetch = Ok v -> answers default fetch known (Some v) v
| answers_default e : fetch = Raise e -> answers default fetch None None default.

Inductive op :=
| GetTao (responses : nat -> RateProvider -> res json) (t : clock)
| GetAlpha (replies : nat -> res num) (t : clock)
| Refresh (responses : nat -> RateProvider -> res json) (t1 : clock) (replies : nat -> res num) (t2 : clock)
| Clear
| SetMock (price rate : num) (now1 now2 : Q).

(** One operation of the provider and the value it returns, if it returns one. *)
Definition exec (p : PriceProvider) (o : op) : PriceProvider * option (option num) :=
  match o with
  | GetTao responses t => let '(p, v) := get_tao_price responses t p in (p, Some v)
  | GetAlpha replies t => let '(p, v) := get_alpha_rate replies t p in (p, Some v)
  | Refresh responses t1 replies t2 => (refresh_cache responses t1 replies t2 p, None)
  | Clear => (clear_cache p, None)
  | SetMock price rate now1 now2 => (set_mock_prices price rate now1 now2 p, None)
  end.

(** One operation of the abstract provider on (known price, known rate). *)
Inductive promises : option num * option num -> op -> option num * option num -> option (option num) -> Prop :=
| promises_tao k k' a v responses t :
    answers DEFAULT_TAO_PRICE (get_current_rate responses) k k' v ->
    promises (k, a) (GetTao responses t) (k', a) (Some (Some v))
| promises_alpha k k' a v replies t :
    answers DEFAULT_ALPHA_RATE (get_chain_alpha_rate replies) k k' v ->
    promises (a, k) (GetAlpha replies t) (a, k') (Some (Some v))
| promises_refresh ka k1 v1 k2 v2 responses t1 replies t2 :
    answers DEFAULT_TAO_PRICE (get_current_rate responses) None k1 v1 ->
    answers DEFAULT_ALPHA_RATE (get_chain_alpha_rate replies) None k2 v2 ->
    promises ka (Refresh responses t1 replies t2) (k1, k2) None
| promises_clear ka : promises ka Clear (None, None) None
| promises_mock ka price rate now1 now2 :
    promises ka (SetMock price rate now1 now2) (Some price, Some rate) None.

Definition known (p : PriceProvider) : option num * option num := (cached (tao_price p), cached (alpha_rate p)).

(** A slot is stamped exactly when it holds a value. *)
Definition slot_ok (s : slot) : Prop := is_Some (cached s) <-> is_Some (timestamp s).
Definition provider_ok (p : PriceProvider) : Prop := slot_ok (tao_price p) /\ slot_ok (alpha_rate p).

Lemma slot_ok_filled v t : slot_ok (mkSlot (Some v) (Some t)).
Proof. split; intros _; by eexists. Qed.
Lemma slot_ok_empty : slot_ok empty_slot.
Proof. split; intros [? [=]]. Qed.

Lemma cached_get_answers default fetch t s :
  slot_ok s -> exists s' v, cached_get default fetch t s = (s', Some v) /\ slot_ok s' /\
    answers default fetch (cached s) (cached s') v.
Proof.
  intros Hs. unfold cached_get. destruct (is_cache_valid _ _) eqn:Ev.
  { destruct (timestamp s) as [ts|] eqn:Et; [|done]. destruct (proj2 Hs) as [v Hv]; [by rewrite Et|].
    exists s, v. rewrite Hv. split_and!; [done|done|constructor]. }
  destruct fetch as [v|e] eqn:Ef.
  { do 2 eexists. split; [done|]. split; [apply slot_ok_filled|by constructor]. }
  destruct (cached s) as [v|] eqn:Ec; do 2 eexists; (split; [done|]); (split; [done|]); rewrite Ec; by econstructor.
Qed.

Lemma exec_promises p o :
  provider_ok p -> let '(p', v) := exec p o in provider_ok p' /\ promises (known p) o (known p') v.
Proof.
  intros [Ht Ha]. destruct o as [rs t|rs t|rs t1 rs2 t2| |price rate n1 n2]; unfold exec.
  - unfold get_tao_price. destruct (cached_get_answers DEFAULT_TAO_PRICE (get_current_rate rs) t _ Ht) as (s & v & -> & Hs & Hv).
    split; [by split|by constructor].
  - unfold get_alpha_rate. destruct (cached_get_answers DEFAULT_ALPHA_RATE (get_chain_alpha_rate rs) t _ Ha) as (s & v & -> & Hs & Hv).
    split; [by split|by constructor].
  - unfold refresh_cache, get_tao_price, get_alpha_rate, clear_cache. cbn [tao_price alpha_rate fst].
    destruct (cached_get_answers DEFAULT_TAO_PRICE (get_current_rate rs) t1 _ slot_ok_empty) as (s1 & v1 & -> & Hs1 & Hv1).
    cbn [tao_price alpha_rate fst].
    destruct (cached_get_answers DEFAULT_ALPHA_RATE (get_chain_alpha_rate rs2) t2 _ slot_ok_empty) as (s2 & v2 & -> & Hs2 & Hv2).
    split; [by split|by econstructor].
  - split; [split; apply slot_ok_empty|constructor].
  - split; [split; apply slot_ok_filled|constructor].
Qed.

(** A run of the provider from construction, and of the abstract provider. *)
Fixpoint run_ops (p : PriceProvider) (ops : list op) : PriceProvider * list (option (option num)) :=
  match ops with
  | [] => (p, [])
  | o :: rest =>
      let '(p, v) := exec p o in
      let '(p, vs) := run_ops p rest in (p, v :: vs)
  end.
Inductive promised_run : option num * option num -> list op -> option num * option num -> list (option (option num)) -> Prop :=
| promised_nil k : promised_run k [] k []
| promised_cons k o k' v ops k'' vs :
    promises k o k' v -> promised_run k' ops k'' vs -> promised_run k (o :: ops) k'' (v :: vs).

(** C36. Every sequence of calls of the provider is a run of the abstract one: each
    price or rate asked for is answered (never None) with the last value fetched or
    set, with a freshly fetched value, or with the default when nothing has been
    fetched since the start or the last clear; a failed fetch forgets nothing. *)
Theorem provider_refines ops p' vs :
  run_ops new_provider ops = (p', vs) -> provider_ok p' /\ promised_run (None, None) ops (known p') vs.
Proof.
  change (None, None) with (known new_provider).
  assert (provider_ok new_provider) as Hok by (split; apply slot_ok_empty).
  revert Hok. generalize new_provider. revert vs. induction ops as [|o ops IH]; intros vs p Hok H; cbn [run_ops] in H.
  { injection H as <- <-. split; [done|constructor]. }
  pose proof (exec_promises p o Hok) as Hstep. destruct (exec p o) as [p1 v]. destruct Hstep as [Hok1 Hp].
  destruct (run_ops p1 ops) as [p2 vs'] eqn:Er. injection H as <- <-.
  destruct (IH _ _ Hok1 Er) as [Hok2 Hrun]. split; [done|by econstructor].
Qed.

(** ** How often the outside is asked *)

(** A run of calls for one value: the stamps of the fetches that succeeded, in order. *)
Fixpoint fetch_times (default : num) (s : slot) (calls : list (res num * clock)) : list Q :=
  match calls with
  | [] => []
  | (fetch, t) :: rest =>
      let asked := negb (is_cache_valid (before_fetch t) (timestamp s)) in
      let s' := (cached_get default fetch t s).1 in
      (if asked then match fetch with Ok _ => [after_fetch t] | Raise _ => [] end else []) ++ fetch_times default s' rest
  end.

Lemma cached_get_hit default fetch t s :
  is_cache_valid (before_fetch t) (timestamp s) = true -> cached_get default fetch t s = (s, cached s).
Proof. unfold cached_get. by intros ->. Qed.

Lemma cached_get_failed default e t s : (cached_get default (Raise e) t s).1 = s.
Proof. unfold cached_get. destruct (is_cache_valid _ _), (cached s); done. Qed.

(** The stamp of the slot, then the stamps of the fetches: each is at least the
    lifetime of the cache after the one before. *)
Inductive spaced (calls : list (res num * clock)) : option Q -> list Q -> Prop :=
| spaced_nil o : spaced calls o []
| spaced_cons o f fs fetch t :
    (fetch, t) ∈ calls -> f = after_fetch t ->
    (forall t0, o = Some t0 -> (cache_ttl <= fsub (before_fetch t) t0)%Q) ->
    spaced calls (Some f) fs -> spaced calls o (f :: fs).

Lemma spaced_weaken c calls o fs : spaced calls o fs -> spaced (c :: calls) o fs.
Proof. induction 1; econstructor; eauto. by apply elem_of_cons; right. Qed.

(** However many calls are made and whatever the feeds answer, a value is fetched
    again only when the cached one is at least 900 seconds old: every successful
    fetch happens in a call that started a full lifetime after the stamp of the
    successful fetch before it (or of the slot the calls started with). *)
Theorem fetches_are_spaced default calls s : spaced calls (timestamp s) (fetch_times default s calls).
Proof.
  revert s. induction calls as [|[fetch t] calls IH]; intros s; cbn [fetch_times]; [constructor|].
  destruct (is_cache_valid (before_fetch t) (timestamp s)) eqn:Ev; cbn [negb].
  { rewrite cached_get_hit by done. apply spaced_weaken, IH. }
  destruct fetch as [v|e]; [|rewrite cached_get_failed; apply spaced_weaken, IH].
  unfold cached_get. rewrite Ev. cbn [fst app]. econstructor; [by apply elem_of_cons; left|done| |].
  - intros t0 Ht0. rewrite Ht0 in Ev. by apply Qltb_nlt in Ev.
  - apply spaced_weaken. apply (IH (mkSlot (Some v) (Some (after_fetch t)))).
Qed.
End Provider.
