(* ===== verification/Pipeline.v ===== *)
(** * The validation pipeline

    [services/task/pipeline.py]: checks run one after the other on a context, or in
    lanes that run at once; a fatal failure or a halt ends the run.  A check's work
    is outside the model: a check is a function from the context to its result (or
    to the exception it raises) and the clock readings around it.  The interleaving
    of the lanes of a stage is an explicit schedule. *)

From Stdlib Require Import String.
From stdpp Require Import gmap strings.
From S2P Require Import Prelude Float64 PyValue JobResult Settlement.

Local Open Scope string_scope.
Local Open Scope list_scope.
Local Open Scope Z_scope.

(** ** Contexts *)

(** [ContextState]: its fields by name, the dictionary [specs] apart. *)
Record ContextState := mkState { st_fields : gmap string json; st_specs : gmap string json }.
(** [Context]: the state and the other attributes by name. *)
Record Context := mkContext { cx_state : ContextState; cx_attrs : gmap string json }.

Definition attr (ctx : Context) (name : string) (default : json) : json :=
  match cx_attrs ctx !! name with Some v => v | None => default end.
(** The default of every [..._passed] attribute is True. *)
Definition gpu_fingerprint_passed (ctx : Context) : bool := truthy (attr ctx "gpu_fingerprint_passed" (JBool true)).

(** The [updates] of a result: new attributes, and a new state if it names one. *)
Record Updates := mkUpdates { up_attrs : list (string * json); up_state : option ContextState }.
Definition no_updates (u : Updates) : bool :=
  match up_attrs u, up_state u with [], None => true | _, _ => false end.

(** [ctx.model_copy(update=updates)] *)
Definition model_copy (ctx : Context) (u : Updates) : Context :=
  mkContext (match up_state u with Some s => s | None => cx_state ctx end)
    (fold_left (fun m kv => <[kv.1 := kv.2]> m) (up_attrs u) (cx_attrs ctx)).

Record CheckResult := mkCheckResult {
  cr_passed : bool;
  cr_event : ValidationEvent;
  cr_updates : Updates;
  cr_halt : bool;
  cr_fatal : option bool;
  cr_extra_events : list ValidationEvent
}.

(** What one run of a check came to: its result, and [time.perf_counter()] before
    and after. *)
Record Check := mkCheck {
  ck_id : string;
  ck_fatal : bool;
  ck_run : Context -> res (CheckResult * (Q * Q))
}.
Record RanCheck := mkRan {
  rc_check : Check; rc_result : CheckResult; rc_before_state : ContextState; rc_started : Q; rc_finished : Q
}.

Definition is_fatal (chk : Check) (r : CheckResult) : bool :=
  match cr_fatal r with Some b => b | None => ck_fatal chk end.
(** [_stops_run] *)
Definition stops_run (chk : Check) (r : CheckResult) : bool := (negb (cr_passed r) && is_fatal chk r) || cr_halt r.

(** [d.setdefault(k, v)] *)
Definition setdefault (k : string) (v : json) (d : list (string * json)) : list (string * json) :=
  if din k d then d else dset k v d.
Definition as_dict (v : json) : list (string * json) := match v with JObj d => d | _ => [] end.

(** [updates_with_clear_verified_job_evidence] *)
Definition updates_with_clear_verified_job_evidence (r : CheckResult) (check_id : string) : Updates :=
  let u := cr_updates r in
  if negb (truthy (dget_or JNull "clear_verified_job_info" (up_attrs u))) then u
  else
    let evidence := as_dict (py_or (dget_or JNull "clear_verified_job_evidence" (up_attrs u)) (JObj [])) in
    let evidence := setdefault "reason_code" (JStr (ev_reason_code (cr_event r))) evidence in
    let named := match ev_check_id (cr_event r) with Some c => if String.eqb c "" then check_id else c | None => check_id end in
    let evidence := setdefault "check_id" (JStr named) evidence in
    mkUpdates (dset "clear_verified_job_evidence" (JObj evidence) (up_attrs u)) (up_state u).

(** ** Merging what the lanes changed *)

(** [after is before or after == before] *)
Definition unchanged (before after : json) : bool := bool_decide (before = after) || json_eqb after before.

(** Insert the entries of a dictionary, but those a test keeps out. *)
Definition insert_unless (keep : string -> json -> bool) (l : list (string * json)) (m : gmap string json) : gmap string json :=
  fold_left (fun m kv => if keep kv.1 kv.2 then m else <[kv.1 := kv.2]> m) l m.
Definition delete_unless (keep : string -> bool) (l : list string) (m : gmap string json) : gmap string json :=
  fold_left (fun m k => if keep k then m else delete k m) l m.

Definition merge_fields (current before after : gmap string json) : gmap string json :=
  insert_unless (fun k v => match before !! k with Some b => unchanged b v | None => false end) (map_to_list after) current.
Definition merge_specs (current before after : gmap string json) : gmap string json :=
  let popped := delete_unless (fun k => bool_decide (is_Some (after !! k))) (map_to_list before).*1 current in
  insert_unless (fun k v => match before !! k with Some b => json_eqb b v | None => false end) (map_to_list after) popped.
(** [merge_state] *)
Definition merge_state (current before after : ContextState) : ContextState :=
  mkState (merge_fields (st_fields current) (st_fields before) (st_fields after))
          (merge_specs (st_specs current) (st_specs before) (st_specs after)).

(** [Pipeline._apply] *)
Definition apply_result (ctx : Context) (ran : RanCheck) (parallel : bool) : Context :=
  let r := rc_result ran in
  if no_updates (cr_updates r) then ctx
  else
    let u := updates_with_clear_verified_job_evidence r (ck_id (rc_check ran)) in
    let u := match up_state u with
      | Some s => if parallel then mkUpdates (up_attrs u) (Some (merge_state (cx_state ctx) (rc_before_state ran) s)) else u
      | None => u
      end in
    model_copy ctx u.

(** ** Lanes *)

(** [Pipeline._run_check] *)
Definition run_check (chk : Check) (ctx : Context) : res RanCheck :=
  rt ← ck_run chk ctx;
  let '(r, (started, finished)) := rt in
  Ok (mkRan chk r (cx_state ctx) started finished).

(** One task of [_run_stage]: what is left of its lane, its own copy of the context,
    what it has completed, and how it ended, if it has. *)
Inductive lane_end := LaneFinished | LaneStopped | LaneRaised (e : exc).
Record lane := mkLane { ln_todo : list Check; ln_ctx : Context; ln_ran : list RanCheck; ln_end : option lane_end }.

(** The lane's context after a check that did not stop it. *)
Definition lane_ctx (ctx : Context) (chk : Check) (r : CheckResult) : Context :=
  if no_updates (cr_updates r) then ctx
  else model_copy ctx (updates_with_clear_verified_job_evidence r (ck_id chk)).

(** [_run_lane] to the completion of its next check. *)
Definition lane_step (l : lane) : lane :=
  match ln_end l with
  | Some _ => l
  | None =>
      match ln_todo l with
      | [] => mkLane [] (ln_ctx l) (ln_ran l) (Some LaneFinished)
      | chk :: rest =>
          match run_check chk (ln_ctx l) with
          | Raise e => mkLane rest (ln_ctx l) (ln_ran l) (Some (LaneRaised e))
          | Ok ran =>
              if stops_run chk (rc_result ran)
              then mkLane rest (ln_ctx l) (ln_ran l ++ [ran]) (Some LaneStopped)
              else mkLane rest (lane_ctx (ln_ctx l) chk (rc_result ran)) (ln_ran l ++ [ran])
                     (match rest with [] => Some LaneFinished | _ => None end)
          end
      end
  end.

Definition halted (l : lane) : bool :=
  match ln_end l with Some LaneStopped | Some (LaneRaised _) => true | _ => false end.
Definition step_nth (i : nat) (ls : list lane) : list lane :=
  match ls !! i with Some l => <[i := lane_step l]> ls | None => ls end.

(** The schedule names, in order, the lane whose next check completes; a lane that
    has stopped or raised cancels the others when the schedule is over. Left to run
    on, the lanes take turns from the first. *)
Definition step_unless_halted (ls : list lane) (i : nat) : list lane :=
  if existsb halted ls then ls else step_nth i ls.
Definition run_lanes (schedule : list nat) (ls : list lane) : list lane :=
  let ls := fold_left (fun ls i => step_nth i ls) schedule ls in
  fold_left step_unless_halted
    (List.concat (imap (fun i l => replicate (length (ln_todo l)) i) ls)) ls.

Fixpoint first_error (ls : list lane) : option exc :=
  match ls with
  | [] => None
  | l :: rest => match ln_end l with Some (LaneRaised e) => Some e | _ => first_error rest end
  end.
(** [_run_stage] *)
Definition start_lane (ctx : Context) (checks : list Check) : lane := mkLane checks ctx [] None.
Definition run_stage (lanes : list (list Check)) (schedule : list nat) (ctx : Context) : res (list RanCheck) :=
  let ls := run_lanes schedule (map (start_lane ctx) lanes) in
  match first_error ls with
  | Some e => Raise e
  | None => Ok (List.concat (map ln_ran ls))
  end.

(** ** The run *)
Inductive Step :=
| Single (chk : Check)
| ParallelStage (lanes : list (list Check)) (schedule : list nat).
(** [ParallelStage.__init__] drops empty lanes. *)
Definition stage_lanes (lanes : list (list Check)) : list (list Check) :=
  List.filter (fun l => match l with [] => false | _ => true end) lanes.

Definition run_step (step : Step) (ctx : Context) : res (list RanCheck) :=
  match step with
  | Single chk => ran ← run_check chk ctx; Ok [ran]
  | ParallelStage lanes schedule => run_stage (stage_lanes lanes) schedule ctx
  end.

Definition FINGERPRINT_CHECK_ID : string := "gpu.validate.fingerprint".
(** The events with the first fingerprint event moved to the end. *)
Fixpoint take_failure (events : list ValidationEvent) : option (ValidationEvent * list ValidationEvent) :=
  match events with
  | [] => None
  | e :: rest =>
      if bool_decide (ev_check_id e = Some FINGERPRINT_CHECK_ID) then Some (e, rest)
      else match take_failure rest with Some (f, rest') => Some (f, e :: rest') | None => None end
  end.
(** [_ended]; [next] on an exhausted generator inside the coroutine is a RuntimeError. *)
Definition ended (events : list ValidationEvent) (ctx : Context) : res (bool * list ValidationEvent * Context) :=
  if gpu_fingerprint_passed ctx then Ok (true, events, ctx)
  else match take_failure events with
  | None => Raise (OtherError "RuntimeError")
  | Some (failure, rest) =>
      Ok (false, rest ++ [failure],
          model_copy ctx (mkUpdates [("rented", JBool false); ("score", JFloat (Fin 0)); ("job_score", JFloat (Fin 0));
                                     ("success", JBool false)] None))
  end.

Section Run.
Context `{R : Rounding}.

(** [int((b - a) * 1000)] *)
Definition elapsed_ms (a b : Q) : Z :=
  let x := fmul (fsub b a) 1000 in
  if Qleb 0 x then Qfloor x else Qceiling x.
Definition seconds (ms : Z) : Q := rnd (inject_Z ms / 1000).
(** [summarize_steps] *)
Definition summarize_steps (steps : list (string * Z)) (elapsed_time_ms : Z) (failed_check_id : option string)
    : list (string * json) :=
  [("steps", JObj (fold_left (fun d s => dset s.1 (JFloat (num_round (if 1000 <=? s.2 then 1 else 3) (Fin (seconds s.2)))) d) steps []));
   ("steps_total_s", JFloat (num_round 1 (Fin (seconds elapsed_time_ms))))]
  ++ match failed_check_id with
     | Some c => if String.eqb c "" then [] else [("steps_failed", JStr c)]
     | None => []
     end.
Definition add_what (what : list (string * json)) (e : ValidationEvent) : ValidationEvent :=
  mkEvent (ev_event e) (ev_reason_code e) (ev_severity e) (ev_category e) (ev_impact e) (ev_remediation e)
    (fold_left (fun d kv => dset kv.1 kv.2 d) what (ev_what_we_saw e)) (ev_check_id e).

Record RunState := mkRun { rs_events : list ValidationEvent; rs_ctx : Context; rs_steps : list (string * Z) }.
Inductive progress :=
| Continue (s : RunState)
| Return (r : res (bool * list ValidationEvent * Context)).

(** The loop over [ran_checks] of one step. *)
Fixpoint report (start : Q) (parallel : bool) (stage_elapsed_ms : Z) (last_step : bool) (ran_checks : list RanCheck)
    (s : RunState) : progress :=
  match ran_checks with
  | [] => Continue s
  | ran :: rest =>
      let '(chk, r) := (rc_check ran, rc_result ran) in
      let steps := rs_steps s ++ [(ck_id chk, elapsed_ms (rc_started ran) (rc_finished ran))] in
      let elapsed_time_ms := if parallel then stage_elapsed_ms else elapsed_ms start (rc_finished ran) in
      let failed := negb (cr_passed r) && is_fatal chk r in
      let last_of_run := last_step && match rest with [] => true | _ => false end in
      let named := match ev_check_id (cr_event r) with
        | Some c => if String.eqb c "" then ck_id chk else c | None => ck_id chk end in
      let event := if failed || cr_halt r || last_of_run
        then add_what (summarize_steps steps elapsed_time_ms (if failed then Some named else None)) (cr_event r)
        else cr_event r in
      let events := rs_events s ++ cr_extra_events r ++ [event] in
      let ctx := apply_result (rs_ctx s) ran parallel in
      if failed then Return (Ok (false, events, ctx))
      else if cr_halt r then Return (ended events ctx)
      else report start parallel stage_elapsed_ms last_step rest (mkRun events ctx steps)
  end.

Definition max_elapsed (start : Q) (ran_checks : list RanCheck) : res Z :=
  match ran_checks with
  | [] => Raise ValueError
  | r :: rest => Ok (fold_left (fun m r => Z.max m (elapsed_ms start (rc_finished r))) rest (elapsed_ms start (rc_finished r)))
  end.

(** [Pipeline.run] *)
Fixpoint run_steps (start : Q) (steps : list Step) (s : RunState) : res (bool * list ValidationEvent * Context) :=
  match steps with
  | [] => ended (rs_events s) (rs_ctx s)
  | step :: rest =>
      let parallel := match step with ParallelStage _ _ => true | Single _ => false end in
      ran_checks ← run_step step (rs_ctx s);
      stage_elapsed_ms ← max_elapsed start ran_checks;
      match report start parallel stage_elapsed_ms (match rest with [] => true | _ => false end) ran_checks s with
      | Continue s => run_steps start rest s
      | Return r => r
      end
  end.
Definition run_pipeline (start : Q) (checks : list Step) (ctx : Context) : res (bool * list ValidationEvent * Context) :=
  run_steps start checks (mkRun [] ctx []).
End Run.
