(* ===== verification/PipelineLanes.v ===== *)
(** * Lanes against the serial pipeline

    The field-by-field merge of a parallel stage, the interleavings of its lanes,
    and the equivalence of a stage of independent lanes with the serial pipeline. *)

From Stdlib Require Import String.
From stdpp Require Import gmap strings.
From S2P Require Import Prelude Float64 PyValue JobResult Settlement Pipeline.

Local Open Scope string_scope.
Local Open Scope list_scope.
Local Open Scope Z_scope.

(** ** The merge, key by key *)
Lemma insert_unless_lookup keep l m k :
  NoDup l.*1 ->
  insert_unless keep l m !! k = match dget k l with Some v => if keep k v then m !! k else Some v | None => m !! k end.
Proof.
  unfold insert_unless. revert m. induction l as [|[k' v'] l IH]; intros m Hnd; cbn [fold_left dget fst snd]; [done|].
  cbn in Hnd. apply NoDup_cons in Hnd as [Hn Hnd]. rewrite IH by done.
  destruct (decide (k' = k)) as [->|Hne].
  - assert (dget k l = None) as -> by (by apply dget_None_keys). destruct (keep k v'); [done|]. by rewrite lookup_insert_eq.
  - destruct (dget k l); destruct (keep k' v'); rewrite ?lookup_insert_ne by done; done.
Qed.

Lemma delete_unless_lookup keep l m k :
  delete_unless keep l m !! k = if bool_decide (k ∈ l) && negb (keep k) then None else m !! k.
Proof.
  unfold delete_unless. revert m. induction l as [|k' l IH]; intros m; cbn [fold_left].
  { by rewrite (bool_decide_eq_false_2 (k ∈ [])) by apply not_elem_of_nil. }
  rewrite IH. destruct (decide (k' = k)) as [->|Hne].
  - rewrite (bool_decide_eq_true_2 (k ∈ k :: l)) by (by apply elem_of_cons; left). cbn [andb].
    destruct (keep k) eqn:Ek; cbn [negb andb]; [by rewrite andb_false_r|].
    rewrite lookup_delete_eq. by destruct (bool_decide _).
  - rewrite (bool_decide_ext (k ∈ k' :: l) (k ∈ l)) by (rewrite elem_of_cons; naive_solver).
    destruct (keep k'); [done|]. by rewrite lookup_delete_ne.
Qed.

Lemma dget_map_to_list (m : gmap string json) k : dget k (map_to_list m) = m !! k.
Proof.
  destruct (m !! k) as [v|] eqn:E.
  - apply elem_of_dget; [apply NoDup_fst_map_to_list|by apply elem_of_map_to_list].
  - apply dget_None_keys. intros ([k' v] & -> & Hin)%list_elem_of_fmap.
    apply elem_of_map_to_list in Hin. cbn in E. congruence.
Qed.

Lemma merge_fields_lookup c b a k :
  merge_fields c b a !! k =
    match a !! k with
    | None => c !! k
    | Some v => if match b !! k with Some b => unchanged b v | None => false end then c !! k else Some v
    end.
Proof. unfold merge_fields. rewrite insert_unless_lookup by apply NoDup_fst_map_to_list. by rewrite dget_map_to_list. Qed.

Lemma merge_specs_lookup c b a k :
  merge_specs c b a !! k =
    match b !! k, a !! k with
    | Some _, None => None
    | None, None => c !! k
    | None, Some v => Some v
    | Some b, Some v => if json_eqb b v then c !! k else Some v
    end.
Proof.
  unfold merge_specs. rewrite insert_unless_lookup by apply NoDup_fst_map_to_list.
  rewrite dget_map_to_list, delete_unless_lookup.
  assert (Hk : bool_decide (k ∈ (map_to_list b).*1) = bool_decide (is_Some (b !! k))).
  { apply bool_decide_ext. rewrite list_elem_of_fmap. split.
    - intros ([k' v] & -> & Hin). apply elem_of_map_to_list in Hin. by exists v.
    - intros [v Hv]. exists (k, v). split; [done|]. by apply elem_of_map_to_list. }
  rewrite Hk. destruct (a !! k) as [v|] eqn:Ea, (b !! k) as [w|] eqn:Eb; cbn; try done; by destruct (json_eqb w v).
Qed.

(** ** Cells of a context *)
Inductive loc := Field (k : string) | Spec (k : string) | Attr (k : string).
#[export] Instance loc_eq_dec : EqDecision loc.
Proof. solve_decision. Defined.
Definition cell (ctx : Context) (l : loc) : option json :=
  match l with
  | Field k => st_fields (cx_state ctx) !! k
  | Spec k => st_specs (cx_state ctx) !! k
  | Attr k => cx_attrs ctx !! k
  end.

Lemma context_eq c d : (forall l, cell c l = cell d l) -> c = d.
Proof.
  destruct c as [[f s] a], d as [[f' s'] a']. intros H.
  assert (f = f') as -> by (apply map_eq; intros k; apply (H (Field k))).
  assert (s = s') as -> by (apply map_eq; intros k; apply (H (Spec k))).
  assert (a = a') as -> by (apply map_eq; intros k; apply (H (Attr k))). done.
Qed.

Lemma fold_insert_lookup (l : list (string * json)) (m : gmap string json) k :
  fold_left (fun m kv => <[kv.1 := kv.2]> m) l m !! k =
    match dget k (rev l) with Some v => Some v | None => m !! k end.
Proof.
  induction l as [|[k' v'] l IH] using rev_ind; [done|].
  rewrite fold_left_app, rev_app_distr. cbn. destruct (decide (k' = k)) as [->|Hne].
  - by rewrite lookup_insert_eq.
  - by rewrite lookup_insert_ne.
Qed.

Definition agree_on (P : loc -> Prop) (c d : Context) : Prop := forall l, P l -> cell c l = cell d l.

(** ** Checks confined to a part of the context *)

(** Two results that differ at most in the state they carry. *)
Definition same_report (r s : CheckResult) : Prop :=
  cr_passed r = cr_passed s /\ cr_event r = cr_event s /\ cr_halt r = cr_halt s /\ cr_fatal r = cr_fatal s /\
  cr_extra_events r = cr_extra_events s /\ up_attrs (cr_updates r) = up_attrs (cr_updates s) /\
  (is_Some (up_state (cr_updates r)) <-> is_Some (up_state (cr_updates s))).
Definition same_ran (a b : RanCheck) : Prop :=
  rc_check a = rc_check b /\ same_report (rc_result a) (rc_result b) /\
  rc_started a = rc_started b /\ rc_finished a = rc_finished b.

Section Confined.
(** The contexts the pipeline produces: in them a spec equals itself. *)
Context (I : Context -> Prop).
Context (I_self_equal : forall c k v, I c -> cell c (Spec k) = Some v -> json_eqb v v = true).

(** A check that, on those contexts, depends only on the cells [F], changes only the
    cells [W] of them, removes no field of the state, and rewrites no value into
    another that Python calls equal. *)
Record confined (F W : loc -> bool) (chk : Check) : Prop := {
  conf_inv : forall c r t, I c -> ck_run chk c = Ok (r, t) -> I (lane_ctx c chk r);
  conf_reads : forall c d, I c -> I d -> agree_on F c d ->
    match ck_run chk c, ck_run chk d with
    | Ok (r, t), Ok (s, u) => t = u /\ same_report r s /\ agree_on W (lane_ctx c chk r) (lane_ctx d chk s)
    | Raise e, Raise e' => e = e'
    | _, _ => False
    end;
  conf_writes : forall c r t l, I c -> ck_run chk c = Ok (r, t) -> W l = false -> cell (lane_ctx c chk r) l = cell c l;
  conf_stable : forall c r t l b v, I c -> ck_run chk c = Ok (r, t) -> cell c l = Some b -> cell (lane_ctx c chk r) l = Some v ->
    json_eqb b v = true \/ json_eqb v b = true -> v = b;
  conf_fields : forall c r t k, I c -> ck_run chk c = Ok (r, t) -> cell (lane_ctx c chk r) (Field k) = None -> cell c (Field k) = None
}.

Lemma apply_result_serial c ran : apply_result c ran false = lane_ctx c (rc_check ran) (rc_result ran).
Proof.
  unfold apply_result, lane_ctx. destruct (no_updates _); [done|].
  destruct (up_state (updates_with_clear_verified_job_evidence _ _)); done.
Qed.

Lemma final_state r id : up_state (updates_with_clear_verified_job_evidence r id) = up_state (cr_updates r).
Proof. unfold updates_with_clear_verified_job_evidence. by destruct (negb _). Qed.

Lemma same_report_updates r s id :
  same_report r s ->
  no_updates (cr_updates r) = no_updates (cr_updates s) /\
  up_attrs (updates_with_clear_verified_job_evidence r id) = up_attrs (updates_with_clear_verified_job_evidence s id).
Proof.
  intros (_ & He & _ & _ & _ & Ha & Hs). unfold no_updates, updates_with_clear_verified_job_evidence. rewrite Ha, He. split.
  - destruct (up_attrs (cr_updates s)); [|done]. destruct (up_state (cr_updates r)), (up_state (cr_updates s)); try done; exfalso;
      [destruct (proj1 Hs (mk_is_Some _ _ eq_refl)) as [? [=]]|destruct (proj2 Hs (mk_is_Some _ _ eq_refl)) as [? [=]]].
  - by destruct (negb _).
Qed.

(** The merged value of a cell: what the serial run would have there. *)
Lemma merge_field_cell (F W : loc -> bool) chk c0 c r0 r t s0 s k :
  confined F W chk -> I c0 -> I c -> ck_run chk c0 = Ok (r0, t) -> ck_run chk c = Ok (r, t) ->
  agree_on W (lane_ctx c0 chk r0) (lane_ctx c chk r) -> agree_on W c0 c ->
  cx_state (lane_ctx c0 chk r0) = s0 -> cx_state (lane_ctx c chk r) = s ->
  merge_fields (st_fields (cx_state c)) (st_fields (cx_state c0)) (st_fields s0) !! k = st_fields s !! k.
Proof.
  intros Hc I0 I1 H0 H HW Hpre Es0 Es. rewrite merge_fields_lookup. subst s0 s.
  change (match cell (lane_ctx c0 chk r0) (Field k) with
    | Some v => if match cell c0 (Field k) with Some b => unchanged b v | None => false end then cell c (Field k) else Some v
    | None => cell c (Field k) end = cell (lane_ctx c chk r) (Field k)).
  destruct (W (Field k)) eqn:EW.
  - rewrite <- (HW (Field k)) by (by rewrite EW). rewrite <- (Hpre (Field k)) by (by rewrite EW).
    destruct (cell (lane_ctx c0 chk r0) (Field k)) as [v|] eqn:Ev; [|by apply (conf_fields _ _ _ Hc _ _ _ _ I0 H0)].
    destruct (cell c0 (Field k)) as [b|] eqn:Eb; [|done]. destruct (unchanged b v) eqn:Eu; [|done].
    f_equal. symmetry. unfold unchanged in Eu. apply orb_true_iff in Eu as [->%bool_decide_eq_true|Eu]; [done|].
    eapply (conf_stable _ _ _ Hc _ _ _ _ b v I0 H0); eauto.
  - rewrite (conf_writes _ _ _ Hc _ _ _ _ I0 H0 EW), (conf_writes _ _ _ Hc _ _ _ _ I1 H EW).
    destruct (cell c0 (Field k)) as [v|]; [|done]. unfold unchanged. by rewrite bool_decide_eq_true_2.
Qed.

Lemma merge_spec_cell (F W : loc -> bool) chk c0 c r0 r t s0 s k :
  confined F W chk -> I c0 -> I c -> ck_run chk c0 = Ok (r0, t) -> ck_run chk c = Ok (r, t) ->
  agree_on W (lane_ctx c0 chk r0) (lane_ctx c chk r) -> agree_on W c0 c ->
  cx_state (lane_ctx c0 chk r0) = s0 -> cx_state (lane_ctx c chk r) = s ->
  merge_specs (st_specs (cx_state c)) (st_specs (cx_state c0)) (st_specs s0) !! k = st_specs s !! k.
Proof.
  intros Hc I0 I1 H0 H HW Hpre Es0 Es. rewrite merge_specs_lookup. subst s0 s.
  change (match cell c0 (Spec k), cell (lane_ctx c0 chk r0) (Spec k) with
    | Some _, None => None
    | None, None => cell c (Spec k)
    | None, Some v => Some v
    | Some b, Some v => if json_eqb b v then cell c (Spec k) else Some v end = cell (lane_ctx c chk r) (Spec k)).
  destruct (W (Spec k)) eqn:EW.
  - rewrite <- (HW (Spec k)) by (by rewrite EW). rewrite <- (Hpre (Spec k)) by (by rewrite EW).
    destruct (cell c0 (Spec k)) as [b|] eqn:Eb, (cell (lane_ctx c0 chk r0) (Spec k)) as [v|] eqn:Ev; try done.
    destruct (json_eqb b v) eqn:Eu; [|done]. f_equal. symmetry. eapply (conf_stable _ _ _ Hc _ _ _ _ b v I0 H0); eauto.
  - pose proof (conf_writes _ _ _ Hc _ _ _ _ I0 H0 EW) as E0. rewrite (conf_writes _ _ _ Hc _ _ _ _ I1 H EW), E0.
    destruct (cell c0 (Spec k)) as [v|] eqn:Eb; [|done]. by rewrite (I_self_equal c0 k v).
Qed.

(** One check of a lane: applied to the context of the run, its merged result is what
    running it there would give. *)
Lemma confined_step (F W : loc -> bool) chk c0 c r0 t :
  confined F W chk -> (forall l, W l -> F l) -> I c0 -> I c -> agree_on F c0 c -> ck_run chk c0 = Ok (r0, t) ->
  exists r, ck_run chk c = Ok (r, t) /\ same_report r0 r /\
    apply_result c (mkRan chk r0 (cx_state c0) t.1 t.2) true = lane_ctx c chk r /\
    agree_on F (lane_ctx c0 chk r0) (lane_ctx c chk r).
Proof.
  intros Hc HWF I0 I1 Hag H0. pose proof (conf_reads _ _ _ Hc c0 c I0 I1 Hag) as Hr. rewrite H0 in Hr.
  destruct (ck_run chk c) as [[r u]|e] eqn:H; [|done]. destruct Hr as (<- & Hsame & HW).
  assert (Hpre : agree_on W c0 c) by (intros l Hl; by apply Hag, HWF).
  exists r. split; [done|]. split; [done|]. split.
  - destruct (same_report_updates _ _ (ck_id chk) Hsame) as [Hnu Hattr].
    unfold apply_result. cbn [rc_result rc_check rc_before_state]. unfold lane_ctx. rewrite Hnu.
    destruct (no_updates (cr_updates r)) eqn:En; [done|]. rewrite final_state.
    assert (Hss : is_Some (up_state (cr_updates r0)) <-> is_Some (up_state (cr_updates r))) by apply Hsame.
    assert (L0 : lane_ctx c0 chk r0 = model_copy c0 (updates_with_clear_verified_job_evidence r0 (ck_id chk)))
      by (unfold lane_ctx; by rewrite Hnu).
    assert (L : lane_ctx c chk r = model_copy c (updates_with_clear_verified_job_evidence r (ck_id chk)))
      by (unfold lane_ctx; by rewrite En).
    destruct (up_state (cr_updates r0)) as [s0|] eqn:E0, (up_state (cr_updates r)) as [s|] eqn:E;
      [|destruct (proj1 Hss (mk_is_Some _ _ eq_refl)) as [? [=]]|destruct (proj2 Hss (mk_is_Some _ _ eq_refl)) as [? [=]]|].
    + unfold model_copy. cbn [up_state up_attrs]. rewrite Hattr, final_state, E. f_equal.
      assert (cx_state (lane_ctx c0 chk r0) = s0) as E1 by (rewrite L0; unfold model_copy; cbn; by rewrite final_state, E0).
      assert (cx_state (lane_ctx c chk r) = s) as E2 by (rewrite L; unfold model_copy; cbn; by rewrite final_state, E).
      destruct s as [f sp]. unfold merge_state. f_equal; apply map_eq; intros k.
      * by apply (merge_field_cell F W chk c0 c r0 r t s0 (mkState f sp)).
      * by apply (merge_spec_cell F W chk c0 c r0 r t s0 (mkState f sp)).
    + unfold model_copy. by rewrite Hattr, !final_state, E0, E.
  - intros l Hl. destruct (W l) eqn:EW; [by apply HW; rewrite EW|].
    rewrite (conf_writes _ _ _ Hc _ _ _ _ I0 H0 EW), (conf_writes _ _ _ Hc _ _ _ _ I1 H EW). by apply Hag.
Qed.

(** ** A run without a stop *)

(** Checks one after the other, when none of them stops the run or raises. *)
Fixpoint run_serial (cs : list Check) (c : Context) : option (list RanCheck * Context) :=
  match cs with
  | [] => Some ([], c)
  | chk :: rest =>
      match run_check chk c with
      | Raise _ => None
      | Ok ran =>
          if stops_run chk (rc_result ran) then None
          else match run_serial rest (lane_ctx c chk (rc_result ran)) with
               | Some (rans, d) => Some (ran :: rans, d)
               | None => None
               end
      end
  end.

Lemma run_serial_cons chk cs c rs d :
  run_serial (chk :: cs) c = Some (rs, d) ->
  exists r t rs', ck_run chk c = Ok (r, t) /\ stops_run chk r = false /\
    rs = mkRan chk r (cx_state c) t.1 t.2 :: rs' /\ run_serial cs (lane_ctx c chk r) = Some (rs', d).
Proof.
  cbn [run_serial]. unfold run_check. destruct (ck_run chk c) as [[r [t1 t2]]|e]; cbn; [|done].
  destruct (stops_run chk r) eqn:Es; [done|].
  destruct (run_serial cs _) as [[rs' d']|] eqn:Er; [|done]. intros [= <- <-]. by exists r, (t1, t2), rs'.
Qed.
Lemma run_serial_cons_intro chk cs c r t rs d :
  ck_run chk c = Ok (r, t) -> stops_run chk r = false -> run_serial cs (lane_ctx c chk r) = Some (rs, d) ->
  run_serial (chk :: cs) c = Some (mkRan chk r (cx_state c) t.1 t.2 :: rs, d).
Proof. intros H Hs Hr. cbn [run_serial]. unfold run_check. rewrite H. destruct t. cbn. by rewrite Hs, Hr. Qed.

Lemma run_serial_app cs1 cs2 c rs d :
  run_serial (cs1 ++ cs2) c = Some (rs, d) <->
  exists rs1 c1 rs2, run_serial cs1 c = Some (rs1, c1) /\ run_serial cs2 c1 = Some (rs2, d) /\ rs = rs1 ++ rs2.
Proof.
  revert c rs. induction cs1 as [|chk cs1 IH]; intros c rs; cbn [app].
  - split; [intros H; by exists [], c, rs|]. by intros (rs1 & c1 & rs2 & [= <- <-] & H & ->).
  - split.
    + intros (r & t & rs' & Hr & Hs & -> & H)%run_serial_cons. apply IH in H as (rs1 & c1 & rs2 & H1 & H2 & ->).
      exists (mkRan chk r (cx_state c) t.1 t.2 :: rs1), c1, rs2. split_and!; [by apply run_serial_cons_intro|done|done].
    + intros (rs1 & c1 & rs2 & H1 & H2 & ->). apply run_serial_cons in H1 as (r & t & rs' & Hr & Hs & -> & H1).
      cbn. apply run_serial_cons_intro; [done|done|]. apply IH. by exists rs', c1, rs2.
Qed.

Lemma same_report_stops chk r s : same_report r s -> stops_run chk r = stops_run chk s.
Proof. intros (Hp & _ & Hh & Hf & _). unfold stops_run, is_fatal. by rewrite Hp, Hh, Hf. Qed.
Lemma same_report_sym r s : same_report r s -> same_report s r.
Proof. unfold same_report. naive_solver. Qed.

Section Lane.
Context (F W : loc -> bool) (HWF : forall l, W l -> F l).

(** A lane run on its own copy, merged into the context of the run, is the lane run
    there, when the two agree on the lane's part. *)
Lemma lane_simulation cs c0 c rs d :
  Forall (confined F W) cs -> I c0 -> I c -> agree_on F c0 c -> run_serial cs c = Some (rs, d) ->
  exists rs0 d0, run_serial cs c0 = Some (rs0, d0) /\ Forall2 same_ran rs0 rs /\
    fold_left (fun c ran => apply_result c ran true) rs0 c = d /\ I d /\ forall l, W l = false -> cell d l = cell c l.
Proof.
  intros Hcs. revert c0 c rs. induction Hcs as [|chk cs Hc Hcs IH]; intros c0 c rs I0 I1 Hag H.
  { cbn in H. injection H as <- <-. exists [], c0. split_and!; try done; constructor. }
  apply run_serial_cons in H as (r & t & rs' & Hr & Hs & -> & H).
  pose proof (conf_reads _ _ _ Hc c0 c I0 I1 Hag) as H0. rewrite Hr in H0.
  destruct (ck_run chk c0) as [[r0 t0]|e] eqn:E0; [|done]. destruct H0 as (-> & Hsame & _).
  destruct (confined_step F W chk c0 c r0 t Hc HWF I0 I1 Hag E0) as (r' & Hr' & _ & Happ & Hag').
  assert (r' = r) as -> by congruence.
  destruct (IH _ _ _ (conf_inv _ _ _ Hc _ _ _ I0 E0) (conf_inv _ _ _ Hc _ _ _ I1 Hr) Hag' H)
    as (rs0 & d0 & Hs0 & Hrans & Hfold & Hd & Hframe).
  exists (mkRan chk r0 (cx_state c0) t.1 t.2 :: rs0), d0. split_and!.
  - apply run_serial_cons_intro; [done| |done]. by rewrite (same_report_stops _ _ _ Hsame).
  - constructor; [by repeat split; try apply Hsame|done].
  - cbn [fold_left]. by rewrite Happ.
  - done.
  - intros l Hl. rewrite Hframe by done. by apply (conf_writes _ _ _ Hc _ _ _ _ I1 Hr).
Qed.
End Lane.

(** A lane with the part of the context its checks are confined to. *)
Record lane_spec := mkLaneSpec { ls_checks : list Check; ls_footprint : loc -> bool; ls_writes : loc -> bool }.
Record lane_spec_ok (L : lane_spec) : Prop := {
  lso_nonempty : ls_checks L <> [];
  lso_writes : forall l, ls_writes L l -> ls_footprint L l;
  lso_confined : Forall (confined (ls_footprint L) (ls_writes L)) (ls_checks L)
}.
(** No lane writes a cell that a later lane reads or writes. *)
Definition independent (Ls : list lane_spec) : Prop :=
  ForallOrdPairs (fun A B => forall l, ls_writes A l -> ls_footprint B l = false) Ls.

Lemma lanes_simulation Ls c0 c rs d :
  Forall lane_spec_ok Ls -> independent Ls -> I c0 -> I c -> (forall L, L ∈ Ls -> agree_on (ls_footprint L) c0 c) ->
  run_serial (List.concat (map ls_checks Ls)) c = Some (rs, d) ->
  exists rss, Forall2 (fun L rs0 => exists d0, run_serial (ls_checks L) c0 = Some (rs0, d0)) Ls rss /\
    Forall2 same_ran (List.concat rss) rs /\
    fold_left (fun c ran => apply_result c ran true) (List.concat rss) c = d.
Proof.
  intros Hok Hind I0. revert c rs. induction Hind as [|L Ls HL Hind IH]; intros c rs I1 Hag H; cbn in H.
  { injection H as <- <-. exists []. split_and!; [constructor|constructor|done]. }
  apply Forall_cons in Hok as [HokL Hok].
  apply run_serial_app in H as (rs1 & c1 & rs2 & H1 & H2 & ->).
  destruct (lane_simulation _ _ (lso_writes _ HokL) _ c0 c _ _ (lso_confined _ HokL) I0 I1
    (Hag L (ltac:(by apply elem_of_cons; left))) H1) as (rs0 & d0 & Hs0 & Hran & Hfold & Hd & Hframe).
  destruct (IH Hok c1 rs2 Hd) as (rss & Hrss & Hrans & Hfolds); [|done|].
  - intros B HB l Hl. rewrite (Hag B) by (done || by apply elem_of_cons; right).
    destruct (ls_writes L l) eqn:EW; [|symmetry; by apply Hframe].
    rewrite Forall_forall in HL. by rewrite (HL B HB l) in Hl by (by rewrite EW).
  - exists (rs0 :: rss). split_and!; [constructor; [by exists d0|done]|by apply Forall2_app|].
    cbn [List.concat]. rewrite fold_left_app, Hfold. done.
Qed.
End Confined.

(** ** Interleavings *)
Definition steps_of (n : nat) (l : lane) : lane := Nat.iter n lane_step l.
Definition never_halts (l : lane) : Prop := forall n, halted (steps_of n l) = false.

Lemma step_nth_lookup i ls j :
  step_nth i ls !! j = (if decide (i = j) then lane_step <$> ls !! j else ls !! j).
Proof.
  unfold step_nth. destruct (ls !! i) as [l|] eqn:E.
  - destruct (decide (i = j)) as [<-|]; [|by rewrite list_lookup_insert_ne].
    rewrite list_lookup_insert_eq by (by eapply lookup_lt_Some). by rewrite E.
  - destruct (decide (i = j)) as [<-|]; [by rewrite E|done].
Qed.

Lemma steps_succ n l : steps_of (S n) l = steps_of n (lane_step l).
Proof. unfold steps_of. apply Nat.iter_succ_r. Qed.

(** A schedule advances a lane once for each time it names it. *)
Lemma schedule_lookup sched ls j :
  fold_left (fun ls i => step_nth i ls) sched ls !! j = steps_of (count_occ Nat.eq_dec sched j) <$> ls !! j.
Proof.
  revert ls. induction sched as [|i sched IH]; intros ls; cbn [fold_left count_occ].
  { by destruct (ls !! j). }
  rewrite IH, step_nth_lookup. destruct (decide (i = j)) as [->|Hne].
  - destruct (Nat.eq_dec j j); [|done]. destruct (ls !! j) as [l|]; [|done]. exact (f_equal Some (eq_sym (steps_succ _ l))).
  - by destruct (Nat.eq_dec i j).
Qed.

Lemma never_halts_step l : never_halts l -> never_halts (lane_step l).
Proof. intros H n. rewrite <- steps_succ. apply H. Qed.

Lemma halted_none ls : Forall never_halts ls -> existsb halted ls = false.
Proof. induction 1 as [|l ls Hl _ IH]; [done|]. cbn. rewrite IH. by rewrite (Hl 0%nat : halted l = false). Qed.

Lemma unguarded sched ls :
  Forall never_halts ls -> fold_left step_unless_halted sched ls = fold_left (fun ls i => step_nth i ls) sched ls.
Proof.
  revert ls. induction sched as [|i sched IH]; intros ls Hls; cbn [fold_left]; [done|].
  unfold step_unless_halted at 2. rewrite halted_none by done. apply IH.
  apply Forall_lookup. intros j l. rewrite step_nth_lookup. rewrite Forall_lookup in Hls.
  destruct (decide (i = j)) as [<-|]; [|by apply Hls]. destruct (ls !! i) as [l'|] eqn:E; [|done].
  intros [= <-]. apply never_halts_step. by apply (Hls i).
Qed.

Lemma never_halts_after n l : never_halts l -> never_halts (steps_of n l).
Proof. induction n as [|n IH]; [done|]. intros H. apply (never_halts_step (steps_of n l)). by apply IH. Qed.

Lemma count_concat_imap (f : nat -> lane -> list nat) ls j l x :
  ls !! j = Some l -> (count_occ Nat.eq_dec (f j l) x <= count_occ Nat.eq_dec (List.concat (imap f ls)) x)%nat.
Proof.
  revert f j. induction ls as [|l' ls IH]; intros f [|j] H; cbn in *; [done|done| |].
  - injection H as ->. rewrite count_occ_app. lia.
  - rewrite count_occ_app. specialize (IH (f ∘ S) j H). cbn in IH. lia.
Qed.

(** A lane that runs through: no prefix of it is halted, and after as many steps as
    it has checks it is done. *)
Lemma lane_runs_through cs c ran rs d :
  cs <> [] -> run_serial cs c = Some (rs, d) ->
  never_halts (mkLane cs c ran None) /\
  (forall n, (length (ln_todo (steps_of n (mkLane cs c ran None))) + n >= length cs)%nat) /\
  forall n, (length cs <= n)%nat -> ln_ran (steps_of n (mkLane cs c ran None)) = ran ++ rs /\
    ln_end (steps_of n (mkLane cs c ran None)) = Some LaneFinished.
Proof.
  revert c ran rs. induction cs as [|chk cs IH]; intros c ran rs Hne H; [done|].
  apply run_serial_cons in H as (r & t & rs' & Hr & Hs & -> & H).
  set (ran1 := mkRan chk r (cx_state c) t.1 t.2).
  assert (Hstep : lane_step (mkLane (chk :: cs) c ran None) =
    mkLane cs (lane_ctx c chk r) (ran ++ [ran1]) (match cs with [] => Some LaneFinished | _ => None end)).
  { unfold lane_step. cbn [ln_end ln_todo ln_ctx ln_ran]. unfold run_check. rewrite Hr. destruct t. cbn [mbind res_bind].
    cbn [rc_result]. by rewrite Hs. }
  destruct cs as [|chk' cs].
  - cbn in H. injection H as <- <-.
    assert (Hdone : forall n, steps_of n (lane_step (mkLane [chk] c ran None)) = lane_step (mkLane [chk] c ran None)).
    { rewrite Hstep. intros n. induction n as [|n IHn]; [done|].
      match goal with |- steps_of (S n) ?x = _ => change (steps_of (S n) x) with (lane_step (steps_of n x)) end. by rewrite IHn. }
    split_and!.
    + intros [|n]; [done|]. rewrite steps_succ, Hdone, Hstep. done.
    + intros [|n]; cbn; lia.
    + intros [|n] Hn; cbn in Hn; [lia|]. rewrite steps_succ, Hdone, Hstep. done.
  - destruct (IH (lane_ctx c chk r) (ran ++ [ran1]) rs' (ltac:(done)) H) as (Hnh & Hlen & Hend). split_and!.
    + intros [|n]; [done|]. rewrite steps_succ, Hstep. apply Hnh.
    + intros [|n]; [cbn; lia|]. rewrite steps_succ, Hstep. specialize (Hlen n). cbn [length] in *. lia.
    + intros [|n] Hn; [cbn in Hn; lia|]. rewrite steps_succ, Hstep.
      destruct (Hend n) as [E1 E2]; [cbn in *; lia|]. by rewrite E1, <- app_assoc.
Qed.

Lemma count_replicate n j : count_occ Nat.eq_dec (replicate n j) j = n.
Proof. induction n as [|n IH]; [done|]. cbn. destruct (Nat.eq_dec j j); [by rewrite IH|done]. Qed.

(** Whatever the schedule, lanes that never halt are all stepped to their end. *)
Lemma run_lanes_lookup sched ls j l n :
  Forall never_halts ls -> ls !! j = Some l -> (forall k, length (ln_todo (steps_of k l)) + k >= n)%nat ->
  exists k, (n <= k)%nat /\ run_lanes sched ls !! j = Some (steps_of k l).
Proof.
  intros Hnh Hj Hn. unfold run_lanes. set (ls1 := fold_left (fun ls i => step_nth i ls) sched ls).
  assert (Hj1 : ls1 !! j = Some (steps_of (count_occ Nat.eq_dec sched j) l)) by (unfold ls1; by rewrite schedule_lookup, Hj).
  rewrite unguarded, schedule_lookup, Hj1.
  - eexists. split; [|cbn [fmap option_fmap option_map]; unfold steps_of; by rewrite <- Nat.iter_add].
    pose proof (count_concat_imap (fun i l => replicate (length (ln_todo l)) i) ls1 j _ j Hj1) as Hcnt. cbn beta in Hcnt.
    rewrite count_replicate in Hcnt. specialize (Hn (count_occ Nat.eq_dec sched j)). lia.
  - apply Forall_lookup. intros i l'. unfold ls1. rewrite schedule_lookup. destruct (ls !! i) as [l0|] eqn:E; [|done].
    intros [= <-]. apply never_halts_after. by apply (Forall_lookup_1 _ _ _ _ Hnh E).
Qed.

Lemma run_lanes_length sched ls : length (run_lanes sched ls) = length ls.
Proof.
  assert (Hs : forall i ls, length (step_nth i ls) = length ls).
  { intros i l. unfold step_nth. destruct (l !! i); [apply length_insert|done]. }
  assert (Hf : forall sch l, length (fold_left (fun ls i => step_nth i ls) sch l) = length l).
  { induction sch as [|i sch IH]; intros l; cbn; [done|]. by rewrite IH, Hs. }
  assert (Hu : forall sch l, length (fold_left step_unless_halted sch l) = length l).
  { induction sch as [|i sch IH]; intros l; cbn; [done|]. rewrite IH. unfold step_unless_halted.
    destruct (existsb _ _); [done|apply Hs]. }
  unfold run_lanes. by rewrite Hu, Hf.
Qed.

(** Whatever the schedule, lanes that run through hand over all their results, in
    lane order. *)
Lemma run_stage_complete lanes sched c rss :
  Forall (fun cs => cs <> []) lanes ->
  Forall2 (fun cs rs => exists d, run_serial cs c = Some (rs, d)) lanes rss ->
  run_stage lanes sched c = Ok (List.concat rss).
Proof.
  intros Hne Hrs. unfold run_stage. set (ls := run_lanes sched (map (start_lane c) lanes)).
  assert (Hlane : forall j cs rs, lanes !! j = Some cs -> rss !! j = Some rs ->
    cs <> [] /\ exists d, run_serial cs c = Some (rs, d)).
  { intros j cs rs Hj Hr. split; [by apply (Forall_lookup_1 _ _ _ _ Hne Hj)|]. by apply (Forall2_lookup_lr _ _ _ _ _ _ Hrs Hj Hr). }
  assert (Hnh : Forall never_halts (map (start_lane c) lanes)).
  { apply Forall_lookup. intros j l. change (map (start_lane c) lanes) with (start_lane c <$> lanes).
    rewrite list_lookup_fmap. destruct (lanes !! j) as [cs|] eqn:Ej; [|done]. intros [= <-].
    destruct (Forall2_lookup_l _ _ _ _ _ Hrs Ej) as (rs & Er & _).
    destruct (Hlane j cs rs Ej Er) as [Hc [d Hd]]. by apply (lane_runs_through cs c [] rs d). }
  assert (Hall : Forall2 (fun l rs => ln_ran l = rs /\ ln_end l = Some LaneFinished) ls rss).
  { apply Forall2_same_length_lookup_2.
    { unfold ls. rewrite run_lanes_length, length_map. by apply Forall2_length in Hrs. }
    intros j l rs Hl Hr. destruct (Forall2_lookup_r _ _ _ _ _ Hrs Hr) as (cs & Ej & _).
    destruct (Hlane j cs rs Ej Hr) as [Hc [d Hd]].
    destruct (lane_runs_through cs c [] rs d Hc Hd) as (_ & Hlen & Hend).
    destruct (run_lanes_lookup sched _ j (start_lane c cs) (length cs) Hnh) as (k & Hk & Hlk).
    - change (map (start_lane c) lanes) with (start_lane c <$> lanes). by rewrite list_lookup_fmap, Ej.
    - exact Hlen.
    - fold ls in Hlk. rewrite Hl in Hlk. injection Hlk as ->. by apply Hend. }
  assert (first_error ls = None) as ->.
  { clear -Hall. induction Hall as [|l rs ls rss [_ He] _ IH]; [done|]. cbn. by rewrite He. }
  f_equal. clear -Hall. induction Hall as [|l rs ls rss [E _] _ IH]; [done|]. cbn. by rewrite E, IH.
Qed.

(** ** The run *)
Section Run.
Context `{R : Rounding}.

Definition goes_on (ran : RanCheck) : Prop := stops_run (rc_check ran) (rc_result ran) = false.
(** What one check adds to the events of the run. *)
Definition reported (ran : RanCheck) : list ValidationEvent := cr_extra_events (rc_result ran) ++ [cr_event (rc_result ran)].
Definition timed (ran : RanCheck) : string * Z := (ck_id (rc_check ran), elapsed_ms (rc_started ran) (rc_finished ran)).

Lemma stops_run_false chk r : stops_run chk r = false -> negb (cr_passed r) && is_fatal chk r = false /\ cr_halt r = false.
Proof. unfold stops_run. apply orb_false_iff. Qed.

(** The results of a step that is not the last, when none of them stops the run. *)
Lemma report_through start parallel elapsed rs s :
  Forall goes_on rs ->
  report start parallel elapsed false rs s =
    Continue (mkRun (rs_events s ++ flat_map reported rs)
      (fold_left (fun c ran => apply_result c ran parallel) rs (rs_ctx s)) (rs_steps s ++ map timed rs)).
Proof.
  intros Hrs. revert s. induction Hrs as [|ran rs Hran Hrs IH]; intros s; cbn [report flat_map fold_left map].
  { rewrite !app_nil_r. by destruct s. }
  apply stops_run_false in Hran as [Hf Hh]. rewrite Hf, Hh. cbn [orb andb]. rewrite IH. cbn [rs_events rs_ctx rs_steps].
  unfold reported at 2, timed at 2. by rewrite <- !app_assoc.
Qed.

Lemma run_serial_goes_on cs c rs d : run_serial cs c = Some (rs, d) -> Forall goes_on rs /\
  fold_left (fun c ran => apply_result c ran false) rs c = d.
Proof.
  revert c rs. induction cs as [|chk cs IH]; intros c rs H.
  { cbn in H. injection H as <- <-. done. }
  apply run_serial_cons in H as (r & t & rs' & Hr & Hs & -> & H). destruct (IH _ _ H) as [Hg Hf].
  split; [constructor; [exact Hs|done]|]. cbn [fold_left]. by rewrite apply_result_serial.
Qed.

Lemma run_steps_serial start cs rest s rs d :
  rest <> [] -> run_serial cs (rs_ctx s) = Some (rs, d) ->
  run_steps start (map Single cs ++ rest) s =
    run_steps start rest (mkRun (rs_events s ++ flat_map reported rs) d (rs_steps s ++ map timed rs)).
Proof.
  intros Hrest. revert s rs. induction cs as [|chk cs IH]; intros s rs H.
  { cbn in H. injection H as <- <-. cbn. rewrite !app_nil_r. by destruct s. }
  apply run_serial_cons in H as (r & t & rs' & Hr & Hs & -> & H).
  cbn [map app run_steps run_step]. unfold run_check. rewrite Hr. destruct t as [t1 t2]. cbn [mbind res_bind max_elapsed].
  assert (match map Single cs ++ rest with [] => true | _ => false end = false) as ->.
  { destruct (map Single cs ++ rest) eqn:E; [|done]. by apply app_nil in E as [_ ->]. }
  rewrite report_through by (constructor; [exact Hs|constructor]). cbn [fold_left flat_map map].
  rewrite apply_result_serial. cbn [rc_check rc_result]. rewrite (IH _ rs') by exact H. cbn [rs_events rs_ctx rs_steps].
  rewrite app_nil_r, <- !app_assoc. done.
Qed.

Lemma same_ran_goes_on a b : same_ran a b -> goes_on b -> goes_on a.
Proof. intros (Hc & Hs & _). unfold goes_on. by rewrite Hc, (same_report_stops _ _ _ Hs). Qed.

Lemma same_ran_report rs0 rs : Forall2 same_ran rs0 rs ->
  flat_map reported rs0 = flat_map reported rs /\ map timed rs0 = map timed rs.
Proof.
  induction 1 as [|a b rs0 rs (Hc & (_ & He & _ & _ & Hx & _) & Hs & Hf) _ [IH1 IH2]]; [done|]. cbn.
  rewrite IH1, IH2. unfold reported, timed. by rewrite He, Hx, Hc, Hs, Hf.
Qed.

Lemma stage_lanes_nonempty (Ls : list lane_spec) :
  Forall (fun L => ls_checks L <> []) Ls -> stage_lanes (map ls_checks Ls) = map ls_checks Ls.
Proof.
  intros H. apply filter_all. intros cs (L & -> & HL)%list_elem_of_fmap.
  rewrite Forall_forall in H. pose proof (H L HL). by destruct (ls_checks L).
Qed.

Lemma run_serial_same cs c rs d : cs <> [] -> run_serial cs c = Some (rs, d) -> rs <> [].
Proof. destruct cs as [|chk cs]; [done|]. intros _ (r & t & rs' & _ & _ & -> & _)%run_serial_cons. done. Qed.


(** ** The verdict *)

(** An event without the readings, which the summary of the steps is added to. *)
Definition strip (e : ValidationEvent) : ValidationEvent :=
  mkEvent (ev_event e) (ev_reason_code e) (ev_severity e) (ev_category e) (ev_impact e) (ev_remediation e) [] (ev_check_id e).
Definition failed_fatally (ran : RanCheck) : bool :=
  negb (cr_passed (rc_result ran)) && is_fatal (rc_check ran) (rc_result ran).

(** How the loop over the results of a step ends: after all of them, or at the first
    one that stops the run. *)
Inductive reported_until (s : RunState) (rs : list RanCheck) : progress -> Prop :=
| until_end s' :
    Forall goes_on rs ->
    map strip (rs_events s') = map strip (rs_events s) ++ map strip (flat_map reported rs) ->
    reported_until s rs (Continue s')
| until_stop pre ran post events ctx r :
    rs = pre ++ ran :: post -> Forall goes_on pre ->
    map strip events = map strip (rs_events s) ++ map strip (flat_map reported (pre ++ [ran])) ->
    (failed_fatally ran = true /\ r = Ok (false, events, ctx)) \/
    (failed_fatally ran = false /\ cr_halt (rc_result ran) = true /\ r = ended events ctx) ->
    reported_until s rs (Return r).

Lemma strip_add_what w e : strip (add_what w e) = strip e.
Proof. done. Qed.

Lemma report_until start parallel elapsed last rs s :
  reported_until s rs (report start parallel elapsed last rs s).
Proof.
  revert s. induction rs as [|ran rs IH]; intros s; cbn [report].
  { apply until_end; [constructor|]. by rewrite app_nil_r. }
  set (event := if _ || _ || _ then _ else _).
  assert (Hev : map strip (rs_events s ++ cr_extra_events (rc_result ran) ++ [event])
    = map strip (rs_events s) ++ map strip (reported ran)).
  { unfold reported. rewrite !map_app. cbn [map]. do 3 f_equal. unfold event. by destruct (_ || _ || _). }
  destruct (negb (cr_passed (rc_result ran)) && is_fatal (rc_check ran) (rc_result ran)) eqn:Ef.
  { eapply (until_stop _ _ [] ran rs); [done|constructor| |left; split; [exact Ef|done]]. cbn. by rewrite app_nil_r. }
  destruct (cr_halt (rc_result ran)) eqn:Eh.
  { eapply (until_stop _ _ [] ran rs); [done|constructor| |right; split_and!; [exact Ef|exact Eh|done]]. cbn. by rewrite app_nil_r. }
  assert (Hgo : goes_on ran) by (unfold goes_on, stops_run; by rewrite Ef, Eh).
  match goal with |- reported_until _ _ (report _ _ _ _ _ ?s1) => set (s1' := s1); destruct (IH s1') as [s' Hg He|pre r post ev c out -> Hg He Ho] end.
  - apply until_end; [by constructor|]. rewrite He. unfold s1'. cbn [rs_events flat_map]. by rewrite Hev, map_app, app_assoc.
  - eapply (until_stop _ _ (ran :: pre) r post); [done|by constructor| |exact Ho].
    rewrite He. unfold s1'. cbn [rs_events flat_map app]. by rewrite Hev, map_app, app_assoc.
Qed.

Lemma take_failure_perm events f rest : take_failure events = Some (f, rest) ->
  events ≡ₚ f :: rest /\ ev_check_id f = Some FINGERPRINT_CHECK_ID.
Proof.
  revert rest. induction events as [|e events IH]; intros rest; cbn [take_failure]; [done|].
  case_bool_decide as He; [by intros [= <- <-]|].
  destruct (take_failure events) as [[f' rest']|]; [|done]. intros [= -> <-].
  destruct (IH rest' eq_refl) as [Hp Hf]. split; [|done]. rewrite Hp. constructor.
Qed.

(** What [_ended] makes of a run that got through or was halted. *)
Lemma ended_spec events ctx ok events' ctx' :
  ended events ctx = Ok (ok, events', ctx') ->
  events' ≡ₚ events /\
  (if ok then gpu_fingerprint_passed ctx' = true
   else gpu_fingerprint_passed ctx' = false /\ attr ctx' "score" JNull = JFloat (Fin 0) /\
        attr ctx' "job_score" JNull = JFloat (Fin 0) /\ attr ctx' "rented" JNull = JBool false /\
        attr ctx' "success" JNull = JBool false /\
        exists f, last events' = Some f /\ ev_check_id f = Some FINGERPRINT_CHECK_ID).
Proof.
  unfold ended. destruct (gpu_fingerprint_passed ctx) eqn:Eg; [by intros [= <- <- <-]|].
  destruct (take_failure events) as [[f rest]|] eqn:Et; [|done]. intros [= <- <- <-].
  apply take_failure_perm in Et as [Hp Hf]. split.
  { rewrite Hp. by rewrite Permutation_app_comm. }
  unfold gpu_fingerprint_passed, attr in *. cbn [model_copy cx_attrs up_attrs fold_left fst snd].
  split; [by rewrite !lookup_insert_ne|]. split_and!.
  - rewrite !lookup_insert_ne by done. by rewrite lookup_insert_eq.
  - rewrite !lookup_insert_ne by done. by rewrite lookup_insert_eq.
  - rewrite !lookup_insert_ne by done. by rewrite lookup_insert_eq.
  - by rewrite lookup_insert_eq.
  - exists f. by rewrite last_snoc.
Qed.

Lemma stop_is_last l r pre x post :
  Forall goes_on l -> l ++ [r] = pre ++ x :: post -> stops_run (rc_check x) (rc_result x) = true -> post = [].
Proof.
  intros Hl E Hs. destruct post as [|p post _] using rev_ind; [done|].
  rewrite app_comm_cons, app_assoc in E. apply app_inj_tail in E as [-> _].
  apply Forall_app in Hl as [_ Hl]. apply Forall_cons in Hl as [Hx _]. unfold goes_on in Hx. congruence.
Qed.
Lemma goes_on_last l pre x post :
  Forall goes_on l -> l = pre ++ x :: post -> stops_run (rc_check x) (rc_result x) = true -> post = [].
Proof.
  intros Hl -> Hs. apply Forall_app in Hl as [_ Hl]. apply Forall_cons in Hl as [Hx _]. unfold goes_on in Hx. congruence.
Qed.
Lemma goes_on_not_failed l : Forall goes_on l -> Forall (fun ran => failed_fatally ran = false) l.
Proof. intros H. eapply Forall_impl; [exact H|]. intros ran Hr. by apply stops_run_false in Hr as [Hf _]. Qed.

Definition verdict_of (ok : bool) (events : list ValidationEvent) (ctx : Context) (rans : list RanCheck) : Prop :=
  map strip events ≡ₚ map strip (flat_map reported rans) /\
  (forall pre ran post, rans = pre ++ ran :: post -> stops_run (rc_check ran) (rc_result ran) = true -> post = []) /\
  if ok then gpu_fingerprint_passed ctx = true /\ Forall (fun ran => failed_fatally ran = false) rans
  else (exists ran, last rans = Some ran /\ failed_fatally ran = true /\
          map strip events = map strip (flat_map reported rans)) \/
       (gpu_fingerprint_passed ctx = false /\ attr ctx "score" JNull = JFloat (Fin 0) /\
        attr ctx "job_score" JNull = JFloat (Fin 0) /\ attr ctx "rented" JNull = JBool false /\
        attr ctx "success" JNull = JBool false /\
        exists f, last events = Some f /\ ev_check_id f = Some FINGERPRINT_CHECK_ID).

Lemma ended_verdict events ctx ok events' ctx' rans :
  ended events ctx = Ok (ok, events', ctx') -> map strip events = map strip (flat_map reported rans) ->
  (forall pre ran post, rans = pre ++ ran :: post -> stops_run (rc_check ran) (rc_result ran) = true -> post = []) ->
  Forall (fun ran => failed_fatally ran = false) rans -> verdict_of ok events' ctx' rans.
Proof.
  intros [Hp Hok]%ended_spec He Hlast Hnf. split; [by rewrite Hp, He|]. split; [done|]. destruct ok; [done|by right].
Qed.

(** The checks of a step, in lane order. *)
Definition step_checks (step : Step) : list Check :=
  match step with Single chk => [chk] | ParallelStage lanes _ => List.concat lanes end.

Definition lane_checks (l : lane) : list Check := map rc_check (ln_ran l) ++ ln_todo l.
Lemma lane_step_checks l : lane_checks (lane_step l) `sublist_of` lane_checks l.
Proof.
  unfold lane_step, lane_checks. destruct (ln_end l); [done|]. destruct (ln_todo l) as [|chk rest] eqn:Et; [done|].
  unfold run_check. destruct (ck_run chk (ln_ctx l)) as [[r [t1 t2]]|e]; cbn [mbind res_bind].
  - destruct (stops_run chk _); cbn [ln_ran ln_todo]; rewrite map_app, <- app_assoc; done.
  - cbn [ln_ran ln_todo]. apply sublist_app; [done|]. by apply sublist_cons.
Qed.
Lemma step_nth_checks i ls : List.concat (map lane_checks (step_nth i ls)) `sublist_of` List.concat (map lane_checks ls).
Proof.
  unfold step_nth. revert i. induction ls as [|l ls IH]; intros [|i]; cbn; try done.
  - apply sublist_app; [apply lane_step_checks|done].
  - specialize (IH i). destruct (ls !! i); cbn; [by apply sublist_app|done].
Qed.
Lemma run_lanes_checks sched ls : List.concat (map lane_checks (run_lanes sched ls)) `sublist_of` List.concat (map lane_checks ls).
Proof.
  assert (H1 : forall sch l, List.concat (map lane_checks (fold_left (fun ls i => step_nth i ls) sch l)) `sublist_of` List.concat (map lane_checks l)).
  { induction sch as [|i sch IH]; intros l; cbn [fold_left]; [done|]. etrans; [apply IH|apply step_nth_checks]. }
  assert (H2 : forall sch l, List.concat (map lane_checks (fold_left step_unless_halted sch l)) `sublist_of` List.concat (map lane_checks l)).
  { induction sch as [|i sch IH]; intros l; cbn [fold_left]; [done|]. etrans; [apply IH|]. unfold step_unless_halted.
    destruct (existsb _ _); [done|apply step_nth_checks]. }
  unfold run_lanes. etrans; [apply H2|apply H1].
Qed.
Lemma run_step_checks step c rs : run_step step c = Ok rs -> map rc_check rs `sublist_of` step_checks step.
Proof.
  destruct step as [chk|lanes sched]; cbn [run_step step_checks]; intros H.
  - apply bind_ok in H as (ran & Hr & H). injection H as <-. apply bind_ok in Hr as ([r [t1 t2]] & _ & Hr). by injection Hr as <-.
  - unfold run_stage in H. destruct (first_error _); [done|]. injection H as <-.
    etrans; [|etrans; [apply (run_lanes_checks sched (map (start_lane c) (stage_lanes lanes)))|]].
    + generalize (run_lanes sched (map (start_lane c) (stage_lanes lanes))). intros ls. induction ls as [|l ls IH]; [done|].
      cbn. rewrite map_app. apply sublist_app; [|exact IH]. unfold lane_checks. by apply sublist_inserts_r.
    + rewrite map_map. unfold stage_lanes. induction lanes as [|l lanes IH]; cbn; [done|].
      destruct l as [|c0 l]; cbn in *; [done|]. constructor. by apply sublist_app.
Qed.

Lemma run_steps_verdict start steps s done ok events ctx' :
  Forall goes_on done -> map strip (rs_events s) = map strip (flat_map reported done) ->
  run_steps start steps s = Ok (ok, events, ctx') ->
  exists rans, map rc_check rans `sublist_of` map rc_check done ++ flat_map step_checks steps /\ verdict_of ok events ctx' rans.
Proof.
  revert s done. induction steps as [|step steps IH]; intros s done Hd Hev H; cbn [run_steps] in H.
  { exists done. split; [by apply sublist_inserts_r|]. eapply ended_verdict; [exact H|exact Hev| |by apply goes_on_not_failed].
    intros pre ran post. by apply goes_on_last. }
  apply bind_ok in H as (rs & Hrs%run_step_checks & H). apply bind_ok in H as (m & _ & H). cbn [flat_map].
  match type of H with match report ?a ?b ?c ?d ?e ?f with _ => _ end = _ =>
    destruct (report_until a b c d e f) as [s' Hg He|pre ran post ev c' out -> Hg He Ho] end.
  { destruct (IH s' (done ++ rs)) as (rans & Hsub & Hv);
      [by apply Forall_app|by rewrite He, Hev, flat_map_app, map_app|exact H|].
    exists rans. split; [|done]. etrans; [exact Hsub|]. rewrite map_app, <- app_assoc.
    apply sublist_app; [done|]. by apply sublist_app. }
  assert (Hev' : map strip ev = map strip (flat_map reported ((done ++ pre) ++ [ran]))).
  { rewrite He, Hev, !flat_map_app, !map_app, <- app_assoc. done. }
  assert (Hgo : Forall goes_on (done ++ pre)) by (by apply Forall_app).
  exists ((done ++ pre) ++ [ran]). split.
  { rewrite !map_app, <- app_assoc. apply sublist_app; [done|]. apply sublist_inserts_r. etrans; [|exact Hrs].
    rewrite map_app. apply sublist_app; [done|]. cbn. constructor. apply sublist_nil_l. }
  destruct Ho as [[Hf ->]|(Hf & Hh & ->)].
  - injection H as <- <- <-. split; [by rewrite Hev'|]. split; [intros p x q; by apply stop_is_last|].
    left. exists ran. by rewrite last_snoc.
  - eapply ended_verdict; [exact H|exact Hev'|intros p x q; by apply stop_is_last|].
    apply Forall_app. split; [by apply goes_on_not_failed|by constructor].
Qed.

(** What a run of the pipeline returns. Its events are those of the checks that
    reported, in the order of the pipeline and each at most once, each check's extra events before its own, up to the first check that
    stopped the run, and nothing after it (the summary of the steps apart, and one
    fingerprint failure moved to the end). The run fails either because that last
    check failed fatally, or because the GPU fingerprint failed under a live rental:
    then the context says not rented, not successful and score 0. It passes only when
    no check failed fatally and the fingerprint did not fail. *)
Theorem pipeline_verdict start steps ctx ok events ctx' :
  run_pipeline start steps ctx = Ok (ok, events, ctx') ->
  exists rans, map rc_check rans `sublist_of` flat_map step_checks steps /\
    map strip events ≡ₚ map strip (flat_map reported rans) /\
    (forall pre ran post, rans = pre ++ ran :: post -> stops_run (rc_check ran) (rc_result ran) = true -> post = []) /\
    if ok then gpu_fingerprint_passed ctx' = true /\ Forall (fun ran => failed_fatally ran = false) rans
    else (exists ran, last rans = Some ran /\ failed_fatally ran = true /\
            map strip events = map strip (flat_map reported rans)) \/
         (gpu_fingerprint_passed ctx' = false /\ attr ctx' "score" JNull = JFloat (Fin 0) /\
          attr ctx' "job_score" JNull = JFloat (Fin 0) /\ attr ctx' "rented" JNull = JBool false /\
          attr ctx' "success" JNull = JBool false /\
          exists f, last events = Some f /\ ev_check_id f = Some FINGERPRINT_CHECK_ID).
Proof. intros H. by apply (run_steps_verdict start steps (mkRun [] ctx []) [] ok events ctx'). Qed.
End Run.
