(* ===== verification/GpuDrop.v ===== *)
(** * GPUs missing from a node

    [services/task/checks/gpu_fingerprint.py] (the anchored GPU set) and
    [services/task/checks/rented_gpu_drop.py] (a rented node that lost a GPU, and the
    incident it opens with the backend).  Message texts are left out: an event is its
    reason, severity, category and readings.  Redis and the backend are outside: what
    they answer is an input of each cycle. *)

From Stdlib Require Import String Ascii.
From stdpp Require Import strings.
From S2P Require Import Prelude Float64 PyValue JobResult IncentiveConfig Settlement Pipeline.

Local Open Scope string_scope.
Local Open Scope list_scope.
Local Open Scope Z_scope.

(** [render_message], the texts left out. *)
Definition message (reason severity category check_id : string) (what : list (string * json)) : ValidationEvent :=
  mkEvent reason reason severity category "" None what (Some check_id).
Definition passed_with (e : ValidationEvent) (u : Updates) : CheckResult := mkCheckResult true e u false None [].
Definition nothing : Updates := mkUpdates [] None.
Definition strings_json (l : list string) : json := JList (map JStr l).

(** ** The anchored set *)

(** [split_uuids] *)
Definition split_uuids (csv : string) : list string :=
  sorted_set (List.filter (fun u => negb (String.eqb u "")) (Text.split "," csv)).

Definition difference (l m : list string) : list string := List.filter (fun x => negb (in_list x m)) l.
Definition same_set (l m : list string) : bool :=
  match difference l m, difference m l with [], [] => true | _, _ => false end.

(** [full_set_changed] *)
Definition full_set_changed (anchor current : list string) : bool :=
  match anchor with [] => false | _ => true end
  && (length current =? length anchor)%nat && negb (same_set current anchor).

Definition DECISION_GPU_MISSING : string := "GPU_MISSING".
Definition DECISION_ANCHOR_BROKEN : string := "ANCHOR_BROKEN".
Definition listed_in (csv : string) : list string := List.filter (fun u => negb (String.eqb u "")) (Text.split "," csv).

(** [_failed] *)
Definition fingerprint_failed (live_rental : bool) (event : ValidationEvent) (attrs : list (string * json)) : CheckResult :=
  if negb live_rental then mkCheckResult false event (mkUpdates attrs None) false None []
  else mkCheckResult false event (mkUpdates (dset "gpu_fingerprint_passed" (JBool false) attrs) None) false (Some false) [].

(** [GpuFingerprintCheck.run] *)
Definition fingerprint_check (hard live_rental : bool) (prev_uuids current_uuids : string) : CheckResult :=
  let anchor := split_uuids prev_uuids in
  let current := split_uuids current_uuids in
  let seen := if (length (listed_in current_uuids) =? length current)%nat then [] else [("duplicate_uuid", JBool true)] in
  if full_set_changed anchor current then
    passed_with (message "GPU_UUID_OK" "info" "env" FINGERPRINT_CHECK_ID
      ([("gpu_uuids", JStr current_uuids); ("previous", JStr prev_uuids); ("reanchored", JBool true)] ++ seen))
      (mkUpdates [("gpu_reanchor", JBool true)] None)
  else if match anchor, current with [], _ | _, [] => false | _, _ => true end && negb (bool_decide (anchor = current)) then
    let missing := sorted_set (difference anchor current) in
    let unexpected := sorted_set (difference current anchor) in
    let decision := match unexpected with [] => DECISION_GPU_MISSING | _ => DECISION_ANCHOR_BROKEN end in
    let what := [("previous", JStr prev_uuids); ("current", JStr current_uuids); ("missing", strings_json missing);
                 ("unexpected", strings_json unexpected)] ++ seen in
    let event :=
      if hard && String.eqb decision DECISION_GPU_MISSING
      then message "GPU_MISSING" "warning" "env" FINGERPRINT_CHECK_ID what
      else message "GPU_UUID_CHANGED" "warning" "env" FINGERPRINT_CHECK_ID (what ++ [("anchor_hard_would_be", JStr decision)]) in
    fingerprint_failed live_rental event
      [("clear_verified_job_info", JBool true);
       ("clear_verified_job_evidence", JObj [("anchor_hard_would_be", JStr decision)])]
  else passed_with (message "GPU_UUID_OK" "info" "env" FINGERPRINT_CHECK_ID ([("gpu_uuids", JStr current_uuids)] ++ seen)) nothing.

(** ** A rented node that lost a GPU *)
Inductive Fault := FAULT_BELOW_RENTED | FAULT_DETAILS_SHORT | FAULT_ANCHORED_MISSING | FAULT_NVML_ERROR | FAULT_ECC_UNCORRECTED.
#[export] Instance Fault_eq_dec : EqDecision Fault.
Proof. solve_decision. Defined.
Definition fault_value (f : Fault) : string :=
  match f with
  | FAULT_BELOW_RENTED => "below_rented_count"
  | FAULT_DETAILS_SHORT => "details_short_of_count"
  | FAULT_ANCHORED_MISSING => "anchored_gpu_missing"
  | FAULT_NVML_ERROR => "nvml_error"
  | FAULT_ECC_UNCORRECTED => "ecc_uncorrected"
  end.
Definition NVML_GPU_LOSS_CODES : list Z := [9; 15; 16; 28; 999].
Definition MAX_MISSING_UUIDS : nat := 16.
Definition MAX_UUID_CHARS : nat := 64.
Definition MAX_REPORTED_GPU_COUNT : Z := 64.

(** [_NVML_ERROR_CODE]: [NVMLError\w*\((\d{1,6})\)], on ASCII text. *)
Definition is_word (c : ascii) : bool :=
  let n := Text.code c in
  ((48 <=? n) && (n <=? 57)) || ((65 <=? n) && (n <=? 90)) || ((97 <=? n) && (n <=? 122)) || (n =? 95).
Fixpoint strip_prefix (p l : list ascii) : option (list ascii) :=
  match p, l with
  | [], _ => Some l
  | a :: p', b :: l' => if Ascii.eqb a b then strip_prefix p' l' else None
  | _, [] => None
  end.
Fixpoint drop_word (l : list ascii) : list ascii :=
  match l with c :: l' => if is_word c then drop_word l' else l | [] => [] end.
Definition code_here (l : list ascii) : option Z :=
  rest ← strip_prefix (Text.chars "NVMLError") l;
  match drop_word rest with
  | c :: rest =>
      if Ascii.eqb c "(" then
        let '(digits, rest) := Text.span_digits rest in
        match rest with
        | d :: _ => if Ascii.eqb d ")" && (1 <=? length digits)%nat && (length digits <=? 6)%nat
                    then Some (Text.plain_digits digits) else None
        | [] => None
        end
      else None
  | [] => None
  end.
Fixpoint search_code (l : list ascii) : option Z :=
  match code_here l with
  | Some z => Some z
  | None => match l with [] => None | _ :: l' => search_code l' end
  end.
(** [nvml_error_code] *)
Definition nvml_error_code (scrape_error : json) : option Z :=
  match scrape_error with JStr s => search_code (Text.chars s) | _ => None end.

Record GpuDrop := mkDrop {
  dr_expected : Z;
  dr_visible : Z;
  dr_nvml_count : Z;
  dr_missing_uuids : list string;
  dr_nvml_error_code : option Z;
  dr_faults : list Fault;
  dr_confirm_first : bool
}.
Definition loss_code (code : option Z) : bool :=
  match code with Some c => bool_decide (c ∈ NVML_GPU_LOSS_CODES) | None => false end.
Definition when (b : bool) {A} (x : A) : list A := if b then [x] else [].
Definition truncate (n : nat) (s : string) : string := Text.of_chars (take n (Text.chars s)).

(** The anchored cards the scrape does not list. *)
Definition missing_cards (anchor listed_uuids : list string) (listed_count : Z) : list string :=
  if match listed_uuids with [] => false | _ => true end || (listed_count =? 0)
  then take MAX_MISSING_UUIDS (sorted_set (difference anchor listed_uuids)) else [].
Definition rented_or_one (rented_gpu_count : option Z) : Z :=
  match rented_gpu_count with Some n => if n =? 0 then 1 else n | None => 1 end.
Definition set_size (l : list string) : Z := Z.of_nat (length (remove_dups l)).

Definition count_faults (rented visible nvml_count : Z) (missing : list string) : list Fault :=
  when (visible <? rented) FAULT_BELOW_RENTED ++ when (visible <? nvml_count) FAULT_DETAILS_SHORT
  ++ when (match missing with [] => false | _ => true end) FAULT_ANCHORED_MISSING.

(** [judge_rented_gpus] *)
Definition judge_rented_gpus (rented_gpu_count : option Z) (anchor_uuids : list string) (nvml_count : Z)
    (listed_uuids : list string) (listed_count : Z) (scrape_error : json) (broken_uuids : list string) : option GpuDrop :=
  let visible := listed_count in
  let rented := rented_or_one rented_gpu_count in
  let code := nvml_error_code scrape_error in
  let missing := missing_cards anchor_uuids listed_uuids listed_count in
  let named_broken := List.filter (fun u => negb (in_list u missing)) (sorted_set broken_uuids) in
  let faults := count_faults rented visible nvml_count missing in
  let faults := faults ++ when (loss_code code || (match code with Some _ => true | None => false end
                                && match faults with [] => false | _ => true end)) FAULT_NVML_ERROR in
  let faults := faults ++ when (match broken_uuids with [] => false | _ => true end) FAULT_ECC_UNCORRECTED in
  match faults with
  | [] => None
  | _ =>
      let expected := Z.max (Z.max rented (set_size anchor_uuids)) nvml_count in
      let cut_short := truthy scrape_error && bool_decide (FAULT_DETAILS_SHORT ∈ faults)
        && (Z.max rented (set_size anchor_uuids) <=? nvml_count) in
      let duplicate_listed := bool_decide (FAULT_ANCHORED_MISSING ∈ faults)
        && (length (remove_dups listed_uuids) <? length listed_uuids)%nat && (expected <=? listed_count) in
      Some {|
        dr_expected := expected; dr_visible := visible; dr_nvml_count := nvml_count;
        dr_missing_uuids := map (truncate MAX_UUID_CHARS) (take MAX_MISSING_UUIDS (missing ++ named_broken));
        dr_nvml_error_code := code; dr_faults := faults;
        dr_confirm_first := negb (loss_code code) && (cut_short || duplicate_listed) |}
  end.

(** [_rented_gpu_count]: None unless every pod names a positive count. *)
Definition rented_gpu_count (counts : list (option Z)) : option Z :=
  match counts with
  | [] => None
  | _ => if forallb (fun c => match c with Some n => negb (n =? 0) | None => false end) counts
         then Some (Zsum (map (fun c => match c with Some n => n | None => 0 end) counts)) else None
  end.

(** ** The incident of a pod *)
Record Evidence := mkEvidence {
  ev_expected : Z; ev_visible : Z; ev_faults : list Fault; ev_missing : list string; ev_code : option Z;
  ev_nvml_count : Z; ev_rented_total : option Z; ev_pod_gpu_count : option Z
}.
#[export] Instance Evidence_eq_dec : EqDecision Evidence.
Proof. solve_decision. Defined.
(** [GpuDrop.evidence] *)
Definition evidence_of (d : GpuDrop) (rented_total pod_gpu_count : option Z) : Evidence :=
  mkEvidence (dr_expected d) (dr_visible d) (dr_faults d) (dr_missing_uuids d) (dr_nvml_error_code d)
    (dr_nvml_count d) rented_total pod_gpu_count.

Record DropMark := mkMark {
  mk_first_seen_at : string;
  mk_consecutive_cycles : Z;
  mk_reported : bool;
  mk_recorded : bool;
  mk_unanswered : bool;
  mk_recovering : bool;
  mk_evidence : option Evidence;
  mk_ecc : bool;
  mk_observed_at : option string
}.
#[export] Instance DropMark_eq_dec : EqDecision DropMark.
Proof. solve_decision. Defined.
(** [DropMark(first_seen_at)] *)
Definition new_mark (first_seen_at : string) : DropMark := mkMark first_seen_at 1 false false false false None false None.
Definition needs_recovery (m : DropMark) : bool := mk_recorded m || mk_unanswered m.

(** The backend's answer to a report: None for no answer, else its [delivery]. *)
Notation answer := (option (option string)) (only parsing).
Definition GPU_DROP_DELIVERY_DISABLED : string := "disabled".
Definition GPU_DROP_DELIVERY_NOT_RENTED : string := "not_rented".
Definition no_retry (delivery : option string) : bool :=
  bool_decide (delivery ∈ [None; Some "notified"; Some "recorded"; Some GPU_DROP_DELIVERY_NOT_RENTED]).
Definition not_recorded (delivery : option string) : bool :=
  bool_decide (delivery ∈ [Some GPU_DROP_DELIVERY_DISABLED; Some GPU_DROP_DELIVERY_NOT_RENTED]).

(** [DropMark.after_answer] *)
Definition after_answer (m : DropMark) (a : answer) (evidence : Evidence) : DropMark :=
  match a with
  | None => mkMark (mk_first_seen_at m) (mk_consecutive_cycles m) false (mk_recorded m) true (mk_recovering m)
              (mk_evidence m) (mk_ecc m) (mk_observed_at m)
  | Some d => mkMark (mk_first_seen_at m) (mk_consecutive_cycles m) (no_retry d) (mk_recorded m || negb (not_recorded d))
                (mk_unanswered m) (mk_recovering m) (if no_retry d then Some evidence else mk_evidence m) (mk_ecc m)
                (mk_observed_at m)
  end.

(** The marks this process last wrote, with their expiry, and Redis: a stored mark
    (None for text that does not load) with its expiry. One clock stands for both. *)
Record Marks := mkMarks {
  local_marks : list (string * (DropMark * Q));
  redis_marks : list (string * (option DropMark * Q))
}.
Definition drop_key (pod_id : string) : string := "rented_gpu_drop:" ++ pod_id.
Definition dpop {A} (k : string) (d : list (string * A)) : list (string * A) := List.filter (fun kv => negb (String.eqb kv.1 k)) d.

(** What a cycle meets outside: the clock, whether Redis reads, writes and deletes,
    the backend's answer, and the time of the cycle as text. *)
Record Outside := mkOutside {
  o_now : Q; o_now_iso : string; o_read_ok : bool; o_write_ok : bool; o_delete_ok : bool; o_answer : answer
}.

(** [_local_mark] *)
Definition local_mark (now : Q) (key : string) (ms : Marks) : Marks * option DropMark :=
  match dget key (local_marks ms) with
  | Some (m, expires) =>
      if Qleb expires now then (mkMarks (dpop key (local_marks ms)) (redis_marks ms), None) else (ms, Some m)
  | None => (mkMarks (dpop key (local_marks ms)) (redis_marks ms), None)
  end.
(** [DropMark.load(redis.get(key))] *)
Definition redis_mark (now : Q) (key : string) (ms : Marks) : option DropMark :=
  match dget key (redis_marks ms) with
  | Some (m, expires) => if Qleb expires now then None else m
  | None => None
  end.

Section Track.
Context `{R : Rounding}.
Context (ttl : Q).

(** [_save] *)
Definition save_mark (o : Outside) (key : string) (m : DropMark) (redis_ok : bool) (ms : Marks) : Marks :=
  let kept := List.filter (fun kv => negb (Qleb (snd (snd kv)) (o_now o))) (local_marks ms) in
  mkMarks (dset key (m, fadd (o_now o) ttl) kept)
    (if redis_ok && o_write_ok o then dset key (Some m, fadd (o_now o) ttl) (redis_marks ms) else redis_marks ms).

(** [_forget] *)
Definition closed_mark : DropMark := mkMark "" 1 false false false true None false None.
Definition forget_mark (o : Outside) (key : string) (ms : Marks) : Marks :=
  let local := dpop key (local_marks ms) in
  if o_delete_ok o then mkMarks local (dpop key (redis_marks ms))
  else mkMarks (dset key (closed_mark, fadd (o_now o) ttl) local) (redis_marks ms).

(** What is posted to the backend. *)
Inductive PostState := STATE_FAULT | STATE_RECOVERED.
Record Post := mkPost {
  po_state : PostState; po_first_seen_at : string; po_consecutive_cycles : Z;
  po_expected : option Z; po_visible : option Z; po_missing_uuids : list string; po_nvml_error_code : option Z;
  po_faults : list Fault; po_pod_gpu_count : option Z; po_rented_gpu_count : option Z; po_nvml_gpu_count : option Z;
  po_observed_at : string; po_with_gpu_details : bool
}.
(** [_gpus] *)
Definition gpus (count : option Z) : option Z :=
  match count with None => None | Some n => Some (Z.min (Z.max n 0) MAX_REPORTED_GPU_COUNT) end.
Definition make_post (state : PostState) (m : DropMark) (drop : option GpuDrop) (pod_gpu_count rented_total : option Z)
    (nvml_count : Z) (observed_at : string) : Post := {|
  po_state := state; po_first_seen_at := mk_first_seen_at m; po_consecutive_cycles := mk_consecutive_cycles m;
  po_expected := gpus (Some (match drop with Some d => dr_expected d | None => 0 end));
  po_visible := gpus (Some (match drop with Some d => dr_visible d | None => 0 end));
  po_missing_uuids := match drop with Some d => dr_missing_uuids d | None => [] end;
  po_nvml_error_code := match drop with Some d => dr_nvml_error_code d | None => None end;
  po_faults := match drop with Some d => dr_faults d | None => [] end;
  po_pod_gpu_count := gpus pod_gpu_count; po_rented_gpu_count := gpus rented_total; po_nvml_gpu_count := gpus (Some nvml_count);
  po_observed_at := observed_at;
  po_with_gpu_details := match drop with Some d => bool_decide (FAULT_ANCHORED_MISSING ∈ dr_faults d) | None => false end |}.

(** The row of a pod in the check's event. *)
Record Outcome := mkOutcome {
  oc_pod_id : string; oc_state : PostState; oc_first_seen_at : string; oc_consecutive_cycles : Z; oc_posted : bool;
  oc_delivery : option string; oc_reported : bool; oc_gpu_count : option Z; oc_held : bool
}.
Definition delivery_of (a : answer) : option string := match a with Some d => d | None => None end.

(** What a cycle saw of the node, for every pod alike. *)
Record Sight := mkSight {
  sg_drop : option GpuDrop; sg_rented_total : option Z; sg_nvml_count : Z; sg_memory_unread : bool
}.

(** [_recover] *)
Definition recover (o : Outside) (pod_id : string) (pod_gpu_count : option Z) (m : DropMark) (sg : Sight) (redis_ok : bool)
    (ms : Marks) : Marks * option Outcome * option Post :=
  let key := drop_key pod_id in
  if negb (needs_recovery m) then (forget_mark o key ms, None, None)
  else
    let observed := match mk_observed_at m with
      | Some t => if mk_recovering m && negb (String.eqb t "") then t else o_now_iso o
      | None => o_now_iso o
      end in
    let owed := mkMark (mk_first_seen_at m) (mk_consecutive_cycles m) (mk_reported m) (mk_recorded m) (mk_unanswered m) true
                  (mk_evidence m) (mk_ecc m) (Some observed) in
    let done := match o_answer o with Some d => no_retry d | None => false end in
    let ms' := if done then forget_mark o key ms
               else if bool_decide (owed = m) then ms else save_mark o key owed redis_ok ms in
    (ms', Some (mkOutcome pod_id STATE_RECOVERED (mk_first_seen_at m) (mk_consecutive_cycles m) true
                  (delivery_of (o_answer o)) done pod_gpu_count false),
     Some (make_post STATE_RECOVERED m None pod_gpu_count (sg_rented_total sg) (sg_nvml_count sg) observed)).

(** The mark of a cycle that shows a fault, before it is reported. *)
Definition faulty_mark (o : Outside) (m : option DropMark) (drop : GpuDrop) : DropMark :=
  let m := match m with
    | None => new_mark (o_now_iso o)
    | Some m =>
        if mk_recovering m then
          mkMark (o_now_iso o) 1 false (mk_recorded m) (mk_unanswered m) false None false None
        else mkMark (mk_first_seen_at m) (mk_consecutive_cycles m + 1) (mk_reported m) (mk_recorded m) (mk_unanswered m)
               (mk_recovering m) (mk_evidence m) (mk_ecc m) (mk_observed_at m)
    end in
  mkMark (mk_first_seen_at m) (mk_consecutive_cycles m) (mk_reported m) (mk_recorded m) (mk_unanswered m) (mk_recovering m)
    (mk_evidence m) (mk_ecc m || bool_decide (FAULT_ECC_UNCORRECTED ∈ dr_faults drop)) (mk_observed_at m).

(** [_track_pod] *)
Definition track_pod (o : Outside) (pod_id : string) (pod_gpu_count : option Z) (sg : Sight) (ms : Marks)
    : Marks * option Outcome * option Post :=
  let key := drop_key pod_id in
  let stored := if o_read_ok o then redis_mark (o_now o) key ms else None in
  let '(ms, local) := local_mark (o_now o) key ms in
  let mark := match local with Some m => Some m | None => stored end in
  match sg_drop sg with
  | None =>
      match mark with
      | None => (ms, None, None)
      | Some m =>
          if sg_memory_unread sg && mk_ecc m then (save_mark o key m (o_read_ok o) ms, None, None)
          else recover o pod_id pod_gpu_count m sg (o_read_ok o) ms
      end
  | Some drop =>
      let m := faulty_mark o mark drop in
      let held := dr_confirm_first drop && (mk_consecutive_cycles m <? 2) in
      let evidence := evidence_of drop (sg_rented_total sg) pod_gpu_count in
      let due := negb (mk_reported m) || negb (bool_decide (mk_evidence m = Some evidence)) in
      let posted := due && negb held in
      let m' := if posted then after_answer m (o_answer o) evidence else m in
      (save_mark o key m' (o_read_ok o) ms,
       Some (mkOutcome pod_id STATE_FAULT (mk_first_seen_at m') (mk_consecutive_cycles m') posted
               (if posted then delivery_of (o_answer o) else None) (mk_reported m') pod_gpu_count held),
       if posted then Some (make_post STATE_FAULT m (Some drop) pod_gpu_count (sg_rented_total sg) (sg_nvml_count sg) (o_now_iso o))
       else None)
  end.
End Track.

(** ** The check *)
Record RentedPod := mkPod { pd_pod_id : string; pd_container_name : string; pd_gpu_count : option Z; pd_status : option string }.
Definition POD_STATUS_RUNNING : string := "RUNNING".
Definition rented_status (p : RentedPod) : bool :=
  bool_decide (pd_status p ∈ [None; Some POD_STATUS_RUNNING; Some "REBOOT_PENDING"; Some "REBOOT_FAILED"]).

(** What the scrape and the verified record say of the node's GPUs. *)
Record Scrape := mkScrape {
  sc_anchor : string;               (* the record's comma-joined GPU set *)
  sc_gpu_count : option Z;          (* ctx.state.gpu_count *)
  sc_spec_gpu_count : option Z;     (* specs["gpu"]["count"] *)
  sc_listed_uuids : list string;    (* _listed_uuids(gpu_details) *)
  sc_details : Z;                   (* len(gpu_details) *)
  sc_scrape_error : json
}.
Definition nvml_count_of (s : Scrape) : Z :=
  match sc_gpu_count s with Some n => n | None => match sc_spec_gpu_count s with Some n => n | None => 0 end end.

Definition opt_int (o : option Z) : json := match o with Some n => JInt n | None => JNull end.
Definition opt_str (o : option string) : json := match o with Some s => JStr s | None => JNull end.
Definition state_value (s : PostState) : string := match s with STATE_FAULT => "fault" | STATE_RECOVERED => "recovered" end.
Definition outcome_json (oc : Outcome) : json :=
  JObj ([("pod_id", JStr (oc_pod_id oc)); ("state", JStr (state_value (oc_state oc)));
         ("first_seen_at", JStr (oc_first_seen_at oc)); ("consecutive_cycles", JInt (oc_consecutive_cycles oc));
         ("posted", JBool (oc_posted oc)); ("delivery", opt_str (oc_delivery oc)); ("reported", JBool (oc_reported oc));
         ("gpu_count", opt_int (oc_gpu_count oc))]
        ++ match oc_state oc with STATE_FAULT => [("held", JBool (oc_held oc))] | STATE_RECOVERED => [] end).
Definition DROP_CHECK_ID : string := "gpu.validate.rented_gpu_drop".

Section DropCheck.
Context `{R : Rounding}.
Context (ttl : Q) (dry_run : bool).

(** The loop over the pods; the outside each pod's turn meets is an input. *)
Definition track_pods (outs : string -> Outside) (sg : Sight) (pods : list RentedPod) (ms : Marks)
    : Marks * list Outcome * list (string * Post) :=
  fold_left (fun acc p =>
    let '(ms, ocs, posts) := acc in
    let '(ms, oc, post) := track_pod ttl (outs (pd_pod_id p)) (pd_pod_id p) (pd_gpu_count p) sg ms in
    (ms, ocs ++ match oc with Some oc => [oc] | None => [] end,
     posts ++ match post with Some po => [(pd_pod_id p, po)] | None => [] end)) pods (ms, [], []).

(** [RentedGpuDropCheck.run]: [memory] is the reading of broken cards and the update
    that keeps it, [under_reset] whether the missing cards are being reset. *)
Definition rented_gpu_drop_check (executor_uuid : string) (all_pods : list RentedPod) (under_reset : bool) (s : Scrape)
    (memory : option (list string)) (updates : Updates) (outs : string -> Outside) (ms : Marks)
    : Marks * list (string * Post) * CheckResult :=
  let pods := List.filter rented_status all_pods in
  match pods with
  | [] => (ms, [], passed_with (message "RENTED_GPU_DROP_NOT_RENTED" "info" "env" DROP_CHECK_ID
                     [("listed_pods", JInt (Z.of_nat (length all_pods)))]) nothing)
  | _ =>
      if under_reset then (ms, [], passed_with (message "RENTED_GPU_DROP_GPU_RESET_IN_PROGRESS" "info" "env" DROP_CHECK_ID []) nothing)
      else
        let rented_total := rented_gpu_count (map pd_gpu_count all_pods) in
        let drop := judge_rented_gpus rented_total (split_uuids (sc_anchor s)) (nvml_count_of s) (sc_listed_uuids s)
                      (sc_details s) (sc_scrape_error s) (match memory with Some l => l | None => [] end) in
        let sg := mkSight drop rented_total (nvml_count_of s) (match memory with None => true | Some _ => false end) in
        let '(ms, outcomes, posts) := if dry_run then (ms, [], []) else track_pods outs sg pods ms in
        let event := match drop with
          | Some d => message "RENTED_GPU_DROP" "error" "env" DROP_CHECK_ID
              [("executor_uuid", JStr executor_uuid); ("expected_gpu_count", JInt (dr_expected d));
               ("visible_gpu_count", JInt (dr_visible d)); ("rented_gpu_count", opt_int rented_total);
               ("nvml_gpu_count", JInt (dr_nvml_count d)); ("missing_uuids", strings_json (dr_missing_uuids d));
               ("nvml_error_code", opt_int (dr_nvml_error_code d));
               ("gpu_scrape_error", match sc_scrape_error s with JStr e => JStr (truncate 120 e) | _ => JNull end);
               ("faults", strings_json (map fault_value (dr_faults d))); ("pods", JList (map outcome_json outcomes))]
          | None =>
              match outcomes with
              | [] => message "RENTED_GPU_OK" "info" "env" DROP_CHECK_ID
                        [("visible_gpu_count", JInt (sc_details s)); ("nvml_gpu_count", JInt (nvml_count_of s))]
              | _ => message "RENTED_GPU_RECOVERED" "info" "env" DROP_CHECK_ID
                       [("executor_uuid", JStr executor_uuid); ("pods", JList (map outcome_json outcomes))]
              end
          end in
        (ms, posts, passed_with event updates)
  end.
End DropCheck.

(** ** What the judgement means *)
Lemma difference_nil l m : difference l m = [] <-> forall x, x ∈ l -> x ∈ m.
Proof.
  unfold difference. split.
  - intros H x Hx. destruct (in_list x m) eqn:E; [by apply bool_decide_eq_true in E|].
    assert (x ∈ []) as []%not_elem_of_nil. rewrite <- H. apply elem_of_bfilter. by rewrite E.
  - intros H. apply filter_none. intros x Hx. unfold in_list. by rewrite bool_decide_eq_true_2 by auto.
Qed.
Lemma same_set_spec l m : same_set l m = true <-> forall x, x ∈ l <-> x ∈ m.
Proof.
  unfold same_set. split.
  - destruct (difference l m) eqn:E1; [|done]. destruct (difference m l) eqn:E2; [|done]. intros _ x.
    split; [by apply difference_nil|by apply (proj1 (difference_nil m l))].
  - intros H. rewrite (proj2 (difference_nil l m)), (proj2 (difference_nil m l)); [done| |]; intros x; apply H.
Qed.

Lemma sorted_set_nil l : sorted_set l = [] <-> l = [].
Proof.
  unfold sorted_set. split; [|by intros ->]. intros H. destruct l as [|x l]; [done|]. exfalso.
  assert (x ∈ psort String.leb (remove_dups (x :: l))) as Hx by (apply elem_of_psort, elem_of_remove_dups, elem_of_cons; by left).
  rewrite H in Hx. by apply not_elem_of_nil in Hx.
Qed.
Lemma elem_of_sorted_set x l : x ∈ sorted_set l <-> x ∈ l.
Proof. unfold sorted_set. by rewrite elem_of_psort, elem_of_remove_dups. Qed.

Lemma sorted_set_NoDup l : NoDup (sorted_set l).
Proof. unfold sorted_set. rewrite psort_perm. apply NoDup_remove_dups. Qed.
Lemma sorted_set_ext l m : (forall x, x ∈ l <-> x ∈ m) -> sorted_set l = sorted_set m.
Proof.
  intros H. unfold sorted_set. apply psort_strings_eq. apply NoDup_Permutation; try apply NoDup_remove_dups.
  intros x. rewrite !elem_of_remove_dups. apply H.
Qed.
Lemma sorted_set_idem l : sorted_set (sorted_set l) = sorted_set l.
Proof. apply sorted_set_ext. intros x. apply elem_of_sorted_set. Qed.

(** Two sets of as many cards are the same list, or a full change. *)
Lemma full_set_changed_spec prev cur :
  let anchor := split_uuids prev in let current := split_uuids cur in
  full_set_changed anchor current = true <-> anchor <> [] /\ length current = length anchor /\ anchor <> current.
Proof.
  cbv zeta. unfold full_set_changed. set (anchor := split_uuids prev). set (current := split_uuids cur).
  assert (Hs : same_set current anchor = true <-> anchor = current).
  { rewrite same_set_spec. split; [|by intros ->]. intros H.
    rewrite <- (sorted_set_idem _ : sorted_set anchor = anchor), <- (sorted_set_idem _ : sorted_set current = current).
    apply sorted_set_ext. intros x. symmetry. apply H. }
  rewrite !andb_true_iff, negb_true_iff, Nat.eqb_eq. destruct (same_set current anchor) eqn:E.
  - split; [by intros [_ ?]|]. intros (_ & _ & Hne). by destruct Hne; apply Hs.
  - split.
    + intros [[Ha Hl] _]. split_and!; [by destruct anchor|done|]. intros Heq%Hs. congruence.
    + intros (Ha & Hl & _). by destruct anchor.
Qed.

(** The anchored GPU set. The check passes exactly when one of the two sets is
    empty or both have as many distinct cards; among those it re-anchors exactly a
    non-empty set whose cards are not the anchored ones. A failure resets the
    verification and names the change GPU_MISSING exactly when every card listed is an
    anchored one; it is fatal unless a rental is live, and then the run is marked. *)
Theorem fingerprint_check_spec hard live prev cur :
  let anchor := split_uuids prev in let current := split_uuids cur in
  let r := fingerprint_check hard live prev cur in
  (cr_passed r = true <-> anchor = [] \/ current = [] \/ length anchor = length current) /\
  (dget "gpu_reanchor" (up_attrs (cr_updates r)) = Some (JBool true) <->
     anchor <> [] /\ length anchor = length current /\ anchor <> current) /\
  (cr_passed r = false ->
     ev_check_id (cr_event r) = Some FINGERPRINT_CHECK_ID /\
     dget "clear_verified_job_info" (up_attrs (cr_updates r)) = Some (JBool true) /\
     (dget "clear_verified_job_evidence" (up_attrs (cr_updates r)) = Some (JObj [("anchor_hard_would_be", JStr DECISION_GPU_MISSING)])
        <-> forall u, u ∈ current -> u ∈ anchor) /\
     (if live then cr_fatal r = Some false /\ dget "gpu_fingerprint_passed" (up_attrs (cr_updates r)) = Some (JBool false)
      else cr_fatal r = None)).
Proof.
  cbv zeta. unfold fingerprint_check. pose proof (full_set_changed_spec prev cur) as Hfull. cbv zeta in Hfull.
  set (anchor := split_uuids prev) in *. set (current := split_uuids cur) in *.
  destruct (full_set_changed anchor current) eqn:Ef.
  { destruct (proj1 Hfull eq_refl) as (Ha & Hl & Hne). split_and!; [|cbn; by rewrite Hl|done]. cbn. split; [by right; right|done]. }
  assert (Hsame : anchor <> [] -> length anchor = length current -> anchor = current).
  { intros Ha Hl. destruct (decide (anchor = current)) as [|Hne]; [done|]. by discriminate (proj2 Hfull (conj Ha (conj (eq_sym Hl) Hne))). }
  destruct (_ && _) eqn:Ed.
  - apply andb_true_iff in Ed as [Hne Hneq]. apply negb_true_iff, bool_decide_eq_false in Hneq.
    assert (Ha : anchor <> []) by (by destruct anchor). assert (Hc : current <> []) by (by destruct anchor, current).
    assert (Hlen : length anchor <> length current) by auto.
    set (decision := match sorted_set (difference current anchor) with [] => DECISION_GPU_MISSING | _ => DECISION_ANCHOR_BROKEN end).
    assert (Hdec : decision = DECISION_GPU_MISSING <-> forall u, u ∈ current -> u ∈ anchor).
    { unfold decision. rewrite <- difference_nil, <- sorted_set_nil. by destruct (sorted_set (difference current anchor)). }
    unfold fingerprint_failed.
    destruct live; cbn [negb cr_passed cr_updates up_attrs cr_fatal cr_event];
      (split; [split; [done|naive_solver]|]); (split; [split; [done|naive_solver]|]); intros _.
    all: split; [by destruct (hard && _)|]; split; [done|]; split; [|done].
    all: rewrite <- Hdec; clearbody decision; split; [|by intros ->]; intros H;
      injection (H : Some (JObj [("anchor_hard_would_be", JStr decision)]) = _) as H'; exact H'.
  - apply andb_false_iff in Ed. split_and!; [|cbn; split; [done|]|done].
    + split; [|done]. intros _. destruct Ed as [Ed|Ed]; [by destruct anchor, current; auto|].
      apply negb_false_iff, bool_decide_eq_true in Ed as ->. auto.
    + intros (Ha & Hl & Hne). by destruct Hne; apply Hsame.
Qed.

Lemma take_missing_nil (l : list string) : take MAX_MISSING_UUIDS l = [] <-> l = [].
Proof. by destruct l. Qed.
Lemma when_nil {A} b (x : A) : when b x = [] <-> b = false.
Proof. by destruct b. Qed.

(** When a rented node is whole: the judgement finds no fault exactly when the
    scrape lists at least as many cards as are rented (one if the backend does not
    say) and as the driver counts, every anchored card is among them (unless the
    rows name no card at all), the scrape error carries no NVML code of a lost GPU,
    and no card's memory is broken. *)
Theorem judge_none rented anchor nvml_count listed listed_count err broken :
  judge_rented_gpus rented anchor nvml_count listed listed_count err broken = None <->
  rented_or_one rented <= listed_count /\ nvml_count <= listed_count /\
  (listed <> [] \/ listed_count = 0 -> forall u, u ∈ anchor -> u ∈ listed) /\
  loss_code (nvml_error_code err) = false /\ broken = [].
Proof.
  unfold judge_rented_gpus.
  set (missing := missing_cards anchor listed listed_count).
  assert (Hm : missing = [] <-> (listed <> [] \/ listed_count = 0 -> forall u, u ∈ anchor -> u ∈ listed)).
  { unfold missing, missing_cards. destruct listed as [|l0 listed]; cbn [orb].
    - destruct (listed_count =? 0) eqn:E; [|split; [|done]; intros _ [?|?]; [done|lia]].
      rewrite take_missing_nil. rewrite sorted_set_nil, difference_nil. split; [tauto|]. intros H. apply H. right. lia.
    - rewrite take_missing_nil. rewrite sorted_set_nil, difference_nil. split; [tauto|]. intros H. apply H. by left. }
  set (cf := count_faults (rented_or_one rented) listed_count nvml_count missing).
  assert (Hcf : cf = [] <-> rented_or_one rented <= listed_count /\ nvml_count <= listed_count /\ missing = []).
  { unfold cf, count_faults. rewrite !app_nil, !when_nil, !Z.ltb_ge. destruct missing; naive_solver. }
  set (code := nvml_error_code err).
  set (faults := (cf ++ _) ++ _).
  assert (Hf : faults = [] <-> cf = [] /\ loss_code code = false /\ broken = []).
  { unfold faults. rewrite !app_nil, !when_nil. destruct cf as [|f cf']; [|naive_solver].
    rewrite andb_false_r, orb_false_r. destruct broken; naive_solver. }
  transitivity (faults = []); [destruct faults; naive_solver|]. rewrite Hf, Hcf, Hm. tauto.
Qed.

(** ** Incidents over several cycles *)
Section Incidents.
Context `{R : Rounding}.
Context (ttl : Q) (pod_id : string) (pod_gpu_count : option Z).

(** A pod's cycles one after the other: the marks at the end, and each cycle's post
    with the answer it got. *)
Fixpoint run_cycles (cycles : list (Outside * Sight)) (ms : Marks) : Marks * list (option Post * answer) :=
  match cycles with
  | [] => (ms, [])
  | (o, sg) :: rest =>
      let '(ms, _, post) := track_pod ttl o pod_id pod_gpu_count sg ms in
      let '(ms, posts) := run_cycles rest ms in (ms, (post, o_answer o) :: posts)
  end.

(** The backend may hold an open incident: it recorded a report, or never answered
    one, and has not acknowledged a recovery since. *)
Definition may_hold (h : bool) (pa : option Post * answer) : bool :=
  match pa with
  | (None, _) => h
  | (Some po, a) =>
      match po_state po, a with
      | STATE_FAULT, None => true
      | STATE_FAULT, Some d => h || negb (not_recorded d)
      | STATE_RECOVERED, Some d => if no_retry d then false else h
      | STATE_RECOVERED, None => h
      end
  end.

(** All the cycles lie within one lifetime of a mark. *)
Definition within (T : Q) (o : Outside) : Prop := (o_now o < T)%Q /\ (T <= fadd (o_now o) ttl)%Q.

(** The process has a mark of the pod that outlives the cycles. *)
Definition has_mark (T : Q) (ms : Marks) (m : DropMark) : Prop :=
  exists e, dget (drop_key pod_id) (local_marks ms) = Some (m, e) /\ (T <= e)%Q.

Lemma local_mark_visible T o ms m : within T o -> has_mark T ms m -> local_mark (o_now o) (drop_key pod_id) ms = (ms, Some m).
Proof.
  intros [Ht _] (e & He & HT). unfold local_mark. rewrite He.
  assert (Qleb e (o_now o) = false) as -> by (apply Qleb_nle; eapply Qlt_le_trans; eauto). done.
Qed.
Lemma save_mark_has T o m redis_ok ms : within T o -> has_mark T (save_mark ttl o (drop_key pod_id) m redis_ok ms) m.
Proof. intros [_ HT]. eexists. split; [apply dget_dset_eq|done]. Qed.

Lemma faulty_mark_needs o m drop : needs_recovery m = true -> needs_recovery (faulty_mark o (Some m) drop) = true.
Proof. unfold faulty_mark, needs_recovery. by destruct (mk_recovering m). Qed.
Lemma after_answer_needs m a evidence h :
  (h = true -> needs_recovery m = true) ->
  match a with None => true | Some d => h || negb (not_recorded d) end = true ->
  needs_recovery (after_answer m a evidence) = true.
Proof.
  unfold needs_recovery, after_answer. destruct a as [d|]; cbn; [|by rewrite orb_true_r].
  intros Hm H. destruct h; cbn in H; [|rewrite H; by rewrite orb_true_r].
  specialize (Hm eq_refl). destruct (mk_recorded m), (mk_unanswered m); cbn in *; try done; by rewrite ?orb_true_r.
Qed.

(** A cycle that shows a fault. *)
Lemma fault_cycle o drop sg ms mark h T ms' oc post :
  within T o -> sg_drop sg = Some drop ->
  snd (local_mark (o_now o) (drop_key pod_id) ms) = mark ->
  (h = true -> exists m, mark = Some m /\ needs_recovery m = true) ->
  track_pod ttl o pod_id pod_gpu_count sg ms = (ms', oc, post) ->
  exists m', has_mark T ms' m' /\ (may_hold h (post, o_answer o) = true -> needs_recovery m' = true).
Proof.
  intros Hw Hd Hmark Hh. unfold track_pod. destruct (local_mark _ _ ms) as [ms1 local] eqn:El. cbn in Hmark. subst mark.
  rewrite Hd. set (m := faulty_mark o _ drop). cbv zeta.
  assert (Hm : h = true -> needs_recovery m = true).
  { intros H. destruct (Hh H) as (m0 & -> & Hn). by apply faulty_mark_needs. }
  destruct ((_ || _) && _) eqn:Ep; intros [= <- <- <-]; eexists; (split; [by apply save_mark_has|]).
  - cbn [may_hold po_state make_post]. intros H. by apply (after_answer_needs m (o_answer o) _ h).
  - cbn [may_hold]. exact Hm.
Qed.

(** A cycle that shows none, when the process has a mark. *)
Lemma clean_cycle o sg ms m T ms' oc post :
  within T o -> has_mark T ms m -> sg_drop sg = None ->
  track_pod ttl o pod_id pod_gpu_count sg ms = (ms', oc, post) ->
  (sg_memory_unread sg && mk_ecc m = false -> needs_recovery m = true ->
     exists po, post = Some po /\ po_state po = STATE_RECOVERED) /\
  (may_hold (needs_recovery m) (post, o_answer o) = true -> exists m', has_mark T ms' m' /\ needs_recovery m' = true).
Proof.
  intros Hw Hm Hd. unfold track_pod. rewrite (local_mark_visible T o ms m Hw Hm), Hd.
  destruct (sg_memory_unread sg && mk_ecc m).
  { intros [= <- <- <-]. split; [done|]. intros H. exists m. split; [by apply save_mark_has|exact H]. }
  unfold recover. destruct (needs_recovery m) eqn:En; cbn [negb]; [|intros [= <- <- <-]; done].
  intros H. injection H as <- <- <-. split; [intros _ _; by eexists|].
  cbn [may_hold po_state make_post]. destruct (o_answer o) as [d|]; [destruct (no_retry d); [done|]|]; intros _.
  all: destruct (bool_decide _); [by exists m|]; eexists; (split; [by apply save_mark_has|exact En]).
Qed.

Definition tracked (T : Q) (ms : Marks) (h : bool) : Prop :=
  h = true -> exists m, has_mark T ms m /\ needs_recovery m = true.

Lemma track_tracked o sg ms h T ms' oc post :
  within T o -> tracked T ms h -> track_pod ttl o pod_id pod_gpu_count sg ms = (ms', oc, post) ->
  tracked T ms' (may_hold h (post, o_answer o)).
Proof.
  intros Hw Ht H. destruct (sg_drop sg) as [drop|] eqn:Ed.
  - destruct (fault_cycle o drop sg ms _ h T ms' oc post Hw Ed eq_refl) as (m' & Hm' & Hn); [|done|].
    + intros Hh. destruct (Ht Hh) as (m & Hm & Hn). exists m. by rewrite (local_mark_visible T o ms m Hw Hm).
    + intros Hold. exists m'. auto.
  - destruct h.
    + destruct (Ht eq_refl) as (m & Hm & Hn). destruct (clean_cycle o sg ms m T ms' oc post Hw Hm Ed H) as [_ Hc].
      rewrite Hn in Hc. exact Hc.
    + assert (may_hold false (post, o_answer o) = false) as ->; [|done].
      unfold track_pod in H. destruct (local_mark _ _ ms) as [ms1 local]. rewrite Ed in H.
      destruct (match local with Some m => Some m | None => _ end) as [m|]; [|by injection H as <- <- <-].
      destruct (_ && _); [by injection H as <- <- <-|]. unfold recover in H.
      destruct (negb _); injection H as <- <- <-; [done|]. cbn. destruct (o_answer o) as [d|]; [by destruct (no_retry d)|done].
Qed.

Lemma run_tracked T cycles ms h ms' posts :
  Forall (fun c => within T c.1) cycles -> tracked T ms h -> run_cycles cycles ms = (ms', posts) ->
  tracked T ms' (fold_left may_hold posts h).
Proof.
  intros Hw. revert ms h posts. induction Hw as [|[o sg] cycles Ho Hw IH]; intros ms h posts Ht H; cbn [run_cycles] in H.
  { by injection H as <- <-. }
  destruct (track_pod _ o _ _ sg ms) as [[ms1 oc] post] eqn:E1. destruct (run_cycles cycles ms1) as [ms2 ps] eqn:E2.
  injection H as <- <-. cbn [fold_left]. eapply IH; [|exact E2]. by eapply track_tracked.
Qed.


(** The mark of an incident whose report the backend acknowledged. *)
Definition acknowledged (T : Q) (ms : Marks) (evidence : Evidence) : Prop :=
  exists m, has_mark T ms m /\ mk_reported m = true /\ mk_evidence m = Some evidence /\ mk_recovering m = false.

Lemma acknowledged_cycle T o sg drop ms evidence :
  within T o -> sg_drop sg = Some drop -> evidence_of drop (sg_rented_total sg) pod_gpu_count = evidence ->
  acknowledged T ms evidence ->
  exists ms' oc, track_pod ttl o pod_id pod_gpu_count sg ms = (ms', oc, None) /\ acknowledged T ms' evidence.
Proof.
  intros Hw Hd He (m & Hm & Hrep & Hev & Hrec). unfold track_pod. rewrite (local_mark_visible T o ms m Hw Hm), Hd, He.
  unfold faulty_mark. rewrite Hrec. cbn [mk_reported mk_evidence]. rewrite Hrep, Hev, bool_decide_eq_true_2 by done. cbn [negb orb andb].
  do 2 eexists. split; [done|]. eexists. split; [by apply save_mark_has|]. split_and!; cbn; congruence.
Qed.

(** One report per incident: once the backend has acknowledged the report of a
    fault, the cycles that show the same evidence post nothing more about the pod. *)
Theorem reported_once T o sg drop ms ms1 oc po d cycles ms2 posts :
  within T o -> Forall (fun c => within T c.1) cycles ->
  sg_drop sg = Some drop -> track_pod ttl o pod_id pod_gpu_count sg ms = (ms1, oc, Some po) ->
  o_answer o = Some d -> no_retry d = true ->
  Forall (fun c => exists drop', sg_drop c.2 = Some drop' /\
    evidence_of drop' (sg_rented_total c.2) pod_gpu_count = evidence_of drop (sg_rented_total sg) pod_gpu_count) cycles ->
  run_cycles cycles ms1 = (ms2, posts) -> Forall (fun pa => pa.1 = None) posts.
Proof.
  intros Hw Hws Hd Ht Ha Hnr Hsame. set (ev := evidence_of drop (sg_rented_total sg) pod_gpu_count) in *.
  assert (Hack : acknowledged T ms1 ev).
  { unfold track_pod in Ht. destruct (local_mark _ _ ms) as [ms0 local]. rewrite Hd in Ht. cbv zeta in Ht.
    destruct ((_ || _) && _) eqn:Ep; [|done]. injection Ht as <- _ _. eexists. split; [by apply save_mark_has|].
    rewrite Ha. cbn [after_answer mk_reported mk_evidence mk_recovering]. rewrite Hnr. split_and!; [done|done|].
    unfold faulty_mark. destruct (match local with Some m => Some m | None => _ end) as [m|]; [|done]. by destruct (mk_recovering m) eqn:E; cbn. }
  clear Ht Hd. revert ms1 posts Hack. induction Hws as [|[o' sg'] cycles Ho Hws IH]; intros ms1 posts Hack H; cbn [run_cycles] in H.
  { injection H as <- <-. constructor. }
  apply Forall_cons in Hsame as [(drop' & Hd' & He') Hsame].
  destruct (acknowledged_cycle T o' sg' drop' ms1 ev Ho Hd' He' Hack) as (ms' & oc' & E & Hack'). rewrite E in H.
  destruct (run_cycles cycles ms') as [ms3 ps] eqn:Er. injection H as <- <-. constructor; [done|]. by eapply IH.
Qed.
End Incidents.
