(* ===== verification/GpuLossHold.v ===== *)
(** * Nodes held after a GPU dropped out

    [services/task/checks/gpu_loss_hold.py] (the hold on a node whose GPU dropped
    out) and [services/task/checks/post_rental_gpu_recheck.py] (the load test on every
    card that ends it).  Redis is outside: whether it answers, and when its keys
    expire, is part of each cycle's input; so are the probes on the node and docker's
    record of its containers.  Message texts are left out; the readings of a load test's
    event are reduced to the executor, and other checks do not write the recheck marker. *)

From Stdlib Require Import String.
From stdpp Require Import strings.
From S2P Require Import Prelude Float64 PyValue JobResult IncentiveConfig Readings Burn IncentiveBase Settlement Availability Pipeline GpuDrop.

Local Open Scope string_scope.
Local Open Scope list_scope.
Local Open Scope Z_scope.

(** ** What Redis keeps of a node *)

(** [DropMark] of gpu_loss_hold. *)
Record HoldMark := mkHold { hm_is_held : bool; hm_since : string; hm_last_seen : string; hm_replaced : bool }.
Record RecheckMarker := mkMarker { rm_source : string; rm_verdict : string; rm_filler_skips : Z }.
Definition SOURCE_GPU_LOSS_HOLD : string := "gpu_loss_hold".
Definition MARKER_TTL_SECONDS : Q := inject_Z (3 * 24 * 3600).
Definition GPU_LOSS_MARK_TTL_SECONDS : Q := MARKER_TTL_SECONDS.
Definition GPU_LOSS_CONFIRM_SECONDS : Q := inject_Z (45 * 60).
Definition FILLER_SKIP_LIMIT : Z := 3.

(** The node's two keys, each with its expiry. *)
Record HoldStore := mkHoldStore { hs_mark : option (HoldMark * Q); hs_marker : option (RecheckMarker * Q) }.
(** Redis and the clock during a cycle. *)
Record Redis := mkRedis { rd_now : Q; rd_now_iso : string; rd_read_ok : bool; rd_write_ok : bool; rd_delete_ok : bool }.

Definition alive {A} (now : Q) (o : option (A * Q)) : option A :=
  match o with Some (a, expires) => if Qleb expires now then None else Some a | None => None end.

(** ** The scrape's fault *)

(** [judge_scrape] *)
Definition judge_scrape (pods : list RentedPod) (s : Scrape) : option GpuDrop :=
  let anchor := split_uuids (sc_anchor s) in
  let anchor := if full_set_changed anchor (sorted_set (sc_listed_uuids s)) then [] else anchor in
  judge_rented_gpus (rented_gpu_count (map pd_gpu_count pods)) anchor (nvml_count_of s) (sc_listed_uuids s) (sc_details s)
    (sc_scrape_error s) [].

(** [container_gpu_uuids] with no host GPUs: the device ids of the gpu requests. *)
Section Docker.
Context (str_of_other : json -> string).
Definition request_device_ids (request : json) : res (list string) :=
  caps ← jget "Capabilities" request;
  groups ← jiter (py_or caps (JList []));
  capabilities ← foldM (fun acc g => l ← jiter g; Ok (acc ++ l)) [] groups;
  if negb (existsb (fun c => json_eqb (JStr "gpu") c) capabilities) then Ok []
  else
    ids ← jget "DeviceIDs" request;
    if truthy ids then l ← jiter ids; Ok (map (json_str str_of_other) l) else Ok [].
Definition container_device_ids (device_requests : json) : res (list string) :=
  requests ← jiter (py_or device_requests (JList []));
  uuids ← foldM (fun acc q => l ← request_device_ids q; Ok (acc ++ l)) [] requests;
  Ok (remove_dups uuids).

(** [_pods_without_their_gpus]: [docker] is docker's record of the containers it
    could read, by name, or None when the node could not be asked. *)
Definition pods_without_their_gpus (pods : list RentedPod) (listed : list string) (docker : option (list (string * json)))
    : res (option (list (string * json))) :=
  let names := List.filter (fun n => negb (String.eqb n "")) (map pd_container_name pods) in
  match names with
  | [] => Ok None
  | _ =>
      match docker with
      | None => Ok (Some [("pods_unread", strings_json names)])
      | Some read =>
          held ← foldM (fun acc nr => l ← container_device_ids nr.2; Ok (acc ++ l)) [] read;
          let unread := List.filter (fun n => negb (in_list n (map fst read))) names in
          let gone := sorted_set (difference held listed) in
          match gone, unread with
          | [], [] => Ok None
          | _, _ => Ok (Some [("missing_uuids", strings_json gone); ("pods_unread", strings_json unread)])
          end
      end
  end.
End Docker.

(** ** The hold *)
Definition HOLD_CHECK_ID : string := "gpu.validate.loss_hold".
Definition GPU_LOST_REASON : string := code_value GPU_LOST.

Section Hold.
Context `{R : Rounding}.
Context (str_of_other : json -> string) (dry_run : bool).

(** [_save], [_forget] and [record_marker]. *)
Definition save_hold (o : Redis) (m : HoldMark) (ttl : Q) (st : HoldStore) : HoldStore :=
  if dry_run || negb (rd_write_ok o) then st else mkHoldStore (Some (m, fadd (rd_now o) ttl)) (hs_marker st).
Definition forget_hold (o : Redis) (st : HoldStore) : HoldStore :=
  if dry_run || negb (rd_delete_ok o) then st else mkHoldStore None (hs_marker st).
Definition record_marker (o : Redis) (m : RecheckMarker) (st : HoldStore) : HoldStore :=
  if dry_run || negb (rd_write_ok o) then st else mkHoldStore (hs_mark st) (Some (m, fadd (rd_now o) MARKER_TTL_SECONDS)).

(** [_lost] *)
Definition lost (executor_uuid : string) (m : HoldMark) (what : list (string * json)) (fatal : bool) : CheckResult :=
  mkCheckResult false
    (message GPU_LOST_REASON "error" AVAILABILITY_CATEGORY HOLD_CHECK_ID
      (fold_left (fun d kv => dset kv.1 kv.2 d)
        (what ++ [("since", JStr (hm_since m)); ("last_seen", JStr (hm_last_seen m))])
        [("reach_source", JStr (reach_source_value VALIDATOR)); ("reach_target", JStr (reach_target_value GPU));
         ("executor_uuid", JStr executor_uuid)]))
    nothing false (Some fatal) [].
Definition hold_passed (reason severity : string) (what : list (string * json)) : CheckResult :=
  passed_with (message reason severity "env" HOLD_CHECK_ID what) nothing.

(** What the check reads of a cycle. *)
Record HoldInput := mkHoldInput {
  hi_pods : list RentedPod;                       (* rented_pods(ctx) *)
  hi_scrape : Scrape;
  hi_under_reset : bool;                          (* missing_gpus_under_reset *)
  hi_docker : option (list (string * json))
}.

Definition drop_readings (d : GpuDrop) : list (string * json) :=
  [("faults", strings_json (map fault_value (dr_faults d))); ("missing_uuids", strings_json (dr_missing_uuids d));
   ("nvml_error_code", opt_int (dr_nvml_error_code d)); ("expected_gpu_count", JInt (dr_expected d));
   ("visible_gpu_count", JInt (dr_visible d))].

(** The branch of a scrape that shows a fault. *)
Definition hold_on_drop (executor_uuid : string) (i : HoldInput) (o : Redis) (mark : option HoldMark) (d : GpuDrop)
    (st : HoldStore) : HoldStore * CheckResult :=
  let m := mkHold (match mark with Some _ => true | None => negb (dr_confirm_first d) end)
             (match mark with Some m => hm_since m | None => rd_now_iso o end) (rd_now_iso o) false in
  let st := save_hold o m (if hm_is_held m then GPU_LOSS_MARK_TTL_SECONDS else GPU_LOSS_CONFIRM_SECONDS) st in
  if negb (hm_is_held m) then (st, hold_passed "GPU_LOST_PENDING" "warning" (drop_readings d))
  else
    let nvml_only := bool_decide (dr_faults d = [FAULT_NVML_ERROR]) in
    (st, lost executor_uuid m (drop_readings d) (nvml_only && match hi_pods i with [] => true | _ => false end)).

(** The branches of a clean scrape. *)
Definition hold_on_clean (executor_uuid : string) (i : HoldInput) (o : Redis) (mark : option HoldMark) (replaced_all : bool)
    (st : HoldStore) : HoldStore * CheckResult :=
  match mark with
  | None => (st, hold_passed "GPU_LOST_NONE" "info" [])
  | Some m =>
      if negb (hm_is_held m) || hm_replaced m || replaced_all then (forget_hold o st, hold_passed "GPU_LOST_NONE" "info" [])
      else match hi_pods i with
      | _ :: _ => (save_hold o m GPU_LOSS_MARK_TTL_SECONDS st, lost executor_uuid m [("faults", JList [])] false)
      | [] => (forget_hold o (record_marker o (mkMarker SOURCE_GPU_LOSS_HOLD "gpu_lost" 0) st),
               hold_passed "GPU_LOST_CLEAN_AGAIN" "info" [("since", JStr (hm_since m))])
      end
  end.

(** Every anchored card is gone and as many others are listed. *)
Definition set_changed (i : HoldInput) : bool :=
  full_set_changed (split_uuids (sc_anchor (hi_scrape i))) (sorted_set (sc_listed_uuids (hi_scrape i))).
Definition replaced_all (i : HoldInput) : bool :=
  set_changed i && forallb (fun u => negb (in_list u (sc_listed_uuids (hi_scrape i)))) (split_uuids (sc_anchor (hi_scrape i))).

(** [GpuLossHoldCheck.run] *)
Definition loss_hold_check (executor_uuid : string) (i : HoldInput) (o : Redis) (st : HoldStore) : res (HoldStore * CheckResult) :=
  let anchored_missing := difference (split_uuids (sc_anchor (hi_scrape i))) (sc_listed_uuids (hi_scrape i)) in
  if hi_under_reset i then
    match anchored_missing with
    | [] => Ok (st, hold_passed "GPU_LOST_GPU_RESET_IN_PROGRESS" "info" [])
    | _ => Ok (st, mkCheckResult false (message "SCRAPE_GPU_RESET_IN_PROGRESS" "info" "env" HOLD_CHECK_ID
                     [("missing_uuids", strings_json (sorted_set anchored_missing))]) nothing false None [])
    end
  else
    let mark := if rd_read_ok o then alive (rd_now o) (hs_mark st) else None in
    match judge_scrape (hi_pods i) (hi_scrape i) with
    | Some d => Ok (hold_on_drop executor_uuid i o mark d st)
    | None =>
        stranded ← if set_changed i && match hi_pods i with [] => false | _ => true end
                   then pods_without_their_gpus str_of_other (hi_pods i) (sorted_set (sc_listed_uuids (hi_scrape i))) (hi_docker i)
                   else Ok None;
        match stranded with
        | Some what =>
            let st := match mark with Some _ => if replaced_all i then forget_hold o st else st | None => st end in
            let stamp := mkHold true (rd_now_iso o) (rd_now_iso o) false in
            Ok (st, lost executor_uuid stamp ([("faults", JList [JStr "pod_gpus_gone"])] ++ what) true)
        | None => Ok (hold_on_clean executor_uuid i o mark (replaced_all i) st)
        end
    end.

(** ** The load test *)
Definition RECHECK_CHECK_ID : string := "gpu.validate.post_rental_recheck".
Record ProbeInput := mkProbe {
  pi_filler_only : bool;              (* get_filler_only_container(ctx) *)
  pi_removed_fillers : list string;   (* what _remove_fillers removed *)
  pi_failures : list string;          (* the cards' failures *)
  pi_fault_probe_ok : bool;           (* the fault probe's reason is PROBE_OK *)
  pi_all_cards_inconclusive : bool
}.
Definition waiting_after_gpu_loss (executor_uuid load_test : string) : ValidationEvent :=
  message GPU_LOST_REASON "error" AVAILABILITY_CATEGORY RECHECK_CHECK_ID
    [("reach_source", JStr (reach_source_value VALIDATOR)); ("reach_target", JStr (reach_target_value GPU));
     ("executor_uuid", JStr executor_uuid); ("load_test", JStr load_test)].
(** [_not_run] *)
Definition not_run (executor_uuid : string) (m : RecheckMarker) (reason category : string) : CheckResult :=
  if negb (String.eqb (rm_source m) SOURCE_GPU_LOSS_HOLD)
  then passed_with (message reason "info" category RECHECK_CHECK_ID [("executor_uuid", JStr executor_uuid)]) nothing
  else mkCheckResult false (waiting_after_gpu_loss executor_uuid reason) nothing false None [].

(** [_refresh_marker] and [_clear_marker]: a key that is gone is not brought back. *)
Definition refresh_marker (o : Redis) (st : HoldStore) : HoldStore :=
  if dry_run || negb (rd_write_ok o) then st
  else match alive (rd_now o) (hs_marker st) with
  | Some m => mkHoldStore (hs_mark st) (Some (m, fadd (rd_now o) MARKER_TTL_SECONDS))
  | None => st
  end.
Definition clear_marker (o : Redis) (st : HoldStore) : HoldStore :=
  if dry_run || negb (rd_delete_ok o) then st else mkHoldStore (hs_mark st) None.

(** [PostRentalGpuRecheckCheck.run] *)
Definition recheck_check (executor_uuid : string) (p : ProbeInput) (o : Redis) (st : HoldStore) : HoldStore * CheckResult :=
  let marker := if rd_read_ok o then alive (rd_now o) (hs_marker st) else None in
  match marker with
  | None => (st, passed_with (message "POST_RENTAL_GPU_RECHECK_NOT_NEEDED" "info" "env" RECHECK_CHECK_ID []) nothing)
  | Some m =>
      if pi_filler_only p && (rm_filler_skips m <? FILLER_SKIP_LIMIT) then
        (record_marker o (mkMarker (rm_source m) (rm_verdict m) (rm_filler_skips m + 1)) st,
         not_run executor_uuid m "POST_RENTAL_GPU_RECHECK_SKIPPED_ACTIVE_FILLER" "policy")
      else if pi_filler_only p && match pi_removed_fillers p with [] => true | _ => false end then
        (refresh_marker o st, not_run executor_uuid m "POST_RENTAL_GPU_RECHECK_INCONCLUSIVE" "env")
      else match pi_failures p with
      | _ :: _ =>
          (refresh_marker o st,
           mkCheckResult false (message "POST_RENTAL_GPU_RECHECK_FAILED" "error" "env" RECHECK_CHECK_ID [("executor_uuid", JStr executor_uuid)])
             nothing false None
             (if String.eqb (rm_source m) SOURCE_GPU_LOSS_HOLD
              then [waiting_after_gpu_loss executor_uuid "POST_RENTAL_GPU_RECHECK_FAILED"] else []))
      | [] =>
          if negb (pi_fault_probe_ok p) || pi_all_cards_inconclusive p then
            (refresh_marker o st, not_run executor_uuid m "POST_RENTAL_GPU_RECHECK_INCONCLUSIVE" "env")
          else (clear_marker o st, passed_with (message "POST_RENTAL_GPU_RECHECK_PASSED" "info" "env" RECHECK_CHECK_ID
                  [("executor_uuid", JStr executor_uuid)]) nothing)
      end
  end.
End Hold.

(** ** A node over several cycles *)
Section Cycles.
Context `{R : Rounding}.
Context (str_of_other : json -> string) (executor_uuid : string).

(** One cycle of the node: the hold right after the scrape, and the load test if the
    node is not rented and the checks in between let the run reach it. A rented
    node's run ends before the load test. *)
Record NodeCycle := mkNodeCycle {
  nc_hold : HoldInput; nc_redis : Redis; nc_others_pass : bool; nc_probe : ProbeInput; nc_probe_redis : Redis
}.
Definition unrented (c : NodeCycle) : bool := match hi_pods (nc_hold c) with [] => true | _ => false end.
(** Both checks are fatal by default. *)
Definition ends_run (r : CheckResult) : bool :=
  (negb (cr_passed r) && match cr_fatal r with Some b => b | None => true end) || cr_halt r.
Definition hides_node (r : CheckResult) : bool := existsb is_availability_error (cr_extra_events r ++ [cr_event r]).

(** The store after the cycle, and whether the run passed and reported no
    availability error: the node is on the market. *)
Definition node_cycle (c : NodeCycle) (st : HoldStore) : res (HoldStore * bool) :=
  sr ← loss_hold_check str_of_other false executor_uuid (nc_hold c) (nc_redis c) st;
  let '(st, r) := sr in
  if ends_run r || negb (nc_others_pass c) then Ok (st, false)
  else if negb (unrented c) then Ok (st, negb (hides_node r))
  else
    let '(st, r') := recheck_check false executor_uuid (nc_probe c) (nc_probe_redis c) st in
    Ok (st, negb (ends_run r') && negb (hides_node r) && negb (hides_node r')).

(** The first cycle that puts the node on the market. *)
Fixpoint first_listing (cycles : list NodeCycle) (st : HoldStore) : res (option NodeCycle) :=
  match cycles with
  | [] => Ok None
  | c :: rest =>
      sl ← node_cycle c st;
      let '(st, listed) := sl in
      if (listed : bool) then Ok (Some c) else first_listing rest st
  end.

(** The load test ran on every card, with no filler on them, and passed. *)
Definition load_test_passed (p : ProbeInput) : Prop :=
  pi_failures p = [] /\ pi_fault_probe_ok p = true /\ pi_all_cards_inconclusive p = false /\
  (pi_filler_only p = true -> pi_removed_fillers p <> []).

Section Until.
Context (T : Q).
(** Redis answers, and keys set now outlive [T], which is after the cycle. *)
Definition healthy (o : Redis) : Prop :=
  rd_read_ok o = true /\ rd_write_ok o = true /\ rd_delete_ok o = true /\ (rd_now o < T)%Q /\
  (T <= fadd (rd_now o) MARKER_TTL_SECONDS)%Q.
Definition on_hold (st : HoldStore) : Prop :=
  exists m e, hs_mark st = Some (m, e) /\ (T <= e)%Q /\ hm_is_held m = true /\ hm_replaced m = false.
Definition owes_test (st : HoldStore) : Prop :=
  exists m e, hs_marker st = Some (m, e) /\ (T <= e)%Q /\ rm_source m = SOURCE_GPU_LOSS_HOLD.

Lemma alive_until {A} o (a : A) e : healthy o -> (T <= e)%Q -> alive (rd_now o) (Some (a, e)) = Some a.
Proof.
  intros (_ & _ & _ & Ht & _) He. unfold alive.
  assert (Qleb e (rd_now o) = false) as -> by (apply Qleb_nle; eapply Qlt_le_trans; eauto). done.
Qed.

Lemma save_hold_on_hold o m st : healthy o -> hm_is_held m = true -> hm_replaced m = false ->
  on_hold (save_hold false o m GPU_LOSS_MARK_TTL_SECONDS st).
Proof. intros (_ & Hw & _ & _ & HT) Hh Hr. unfold save_hold. rewrite Hw. by exists m, (fadd (rd_now o) GPU_LOSS_MARK_TTL_SECONDS). Qed.

Lemma lost_hides m what fatal : hides_node (lost executor_uuid m what fatal) = true.
Proof. done. Qed.

(** The hold's step from a node on hold. *)
Lemma hold_step i o st st' r :
  healthy o -> hi_under_reset i = false -> replaced_all i = false -> on_hold st ->
  loss_hold_check str_of_other false executor_uuid i o st = Ok (st', r) ->
  (on_hold st' /\ hides_node r = true) \/ (owes_test st' /\ hi_pods i = [] /\ hides_node r = false).
Proof.
  intros Ho Hu Hra (m & e & Hm & He & Hh & Hr). unfold loss_hold_check. rewrite Hu.
  pose proof Ho as (Hread & Hw & Hdel & _ & HT). rewrite Hread, Hm, (alive_until o m e Ho He).
  destruct (judge_scrape _ _) as [d|].
  { intros H. unfold hold_on_drop in H. cbn [hm_is_held negb] in H. injection H as <- <-. left. split; [|done].
    by apply save_hold_on_hold. }
  intros H. apply bind_ok in H as (stranded & _ & H). destruct stranded as [what|].
  { rewrite Hra in H. injection H as <- <-. left. split; [by exists m, e|done]. }
  unfold hold_on_clean in H. rewrite Hh, Hr, Hra in H. cbn [negb orb] in H.
  destruct (hi_pods i) as [|p pods] eqn:Ep; injection H as <- <-.
  - right. split; [|done]. unfold forget_hold, record_marker. rewrite Hdel, Hw. cbn.
    eexists _, _. split; [done|]. split; [exact HT|done].
  - left. split; [by apply save_hold_on_hold|done].
Qed.

(** The hold's step from an unrented node that owes the load test: it still owes it,
    and it is on hold again if the scrape shows a fault that is not a weak one. *)
Lemma hold_step_owing i o st st' r :
  healthy o -> hi_under_reset i = false -> replaced_all i = false -> hi_pods i = [] -> owes_test st ->
  loss_hold_check str_of_other false executor_uuid i o st = Ok (st', r) ->
  owes_test st' /\ (on_hold st' \/ hides_node r = false).
Proof.
  intros Ho Hu Hra Hp Howe. unfold loss_hold_check. rewrite Hu, Hp.
  pose proof Ho as (Hread & Hw & Hdel & _ & HT). rewrite Hread. set (mark := alive _ _).
  destruct (judge_scrape _ _) as [d|].
  { intros H. unfold hold_on_drop in H.
    set (m := mkHold _ _ _ _) in H. destruct (hm_is_held m) eqn:Eh; injection H as <- <-.
    - split; [|left; by apply save_hold_on_hold]. unfold save_hold. rewrite Hw. exact Howe.
    - split; [|by right]. unfold save_hold. rewrite Hw. exact Howe. }
  rewrite andb_false_r. intros H. apply bind_ok in H as (stranded & [= <-] & H).
  unfold hold_on_clean in H. rewrite Hp in H. destruct mark as [m|]; [|injection H as <- <-; split; [done|by right]].
  destruct (_ || _ || _); injection H as <- <-.
  - split; [|by right]. unfold forget_hold. rewrite Hdel. exact Howe.
  - split; [|by right]. unfold forget_hold, record_marker. rewrite Hdel, Hw. cbn.
    eexists _, _. split; [done|]. split; [exact HT|done].
Qed.

(** The load test of a node that owes it after a dropout. *)
Lemma recheck_step p o st st' r :
  healthy o -> owes_test st -> recheck_check false executor_uuid p o st = (st', r) ->
  hs_mark st' = hs_mark st /\ ((ends_run r = false /\ hides_node r = false /\ load_test_passed p) \/ (ends_run r = true /\ owes_test st')).
Proof.
  intros Ho (m & e & Hm & He & Hs). unfold recheck_check.
  pose proof Ho as (Hread & Hw & Hdel & _ & HT). rewrite Hread, Hm, (alive_until o m e Ho He).
  assert (Hnot : forall reason category, ends_run (not_run executor_uuid m reason category) = true).
  { intros reason category. unfold not_run. rewrite Hs. done. }
  assert (Hrefresh : hs_mark (refresh_marker false o st) = hs_mark st /\ owes_test (refresh_marker false o st)).
  { unfold refresh_marker. rewrite Hw, Hm, (alive_until o m e Ho He). cbn. split; [done|].
    exists m, (fadd (rd_now o) MARKER_TTL_SECONDS). done. }
  destruct (pi_filler_only p && (rm_filler_skips m <? FILLER_SKIP_LIMIT)) eqn:Efs.
  { intros [= <- <-]. unfold record_marker. rewrite Hw. cbn. split; [done|]. right. split; [apply Hnot|].
    eexists _, _. split; [done|]. split; [exact HT|exact Hs]. }
  destruct (pi_filler_only p && match pi_removed_fillers p with [] => true | _ => false end) eqn:Erm.
  { intros [= <- <-]. split; [apply Hrefresh|]. right. split; [apply Hnot|apply Hrefresh]. }
  destruct (pi_failures p) as [|f fs] eqn:Ef.
  2: { intros [= <- <-]. split; [apply Hrefresh|]. right. split; [done|apply Hrefresh]. }
  destruct (negb (pi_fault_probe_ok p) || pi_all_cards_inconclusive p) eqn:Ei; intros [= <- <-].
  { split; [apply Hrefresh|]. right. split; [apply Hnot|apply Hrefresh]. }
  split; [unfold clear_marker; by rewrite Hdel|]. left. split; [done|]. split; [done|].
  apply orb_false_iff in Ei as [Ei1 Ei2]. apply negb_false_iff in Ei1. split_and!; [done|done|done|].
  intros Hfill. rewrite Hfill in Erm. by destruct (pi_removed_fillers p).
Qed.

(** A cycle in which Redis answers, the renter resets nothing and the cards are not
    all replaced. *)
Definition plain_cycle (c : NodeCycle) : Prop :=
  healthy (nc_redis c) /\ healthy (nc_probe_redis c) /\ hi_under_reset (nc_hold c) = false /\ replaced_all (nc_hold c) = false.

Lemma recheck_keeps_mark p o st st' r : recheck_check false executor_uuid p o st = (st', r) -> hs_mark st' = hs_mark st.
Proof.
  intros H. unfold recheck_check in H. destruct (if rd_read_ok _ then _ else _) as [m|]; [|by injection H as <- _].
  repeat match type of H with
  | (if ?b then _ else _) = _ => destruct b
  | match ?l with [] => _ | _ => _ end = _ => destruct l
  end; injection H as <- _; unfold record_marker, refresh_marker, clear_marker;
    repeat match goal with
    | |- context [if ?b then _ else _] => destruct b
    | |- context [match alive ?x ?y with _ => _ end] => destruct (alive x y)
    end; done.
Qed.

Lemma node_cycle_step c st st' listed :
  plain_cycle c -> (on_hold st \/ (owes_test st /\ unrented c = true)) -> node_cycle c st = Ok (st', listed) ->
  if listed then unrented c = true /\ load_test_passed (nc_probe c)
  else on_hold st' \/ (owes_test st' /\ unrented c = true).
Proof.
  intros (Ho & Hp & Hu & Hra) Hst H. apply bind_ok in H as ([st1 r] & Hl & H).
  assert (Hun : unrented c = true <-> hi_pods (nc_hold c) = []) by (unfold unrented; by destruct (hi_pods _)).
  assert (Hstep : (on_hold st1 /\ hides_node r = true) \/
                  (owes_test st1 /\ unrented c = true /\ (on_hold st1 \/ hides_node r = false))).
  { destruct Hst as [Hh|[Hw Hc]].
    - destruct (hold_step _ _ _ _ _ Ho Hu Hra Hh Hl) as [?|(? & ? & ?)]; [tauto|]. rewrite Hun. tauto.
    - destruct (hold_step_owing _ _ _ _ _ Ho Hu Hra (proj1 Hun Hc) Hw Hl). tauto. }
  destruct (ends_run r || negb (nc_others_pass c)); [injection H as <- <-; tauto|].
  destruct (unrented c) eqn:Ec; cbn [negb] in H.
  2: { injection H as <- <-. destruct Hstep as [[Hh ->]|(_ & [=] & _)]. cbn. tauto. }
  destruct (recheck_check _ _ _ _ st1) as [st2 r'] eqn:Er. injection H as <- <-.
  assert (Hmark : on_hold st1 -> on_hold st2).
  { intros (m & e & Hm & ?). exists m, e. by rewrite (recheck_keeps_mark _ _ _ _ _ Er). }
  destruct Hstep as [[Hh Hhide]|(Hw & _ & Hor)].
  { rewrite Hhide, andb_false_r. cbn. auto. }
  destruct (recheck_step _ _ _ _ _ Hp Hw Er) as [_ [(He & Hhr & Hlt)|[He Hw']]]; rewrite He; cbn [negb andb].
  - rewrite Hhr. destruct (hides_node r) eqn:Ehr; cbn; [|done]. destruct Hor as [Hh|[=]]. auto.
  - by right.
Qed.

(** Between two cycles of the list no rental starts: the backend refuses new rentals
    to a node that is off the market. *)
Definition no_new_rental (cycles : list NodeCycle) : Prop :=
  forall i c d, cycles !! i = Some c -> cycles !! S i = Some d -> unrented c = true -> unrented d = true.
End Until.

Lemma first_listing_spec T cycles st c :
  Forall (plain_cycle T) cycles -> no_new_rental cycles ->
  (on_hold T st \/ (owes_test T st /\ forall d, cycles !! 0%nat = Some d -> unrented d = true)) ->
  first_listing cycles st = Ok (Some c) -> unrented c = true /\ load_test_passed (nc_probe c).
Proof.
  intros Hc. revert st. induction Hc as [|d cycles Hd Hc IH]; intros st Hn Hst H; cbn [first_listing] in H; [done|].
  apply bind_ok in H as ([st' listed] & Hcy & H).
  pose proof (node_cycle_step T d st st' listed Hd) as Hstep.
  destruct listed.
  - injection H as <-. apply Hstep; [|done]. destruct Hst as [|[Hw Hd0]]; [by left|]. right. split; [done|by apply Hd0].
  - apply (IH st'); [|destruct Hstep as [Hh|[Hw Hu]]; [|done|by left|right; split; [done|]]|done].
    + intros i x y Hx Hy. by apply (Hn (S i)).
    + destruct Hst as [|[Hw Hd0]]; [by left|]. right. split; [done|by apply Hd0].
    + intros x Hx. by apply (Hn 0%nat d x).
Qed.


(** And the load test does bring it back: in the first unrented cycle whose scrape
    is clean, with no filler on the cards and the other checks passing, a held node
    whose cards pass the load test is on the market, with neither key left. *)
Theorem clean_load_test_lists T c st :
  plain_cycle T c -> on_hold T st -> unrented c = true -> judge_scrape (hi_pods (nc_hold c)) (hi_scrape (nc_hold c)) = None ->
  nc_others_pass c = true -> pi_filler_only (nc_probe c) = false -> load_test_passed (nc_probe c) ->
  node_cycle c st = Ok (mkHoldStore None None, true).
Proof.
  intros (Ho & Hp & Hu & Hra) (m & e & Hm & He & Hh & Hr) Hun Hj Hoth Hfill (Hf & Hok & Hinc & _).
  pose proof Ho as (Hread & Hw & Hdel & _ & HT). pose proof Hp as (Hread' & _ & Hdel' & _ & _).
  assert (Hpods : hi_pods (nc_hold c) = []) by (unfold unrented in Hun; by destruct (hi_pods (nc_hold c))).
  unfold node_cycle, loss_hold_check. rewrite Hu, Hread, Hm, (alive_until T _ m e Ho He), Hj, Hpods, andb_false_r.
  cbn [mbind res_bind]. unfold hold_on_clean. rewrite Hh, Hr, Hra, Hpods. cbn [negb orb].
  unfold forget_hold, record_marker. rewrite Hdel, Hw, Hoth, Hun. cbn [orb negb hs_marker hs_mark ends_run cr_passed cr_halt hold_passed passed_with andb].
  unfold recheck_check. rewrite Hread'. cbn [hs_marker]. rewrite (alive_until T (nc_probe_redis c) _ _ Hp HT).
  rewrite Hfill, Hf, Hok, Hinc. cbn [andb negb orb]. unfold clear_marker. by rewrite Hdel'.
Qed.
End Cycles.
