(* ===== verification/DefaultIncentive.v ===== *)
(** * The default incentive algorithm

    [incentive/default.py]: the mining score of a node, its share of the mining
    pool, and the final scores of a cycle (burn, excluded hotkeys, referral
    pool).  The rental-price algorithm is a subclass: the methods it overrides
    ([calculate_executor_score], [_spot_rental_factor]) are arguments here. *)

From Stdlib Require Import Ascii String.
From S2P Require Import Prelude Float64 PyValue JobResult IncentiveConfig Readings Burn IncentiveBase.

Local Open Scope string_scope.
Local Open Scope list_scope.
Local Open Scope Z_scope.

(** ** Driver versions *)

(** [_parse_driver_version]: [None] when missing or not numeric. *)
Fixpoint all_ints (parts : list string) : option (list Z) :=
  match parts with
  | [] => Some []
  | p :: ps => n ← Text.py_int p; ns ← all_ints ps; Some (n :: ns)
  end.
Definition parse_driver_version (value : string) : option (list Z) :=
  if String.eqb value "" then None else all_ints (Text.split "." (Text.strip value)).

(** Python's [a >= b] on tuples of ints. *)
Fixpoint tuple_geb (a b : list Z) : bool :=
  match a, b with
  | _, [] => true
  | [], _ :: _ => false
  | x :: a', y :: b' => if x =? y then tuple_geb a' b' else y <? x
  end.

(** [get_min_driver_multiplier] *)
Definition get_min_driver_multiplier (st : Settings) (now : Z) (driver_version : string)
    (is_rented : bool) : Q :=
  if is_rented then 1%Q
  else
    match parse_driver_version driver_version, parse_driver_version (MIN_NVIDIA_DRIVER_VERSION st) with
    | Some reported, Some required =>
        if tuple_geb reported required then 1%Q
        else if now <? MIN_DRIVER_CUTOFF st then 1%Q else 0%Q
    | _, _ => 1%Q
    end.

(** ** Recorded reasons *)
Definition has_reason (reason : ZeroIncentiveReason) (r : JobResult) : bool :=
  bool_decide (reason ∈ jr_zero_incentive_reasons r).

Definition image_is_outdated (r : JobResult) : bool :=
  match jr_executor_image_report r with
  | Some report => match dget "status" report with
                   | Some (JStr s) => String.eqb s "OUTDATED"
                   | _ => false
                   end
  | None => false
  end.

(** [DefaultIncentive._record_outdated_image_reason] *)
Definition record_outdated_image_reason (st : Settings) (r : JobResult) : JobResult * bool :=
  if negb (EXECUTOR_IMAGE_CHECK_ENFORCE st) then (r, false)
  else if negb (image_is_outdated r) then (r, false)
  else if has_reason OUTDATED_EXECUTOR_IMAGE r then (r, true)
  else (log_no_payout OUTDATED_EXECUTOR_IMAGE r, true).

(** Python's [o or d] on an optional string. *)
Definition or_else (o : option string) (d : string) : string :=
  match o with Some s => if String.eqb s "" then d else s | None => d end.

(** [MinerLogLine.validation_failure_code] *)
Definition validation_failure_code (r : JobResult) : string :=
  or_else (jr_failure_reason_code r)
    (or_else (ev_reason_code <$> jr_validation_event r) "PIPELINE_VALIDATION_ERROR").

(** [executor_rollout.RUN_ENDED_WITHOUT_FAILING] *)
Definition RUN_ENDED_WITHOUT_FAILING : list string := ["VALIDATION_COMPLETED"; "RENTED"].

(** [DefaultIncentive._record_validation_failed_reason] *)
Definition record_validation_failed_reason (r : JobResult) : JobResult :=
  if is_successful r then r
  else
    let reason_code := validation_failure_code r in
    if in_list reason_code RUN_ENDED_WITHOUT_FAILING then r
    else if String.eqb reason_code "EXECUTOR_IMAGE_OUTDATED" && has_reason OUTDATED_EXECUTOR_IMAGE r
    then r
    else log_no_payout VALIDATION_FAILED r.

(** ** Attributes of the algorithm *)
Record DefaultState := mkDefault {
  ds_total_gpu_model_count_map : list (string * Z);
  ds_total_executors : Z;
  ds_successful_executors : Z;
  ds_failed_executors : Z;
  ds_total_mining_score : Q;
  ds_miner_incentives : list (string * Q);
  ds_burn_share : Q;
  ds_mining_share : Q
}.

Definition set_ds_counts (total ok failed : Z) (s : DefaultState) : DefaultState :=
  mkDefault (ds_total_gpu_model_count_map s) total ok failed (ds_total_mining_score s)
    (ds_miner_incentives s) (ds_burn_share s) (ds_mining_share s).
Definition set_ds_total_mining_score (v : Q) (s : DefaultState) : DefaultState :=
  mkDefault (ds_total_gpu_model_count_map s) (ds_total_executors s) (ds_successful_executors s)
    (ds_failed_executors s) v (ds_miner_incentives s) (ds_burn_share s) (ds_mining_share s).
Definition set_ds_miner_incentives (v : list (string * Q)) (s : DefaultState) : DefaultState :=
  mkDefault (ds_total_gpu_model_count_map s) (ds_total_executors s) (ds_successful_executors s)
    (ds_failed_executors s) (ds_total_mining_score s) v (ds_burn_share s) (ds_mining_share s).
Definition set_ds_burn_share (v : Q) (s : DefaultState) : DefaultState :=
  mkDefault (ds_total_gpu_model_count_map s) (ds_total_executors s) (ds_successful_executors s)
    (ds_failed_executors s) (ds_total_mining_score s) (ds_miner_incentives s) v (ds_mining_share s).
Definition set_ds_total_gpu_model_count_map (v : list (string * Z)) (s : DefaultState) : DefaultState :=
  mkDefault v (ds_total_executors s) (ds_successful_executors s)
    (ds_failed_executors s) (ds_total_mining_score s) (ds_miner_incentives s) (ds_burn_share s)
    (ds_mining_share s).

Section Default.
Context `{R : Rounding}.
Local Open Scope float_scope.
Context (env : Env).
Let st := env_settings env.

(** [DefaultIncentive.__init__] *)
Definition default_init (total_gpu_model_count_map : list (string * Z)) : DefaultState :=
  let burn := get_total_burn_emission (env_default_burn_emission env) (env_shared env) in
  mkDefault total_gpu_model_count_map 0 0 0 0 [] burn (1 ⊖ burn).

Definition rented_after_cutoff (r : JobResult) : bool :=
  jr_is_rented r
  && match jr_rental_created_at r with Some t => SYSBOX_RENTED_CUTOFF st <=? t | None => false end.

(** The sysbox part of [DefaultIncentive.calculate_executor_score]. *)
Definition mining_sysbox_multiplier (r : JobResult) : Q :=
  if jr_sysbox_runtime r then 1%Q
  else 1 ⊖ (if rented_after_cutoff r then PORTION_FOR_SYSBOX_RENTED st else PORTION_FOR_SYSBOX st).

(** The uptime part: [ZeroDivisionError] when no minutes are required. *)
Definition mining_uptime_multiplier (r : JobResult) : res Q :=
  if SKIP_COLLATERAL_PENALTY st || jr_collateral_deposited r then Ok 1%Q
  else
    let minutes := get_executor_uptime (env_uptimes env) (jr_executor_info r) in
    if UPTIME_REQUIRED_MINUTES st =? 0 then Raise ZeroDivisionError
    else
      let ratio := rnd (inject_Z minutes / inject_Z (UPTIME_REQUIRED_MINUTES st)) in
      Ok ((1 ⊖ PORTION_FOR_UPTIME st) ⊕ (PORTION_FOR_UPTIME st ⊗ pymin 1 ratio)).

(** [DefaultIncentive.calculate_executor_score], with [self._spot_rental_factor]
    and [self.total_gpu_model_count_map] as arguments. *)
Definition default_calculate_executor_score (spot_rental_factor : JobResult -> Q)
    (total_gpu_model_count_map : list (string * Z)) (r : JobResult) : res JobResult :=
  let '(r, outdated) := record_outdated_image_reason st r in
  if outdated then Ok (set_mining_score (Some 0%Q) r)
  else if jr_is_hotkey_excluded_from_scoring r then
    let r := if has_reason HOTKEY_EXCLUDED_FROM_SCORING r then r
             else log_no_payout HOTKEY_EXCLUDED_FROM_SCORING r in
    Ok (set_mining_score (Some 0%Q) r)
  else if Qeqb (jr_score r) 0 then Ok (set_mining_score (Some 0%Q) r)
  else if jr_is_in_maintenance r || (jr_is_new_rentals_paused r && negb (jr_is_rented r))
  then Ok (set_mining_score (Some 0%Q) r)
  else
    let total := match jr_gpu_model r with
                 | Some m => dget_or 0 m total_gpu_model_count_map
                 | None => 0
                 end in
    let r := set_total_gpu_count (Some total) r in
    if total =? 0 then Ok (set_mining_score (Some 0%Q) r)
    else
      let portion := get_portion_per_gpu_type (env_portions env) (jr_gpu_model r) in
      let r := set_gpu_portion (Some portion) r in
      let base := ((jr_score r ⊗ portion) ⊗ fint (jr_gpu_count r)) ⊘ fint total in
      let sysbox := mining_sysbox_multiplier r in
      let r := set_sysbox_multiplier (Some sysbox) r in
      let driver := get_min_driver_multiplier st (env_now env) (jr_nvidia_driver_version r) (jr_is_rented r) in
      let r := set_driver_multiplier (Some driver) r in
      uptime ← mining_uptime_multiplier r;
      let r := set_uptime_multiplier (Some uptime) r in
      let spot := spot_rental_factor r in
      let r := set_mining_score (Some (base ⊗ (((sysbox ⊗ uptime) ⊗ driver) ⊗ spot))) r in
      let r := log_line MiningScoreCalculated r in
      Ok (if jr_is_rented r && Qeqb sysbox 0 then log_no_payout RENTED_SYSBOX_NOT_CONFIRMED r else r).

(** [DefaultIncentive._spot_rental_factor] *)
Definition default_spot_rental_factor (_ : JobResult) : Q := 1%Q.

(** [DefaultIncentive._pre_process_job_result]; [score_fn] is
    [self.calculate_executor_score]. *)
Definition default_pre_process (score_fn : JobResult -> res JobResult) (r : JobResult) (s : DefaultState)
    : res (JobResult * DefaultState) :=
  r ← score_fn r;
  let r := record_validation_failed_reason r in
  mining_score ← need (jr_mining_score r);
  let s := set_ds_total_mining_score (ds_total_mining_score s ⊕ mining_score) s in
  let ok := Qeqb (jr_job_score r) 1 in
  Ok (r, set_ds_counts (ds_total_executors s + 1)
           (ds_successful_executors s + if ok then 1 else 0)
           (ds_failed_executors s + if ok then 0 else 1) s).

(** [self.miner_incentives[hotkey] = self.miner_incentives.get(hotkey, 0.0) + incentive] *)
Definition add_miner_incentive (hotkey : string) (incentive : Q) (s : DefaultState) : DefaultState :=
  set_ds_miner_incentives
    (dset hotkey (dget_or 0%Q hotkey (ds_miner_incentives s) ⊕ incentive) (ds_miner_incentives s)) s.

(** [DefaultIncentive._post_process_job_result] *)
Definition default_post_process (hotkey : string) (r : JobResult) (s : DefaultState)
    : JobResult * DefaultState :=
  let r := set_mining_share (Some (ds_mining_share s)) r in
  let r := set_total_mining_score (Some (ds_total_mining_score s)) r in
  match jr_mining_score r with
  | None => (log_line MiningScoreMissing r, s)
  | Some score =>
      let incentive :=
        if Qltb 0 (ds_total_mining_score s)
        then (ds_mining_share s ⊗ score) ⊘ ds_total_mining_score s else 0%Q in
      let r := set_incentive (Some incentive) r in
      (log_line MiningIncentiveCalculated r, add_miner_incentive hotkey incentive s)
  end.

(** The default algorithm as an instance of the scoring loop. *)
Definition default_algorithm : IncentiveAlgorithm DefaultState := {|
  ia_pre := fun _ _ r s =>
    default_pre_process
      (default_calculate_executor_score default_spot_rental_factor (ds_total_gpu_model_count_map s)) r s;
  ia_finish := fun heap s => Ok (heap, s);
  ia_post := fun hotkey r s => Ok (default_post_process hotkey r s)
|}.

(** ** Final scores of a cycle *)

(** The first loop of [_burn_excluded_hotkey_scores]. *)
Definition free_excluded_step (burn_scores : list (string * Q)) (acc : Q * list (string * Q))
    (hotkey : string) : Q * list (string * Q) :=
  let '(freed, cycle) := acc in
  if din hotkey burn_scores then acc
  else match dget hotkey cycle with
       | None => acc
       | Some v => (freed ⊕ pymax v 0, dset hotkey 0%Q cycle)
       end.

(** [DefaultIncentive._burn_excluded_hotkey_scores]; [excluded] lists the set of
    excluded hotkeys (Python leaves its order open). *)
Definition burn_excluded_hotkey_scores (excluded : list string)
    (cycle burn_scores : list (string * Q)) : res (list (string * Q)) :=
  let '(freed, cycle) := fold_left (free_excluded_step burn_scores) excluded (0%Q, cycle) in
  if Qleb freed 0 then Ok cycle
  else
    let burn_total := fsum (dvalues burn_scores) in
    if Qleb burn_total 0 then Ok cycle
    else foldM (fun c bs =>
                  v ← key_of bs.1 c;
                  Ok (dset bs.1 (v ⊕ ((freed ⊗ bs.2) ⊘ burn_total)) c)) cycle burn_scores.

(** [min(max(settings.REFERRAL_EMISSION_SHARE, 0.0), 1.0)]: NaN stays NaN. *)
Definition clamp_share (x : num) : num :=
  match x with
  | Fin q => Fin (pymin (pymax q 0) 1)
  | Inf neg => Fin (if neg then 0 else 1)%Q
  | NaN => NaN
  end.

(** The referrers of [_apply_referral_pool] that may be paid. *)
Definition eligible_referrers (excluded : list string) (miners : list Neuron)
    (burn_scores ema : list (string * Q)) : list (string * Q) :=
  List.filter (fun he => in_list he.1 (map n_hotkey miners) && negb (din he.1 burn_scores)
                      && negb (in_list he.1 excluded) && Qltb 0 he.2) ema.

(** [DefaultIncentive._apply_referral_pool]; [ema] is what the feed returned
    (empty on any failure), finite values. *)
Definition apply_referral_pool (excluded : list string) (cycle burn_scores : list (string * Q))
    (miners : list Neuron) (ema : list (string * Q)) : list (string * Q) :=
  match clamp_share (REFERRAL_EMISSION_SHARE st) with
  | Fin share =>
      if negb (Qltb 0 share) then cycle
      else match ema with
      | [] => cycle
      | _ =>
          let eligible := eligible_referrers excluded miners burn_scores ema in
          let total_ema := fsum (dvalues eligible) in
          if Qleb total_ema 0 then cycle
          else
            let burn_total := fsum (dvalues burn_scores) in
            if Qleb burn_total 0 then cycle
            else
              let total_score := fsum (dvalues cycle) in
              let referral_pool := pymin (share ⊗ total_score) burn_total in
              if Qleb referral_pool 0 then cycle
              else
                let cycle := fold_left (fun c bs =>
                    dset bs.1 (dget_or 0%Q bs.1 c ⊖ (referral_pool ⊗ (bs.2 ⊘ burn_total))) c)
                    burn_scores cycle in
                fold_left (fun c he =>
                    dset he.1 (dget_or 0%Q he.1 c ⊕ (referral_pool ⊗ (he.2 ⊘ total_ema))) c)
                    eligible cycle
      end
  | _ => cycle
  end.

(** The loop of [calculate_final_weights] over the miners. *)
Definition cycle_step (incentives : list (string * Q)) (c : list (string * Q)) (m : Neuron)
    : list (string * Q) :=
  if din (n_hotkey m) c then c
  else dset (n_hotkey m) (dget_or 0%Q (n_hotkey m) incentives) c.

(** [DefaultIncentive.calculate_final_weights] *)
Definition calculate_final_weights (s : DefaultState) (miners : list Neuron)
    (ema : list (string * Q)) : res (list (string * Q)) :=
  burn_scores ← calculate_burn_scores st miners (ds_burn_share s);
  let cycle := fold_left (cycle_step (ds_miner_incentives s)) miners burn_scores in
  cycle ← burn_excluded_hotkey_scores (get_scoring_excluded_hotkeys st) cycle burn_scores;
  Ok (apply_referral_pool (get_scoring_excluded_hotkeys st) cycle burn_scores miners ema).
End Default.

(** ** Facts about the referral pool *)
Section ReferralFacts.
Context `{R : Rounding}.
Context (env : Env) (excluded : list string) (miners : list Neuron).

(** The pool is either not applied at all, or moves a positive amount, at most
    the burn, from the burners to the eligible referrers. *)
Lemma apply_referral_pool_cases cycle burn ema :
  apply_referral_pool env excluded cycle burn miners ema = cycle \/
  let eligible := eligible_referrers excluded miners burn ema in
  let burn_total := fsum (dvalues burn) in
  let total_ema := fsum (dvalues eligible) in
  exists pool, (0 < pool)%Q /\ (pool <= burn_total)%Q /\ (0 < burn_total)%Q /\ (0 < total_ema)%Q /\
    apply_referral_pool env excluded cycle burn miners ema =
      fold_left (dupd fst (fun v he => fadd v (fmul pool (fdiv he.2 total_ema)))) eligible
        (fold_left (dupd fst (fun v bs => fsub v (fmul pool (fdiv bs.2 burn_total)))) burn cycle).
Proof.
  unfold apply_referral_pool. destruct (clamp_share _) as [share| |]; [|by left|by left].
  destruct (Qltb 0 share); [|by left]. destruct ema as [|e ema]; [by left|].
  set (el := eligible_referrers _ _ _ _). cbn [negb].
  destruct (Qleb (fsum (dvalues el)) 0) eqn:E1; [by left|].
  destruct (Qleb (fsum (dvalues burn)) 0) eqn:E2; [by left|].
  destruct (Qleb (pymin _ _) 0) eqn:E3; [by left|]. right. qbool.
  eexists. split_and!; [exact E3|apply pymin_r|exact E2|exact E1|done].
Qed.

Lemma elem_of_eligible k e burn ema :
  (k, e) ∈ eligible_referrers excluded miners burn ema ->
  k ∈ map n_hotkey miners /\ k ∉ dkeys burn /\ k ∉ excluded /\ (0 < e)%Q.
Proof.
  unfold eligible_referrers, in_list. intros [_ H]%elem_of_bfilter. cbn in H.
  rewrite !andb_true_iff, !negb_true_iff, bool_decide_eq_true, bool_decide_eq_false in H.
  destruct H as [[[H1 H2] H3] H4]. qbool. split_and!; try done.
  intros Hk%din_keys. congruence.
Qed.

Lemma eligible_keys k burn ema :
  k ∈ map fst (eligible_referrers excluded miners burn ema) ->
  k ∈ map n_hotkey miners /\ k ∉ dkeys burn /\ k ∉ excluded.
Proof.
  intros ([k' e] & -> & H)%list_elem_of_fmap. apply elem_of_eligible in H. naive_solver.
Qed.

Lemma referral_untouched cycle burn ema k :
  k ∉ dkeys burn -> k ∉ map fst (eligible_referrers excluded miners burn ema) ->
  dget k (apply_referral_pool env excluded cycle burn miners ema) = dget k cycle.
Proof.
  intros H1 H2. destruct (apply_referral_pool_cases cycle burn ema) as [->|(pool & _ & _ & _ & _ & ->)];
    [done|]. by rewrite !dupd_fold_other.
Qed.
End ReferralFacts.

(** What the referral pool keeps and moves, shared by the theorems below. *)
Lemma referral_pool_facts env excluded cycle burn miners ema :
  NoDup (dkeys ema) -> NoDup (dkeys burn) ->
  (forall k v, (k, v) ∈ burn -> 0 <= v)%Q ->
  let c' := @apply_referral_pool exact_rounding env excluded cycle burn miners ema in
  (Qsum (dvalues c') == Qsum (dvalues cycle))%Q /\
  (forall k, k ∉ dkeys burn -> k ∉ dkeys ema \/ k ∈ excluded -> dget k c' = dget k cycle) /\
  (forall k, k ∉ dkeys burn -> dget_or 0 k cycle <= dget_or 0 k c')%Q /\
  (forall k v, (k, v) ∈ burn ->
     dget_or 0 k cycle - v <= dget_or 0 k c' /\ dget_or 0 k c' <= dget_or 0 k cycle)%Q.
Proof.
  intros Hema Hburn Hpos c'.
  assert (forall k, k ∈ map fst (eligible_referrers excluded miners burn ema) -> k ∈ dkeys ema) as Hel.
  { intros k ([k' e] & -> & [Hin _]%elem_of_bfilter)%list_elem_of_fmap.
    apply list_elem_of_fmap. by eexists. }
  split_and!.
  - subst c'. destruct (@apply_referral_pool_cases exact_rounding env excluded miners cycle burn ema)
      as [->|(pool & Hp & Hpb & Hb & He & ->)]; [done|].
    set (el := eligible_referrers excluded miners burn ema) in *. rewrite fsum_exact in *.
    rewrite (dupd_fold_sum _ _ (fun he => pool * (he.2 / Qsum (dvalues el)))%Q).
    2:{ intros v he _. exactify. rewrite fsum_exact. done. }
    rewrite (dupd_fold_sum _ _ (fun bs => - (pool / Qsum (dvalues burn)) * bs.2)%Q).
    2:{ intros v bs _. exactify. rewrite fsum_exact. field. lra. }
    rewrite (Qsum_ext (fun he : string * Q => pool * (he.2 / Qsum (dvalues el)))%Q
               (fun he => pool / Qsum (dvalues el) * he.2)%Q) by (intros; field; lra).
    rewrite <- !(map_map snd (fun q => _ * q)%Q), !Qsum_scale.
    change (map snd el) with (dvalues el). change (map snd burn) with (dvalues burn). field. lra.
  - intros k Hk Hor. apply referral_untouched; [done|].
    intros Hin. destruct Hor as [Hor|Hor]; [apply Hor, Hel, Hin|].
    apply eligible_keys in Hin. naive_solver.
  - intros k Hk. subst c'.
    destruct (@apply_referral_pool_cases exact_rounding env excluded miners cycle burn ema)
      as [->|(pool & Hp & Hpb & Hb & He & ->)]; [lra|].
    set (el := eligible_referrers excluded miners burn ema) in *.
    set (c1 := fold_left (dupd _ _) burn cycle).
    assert (dget_or 0%Q k c1 = dget_or 0%Q k cycle) as <- by (unfold dget_or, c1; by rewrite dupd_fold_other).
    destruct (decide (k ∈ map fst el)) as [([k' e] & -> & Hin)%list_elem_of_fmap|Hn].
    + pose proof (elem_of_eligible _ _ _ _ _ _ Hin) as (_ & _ & _ & Hpe). cbn [fst].
      change k' with (fst (k', e)). rewrite dupd_fold_at; [|by apply map_filter_NoDup|done].
      cbn [snd fst]. exactify. match type of He with (_ < ?t)%Q => set (T := t) in * end.
      assert (0 < e / T)%Q by (apply Qlt_shift_div_l; lra). nra.
    + unfold dget_or. rewrite dupd_fold_other by done. lra.
  - intros k v Hin. subst c'. pose proof (Hpos _ _ Hin) as Hv.
    destruct (@apply_referral_pool_cases exact_rounding env excluded miners cycle burn ema)
      as [->|(pool & Hp & Hpb & Hb & He & ->)]; [lra|].
    set (el := eligible_referrers excluded miners burn ema) in *.
    unfold dget_or at 2 3. rewrite dupd_fold_other.
    2:{ intros Hk%eligible_keys. destruct Hk as (_ & Hk & _). apply Hk, list_elem_of_fmap. by exists (k, v). }
    fold (dget_or 0%Q k (fold_left (dupd fst (fun v bs => @fsub exact_rounding v
      (@fmul exact_rounding pool (@fdiv exact_rounding bs.2 (@fsum exact_rounding (dvalues burn))))))
      burn cycle)).
    change k with (fst (k, v)). rewrite dupd_fold_at by done. cbn [fst snd]. exactify.
    match type of Hb with (_ < ?t)%Q => set (T := t) in * end.
    assert (0 <= v / T)%Q by (apply Qle_shift_div_l; lra).
    assert (pool * (v / T) <= T * (v / T))%Q as Hle by nra.
    assert (T * (v / T) == v)%Q as E by (field; lra). nra.
Qed.

(** The referral pool: in exact arithmetic it keeps the cycle total; a hotkey
    that is neither burner nor paid referrer keeps its score to the last bit;
    nobody outside the burners loses anything; an excluded hotkey that is not a
    burner gains nothing; and a burner gives up at most its own burn score and
    never gains. *)
Theorem referral_pool_conserves env excluded cycle burn miners ema :
  NoDup (dkeys ema) -> NoDup (dkeys burn) ->
  (forall k v, (k, v) ∈ burn -> 0 <= v)%Q ->
  let c' := @apply_referral_pool exact_rounding env excluded cycle burn miners ema in
  (Qsum (dvalues c') == Qsum (dvalues cycle))%Q /\
  (forall k, k ∉ dkeys burn -> k ∉ dkeys ema \/ k ∈ excluded -> dget k c' = dget k cycle) /\
  (forall k, k ∉ dkeys burn -> dget_or 0 k cycle <= dget_or 0 k c')%Q /\
  (forall k v, (k, v) ∈ burn ->
     dget_or 0 k cycle - v <= dget_or 0 k c' /\ dget_or 0 k c' <= dget_or 0 k cycle)%Q.
Proof. exact (referral_pool_facts env excluded cycle burn miners ema). Qed.

(** ** Facts about the excluded hotkeys *)
Section ExcludedFacts.
Context `{R : Rounding}.
Context (burn : list (string * Q)).

Lemma free_excluded_other excluded freed cycle k :
  k ∉ excluded \/ k ∈ dkeys burn ->
  dget k (fold_left (free_excluded_step burn) excluded (freed, cycle)).2 = dget k cycle.
Proof.
  revert freed cycle; induction excluded as [|h hs IH]; cbn; intros freed cycle Hk; [done|].
  destruct (din h burn) eqn:Eb; [apply IH; set_solver|].
  destruct (dget h cycle) eqn:Eh; [|apply IH; set_solver].
  rewrite IH by set_solver. apply dget_dset_ne. intros ->.
  destruct Hk as [Hk|Hk%din_keys]; [set_solver|congruence].
Qed.

Lemma free_excluded_zero excluded freed cycle k :
  k ∈ excluded -> k ∉ dkeys burn ->
  let c := (fold_left (free_excluded_step burn) excluded (freed, cycle)).2 in
  dget k c = None \/ dget k c = Some 0%Q.
Proof.
  intros Hk Hb. cbv zeta. revert freed cycle; induction excluded as [|h hs IH]; cbn; intros freed cycle;
    [set_solver|].
  apply elem_of_cons in Hk. destruct (decide (k ∈ hs)) as [Hin|Hn].
  { destruct (if din h burn then _ else _) as [f' c']. by apply IH. }
  destruct Hk as [->|]; [|done].
  destruct (din h burn) eqn:Eb; [by apply din_keys in Eb|].
  destruct (dget h cycle) eqn:Eh; rewrite free_excluded_other by auto.
  - rewrite dget_dset_eq. by right.
  - by left.
Qed.

Lemma free_excluded_keys excluded freed cycle :
  dkeys (fold_left (free_excluded_step burn) excluded (freed, cycle)).2 = dkeys cycle.
Proof.
  revert freed cycle; induction excluded as [|h hs IH]; cbn; intros freed cycle; [done|].
  destruct (din h burn); [apply IH|]. destruct (dget h cycle) eqn:Eh; [|apply IH].
  rewrite IH, dkeys_dset. unfold din. by rewrite Eh.
Qed.

(** The last step only writes burner keys. *)
Lemma give_to_burners_other (f : string * Q -> Q -> Q) c c' k :
  k ∉ dkeys burn ->
  foldM (fun c bs => v ← key_of bs.1 c; Ok (dset bs.1 (f bs v) c)) c burn = Ok c' ->
  dget k c' = dget k c.
Proof.
  intros Hk H. assert (forall kv, kv ∈ burn -> kv.1 <> k) as Hb.
  { intros kv Hin Heq. apply Hk, list_elem_of_fmap. by exists kv. }
  apply (foldM_inv (fun c' => dget k c' = dget k c)) in H; [done| |done].
  intros c1 kv c2 Hin IH E. bind_inv E. simplify_eq. rewrite dget_dset_ne; auto.
Qed.

Lemma burn_excluded_zero excluded cycle cycle' k :
  burn_excluded_hotkey_scores excluded cycle burn = Ok cycle' ->
  k ∈ excluded -> k ∉ dkeys burn -> dget k cycle' = None \/ dget k cycle' = Some 0%Q.
Proof.
  unfold burn_excluded_hotkey_scores. intros H Hk Hb.
  pose proof (free_excluded_zero excluded 0%Q cycle k Hk Hb) as Hz. cbv zeta in Hz.
  destruct (fold_left _ _ _) as [freed c]. cbn in Hz. revert H.
  destruct (Qleb freed 0); [by intros; simplify_eq|].
  destruct (Qleb _ 0); [by intros; simplify_eq|]. intros H.
  apply (give_to_burners_other (fun bs v => fadd v (fdiv (fmul freed bs.2) (fsum (dvalues burn))))
           _ _ k) in H; [|done].
  by rewrite H.
Qed.
End ExcludedFacts.

Lemma burn_scores_keys `{R : Rounding} st miners share burn k :
  calculate_burn_scores st miners share = Ok burn -> k ∈ dkeys burn -> verified_burner st miners k.
Proof.
  unfold calculate_burn_scores, calculate_new_burn_logic, pydiv. destruct (Qeqb _ _); [done|].
  cbn. intros [= <-] ([k' v] & -> & Hin)%list_elem_of_fmap. cbn.
  revert Hin. apply (burn_fold_inv st _ miners [] (fun k v => verified_burner st miners k)); [set_solver|].
  intros m Hm Hp. exists m. pose proof (is_paid_burner_slot _ _ Hp).
  apply andb_true_iff in Hp as [_ ?]. done.
Qed.

(** C28. A hotkey listed in SCORING_EXCLUDED_HOTKEYS that is not a verified burner
    has no positive final score, whatever the scoring left on it and whatever
    the referral feed says; under any rounding. *)
Theorem excluded_hotkey_final_zero `{R : Rounding} env s miners ema cycle hotkey :
  calculate_final_weights env s miners ema = Ok cycle ->
  hotkey ∈ get_scoring_excluded_hotkeys (env_settings env) ->
  ~ verified_burner (env_settings env) miners hotkey ->
  dget hotkey cycle = None \/ dget hotkey cycle = Some 0%Q.
Proof.
  intros H Hex Hnb. unfold calculate_final_weights in H. bind_inv H. bind_inv H1. simplify_eq.
  assert (hotkey ∉ dkeys a) as Hk by (intros Hk; by apply Hnb, (burn_scores_keys _ _ _ _ _ H0)).
  rewrite referral_untouched; [|done|].
  - by eapply burn_excluded_zero.
  - intros Hin%eligible_keys. naive_solver.
Qed.

(** ** The total of a cycle's scores (exact arithmetic) *)
Section TotalFacts.
Local Existing Instance exact_rounding.

Lemma cycle_fold_total incentives (burn c : list (string * Q)) (miners : list Neuron) :
  NoDup (map n_hotkey miners) ->
  (forall m, m ∈ miners -> din (n_hotkey m) c = din (n_hotkey m) burn) ->
  (Qsum (dvalues (fold_left (cycle_step incentives) miners c)) ==
   Qsum (dvalues c) + Qsum (map (fun m => dget_or 0%Q (n_hotkey m) incentives)
     (List.filter (fun m => negb (din (n_hotkey m) burn)) miners)))%Q.
Proof.
  revert c; induction miners as [|m ms IH]; cbn; intros c Hnd Hc; [lra|].
  apply NoDup_cons in Hnd as [Hm Hnd]. unfold cycle_step at 2.
  rewrite (Hc m) by set_solver. destruct (din (n_hotkey m) burn) eqn:E; cbn.
  - apply IH; [done|]. intros; apply Hc; set_solver.
  - rewrite IH; [|done|].
    + rewrite Qsum_dset. pose proof (Hc m ltac:(set_solver)) as Hm0. rewrite E in Hm0.
      assert (dget_or 0%Q (n_hotkey m) c = 0%Q) as ->; [|lra].
      unfold din in Hm0. unfold dget_or. by destruct (dget (n_hotkey m) c).
    + intros x Hx. unfold din. rewrite dget_dset_ne; [apply Hc; set_solver|].
      intros Eq. apply Hm. rewrite Eq. apply list_elem_of_fmap. by exists x.
Qed.

Lemma cycle_fold_nonneg incentives (miners : list Neuron) (c : list (string * Q)) :
  (forall k v, (k, v) ∈ incentives -> 0 <= v)%Q -> (forall k v, (k, v) ∈ c -> 0 <= v)%Q ->
  forall k v, (k, v) ∈ fold_left (cycle_step incentives) miners c -> (0 <= v)%Q.
Proof.
  intros Hi. revert c; induction miners as [|m ms IH]; cbn; intros c Hc; [done|]. apply IH.
  unfold cycle_step. destruct (din _ c); [done|].
  intros k v [[-> ->]|Hin]%elem_of_dset; [|eauto].
  unfold dget_or. destruct (dget _ incentives) eqn:E; [|lra]. apply dget_In in E. eauto.
Qed.

Lemma free_excluded_total burn excluded freed c :
  (forall k v, (k, v) ∈ c -> 0 <= v)%Q -> (0 <= freed)%Q ->
  let '(freed', c') := fold_left (free_excluded_step burn) excluded (freed, c) in
  (freed' + Qsum (dvalues c') == freed + Qsum (dvalues c))%Q /\ (0 <= freed')%Q.
Proof.
  revert freed c; induction excluded as [|h hs IH]; cbn; intros freed c Hc Hf; [split; [done|lra]|].
  destruct (din h burn); [by apply IH|]. destruct (dget h c) as [v|] eqn:E; [|by apply IH].
  pose proof (Hc _ _ (dget_In _ _ _ E)) as Hv.
  assert (pymax v 0 == v)%Q as Ev by (unfold pymax; qsplit; lra).
  specialize (IH (freed ⊕ pymax v 0)%float (dset h 0%Q c)).
  destruct (fold_left _ hs _) as [f' c']. destruct IH as [IH1 IH2].
  - intros k x [[-> ->]|Hin]%elem_of_dset; [lra|eauto].
  - exactify. rewrite Ev. lra.
  - split; [|done]. rewrite IH1, Qsum_dset. exactify. rewrite Ev. unfold dget_or. rewrite E. lra.
Qed.

Lemma give_to_burners_fold (f : string * Q -> Q -> Q) burn c c' :
  foldM (fun c bs => v ← key_of bs.1 c; Ok (dset bs.1 (f bs v) c)) c burn = Ok c' ->
  c' = fold_left (dupd fst (fun v bs => f bs v)) burn c.
Proof.
  revert c; induction burn as [|bs burn IH]; cbn; intros c H; [by simplify_eq|].
  destruct (key_of bs.1 c) as [v|e] eqn:E; [|done]. apply IH in H as ->. f_equal.
  unfold dupd, dget_or. unfold key_of in E. by destruct (dget bs.1 c); simplify_eq.
Qed.

Lemma burn_excluded_total burn excluded c c' :
  (forall k v, (k, v) ∈ c -> 0 <= v)%Q -> (0 < Qsum (dvalues burn))%Q ->
  burn_excluded_hotkey_scores excluded c burn = Ok c' ->
  (Qsum (dvalues c') == Qsum (dvalues c))%Q.
Proof.
  intros Hc Hb. unfold burn_excluded_hotkey_scores.
  pose proof (free_excluded_total burn excluded 0%Q c Hc ltac:(lra)) as Ht.
  destruct (fold_left _ _ _) as [freed c1]. destruct Ht as [Ht Hf].
  destruct (Qleb freed 0) eqn:E; qbool; [intros [= <-]; lra|].
  destruct (Qleb _ 0) eqn:E2; qbool; rewrite fsum_exact in E2; [lra|].
  intros H. apply (give_to_burners_fold (fun bs v => v ⊕ ((freed ⊗ bs.2) ⊘ fsum (dvalues burn)))%float) in H.
  subst c'. rewrite (dupd_fold_sum _ _ (fun bs => freed / Qsum (dvalues burn) * bs.2)%Q).
  - rewrite <- (map_map snd (fun q => _ * q)%Q), Qsum_scale.
    change (map snd burn) with (dvalues burn).
    assert (freed / Qsum (dvalues burn) * Qsum (dvalues burn) == freed)%Q as -> by (field; lra). lra.
  - intros v bs _. exactify. rewrite fsum_exact. field. lra.
Qed.
End TotalFacts.

Lemma burn_scores_facts `{R : Rounding} st miners share burn :
  (0 <= share)%Q -> calculate_burn_scores st miners share = Ok burn ->
  NoDup (dkeys burn) /\ forall k v, (k, v) ∈ burn -> (0 <= v)%Q.
Proof.
  unfold calculate_burn_scores, calculate_new_burn_logic, pydiv. intros Hs.
  destruct (Qeqb _ _); [done|]. cbn. intros [= <-]. split.
  - generalize (fdiv share (fint (Z.of_nat (length (NEW_BURNERS st))))) as p. intros p.
    assert (NoDup (dkeys (@nil (string * Q)))) as Hd by apply NoDup_nil_2. revert Hd.
    generalize (@nil (string * Q)). induction miners as [|m ms IH]; cbn; intros d Hd; [done|].
    apply IH. unfold burn_step. destruct (_ =? 0); [done|]. destruct (negb _); [done|].
    by apply NoDup_dset.
  - apply (burn_fold_inv st _ miners [] (fun k v => (0 <= v)%Q)); [set_solver|].
    intros m _ _. apply fmul_nonneg; [apply fdiv_nonneg; [done | apply fint_nonneg; lia]|].
    apply fint_nonneg, slots_of_pos.
Qed.


(** ** The driver gate *)

(** Version order: the first difference decides, and a strict prefix is older. *)
Definition version_lt (a b : list Z) : Prop :=
  (exists p x y a' b', a = p ++ x :: a' /\ b = p ++ y :: b' /\ x < y) \/
  (exists y b', b = a ++ y :: b').

Lemma tuple_geb_spec a b : tuple_geb a b = false <-> version_lt a b.
Proof.
  revert b; induction a as [|x a IH]; intros [|y b]; cbn.
  - split; [done|]. intros [(p & x & y & a' & b' & H & _)|(y & b' & H)]; [by destruct p|done].
  - split; [|done]. intros _. right. by exists y, b.
  - split; [done|]. intros [(p & x' & y & a' & b' & _ & H & _)|(y & b' & H)]; [by destruct p|done].
  - destruct (Z.eqb_spec x y) as [->|Hne].
    + rewrite IH. split.
      * intros [(p & u & v & a' & b' & -> & -> & Hlt)|(v & b' & ->)].
        -- left. by exists (y :: p), u, v, a', b'.
        -- right. by exists v, b'.
      * intros [(p & u & v & a' & b' & Ha & Hb & Hlt)|(v & b' & Hb)].
        -- destruct p as [|z p]; cbn in *; simplify_eq; [lia|]. left. by exists p, u, v, a', b'.
        -- cbn in Hb. simplify_eq. right. by exists v, b'.
    + rewrite Z.ltb_ge. split.
      * intros Hle. left. exists [], x, y, a, b. split_and!; [done|done|lia].
      * intros [(p & u & v & a' & b' & Ha & Hb & Hlt)|(v & b' & Hb)].
        -- destruct p as [|z p]; cbn in *; simplify_eq; lia.
        -- cbn in Hb. simplify_eq.
Qed.

(** The NVIDIA driver gate: the multiplier is 0 exactly when the node is not
    rented, the cutoff has passed, both versions parse and the reported one is
    older in version order; in every other case it is 1. *)
Theorem driver_gate_spec st now driver rented :
  (get_min_driver_multiplier st now driver rented = 0%Q <->
     rented = false /\ MIN_DRIVER_CUTOFF st <= now /\
     exists reported required, parse_driver_version driver = Some reported /\
       parse_driver_version (MIN_NVIDIA_DRIVER_VERSION st) = Some required /\
       version_lt reported required) /\
  (get_min_driver_multiplier st now driver rented = 0%Q \/
   get_min_driver_multiplier st now driver rented = 1%Q).
Proof.
  unfold get_min_driver_multiplier.
  destruct rented; [split; [split; [done|naive_solver]|by right]|].
  destruct (parse_driver_version driver) as [rep|]; [|split; [split; [done|naive_solver]|by right]].
  destruct (parse_driver_version _) as [req|]; [|split; [split; [done|naive_solver]|by right]].
  destruct (tuple_geb rep req) eqn:E.
  - split; [|by right]. split; [done|]. intros (_ & _ & a & b & ? & ? & Hlt%tuple_geb_spec). congruence.
  - apply tuple_geb_spec in E. destruct (Z.ltb_spec now (MIN_DRIVER_CUTOFF st)).
    + split; [|by right]. split; [done|]. lia.
    + split; [|by left]. split; [|done]. intros _. split_and!; [done|lia|by eexists _, _].
Qed.

(** ** The mining pool (exact arithmetic) *)
Section MiningPool.
Local Existing Instance exact_rounding.
Context (env : Env).

Definition default_acc (v : visit) (s : DefaultState) : DefaultState :=
  let s := set_ds_total_mining_score (fadd (ds_total_mining_score s) (mining_score_of (v_after v))) s in
  let ok := Qeqb (jr_job_score (v_after v)) 1 in
  set_ds_counts (ds_total_executors s + 1)
    (ds_successful_executors s + if ok then 1 else 0)
    (ds_failed_executors s + if ok then 0 else 1) s.

Lemma default_pre_factor score_fn r s r' s' h a :
  default_pre_process score_fn r s = Ok (r', s') ->
  (exists r0, score_fn r = Ok r0 /\ r' = record_validation_failed_reason r0) /\
  (exists ms, jr_mining_score r' = Some ms) /\ s' = default_acc (mkVisit h a r r') s.
Proof.
  unfold default_pre_process, default_acc, mining_score_of. intros H.
  apply bind_ok in H as (r0 & Hr0 & H). apply bind_ok in H as (ms & Hms%need_ok & H).
  simplify_eq. cbn. rewrite Hms. split_and!; eauto.
Qed.

(** What post-processing pays a scored result. *)
Definition mining_pay (share total : Q) (r : JobResult) : Q :=
  if Qltb 0 total then share * mining_score_of r / total else 0%Q.

Lemma default_post_pay h r s :
  jr_mining_score r <> None ->
  incentive_of (default_post_process h r s).1
    = mining_pay (ds_mining_share s) (ds_total_mining_score s) r /\
  (default_post_process h r s).2
    = add_miner_incentive h (mining_pay (ds_mining_share s) (ds_total_mining_score s) r) s.
Proof.
  unfold default_post_process, mining_pay, mining_score_of, incentive_of. cbn.
  destruct (jr_mining_score r) eqn:E; [|done]. intros _. cbn. exactify. done.
Qed.

Lemma default_post_keeps_score h r s :
  mining_score_of (split_incentive_across_pools (default_post_process h r s).1) = mining_score_of r.
Proof.
  unfold split_incentive_across_pools, default_post_process, mining_score_of. cbn.
  destruct (jr_mining_score r) eqn:E; cbn; [by rewrite E|].
  destruct (jr_incentive r); cbn; by rewrite E.
Qed.

(** The first pass adds up the mining scores it sets. *)
Lemma default_pre_runs tr s s' :
  runs (@pre_callback _ (default_algorithm env) (env_settings env)) s tr s' ->
  (ds_total_mining_score s' ==
    ds_total_mining_score s + Qsum (map (fun v => mining_score_of (v_after v)) tr))%Q /\
  ds_mining_share s' = ds_mining_share s /\ ds_miner_incentives s' = ds_miner_incentives s /\
  forall v, v ∈ tr -> jr_mining_score (v_after v) <> None.
Proof.
  induction 1 as [s|v tr s s1 s2 Hf _ (E1 & E2 & E3 & Hms)]; cbn; [split_and!; [lra|done|done|set_solver]|].
  unfold pre_callback, ia_pre in Hf. cbn in Hf.
  apply (default_pre_factor _ _ _ _ _ (v_hotkey v) (v_addr v)) in Hf as (_ & [ms Hv] & ->).
  split_and!; [|by rewrite E2|by rewrite E3|].
  - rewrite E1. cbn. exactify. lra.
  - intros u [->|Hu]%elem_of_cons; [congruence|auto].
Qed.

(** The second pass pays each result its share and credits its hotkey. *)
Lemma default_post_runs tr s s' :
  (forall v, v ∈ tr -> jr_mining_score (v_before v) <> None) ->
  runs (@post_callback _ _ (default_algorithm env)) s tr s' ->
  ds_total_mining_score s' = ds_total_mining_score s /\ ds_mining_share s' = ds_mining_share s /\
  (forall v, v ∈ tr ->
     (incentive_of (v_after v) == mining_pay (ds_mining_share s) (ds_total_mining_score s) (v_before v))%Q /\
     mining_score_of (v_after v) = mining_score_of (v_before v)) /\
  (forall h, dget_or 0 h (ds_miner_incentives s') == dget_or 0 h (ds_miner_incentives s) +
     Qsum (map (fun v => mining_pay (ds_mining_share s) (ds_total_mining_score s) (v_before v))
       (List.filter (fun v => String.eqb (v_hotkey v) h) tr)))%Q.
Proof.
  intros Hms H. induction H as [s|v tr s s1 s2 Hf _ IH]; cbn; [split_and!; [done|done|set_solver|intros; lra]|].
  unfold post_callback, ia_post in Hf. cbn in Hf. injection Hf as Hv Hs1.
  destruct (default_post_pay (v_hotkey v) (v_before v) s (Hms v ltac:(set_solver))) as [Hpay Hcr].
  pose proof (default_post_keeps_score (v_hotkey v) (v_before v) s) as Hsc. rewrite Hv in Hsc.
  rewrite Hcr in Hs1. subst s1. destruct IH as (E1 & E2 & Hall & Hinc); [set_solver|].
  cbn in E1, E2, Hall. split_and!; [done|done| |].
  - intros u [->|Hu]%elem_of_cons; [|by apply Hall].
    split; [|done]. by rewrite <- Hv, incentive_of_split, Hpay.
  - intros h. rewrite Hinc. cbn. destruct (String.eqb_spec (v_hotkey v) h) as [<-|Hne]; cbn.
    + rewrite dget_or_dset_eq. exactify. lra.
    + rewrite dget_or_dset_ne by done. lra.
Qed.

Lemma mining_pay_sum share total (rs : list JobResult) :
  (Qsum (map mining_score_of rs) == total)%Q ->
  (Qsum (map (mining_pay share total) rs) == if Qltb 0 total then share else 0)%Q.
Proof.
  intros Ht. unfold mining_pay. destruct (Qltb 0 total) eqn:E; qbool.
  - rewrite (Qsum_ext _ (fun r => share / total * mining_score_of r)%Q) by (intros; field; lra).
    rewrite <- (map_map mining_score_of (fun q => share / total * q)%Q), Qsum_scale, Ht. field. lra.
  - clear. induction rs; cbn; lra.
Qed.

End MiningPool.

(** The default algorithm in exact arithmetic: the nodes' incentives are
    shares of the mining pool in proportion to their mining scores, so they add
    up to the whole pool when any score is positive and to nothing otherwise;
    and each hotkey is credited exactly the sum over its own nodes. *)
Theorem default_mining_pool_conserves env map0 heap jobs w :
  NoDup (map snd (scored_pairs jobs)) ->
  @calculate_mining_scores exact_rounding DefaultState (@default_algorithm exact_rounding env)
    (env_settings env) (mkWorld heap jobs (@default_init exact_rounding env map0)) = Ok w ->
  let s := w_eng w in
  let addrs := map snd (scored_pairs jobs) in
  (results_sum mining_score_of (w_heap w) addrs == ds_total_mining_score s)%Q /\
  (results_sum incentive_of (w_heap w) addrs ==
     if Qltb 0 (ds_total_mining_score s) then ds_mining_share s else 0)%Q /\
  (forall h, dget_or 0 h (ds_miner_incentives s) ==
     results_sum incentive_of (w_heap w) (addrs_of h (scored_pairs jobs)))%Q.
Proof.
  intros Hnd H. unfold calculate_mining_scores in H. cbn [w_heap w_jobs w_eng] in H.
  set (s0 := @default_init exact_rounding env map0) in *. set (pairs := scored_pairs jobs) in *.
  apply bind_ok in H as ([heap1 s1] & H1 & H). apply bind_ok in H as (hs & [= <-] & H).
  apply bind_ok in H as ([heap3 s3] & H3 & [= <-]). cbn.
  apply step_loop_runs in H1 as (_ & _ & tr1 & Htr1 & Hruns1 & Hall1); [|done].
  apply step_loop_runs in H3 as (_ & _ & tr2 & Htr2 & Hruns2 & Hall2); [|done].
  apply default_pre_runs in Hruns1 as (Etot & Eshare & Einc & Hms).
  apply default_post_runs in Hruns2 as (Et & Es & Hpay & Hcredit).
  2:{ intros v Hv. destruct (visits_meet pairs heap1 tr1 tr2 v) as (u & Hu & <- & _); [done|done| | |done|auto].
      - intros u Hu. apply (Hall1 u Hu).
      - intros u Hu. apply (Hall2 u Hu). }
  rewrite Et, Es.
  assert (forall v, v ∈ tr2 -> heap3 !! v_addr v = Some (v_after v)) as Hv3 by (intros v Hv; apply (Hall2 v Hv)).
  assert (Qsum (map mining_score_of (map v_before tr2)) == ds_total_mining_score s1)%Q as HT.
  { rewrite map_map, <- (results_sum_visits mining_score_of heap1 pairs tr2 v_before) by
      (try done; intros v Hv; apply (Hall2 v Hv)).
    rewrite (results_sum_visits mining_score_of heap1 pairs tr1 v_after) by
      (try done; intros v Hv; apply (Hall1 v Hv)).
    rewrite Etot. cbn. lra. }
  split_and!.
  - rewrite (results_sum_visits _ _ _ tr2 v_after), <- HT, map_map by done.
    apply Qsum_ext. intros v Hv. by destruct (Hpay v Hv) as [_ ->].
  - rewrite (results_sum_visits _ _ _ tr2 v_after) by done.
    rewrite <- (mining_pay_sum _ _ (map v_before tr2)), map_map by done.
    apply Qsum_ext. intros v Hv. by apply Hpay.
  - intros h. rewrite Hcredit, Einc, (results_sum_visits_of _ _ _ tr2 v_after) by done.
    cbn. unfold dget_or. cbn. rewrite Qplus_0_l. apply Qsum_ext.
    intros v [Hv _]%elem_of_bfilter. symmetry. by apply Hpay.
Qed.
