(* ===== verification/RentalGates.v ===== *)
(** * The gates of the idle (rental-share) pool

    [incentive/rental_price.py], the measurements and rules that decide whether
    an unrented node is paid while idle: the soft price limit, disk against
    VRAM, the full 8x capability, the GPU power cap, the port and disk limits of
    a split node's free remainder, the exclusions from both pools, and the
    choice of the GPU-count bucket.  The readings come from [JobResult.spec],
    which the provider's machine wrote, so they have any JSON type. *)

From Stdlib Require Import Ascii String.
From S2P Require Import Prelude Float64 PyValue JobResult IncentiveConfig Readings Burn IncentiveBase DefaultIncentive.

Local Open Scope string_scope.
Local Open Scope list_scope.
Local Open Scope Z_scope.

(** ** Constants *)
Definition MIN_PORT_COUNT : Z := 3.
Definition TEMPO : Z := 360.
Definition SECONDS_PER_BLOCK : Z := 12.
Definition FULL_8X_CAPABILITY_BASE_MODELS : list string := ["H200"; "B200"; "B300"; "GB300"].
Definition FULL_8X_CAPABILITY_GPU_COUNT : Z := 8.
Definition NCU_PROFILING_UNRESTRICTED : string := "unrestricted".
Definition CAP_SYS_ADMIN_BIT : Z := 21.
Definition NVIDIACTL_ROOT_UID : Z := 0.
Definition MIN_POWER_CAP_REVERTS_TO_PENALIZE : nat := 2.
Definition DEFAULT_JOB_OWNER_MINER : string := "miner".
Definition MIN_DISK_TO_VRAM_RATE : Q := 3 # 2.
Definition FILLER_REVENUE_PAY_FACTOR : Q := 1.
Definition SECURE_FILLER_REVENUE_FLOOR_FACTOR : Q := 1.
Definition SPOT_RENTAL_INCENTIVE_FACTOR : Q := 1 # 2.

(** ** Verdicts *)
Record InsufficientDisk := mkInsufficientDisk { id_vram_gb : num; id_disk_gb : num; id_rate : Q }.
Record MissingFull8xCapability := mkMissing8x {
  m8_ncu_profiling_access : option string;
  m8_ncu_profiling_scrape_error : option string
}.
Record PowerCapIncapable := mkIncapable { pi_container_cap_eff : string; pi_nvidiactl_owner_uid : Z }.
Record PowerCapReverted := mkReverted {
  pv_revert_count : nat;
  pv_window_hours : Z;
  pv_capped_to_watts : Z;
  pv_found_watts : Z
}.
Record PortLimitedRemainder := mkPortLimited {
  pl_available_port_count : Z;
  pl_required_port_count : Z;
  pl_free_split_count : Z;
  pl_paid_split_count : Z;
  pl_unpaid_gpu_count : Z
}.
Record DiskLimitedRemainder := mkDiskLimited {
  dl_free_split_count : Z;
  dl_paid_split_count : Z;
  dl_unpaid_gpu_count : Z
}.

(** pydantic's [str | None] field: any other JSON type fails the model's validation. *)
Definition ValidationError : exc := OtherError "ValidationError".
Definition str_or_none (v : json) : res (option string) :=
  match v with
  | JNull => Ok None
  | JStr s => Ok (Some s)
  | _ => Raise ValidationError
  end.

(** [len(set(l))]: Python equality identifies 1, 1.0 and True; a list or a dict
    is not hashable. *)
Definition same_key (v w : json) : bool :=
  match v, w with
  | JNull, JNull => true
  | JStr s, JStr t => String.eqb s t
  | JFloat (Inf s), JFloat (Inf t) => Bool.eqb s t
  | _, _ => match scalar_num v, scalar_num w with
            | Some a, Some b => Qeqb a b
            | _, _ => false
            end
  end.
Fixpoint distinct_keys (seen : list json) (l : list json) : res (list json) :=
  match l with
  | [] => Ok seen
  | (JList _ | JObj _) :: _ => Raise TypeError
  | v :: l' => distinct_keys (if existsb (same_key v) seen then seen else seen ++ [v]) l'
  end.

Section Gates.
Context `{R : Rounding}.
Local Open Scope float_scope.
Context (env : Env).
Let st := env_settings env.

(** [_is_over_soft_price_limit] *)
Definition is_over_soft_price_limit (r : JobResult) : bool :=
  match ex_price_per_gpu (jr_executor_info r) with
  | None => false
  | Some price =>
      if Qeqb price 0 then false
      else
        let p90 := match jr_gpu_model r with
                   | Some m => dget_or 0%Q m (sc_machine_prices_p90 (env_shared env))
                   | None => 0%Q
                   end in
        if Qeqb p90 0 then false
        else Qltb (p90 ⊗ sc_soft_limit_price_rate (env_shared env)) price
  end.

(** The two measurements of [_insufficient_disk]: GPU memory and disk, in GB. *)
Definition capacity_of (gpu : json) : res num :=
  capacity ← jget "capacity" gpu; py_float (py_or capacity (JInt 0)).
Definition measure_vram_gb (spec : list (string * json)) : res num :=
  details ← jget "details" (py_or (dget_or JNull "gpu" spec) (JObj []));
  gpus ← jiter (py_or details (JList []));
  total ← foldM (fun acc gpu => c ← capacity_of gpu; Ok (num_add acc c)) (Fin 0%Q) gpus;
  Ok (num_div_by (inject_Z 1024) total).
Definition measure_disk_gb (spec : list (string * json)) : res num :=
  total ← jget "total" (py_or (dget_or JNull "hard_disk" spec) (JObj []));
  kb ← py_float (py_or total (JInt 0));
  Ok (num_div_by (inject_Z (1024 ^ 2)) kb).

Definition caught_by_disk_gate (e : exc) : bool :=
  bool_decide (e = AttributeError \/ e = TypeError \/ e = ValueError).

(** [_insufficient_disk]: [None] when the margin is cleared or cannot be measured. *)
Definition insufficient_disk (r : JobResult) : res (option InsufficientDisk) :=
  match jr_spec r with
  | None | Some [] => Ok None
  | Some spec =>
      match (vram ← measure_vram_gb spec; disk ← measure_disk_gb spec; Ok (vram, disk)) with
      | Raise e => if caught_by_disk_gate e then Ok None else Raise e
      | Ok (vram, disk) =>
          if num_le vram (Fin 0) || num_le disk (Fin 0) then Ok None
          else
            let vram := num_round1 vram in
            let disk := num_round1 disk in
            if num_le (num_scale MIN_DISK_TO_VRAM_RATE vram) disk then Ok None
            else Ok (Some (mkInsufficientDisk vram disk MIN_DISK_TO_VRAM_RATE))
      end
  end.

(** Splitting that offers less than the whole node. *)
Definition has_real_splitting (r : JobResult) : bool :=
  jr_supports_gpu_splitting r
  && match jr_gpu_splitting_min_count r with
     | Some m => negb (m =? 0) && (m <? jr_gpu_count r)
     | None => false
     end.

(** [_missing_full_8x_capability] *)
Definition missing_full_8x_capability (r : JobResult) (base_model : string)
    : res (option MissingFull8xCapability) :=
  if negb (jr_gpu_count r =? FULL_8X_CAPABILITY_GPU_COUNT) then Ok None
  else if negb (in_list base_model FULL_8X_CAPABILITY_BASE_MODELS) then Ok None
  else match jr_spec r with
  | None => Ok None
  | Some spec =>
      let access := dget_or JNull "ncu_profiling_access" spec in
      let unrestricted := match access with
                          | JStr s => String.eqb s NCU_PROFILING_UNRESTRICTED
                          | _ => false
                          end in
      let attested_cvm := match jr_attestation_digest r with Some _ => true | None => false end in
      if unrestricted || has_real_splitting r || attested_cvm then Ok None
      else
        a ← str_or_none access;
        e ← str_or_none (dget_or JNull "ncu_profiling_scrape_error" spec);
        Ok (Some (mkMissing8x a e))
  end.

(** [_power_cap_incapable] *)
Definition power_cap_incapable (r : JobResult) : option PowerCapIncapable :=
  spec ← jr_spec r;
  match dget_or JNull "container_cap_eff" spec, dget_or JNull "nvidiactl_owner_uid" spec with
  | JStr cap_eff, JInt owner_uid =>
      match Text.py_int16 cap_eff with
      | None => None
      | Some mask =>
          let has_sys_admin := negb (Z.land (Z.shiftr mask CAP_SYS_ADMIN_BIT) 1 =? 0) in
          if has_sys_admin && (owner_uid =? NVIDIACTL_ROOT_UID) then None
          else Some (mkIncapable cap_eff owner_uid)
      end
  | _, _ => None
  end.

(** [_power_cap_reverted] *)
Definition power_cap_reverted (r : JobResult) : option PowerCapReverted :=
  match jr_spec r with
  | None => None
  | Some _ =>
      let reverts := read_gpu_power_cap_reverts env (ex_uuid (jr_executor_info r)) in
      if (List.length reverts <? MIN_POWER_CAP_REVERTS_TO_PENALIZE)%nat then None
      else match last reverts with
           | Some l => Some (mkReverted (List.length reverts) (CAP_REVERT_WINDOW_SECONDS / 3600)
                               (pr_capped_to_watts l) (pr_found_watts l))
           | None => None
           end
  end.

(** [_port_limited_remainder] *)
Definition port_limited_remainder (r : JobResult) : res (option PortLimitedRemainder) :=
  match jr_spec r, jr_gpu_splitting_min_count r with
  | Some spec, Some min_count =>
      if negb (jr_is_split_remainder r) || (min_count =? 0) then Ok None
      else match dget_or JNull "port_verify_first_miss" spec with
      | JBool true => Ok None
      | _ =>
          match strict_int (dget_or JNull "available_port_count" spec) with
          | None => Ok None
          | Some available =>
              available ← match dget_or JNull "verified_ports" spec with
                          | JList l => ks ← distinct_keys [] l;
                                       Ok (pyminZ available (Z.of_nat (List.length ks)))
                          | _ => Ok available
                          end;
              let free_gpu_count := jr_gpu_count r + jr_port_unpaid_gpu_count r in
              let free_split_count := free_gpu_count / min_count in
              let paid_split_count :=
                if MIN_PORT_COUNT <=? available then pyminZ free_split_count available else 0 in
              if (0 <? free_split_count) && (MIN_PORT_COUNT <=? available)
                 && (free_split_count <=? paid_split_count)
              then Ok None
              else Ok (Some (mkPortLimited available (pymaxZ free_split_count MIN_PORT_COUNT)
                     free_split_count paid_split_count
                     (if paid_split_count =? 0 then free_gpu_count
                      else (free_split_count - paid_split_count) * min_count)))
          end
      end
  | _, _ => Ok None
  end.

(** [_disk_limited_remainder] *)
Definition disk_limited_remainder (r : JobResult) : option DiskLimitedRemainder :=
  match jr_spec r, jr_gpu_splitting_min_count r with
  | Some spec, Some min_count =>
      if negb (jr_is_split_remainder r) || (min_count =? 0) then None
      else match dget_or JNull "split_disk" spec with
      | JObj sizing =>
          match strict_int (dget_or JNull "listable_split_count" sizing),
                strict_int (dget_or JNull "listable_gpu_count" sizing) with
          | Some listable, Some listable_gpus =>
              let free_gpu_count := jr_gpu_count r + jr_port_unpaid_gpu_count r in
              let paid_gpu_count := pyminZ free_gpu_count (pymaxZ listable_gpus 0) in
              if free_gpu_count <=? paid_gpu_count then None
              else Some (mkDiskLimited (free_gpu_count / min_count)
                     (if paid_gpu_count =? 0 then 0 else pymaxZ listable 0)
                     (free_gpu_count - paid_gpu_count))
          | _, _ => None
          end
      | _ => None
      end
  | _, _ => None
  end.

(** [_on_spot_pay_path] *)
Definition on_spot_pay_path (r : JobResult) : bool :=
  jr_is_spot r && jr_is_on_spot_pay_list r && negb (jr_is_rented r) && negb (jr_is_split_remainder r).

(** [_reasons_excluded_from_both_pools], in catalogue order *)
Definition reasons_excluded_from_both_pools (r : JobResult) : list ZeroIncentiveReason :=
  (if jr_is_provider_banned r then [BANNED_NETWORK_ABUSE] else [])
  ++ (if jr_is_spot r && negb (on_spot_pay_path r || earns_spot_rental_incentive st r)
      then [SPOT_TIER] else [])
  ++ (if jr_is_provider_email_held r then [PROVIDER_EMAIL_NOT_CONFIRMED]
      else if is_missing_discord_after_cutoff st (env_now env) r
      then [PROVIDER_DISCORD_NOT_CONNECTED] else [])
  ++ (if jr_is_new_rentals_paused r && negb (jr_is_rented r) then [NEW_RENTALS_PAUSED] else [])
  ++ (if jr_is_in_maintenance r then [PROVIDER_MAINTENANCE] else [])
  ++ (if bool_decide (jr_default_job_owner r = Some DEFAULT_JOB_OWNER_MINER) && negb (jr_is_rented r)
      then [MINER_DEFAULT_JOB] else [])
  ++ (if jr_is_hotkey_excluded_from_scoring r then [HOTKEY_EXCLUDED_FROM_SCORING] else []).

(** [_resolve_bucket] *)
Definition resolve_bucket (r : JobResult) (cap_spec : list (Z * Z)) : Z :=
  match jr_gpu_splitting_min_count r with
  | Some m =>
      if negb (jr_supports_gpu_splitting r) || (m =? 0) then jr_gpu_count r
      else if jr_is_split_remainder r then m
      else if 0 <? dget_or 0 (jr_gpu_count r) cap_spec then jr_gpu_count r
      else m
  | None => jr_gpu_count r
  end.

(** [_should_run_idle_pool_gate] *)
Definition should_run_idle_pool_gate (idle_pool_candidate eligible enforced : bool) : bool :=
  eligible || (idle_pool_candidate && enforced).
End Gates.
