(* ===== verification/RentalPrice.v ===== *)
(** * The rental-price incentive algorithm

    [incentive/rental_price.py], the class [RentalPriceIncentive]: idle nodes of
    an eligible GPU model are taken out of the mining pool and paid from a rental
    share of the burn emission, diluted per bucket (base model, GPU count) when
    supply exceeds the bucket's cap; spot pay and secure-floor top-ups are paid
    from what the burn emission has left; a partially rented split node is scored
    as two results and merged back.

    The candidate lists of the source hold references to results: here they hold
    addresses of the store of [IncentiveBase]. *)

From Stdlib Require Import Ascii String.
From S2P Require Import Prelude Float64 PyValue JobResult IncentiveConfig Readings Burn IncentiveBase DefaultIncentive RentalGates.

Local Open Scope string_scope.
Local Open Scope list_scope.
Local Open Scope Z_scope.

(** [(base_model, gpu_count_bucket)] *)
Notation bucket_key := (string * Z)%type (only parsing).

(** ** Snapshot models *)
Record GpuBucketRentalState := mkBucketState {
  gb_unrented_count : Z;
  gb_max_cap : Z;
  gb_cap_multiplier : Q;
  gb_weighted_rate_sum : Q
}.

Record RentalPriceSnapshot := mkSnapshot {
  sn_epoch_subnet_emission : Q;
  sn_rental_share : Q;
  sn_burn_share : Q;
  sn_total_gpu_count : Z;
  sn_total_mining_score : Q;
  sn_total_gpu_model_count_map : list (string * Z);
  sn_total_rental_cost : Q;
  sn_by_bucket : list (string * GpuBucketRentalState);
  sn_unbucketed_rental_cost : Q
}.

(** ** Attributes of the algorithm ([burn_share] and the mining ones are in [rp_base]) *)
Record RentalState := mkRental {
  rp_base : DefaultState;
  rp_unrented_count_by_bucket : list (bucket_key * Z);
  rp_weighted_rate_sum_by_bucket : list (bucket_key * Q);
  rp_cap_multiplier_by_bucket : list (bucket_key * Q);
  rp_split_fallback_candidates : list (string * addr);
  rp_unbucketed_rental_cost : Q;
  rp_unbucketed_share : Q;
  rp_unbucketed_share_raw : Q;
  rp_unbucketed_paid_fraction : Q;
  rp_spot_pay_candidates : list (string * addr);
  rp_secure_floor_candidates : list (string * addr);
  rp_total_rental_cost : Q;
  rp_rental_share : Q;
  rp_rental_share_raw : Q;
  rp_total_burn_emission : Q;
  rp_epoch_subnet_emission : Q;
  rp_validator_tao_price_usd : option Q;
  rp_validator_alpha_rate_tao_per_block : option Q;
  rp_seed_snapshot : option RentalPriceSnapshot
}.

(** One functional update per attribute the code assigns. *)
Definition rp_eta (s : RentalState) : RentalState := mkRental
  (rp_base s) (rp_unrented_count_by_bucket s) (rp_weighted_rate_sum_by_bucket s)
  (rp_cap_multiplier_by_bucket s) (rp_split_fallback_candidates s) (rp_unbucketed_rental_cost s)
  (rp_unbucketed_share s) (rp_unbucketed_share_raw s) (rp_unbucketed_paid_fraction s)
  (rp_spot_pay_candidates s) (rp_secure_floor_candidates s) (rp_total_rental_cost s)
  (rp_rental_share s) (rp_rental_share_raw s) (rp_total_burn_emission s)
  (rp_epoch_subnet_emission s) (rp_validator_tao_price_usd s)
  (rp_validator_alpha_rate_tao_per_block s) (rp_seed_snapshot s).

Ltac rp_setter proj :=
  let e := eval cbv beta delta [rp_eta] in rp_eta in
  match eval pattern proj in e with
  | ?setter _ =>
      let t := constr:(fun v (s : RentalState) => setter (fun _ => v) s) in
      let t := eval cbv beta in t in exact t
  end.

Definition set_rp_base (v : DefaultState) (s : RentalState) : RentalState :=
  ltac:(rp_setter rp_base) v s.
Definition set_rp_unrented_count_by_bucket (v : list (bucket_key * Z)) (s : RentalState) : RentalState :=
  ltac:(rp_setter rp_unrented_count_by_bucket) v s.
Definition set_rp_weighted_rate_sum_by_bucket (v : list (bucket_key * Q)) (s : RentalState) : RentalState :=
  ltac:(rp_setter rp_weighted_rate_sum_by_bucket) v s.
Definition set_rp_cap_multiplier_by_bucket (v : list (bucket_key * Q)) (s : RentalState) : RentalState :=
  ltac:(rp_setter rp_cap_multiplier_by_bucket) v s.
Definition set_rp_split_fallback_candidates (v : list (string * addr)) (s : RentalState) : RentalState :=
  ltac:(rp_setter rp_split_fallback_candidates) v s.
Definition set_rp_unbucketed_rental_cost (v : Q) (s : RentalState) : RentalState :=
  ltac:(rp_setter rp_unbucketed_rental_cost) v s.
Definition set_rp_unbucketed_share (v : Q) (s : RentalState) : RentalState :=
  ltac:(rp_setter rp_unbucketed_share) v s.
Definition set_rp_unbucketed_share_raw (v : Q) (s : RentalState) : RentalState :=
  ltac:(rp_setter rp_unbucketed_share_raw) v s.
Definition set_rp_unbucketed_paid_fraction (v : Q) (s : RentalState) : RentalState :=
  ltac:(rp_setter rp_unbucketed_paid_fraction) v s.
Definition set_rp_spot_pay_candidates (v : list (string * addr)) (s : RentalState) : RentalState :=
  ltac:(rp_setter rp_spot_pay_candidates) v s.
Definition set_rp_secure_floor_candidates (v : list (string * addr)) (s : RentalState) : RentalState :=
  ltac:(rp_setter rp_secure_floor_candidates) v s.
Definition set_rp_total_rental_cost (v : Q) (s : RentalState) : RentalState :=
  ltac:(rp_setter rp_total_rental_cost) v s.
Definition set_rp_rental_share (v : Q) (s : RentalState) : RentalState :=
  ltac:(rp_setter rp_rental_share) v s.
Definition set_rp_rental_share_raw (v : Q) (s : RentalState) : RentalState :=
  ltac:(rp_setter rp_rental_share_raw) v s.
Definition set_rp_epoch_subnet_emission (v : Q) (s : RentalState) : RentalState :=
  ltac:(rp_setter rp_epoch_subnet_emission) v s.
Definition set_rp_validator_tao_price_usd (v : option Q) (s : RentalState) : RentalState :=
  ltac:(rp_setter rp_validator_tao_price_usd) v s.
Definition set_rp_validator_alpha_rate_tao_per_block (v : option Q) (s : RentalState) : RentalState :=
  ltac:(rp_setter rp_validator_alpha_rate_tao_per_block) v s.

(** [_bucket_key_str]: the base model, U+00B7 (two bytes in UTF-8), the bucket. *)
Definition KEY_SEP : string := "·".
Definition bucket_key_str (k : bucket_key) : string := k.1 ++ KEY_SEP ++ Text.str_of_Z k.2.

Section Engine.
Context `{R : Rounding}.
Local Open Scope float_scope.
Context (env : Env).
Let st := env_settings env.
Let cfg := env_config env.

Definition in_program (base_model : string) : bool :=
  in_list base_model (cfg_rental_incentive_gpu_types cfg).
(** [score > 0 or job_score > 0] *)
Definition has_score (r : JobResult) : bool := Qltb 0 (jr_score r) || Qltb 0 (jr_job_score r).

(** ** Scoring one result *)

(** The unrented driver multiplier: the node is judged as not rented. *)
Definition idle_driver_multiplier (r : JobResult) : Q :=
  get_min_driver_multiplier st (env_now env) (jr_nvidia_driver_version r) false.
Definition idle_sysbox_multiplier (r : JobResult) : Q :=
  if jr_sysbox_runtime r then 1%Q else 1 ⊖ PORTION_FOR_SYSBOX_UNRENTED st.

(** [_record_zero_driver_and_sysbox_reasons] *)
Definition record_zero_driver_and_sysbox_reasons (driver sysbox : Q) (r : JobResult) : JobResult :=
  let r := if Qeqb driver 0 then log_no_payout NVIDIA_DRIVER_BELOW_MINIMUM r else r in
  if Qeqb sysbox 0 then log_no_payout SYSBOX_NOT_ENABLED r else r.

(** [_qualify_spot_node] *)
Definition qualify_spot_node (excluded_from_both_pools : bool) (r : JobResult) : JobResult :=
  let r := set_mining_score (Some 0%Q) (set_eligible_for_rental_share false r) in
  if excluded_from_both_pools || negb (has_score r) then r
  else if negb (jr_has_lium_filler r) then log_no_payout SPOT_WITHOUT_LIUM_FILLER r
  else match jr_filler_revenue_per_gpu_hour r with
       | None => log_no_payout SPOT_NO_FILLER_REVENUE_FOR_GPU_CONFIG r
       | Some _ => set_spot_pay_candidate true r
       end.

(** [_qualify_spot_node_by_the_secure_decision] *)
Definition qualify_spot_node_by_the_secure_decision (r : JobResult) : JobResult :=
  let r := set_mining_score (Some 0%Q) (set_eligible_for_rental_share false r) in
  match jr_filler_revenue_per_gpu_hour r with
  | None => log_no_payout SPOT_NO_FILLER_REVENUE_FOR_GPU_CONFIG r
  | Some _ => set_spot_pay_candidate true r
  end.

(** The port rule of [calculate_executor_score] on a split remainder. *)
Definition apply_port_limit (candidate : bool) (er : bool * JobResult) : res (bool * JobResult) :=
  let '(eligible, r) := er in
  limited ← (if candidate then port_limited_remainder r else Ok None);
  match limited with
  | None => Ok er
  | Some pl =>
      let '(eligible, r) :=
        if pl_paid_split_count pl =? 0 then (false, r)
        else (eligible,
              set_port_unpaid_gpu_count (jr_port_unpaid_gpu_count r + pl_unpaid_gpu_count pl)
                (set_gpu_count (jr_gpu_count r - pl_unpaid_gpu_count pl) r)) in
      Ok (eligible, log_no_payout PORT_LIMITED_REMAINDER r)
  end.

(** The disk rule, read after the port rule. *)
Definition apply_disk_limit (candidate : bool) (er : bool * JobResult) : bool * JobResult :=
  let '(eligible, r) := er in
  match (if candidate then disk_limited_remainder r else None) with
  | None => er
  | Some dl =>
      let '(eligible, r) :=
        if dl_paid_split_count dl =? 0 then (false, r)
        else
          let newly_unpaid := pymaxZ 0 (dl_unpaid_gpu_count dl - jr_port_unpaid_gpu_count r) in
          (eligible,
           set_port_unpaid_gpu_count (jr_port_unpaid_gpu_count r + newly_unpaid)
             (set_gpu_count (jr_gpu_count r - newly_unpaid) r)) in
      (eligible, log_no_payout DISK_LIMITED_REMAINDER r)
  end.

(** One enforced idle-pool gate: it runs on every candidate, blocks the node
    and records its reason. *)
Definition apply_gate (candidate : bool) (hit : JobResult -> res bool) (reason : ZeroIncentiveReason)
    (er : bool * JobResult) : res (bool * JobResult) :=
  let '(eligible, r) := er in
  blocked ← (if should_run_idle_pool_gate candidate eligible true then hit r else Ok false);
  Ok (if (blocked : bool) then (false, log_no_payout reason r) else er).

Definition is_some {A} (o : option A) : bool := match o with Some _ => true | None => false end.

(** The power cap revert gate: it only records while its flag is off. *)
Definition apply_revert_gate (candidate : bool) (er : bool * JobResult) : bool * JobResult :=
  let '(eligible, r) := er in
  let enforced := ENABLE_UNRENTED_POWER_CAP_REVERT_LIMIT st in
  if should_run_idle_pool_gate candidate eligible enforced && is_some (power_cap_reverted env r) && enforced
  then (false, log_no_payout REVERTS_GPU_POWER_CAP r) else er.

(** The chain of idle-pool gates of [calculate_executor_score], in order. *)
Definition idle_pool_gates (candidate : bool) (base_model : string) (er : bool * JobResult)
    : res (bool * JobResult) :=
  er ← apply_port_limit candidate er;
  let er := apply_disk_limit candidate er in
  er ← apply_gate candidate (fun r => Ok (is_over_soft_price_limit env r))
         PRICE_ABOVE_MARKET_P90_SOFT_LIMIT er;
  er ← apply_gate candidate (fun r => o ← insufficient_disk r; Ok (is_some o))
         INSUFFICIENT_DISK_FOR_VRAM er;
  er ← apply_gate candidate (fun r => o ← missing_full_8x_capability r base_model; Ok (is_some o))
         FULL_8X_WITHOUT_NCU_OR_SPLIT er;
  er ← apply_gate candidate (fun r => Ok (is_some (power_cap_incapable r)))
         CANNOT_APPLY_GPU_POWER_CAP er;
  Ok (apply_revert_gate candidate er).

(** [_spot_rental_factor] *)
Definition spot_rental_factor (r : JobResult) : Q :=
  if earns_spot_rental_incentive st r then SPOT_RENTAL_INCENTIVE_FACTOR else 1%Q.

(** The part of [calculate_executor_score] after the gates. *)
Definition route_to_pool (total_gpu_model_count_map : list (string * Z)) (base_model : string)
    (excluded on_spot eligible : bool) (r : JobResult) : res JobResult :=
  if on_spot && eligible then Ok (qualify_spot_node_by_the_secure_decision r)
  else
    let r := set_eligible_for_rental_share eligible r in
    if eligible then Ok (set_mining_score (Some 0%Q) r)
    else if negb (jr_is_rented r) then
      let r := set_mining_score (Some 0%Q) r in
      Ok (if negb (in_program base_model) && has_score r
          then log_no_payout GPU_MODEL_NOT_ELIGIBLE_FOR_UNRENTED_INCENTIVE r else r)
    else if excluded then Ok (set_mining_score (Some 0%Q) r)
    else default_calculate_executor_score env spot_rental_factor total_gpu_model_count_map r.

(** [RentalPriceIncentive.calculate_executor_score] *)
Definition rental_calculate_executor_score (total_gpu_model_count_map : list (string * Z))
    (r : JobResult) : res JobResult :=
  let '(r, excluded_for_outdated_image) := record_outdated_image_reason st r in
  let exclusions := reasons_excluded_from_both_pools env r in
  let r := fold_left (fun r reason => log_no_payout reason r) exclusions r in
  let excluded := excluded_for_outdated_image || negb (bool_decide (exclusions = [])) in
  let on_spot := on_spot_pay_path r in
  if on_spot && negb (SPOT_IDLE_PAY_SECURE_DECISION_ENABLED st)
  then Ok (qualify_spot_node excluded r)
  else if excluded && negb (match jr_gpu_model r with Some m => din m BASE_GPU_MAP | None => false end)
  then Ok (set_mining_score (Some 0%Q) (set_eligible_for_rental_share false r))
  else
    base_model ← get_base_model_for_gpu (jr_gpu_model r);
    let candidate := negb (jr_is_rented r) && in_program base_model && has_score r in
    er ← idle_pool_gates candidate base_model (candidate && negb excluded, r);
    let '(eligible, r) := er in
    let r := if candidate && negb eligible
             then record_zero_driver_and_sysbox_reasons (idle_driver_multiplier r)
                    (idle_sysbox_multiplier r) r
             else r in
    route_to_pool total_gpu_model_count_map base_model excluded on_spot eligible r.

(** ** Pre-processing *)

(** [_listed_hourly_rate]: the better of the bundle rate and the split rate. *)
Definition rate_for (r : JobResult) (gpu_count : Z) : Q :=
  get_hourly_rate (jr_gpu_model r) gpu_count (cfg_gpu_count_custom_prices cfg)
    (cfg_rental_prices_per_hour cfg).
Definition splits (r : JobResult) : bool :=
  jr_supports_gpu_splitting r && truthyZ (jr_gpu_splitting_min_count r).
Definition listed_hourly_rate (r : JobResult) : res Q :=
  rated ← (if jr_is_split_remainder r then need (jr_gpu_splitting_min_count r) else Ok (jr_gpu_count r));
  let hourly_rate := rate_for r rated in
  if splits r then
    min_count ← need (jr_gpu_splitting_min_count r);
    Ok (pymax hourly_rate (rate_for r min_count))
  else Ok hourly_rate.

(** [_spot_secure_rate] *)
Definition spot_secure_rate (r : JobResult) : res Q :=
  hourly_rate ← need (jr_hourly_rate r);
  sysbox ← need (jr_sysbox_multiplier r);
  driver ← need (jr_driver_multiplier r);
  Ok ((hourly_rate ⊗ sysbox) ⊗ driver).

(** [_price_spot_node] *)
Definition price_spot_node (a : addr) (r : JobResult) (s : RentalState) : res (JobResult * RentalState) :=
  base_model ← get_base_model_for_gpu (jr_gpu_model r);
  let cap_spec := cap_spec_of cfg base_model in
  let bucket := resolve_bucket r cap_spec in
  let r := set_count_bucket (Some bucket) r in
  let sysbox := idle_sysbox_multiplier r in
  let r := set_sysbox_multiplier (Some sysbox) r in
  let driver := idle_driver_multiplier r in
  let r := set_driver_multiplier (Some driver) r in
  r ← (if negb (in_program base_model) then
         Ok (log_no_payout GPU_MODEL_NOT_ELIGIBLE_FOR_UNRENTED_INCENTIVE (set_hourly_rate (Some 0%Q) r))
       else if dget_or 0 bucket cap_spec <=? 0 then
         Ok (log_no_payout NO_UNRENTED_CAPACITY_FOR_GPU_COUNT (set_hourly_rate (Some 0%Q) r))
       else (rate ← listed_hourly_rate r; Ok (set_hourly_rate (Some rate) r)));
  let r := record_zero_driver_and_sysbox_reasons driver sysbox r in
  filler ← need (jr_filler_revenue_per_gpu_hour r);
  secure ← spot_secure_rate r;
  let r := set_effective_rate (Some (pymin (FILLER_REVENUE_PAY_FACTOR ⊗ filler) secure)) r in
  Ok (r, set_rp_spot_pay_candidates (rp_spot_pay_candidates s ++ [(base_model, a)]) s).

(** [gpu_count * hourly_rate * sysbox_multiplier * driver_multiplier] *)
Definition weighted_rate (gpu_count : Z) (hourly_rate sysbox driver : Q) : Q :=
  ((fint gpu_count ⊗ hourly_rate) ⊗ sysbox) ⊗ driver.

(** A split-capable node rated against its whole-node bucket. *)
Definition is_split_candidate (r : JobResult) (bucket : Z) : bool :=
  splits r && (bucket =? jr_gpu_count r)
  && negb (bool_decide (jr_gpu_splitting_min_count r = Some bucket)).

(** The accumulation of an eligible node into its bucket. *)
Definition accumulate_bucket (base_model : string) (bucket : Z) (a : addr) (r : JobResult)
    (weight : Q) (s : RentalState) : RentalState :=
  let key := (base_model, bucket) in
  let s := set_rp_unrented_count_by_bucket
    (dset key (dget_or 0 key (rp_unrented_count_by_bucket s) + jr_gpu_count r)
      (rp_unrented_count_by_bucket s)) s in
  let s := set_rp_weighted_rate_sum_by_bucket
    (dset key (dget_or 0%Q key (rp_weighted_rate_sum_by_bucket s) ⊕ weight)
      (rp_weighted_rate_sum_by_bucket s)) s in
  let s := match jr_filler_revenue_per_gpu_hour r with
           | Some _ => set_rp_secure_floor_candidates (rp_secure_floor_candidates s ++ [(base_model, a)]) s
           | None => s
           end in
  if is_split_candidate r bucket
  then set_rp_split_fallback_candidates (rp_split_fallback_candidates s ++ [(base_model, a)]) s else s.

(** The last part of [_pre_process_job_result]: pricing an eligible idle node. *)
Definition price_idle_node (base_model : string) (a : addr) (r : JobResult) (s : RentalState)
    : res (JobResult * RentalState) :=
  rate ← listed_hourly_rate r;
  let r := set_hourly_rate (Some rate) r in
  let sysbox := idle_sysbox_multiplier r in
  let r := set_sysbox_multiplier (Some sysbox) r in
  let driver := idle_driver_multiplier r in
  let r := set_driver_multiplier (Some driver) r in
  let cap_spec := cap_spec_of cfg base_model in
  let bucket := resolve_bucket r cap_spec in
  let max_cap := dget_or 0 bucket cap_spec in
  let r := set_max_cap (Some max_cap) (set_count_bucket (Some bucket) r) in
  if Qltb 0 rate && (0 <? max_cap)
  then Ok (r, accumulate_bucket base_model bucket a r
                (weighted_rate (jr_gpu_count r) rate sysbox driver) s)
  else Ok (r, s).

(** [RentalPriceIncentive._pre_process_job_result] *)
Definition rental_pre_process (a : addr) (r : JobResult) (s : RentalState)
    : res (JobResult * RentalState) :=
  let '(r, _) := record_outdated_image_reason st r in
  if negb (is_successful r) then Ok (record_validation_failed_reason r, s)
  else
    rb ← default_pre_process
           (rental_calculate_executor_score (ds_total_gpu_model_count_map (rp_base s))) r (rp_base s);
    let '(r, base) := rb in
    let s := set_rp_base base s in
    if jr_spot_pay_candidate r then price_spot_node a r s
    else
      base_model ← get_base_model_for_gpu (jr_gpu_model r);
      if negb (in_program base_model) then Ok (r, s)
      else if jr_eligible_for_rental_share r then price_idle_node base_model a r s
      else Ok (r, s).

(** ** Between the passes *)

(** [_reassign_split_candidates], one candidate. *)
Definition reassign_step (hs : list JobResult * RentalState) (c : string * addr)
    : res (list JobResult * RentalState) :=
  let '(heap, s) := hs in
  let '(base_model, a) := c in
  r ← deref heap a;
  match jr_count_bucket r, jr_gpu_splitting_min_count r with
  | Some src_bucket, Some tgt_bucket =>
  let cap_spec := cap_spec_of cfg base_model in
  let src_cap := dget_or 0 src_bucket cap_spec in
  let tgt_cap := dget_or 0 tgt_bucket cap_spec in
  let src_key := (base_model, src_bucket) in
  let tgt_key := (base_model, tgt_bucket) in
  let counts := rp_unrented_count_by_bucket s in
  let src_count := dget_or 0 src_key counts in
  let tgt_count := dget_or 0 tgt_key counts in
  if tgt_cap <=? 0 then Ok hs
  else if src_count <=? src_cap then Ok hs
  else if tgt_cap <? tgt_count + jr_gpu_count r then Ok hs
  else
    let src_multiplier := rnd (inject_Z (pyminZ src_count src_cap) / inject_Z src_count) in
    hourly_rate ← need (jr_hourly_rate r);
    sysbox ← need (jr_sysbox_multiplier r);
    driver ← need (jr_driver_multiplier r);
    let weight := weighted_rate (jr_gpu_count r) hourly_rate sysbox driver in
    let sums := rp_weighted_rate_sum_by_bucket s in
    src_sum ← (match dget src_key sums with Some v => Ok v | None => Raise KeyError end);
    let sums := dset src_key (src_sum ⊖ weight) sums in
    let s := set_rp_unrented_count_by_bucket
      (dset tgt_key (tgt_count + jr_gpu_count r) (dset src_key (src_count - jr_gpu_count r) counts)) s in
    let s := set_rp_weighted_rate_sum_by_bucket
      (dset tgt_key (dget_or 0%Q tgt_key sums ⊕ weight) sums) s in
    let r := set_max_cap (Some tgt_cap) (set_count_bucket (Some tgt_bucket)
      (set_bucket_reassigned_from_multiplier (Some src_multiplier)
        (set_bucket_reassigned_from (Some src_bucket) r))) in
    Ok (<[a := r]> heap, s)
  | _, _ => Ok hs
  end.

(** Candidates in ascending executor-uuid order. *)
Definition uuid_at (heap : list JobResult) (a : addr) : string :=
  match heap !! a with Some r => ex_uuid (jr_executor_info r) | None => "" end.
Definition reassign_split_candidates (heap : list JobResult) (s : RentalState)
    : res (list JobResult * RentalState) :=
  foldM reassign_step (heap, s)
    (psort (fun c d => String.leb (uuid_at heap c.2) (uuid_at heap d.2)) (rp_split_fallback_candidates s)).

(** Step 1 of [_on_finish_pre_process]: the cap multiplier of every bucket. *)
Definition cap_multiplier_step (mults : list (bucket_key * Q)) (kc : bucket_key * Z)
    : list (bucket_key * Q) :=
  let max_cap := dget_or 0 kc.1.2 (cap_spec_of cfg kc.1.1) in
  if (0 <? kc.2) && (0 <? max_cap)
  then dset kc.1 (rnd (inject_Z (pyminZ kc.2 max_cap) / inject_Z kc.2)) mults else mults.
Definition cap_multipliers (s : RentalState) : list (bucket_key * Q) :=
  fold_left cap_multiplier_step (rp_unrented_count_by_bucket s) (rp_cap_multiplier_by_bucket s).

(** Step 2: the diluted USD/hour of all the buckets. *)
Definition bucket_cost (mults : list (bucket_key * Q)) (acc : Q) (kw : bucket_key * Q) : Q :=
  acc ⊕ (dget_or 0%Q kw.1 mults ⊗ kw.2).

(** [_spot_pay_within_filler_earnings]: first pass, the sums per base model. *)
Definition spot_sum_step (heap : list JobResult) (acc : list (string * Q) * list (string * Q))
    (c : string * addr) : res (list (string * Q) * list (string * Q)) :=
  r ← deref heap c.2;
  effective ← need (jr_effective_rate r);
  let pool := match jr_filler_revenue_usd_per_hour r with Some p => p | None => 0%Q end in
  Ok (dset c.1 (dget_or 0%Q c.1 acc.1 ⊕ (fint (jr_gpu_count r) ⊗ effective)) acc.1,
      dset c.1 pool acc.2).

Definition spot_multiplier (rate_sum pool : Q) : Q :=
  if Qltb 0 rate_sum then pymin 1 (pool ⊘ rate_sum) else 1%Q.

(** Second pass: every candidate of a model is scaled by the same multiplier. *)
Definition spot_pay_step (sums pools : list (string * Q)) (acc : list JobResult * Q)
    (c : string * addr) : res (list JobResult * Q) :=
  let '(heap, total) := acc in
  r ← deref heap c.2;
  rate_sum ← key_of c.1 sums;
  pool ← key_of c.1 pools;
  effective ← need (jr_effective_rate r);
  let multiplier := spot_multiplier rate_sum pool in
  let effective := effective ⊗ multiplier in
  let r := set_effective_rate (Some effective) (set_spot_pool_multiplier (Some multiplier) r) in
  Ok (<[c.2 := r]> heap, total ⊕ (fint (jr_gpu_count r) ⊗ effective)).

Definition spot_pay_within_filler_earnings (heap : list JobResult) (s : RentalState)
    : res (list JobResult * Q) :=
  sums ← foldM (spot_sum_step heap) ([], []) (rp_spot_pay_candidates s);
  foldM (spot_pay_step sums.1 sums.2) (heap, 0%Q) (rp_spot_pay_candidates s).

(** [_floored_rate] *)
Definition floored_rate (r : JobResult) (diluted_rate : Q) : Q :=
  match jr_filler_revenue_per_gpu_hour r with
  | None => diluted_rate
  | Some filler =>
      if negb (truthyZ (jr_max_cap r))
         || match jr_hourly_rate r with Some h => Qeqb h 0 | None => true end
      then diluted_rate
      else pymax diluted_rate (SECURE_FILLER_REVENUE_FLOOR_FACTOR ⊗ filler)
  end.

(** [_secure_floor_top_up] *)
Definition secure_floor_step (heap : list JobResult) (s : RentalState) (top_up : Q) (c : string * addr)
    : res Q :=
  r ← deref heap c.2;
  let cap_multiplier := match jr_count_bucket r with
                        | Some b => dget_or 0%Q (c.1, b) (rp_cap_multiplier_by_bucket s)
                        | None => 0%Q
                        end in
  hourly_rate ← need (jr_hourly_rate r);
  sysbox ← need (jr_sysbox_multiplier r);
  driver ← need (jr_driver_multiplier r);
  let diluted := hourly_rate ⊗ cap_multiplier in
  Ok (top_up ⊕ (((fint (jr_gpu_count r) ⊗ (floored_rate r diluted ⊖ diluted)) ⊗ sysbox) ⊗ driver)).
Definition secure_floor_top_up (heap : list JobResult) (s : RentalState) : res Q :=
  foldM (secure_floor_step heap s) 0%Q (rp_secure_floor_candidates s).

(** [_share_for_rental_cost], also the last lines of [_calculate_rental_share] *)
Definition FIXED_RATIO : Q := rnd (41 # 100).
Definition share_for_rental_cost (epoch_subnet_emission rental_cost : Q) : Q :=
  if Qleb epoch_subnet_emission 0 then 0%Q
  else (((rental_cost ⊗ fint (TEMPO * SECONDS_PER_BLOCK)) ⊘ fint 3600) ⊘ FIXED_RATIO)
         ⊘ epoch_subnet_emission.

(** [_calculate_rental_share]: the raw share, after storing the epoch emission. *)
Definition calculate_rental_share (total_rental_cost : Q) (s : RentalState) : Q * RentalState :=
  match rp_seed_snapshot s with
  | Some _ => (share_for_rental_cost (rp_epoch_subnet_emission s) total_rental_cost, s)
  | None =>
      match env_tao_price env, env_alpha_rate env with
      | Some tao_price, Some alpha_rate =>
          let emission := (fint TEMPO ⊗ tao_price) ⊗ alpha_rate in
          (share_for_rental_cost emission total_rental_cost,
           set_rp_epoch_subnet_emission emission
             (set_rp_validator_alpha_rate_tao_per_block (Some alpha_rate)
               (set_rp_validator_tao_price_usd (Some tao_price) s)))
      | _, _ => (0%Q, s)
      end
  end.

(** [_settle_unbucketed_share] *)
Definition settle_unbucketed_share (s : RentalState) : RentalState :=
  let raw := share_for_rental_cost (rp_epoch_subnet_emission s) (rp_unbucketed_rental_cost s) in
  let headroom := pymax 0 (rp_total_burn_emission s ⊖ rp_rental_share s) in
  let share := pymin raw headroom in
  set_rp_unbucketed_paid_fraction (if Qltb 0 raw then share ⊘ raw else 1%Q)
    (set_rp_unbucketed_share share (set_rp_unbucketed_share_raw raw s)).

(** The shares: rental, unbucketed, and the burn that is left. *)
Definition settle_shares (s : RentalState) : RentalState :=
  let '(raw, s) := calculate_rental_share (rp_total_rental_cost s) s in
  let s := set_rp_rental_share_raw raw s in
  let s := set_rp_rental_share (pymin raw (rp_total_burn_emission s)) s in
  let s := settle_unbucketed_share s in
  set_rp_base (set_ds_burn_share
    ((rp_total_burn_emission s ⊖ rp_rental_share s) ⊖ rp_unbucketed_share s) (rp_base s)) s.

(** [RentalPriceIncentive._on_finish_pre_process] *)
Definition rental_on_finish (heap : list JobResult) (s : RentalState)
    : res (list JobResult * RentalState) :=
  hs ← reassign_split_candidates heap s;
  let '(heap, s) := hs in
  let s := set_rp_cap_multiplier_by_bucket (cap_multipliers s) s in
  let s := set_rp_total_rental_cost
    (fold_left (bucket_cost (rp_cap_multiplier_by_bucket s)) (rp_weighted_rate_sum_by_bucket s)
      (rp_total_rental_cost s)) s in
  ht ← spot_pay_within_filler_earnings heap s;
  let '(heap, spot_total) := ht in
  let s := set_rp_unbucketed_rental_cost (rp_unbucketed_rental_cost s ⊕ spot_total) s in
  top_up ← secure_floor_top_up heap s;
  let s := set_rp_unbucketed_rental_cost (rp_unbucketed_rental_cost s ⊕ top_up) s in
  Ok (heap, settle_shares s).

(** ** Post-processing *)

(** [_set_cycle_formula_context] *)
Definition set_cycle_formula_context (s : RentalState) (r : JobResult) : JobResult :=
  let r := set_rental_share (Some (rp_rental_share s)) r in
  let r := set_rental_share_raw (Some (rp_rental_share_raw s)) r in
  let r := set_burn_share (Some (ds_burn_share (rp_base s))) r in
  let r := set_total_burn_emission (Some (rp_total_burn_emission s)) r in
  let r := set_total_rental_cost (Some (rp_total_rental_cost s)) r in
  let r := set_validator_tao_price_usd (rp_validator_tao_price_usd s) r in
  let r := set_validator_alpha_rate_tao_per_block (rp_validator_alpha_rate_tao_per_block s) r in
  let r := set_estimated_epoch_emission_usd (Some (rp_epoch_subnet_emission s)) r in
  let r := set_tempo_blocks (Some TEMPO) r in
  let r := set_seconds_per_block (Some SECONDS_PER_BLOCK) r in
  set_fixed_ratio (Some FIXED_RATIO) r.

(** [_pay_unbucketed] *)
Definition pay_unbucketed (s : RentalState) (top_up_rate : Q) (r : JobResult) : JobResult * Q :=
  let r := set_unbucketed_share (Some (rp_unbucketed_share s)) r in
  let r := set_unbucketed_rental_cost (Some (rp_unbucketed_rental_cost s)) r in
  let r := set_floor_top_up_rate (Some top_up_rate) r in
  (r, if Qleb (rp_unbucketed_rental_cost s) 0 then 0%Q
      else ((rp_unbucketed_share s ⊗ fint (jr_gpu_count r)) ⊗ top_up_rate) ⊘ rp_unbucketed_rental_cost s).

(** [_unbucketed_clamped_to_zero] *)
Definition unbucketed_clamped_to_zero (s : RentalState) : bool :=
  Qltb 0 (rp_unbucketed_share_raw s) && Qleb (rp_unbucketed_share s) 0.

Definition credit (hotkey : string) (incentive : Q) (s : RentalState) : RentalState :=
  set_rp_base (add_miner_incentive hotkey incentive (rp_base s)) s.

(** The spot branch of [_post_process_job_result]. *)
Definition post_spot (hotkey : string) (r : JobResult) (s : RentalState) : res (JobResult * RentalState) :=
  let r := set_cycle_formula_context s r in
  effective ← need (jr_effective_rate r);
  let '(r, pay) := pay_unbucketed s effective r in
  let r := set_incentive (Some pay) r in
  r ← (if Qltb 0 effective && unbucketed_clamped_to_zero s
       then Ok (log_no_payout SPOT_NO_HEADROOM_AT_BURN_CAP r)
       else (_ ← spot_secure_rate r;
             _ ← need (jr_filler_revenue_per_gpu_hour r);
             Ok (log_line SpotPayIncentiveCalculated r)));
  Ok (r, credit hotkey pay s).

(** [_explain_zero_effective_rate] *)
Definition explain_zero_effective_rate (cap_multiplier driver sysbox : Q) (r : JobResult) : JobResult :=
  let r := if Qeqb cap_multiplier 0 then log_no_payout NO_UNRENTED_CAPACITY_FOR_GPU_COUNT r else r in
  record_zero_driver_and_sysbox_reasons driver sysbox r.

(** The secure-floor part of [_post_process_job_result]. *)
Definition add_floor_top_up (s : RentalState) (top_up_rate incentive : Q) (r : JobResult)
    : JobResult * Q :=
  if Qltb 0 top_up_rate then
    let '(r, top_up) := pay_unbucketed s top_up_rate r in
    let incentive := incentive ⊕ top_up in
    let r := set_incentive (Some incentive) r in
    (if Qltb 0 top_up then log_line SecureFloorApplied r
     else if unbucketed_clamped_to_zero s then log_line SecureFloorNotPaid r else r, incentive)
  else (r, incentive).

(** The idle branch of [_post_process_job_result]. *)
Definition post_idle (hotkey : string) (r : JobResult) (s : RentalState) : res (JobResult * RentalState) :=
  base_model ← get_base_model_for_gpu (jr_gpu_model r);
  let bucket := match jr_count_bucket r with
                | Some b => b
                | None => resolve_bucket r (cap_spec_of cfg base_model)
                end in
  let key := (base_model, bucket) in
  let total_unrented := dget_or 0 key (rp_unrented_count_by_bucket s) in
  max_cap ← need (jr_max_cap r);
  hourly_rate ← need (jr_hourly_rate r);
  sysbox ← need (jr_sysbox_multiplier r);
  driver ← need (jr_driver_multiplier r);
  let cap_multiplier := dget_or 0%Q key (rp_cap_multiplier_by_bucket s) in
  let diluted_rate := hourly_rate ⊗ cap_multiplier in
  let floored := floored_rate r diluted_rate in
  let effective := (diluted_rate ⊗ sysbox) ⊗ driver in
  let r := set_total_unrented_by_gpu_type (Some total_unrented) r in
  let r := set_cap_dilution_applied (Some (max_cap <? total_unrented)) r in
  let r := set_unrented_cap_multiplier (Some cap_multiplier) r in
  let r := set_effective_rate (Some effective) r in
  let r := set_cycle_formula_context s r in
  let incentive :=
    if Qltb 0 (rp_total_rental_cost s)
    then ((rp_rental_share s ⊗ fint (jr_gpu_count r)) ⊗ effective) ⊘ rp_total_rental_cost s
    else 0%Q in
  let r := log_line RentalIncentiveCalculated (set_incentive (Some incentive) r) in
  let top_up_rate := ((floored ⊖ diluted_rate) ⊗ sysbox) ⊗ driver in
  let '(r, incentive) := add_floor_top_up s top_up_rate incentive r in
  let r := match jr_bucket_reassigned_from r with
           | Some _ => log_line UnrentedBucketReassigned r
           | None => r
           end in
  let r := explain_zero_effective_rate cap_multiplier driver sysbox r in
  Ok (r, credit hotkey incentive s).

(** [RentalPriceIncentive._post_process_job_result] *)
Definition rental_post_process (hotkey : string) (r : JobResult) (s : RentalState)
    : res (JobResult * RentalState) :=
  if jr_spot_pay_candidate r then post_spot hotkey r s
  else if negb (jr_eligible_for_rental_share r) then
    let '(r, base) := default_post_process hotkey r (rp_base s) in
    Ok (set_cycle_formula_context s r, set_rp_base base s)
  else post_idle hotkey r s.

(** The rental-price algorithm as an instance of the scoring loop. *)
Definition rental_algorithm : IncentiveAlgorithm RentalState := {|
  ia_pre := fun _ a r s => rental_pre_process a r s;
  ia_finish := rental_on_finish;
  ia_post := rental_post_process
|}.

(** ** Partially rented split nodes *)

(** [_free_gpu_count_of_partially_rented_split] *)
Definition free_gpu_count_of_partially_rented_split (r : JobResult) : option Z :=
  if jr_is_rented r && Qltb 0 (jr_score r) && splits r && truthyZ (jr_rented_gpu_count r) then
    match jr_rented_gpu_count r with
    | Some rented => let free := jr_gpu_count r - rented in if 0 <? free then Some free else None
    | None => None
    end
  else None.

(** The free portion: a deep copy with the remainder's own attributes. *)
Definition free_portion_of (free_gpu_count : Z) (r : JobResult) : JobResult :=
  let f := set_gpu_count free_gpu_count r in
  let f := set_is_rented false f in
  let f := set_is_split_remainder true f in
  let f := set_filler_revenue_per_gpu_hour None f in
  let f := set_rental_created_at None f in
  let f := set_rented_gpu_count None f in
  let f := set_incentive_logs [] f in
  set_zero_incentive_reasons [] f.

(** [_PartiallyRentedSplitPortions]: the miner's list is named by its hotkey. *)
Record SplitPortions := mkPortions {
  sp_hotkey : string;
  sp_rented : addr;
  sp_free : addr
}.

(** One iteration of [_expand_partially_rented_split_results]: the free portion
    is a new object, appended to the miner's own list. *)
Definition expand_result (hotkey : string) (acc : list JobResult * list addr * list SplitPortions)
    (a : addr) : res (list JobResult * list addr * list SplitPortions) :=
  let '(heap, siblings, portions) := acc in
  r ← deref heap a;
  match free_gpu_count_of_partially_rented_split r with
  | None => Ok acc
  | Some free =>
      rented ← need (jr_rented_gpu_count r);
      let f := List.length heap in
      Ok (<[a := set_gpu_count rented r]> heap ++ [free_portion_of free r],
          siblings ++ [f], portions ++ [mkPortions hotkey a f])
  end.
Fixpoint expand_jobs (heap : list JobResult) (jobs : list (string * list addr))
    : res (list JobResult * list (string * list addr) * list SplitPortions) :=
  match jobs with
  | [] => Ok (heap, [], [])
  | (hotkey, addrs) :: rest =>
      hsp ← foldM (expand_result hotkey) (heap, addrs, []) addrs;
      let '(heap, siblings, portions) := hsp in
      hjp ← expand_jobs heap rest;
      let '(heap, jobs', portions') := hjp in
      Ok (heap, (hotkey, siblings) :: jobs', portions ++ portions')
  end.

(** Merging the free portion into the rented one. *)
Definition opt_or_0 (o : option Q) : Q := match o with Some q => q | None => 0%Q end.
Definition merge_portions (merged free : JobResult) : JobResult :=
  let m := record_mixed_formula_inputs
    (mkMixed (jr_gpu_count merged) (jr_gpu_count free)
       (incentive_formula_inputs merged) (incentive_formula_inputs free)) merged in
  let m := set_gpu_count (jr_gpu_count m + (jr_gpu_count free + jr_port_unpaid_gpu_count free)) m in
  let m := set_incentive_split (opt_or_0 (jr_incentive m)) (opt_or_0 (jr_incentive free)) m in
  let m := set_incentive_logs (jr_incentive_logs m ++ jr_incentive_logs free) m in
  set_zero_incentive_reasons (jr_zero_incentive_reasons m ++ jr_zero_incentive_reasons free) m.

(** Drop one object from a miner's list, by identity. *)
Definition drop_sibling (hotkey : string) (f : addr) (jobs : list (string * list addr))
    : list (string * list addr) :=
  map (fun ha => if String.eqb ha.1 hotkey
                 then (ha.1, List.filter (fun a => negb (Nat.eqb a f)) ha.2) else ha) jobs.

(** One iteration of [_merge_partially_rented_split_results]. *)
Definition merge_step (hj : list JobResult * list (string * list addr)) (p : SplitPortions)
    : res (list JobResult * list (string * list addr)) :=
  merged ← deref hj.1 (sp_rented p);
  free ← deref hj.1 (sp_free p);
  Ok (<[sp_rented p := merge_portions merged free]> hj.1, drop_sibling (sp_hotkey p) (sp_free p) hj.2).

(** [RentalPriceIncentive.calculate_mining_scores] *)
Definition rental_calculate_mining_scores (w : World RentalState) : res (World RentalState) :=
  hjp ← expand_jobs (w_heap w) (w_jobs w);
  let '(heap, jobs, portions) := hjp in
  w1 ← @calculate_mining_scores _ _ rental_algorithm st (mkWorld heap jobs (w_eng w));
  hj ← foldM merge_step (w_heap w1, w_jobs w1) portions;
  Ok (mkWorld hj.1 hj.2 (w_eng w1)).
End Engine.

(** ** Construction, snapshot and seeding *)

(** [s.rsplit(sep, 1)] on a string that contains [sep] (one that does not
    overlap itself): the parts around its last occurrence. *)
Fixpoint is_prefix (p l : list ascii) : bool :=
  match p, l with
  | [], _ => true
  | c :: p', d :: l' => Ascii.eqb c d && is_prefix p' l'
  | _ :: _, [] => false
  end.
Fixpoint rsplit_chars (sep l : list ascii) : option (list ascii * list ascii) :=
  match l with
  | [] => None
  | c :: l' =>
      match rsplit_chars sep l' with
      | Some (a, b) => Some (c :: a, b)
      | None => if is_prefix sep l then Some ([], skipn (List.length sep) l) else None
      end
  end.

(** [base_model, bucket_str = key_str.rsplit(KEY_SEP, 1)] and [int(bucket_str)]. *)
Definition parse_bucket_key (key_str : string) : res bucket_key :=
  match rsplit_chars (Text.chars KEY_SEP) (Text.chars key_str) with
  | None => Raise ValueError
  | Some (b, n) =>
      match Text.py_int (Text.of_chars n) with
      | Some z => Ok (Text.of_chars b, z)
      | None => Raise ValueError
      end
  end.

Section Construction.
Context `{R : Rounding}.
Local Open Scope float_scope.
Context (env : Env).
Let st := env_settings env.
Let cfg := env_config env.

(** [_seed_state_from_snapshot] *)
Definition seed_step (s : RentalState) (kb : string * GpuBucketRentalState) : res RentalState :=
  key ← parse_bucket_key kb.1;
  let s := set_rp_unrented_count_by_bucket
    (dset key (gb_unrented_count kb.2) (rp_unrented_count_by_bucket s)) s in
  Ok (set_rp_weighted_rate_sum_by_bucket
    (dset key (gb_weighted_rate_sum kb.2) (rp_weighted_rate_sum_by_bucket s)) s).
Definition seed_state_from_snapshot (sn : RentalPriceSnapshot) (s : RentalState) : res RentalState :=
  s ← foldM seed_step s (sn_by_bucket sn);
  Ok (set_rp_unbucketed_rental_cost (sn_unbucketed_rental_cost sn) s).

(** The configuration assertions of [__init__]. *)
Definition config_is_consistent : bool :=
  forallb (fun b => in_list b (dvalues BASE_GPU_MAP)) (cfg_rental_incentive_gpu_types cfg)
  && forallb (fun kv => din kv.1 BASE_GPU_MAP) (cfg_rental_prices_per_hour cfg).

(** [RentalPriceIncentive.__init__] *)
Definition rental_init (total_gpu_model_count_map : list (string * Z))
    (snapshot : option RentalPriceSnapshot) : res RentalState :=
  let base := set_ds_burn_share 0%Q (default_init env total_gpu_model_count_map) in
  let s := mkRental base [] [] [] [] 0%Q 0%Q 0%Q 1%Q [] [] 0%Q 0%Q 0%Q
    (get_total_burn_emission (env_default_burn_emission env) (env_shared env)) 0%Q None None snapshot in
  if negb config_is_consistent then Raise AssertionError
  else match snapshot with
  | None => Ok s
  | Some sn =>
      s ← seed_state_from_snapshot sn s;
      let s := set_rp_base (set_ds_total_mining_score (sn_total_mining_score sn) (rp_base s)) s in
      Ok (set_rp_epoch_subnet_emission (sn_epoch_subnet_emission sn) s)
  end.

(** The GPU totals per model of [get_snapshot]. *)
Definition snapshot_counts (r : JobResult) : bool :=
  is_successful r
  && negb (jr_is_spot r && negb (earns_spot_rental_incentive st r))
  && negb (is_missing_discord_after_cutoff st (env_now env) r).
Definition add_model_count (m : list (string * Z)) (r : JobResult) : list (string * Z) :=
  match jr_gpu_model r with
  | Some g => if snapshot_counts r then dset g (dget_or 0 g m + jr_gpu_count r) m else m
  | None => m
  end.

(** One entry of [by_bucket] in [get_snapshot]. *)
Definition bucket_state (s : RentalState) (kc : bucket_key * Z) : string * GpuBucketRentalState :=
  (bucket_key_str kc.1,
   mkBucketState kc.2 (dget_or 0 kc.1.2 (cap_spec_of cfg kc.1.1))
     (dget_or 0%Q kc.1 (rp_cap_multiplier_by_bucket s))
     (dget_or 0%Q kc.1 (rp_weighted_rate_sum_by_bucket s))).

(** [get_snapshot] *)
Definition get_snapshot (w : World RentalState) : res RentalPriceSnapshot :=
  let s := w_eng w in
  results ← foldM (fun acc p => r ← deref (w_heap w) p.2; Ok (acc ++ [r])) []
              (scored_pairs (w_jobs w));
  let totals := fold_left add_model_count results [] in
  Ok {|
    sn_epoch_subnet_emission := rp_epoch_subnet_emission s;
    sn_rental_share := rp_rental_share s;
    sn_burn_share := ds_burn_share (rp_base s);
    sn_total_gpu_count := Zsum (dvalues totals);
    sn_total_mining_score := ds_total_mining_score (rp_base s);
    sn_total_gpu_model_count_map := totals;
    sn_total_rental_cost := rp_total_rental_cost s;
    sn_by_bucket := fold_left (fun d kc => dset (bucket_state s kc).1 (bucket_state s kc).2 d)
                      (rp_unrented_count_by_bucket s) [];
    sn_unbucketed_rental_cost := rp_unbucketed_rental_cost s
  |}.
End Construction.
