(* ===== verification/RentalShares.v ===== *)
(** * Emission shares, cap multipliers and bucket reassignment: theorems

    What [RentalPriceIncentive._on_finish_pre_process] guarantees about the
    algorithm's attributes, for the model of RentalPrice. *)

From Stdlib Require Import String.
From S2P Require Import Prelude Float64 PyValue JobResult IncentiveConfig Readings Burn IncentiveBase DefaultIncentive RentalGates RentalPrice.

Local Open Scope Z_scope.

(** ** The shares *)
Section Shares.
Context `{R : Rounding}.
Context (env : Env).

(** The burn emission a state was created with is never written. *)
Lemma calculate_rental_share_frame cost s :
  rp_total_burn_emission (calculate_rental_share env cost s).2 = rp_total_burn_emission s /\
  rp_unbucketed_rental_cost (calculate_rental_share env cost s).2 = rp_unbucketed_rental_cost s.
Proof.
  unfold calculate_rental_share. destruct (rp_seed_snapshot s); [done|].
  destruct (env_tao_price env), (env_alpha_rate env); done.
Qed.

Lemma settle_shares_bounds s :
  let s' := settle_shares env s in
  rp_total_burn_emission s' = rp_total_burn_emission s /\
  (rp_rental_share s' <= rp_total_burn_emission s')%Q /\
  (rp_unbucketed_share s' <= fsub (rp_total_burn_emission s') (rp_rental_share s'))%Q /\
  (0 <= ds_burn_share (rp_base s'))%Q /\
  ds_burn_share (rp_base s') =
    fsub (fsub (rp_total_burn_emission s') (rp_rental_share s')) (rp_unbucketed_share s').
Proof.
  cbv zeta. unfold settle_shares. destruct (calculate_rental_share_frame (rp_total_rental_cost s) s) as [E _].
  destruct (calculate_rental_share env (rp_total_rental_cost s) s) as [raw s1]. cbn in *. subst.
  rewrite <- E. set (tbe := rp_total_burn_emission s1).
  assert (pymin raw tbe <= tbe)%Q as Hle by apply pymin_r.
  assert (0 <= fsub tbe (pymin raw tbe))%Q as H0 by (apply fsub_nonneg; lra).
  assert (pymax 0 (fsub tbe (pymin raw tbe)) <= fsub tbe (pymin raw tbe))%Q as Hm
    by (apply pymax_lub; lra).
  set (raw2 := share_for_rental_cost _ _).
  pose proof (pymin_r raw2 (pymax 0 (fsub tbe (pymin raw tbe)))) as Hu.
  split_and!; [done|done|lra| |done]. apply fsub_nonneg. lra.
Qed.
End Shares.

(** C17. After every cycle, under any rounding: the rental share is at most the
    burn emission, spot pay and floor top-ups get at most what the rental share
    leaves of it, and the burn share, what is left after both, is never
    negative. *)
Theorem emission_shares_bounded `{R : Rounding} env heap s heap' s' :
  rental_on_finish env heap s = Ok (heap', s') ->
  (rp_rental_share s' <= rp_total_burn_emission s')%Q /\
  (rp_unbucketed_share s' <= fsub (rp_total_burn_emission s') (rp_rental_share s'))%Q /\
  (0 <= ds_burn_share (rp_base s'))%Q.
Proof.
  intros H. unfold rental_on_finish in H.
  apply bind_ok in H as ([h1 s1] & _ & H). apply bind_ok in H as ([h2 spot] & _ & H).
  apply bind_ok in H as (top & _ & H). simplify_eq.
  match goal with |- context [settle_shares env ?s] => pose proof (settle_shares_bounds env s) end.
  cbv zeta in *. naive_solver.
Qed.

(** ** Cap multipliers *)
Section CapMultipliers.
Context `{R : Rounding}.
Context (env : Env).

Definition cap_of (k : bucket_key) : Z := dget_or 0 k.2 (cap_spec_of (env_config env) k.1).
Definition multiplier_of (count cap : Z) : Q := rnd (inject_Z (Z.min count cap) / inject_Z count).

Lemma cap_fold_get counts mults k :
  NoDup (dkeys counts) ->
  dget k (fold_left (cap_multiplier_step env) counts mults) =
    match dget k counts with
    | Some c => if (0 <? c) && (0 <? cap_of k) then Some (multiplier_of c (cap_of k)) else dget k mults
    | None => dget k mults
    end.
Proof.
  revert mults; induction counts as [|[k0 c0] counts IH]; cbn; intros mults Hnd; [done|].
  apply NoDup_cons in Hnd as [Hk Hnd]. rewrite IH by done.
  unfold cap_multiplier_step. cbn. fold (cap_of k0). rewrite pyminZ_min.
  case_decide as Hd; [subst k0|].
  - apply dget_None_keys in Hk. cbn in Hk. rewrite Hk.
    destruct ((0 <? c0) && (0 <? cap_of k)); [|done]. by rewrite dget_dset_eq.
  - assert (dget k (if (0 <? c0) && (0 <? cap_of k0)
       then dset k0 (rnd (inject_Z (Z.min c0 (cap_of k0)) / inject_Z c0)) mults else mults)
       = dget k mults) as ->; [|done].
    destruct ((0 <? c0) && (0 <? cap_of k0)); [by apply dget_dset_ne|done].
Qed.

Lemma multiplier_bounds c cap : 0 < c -> 0 < cap ->
  (0 <= multiplier_of c cap <= 1)%Q /\ (c <= cap -> (multiplier_of c cap == 1)%Q).
Proof.
  intros Hc Hcap. unfold multiplier_of.
  assert (0 < inject_Z c)%Q by (change 0%Q with (inject_Z 0); rewrite <- Zlt_Qlt; lia).
  assert (0 <= inject_Z (Z.min c cap))%Q by (change 0%Q with (inject_Z 0); rewrite <- Zle_Qle; lia).
  assert (inject_Z (Z.min c cap) <= inject_Z c)%Q by (rewrite <- Zle_Qle; lia).
  split; [split|].
  - apply rnd_nonneg, Qle_shift_div_l; lra.
  - apply rnd_le_1, Qle_shift_div_r; lra.
  - intros Hle. rewrite Z.min_l by done.
    assert (inject_Z c / inject_Z c == 1)%Q as -> by (field; lra). apply rnd_1.
Qed.
End CapMultipliers.

(** Cap dilution: the multiplier of a bucket lies in [0,1] and is 1 when the
    bucket is within its cap (any rounding); in exact arithmetic it pays for
    exactly min(count, cap) GPUs of the bucket, and a bucket that has no cap, or
    that no idle node is rated against, pays nothing. *)
Theorem cap_dilution env counts k c :
  NoDup (dkeys counts) -> dget k counts = Some c -> 0 < c -> 0 < cap_of env k ->
  (forall R : Rounding,
     let m := dget_or 0%Q k (fold_left (@cap_multiplier_step R env) counts []) in
     (0 <= m <= 1)%Q /\ (c <= cap_of env k -> (m == 1)%Q)) /\
  (let m := dget_or 0%Q k (fold_left (@cap_multiplier_step exact_rounding env) counts []) in
   m * inject_Z c == inject_Z (Z.min c (cap_of env k)))%Q.
Proof.
  intros Hnd Hk Hc Hcap.
  assert (forall R : Rounding, dget_or 0%Q k (fold_left (@cap_multiplier_step R env) counts [])
            = @multiplier_of R c (cap_of env k)) as E.
  { intros R. unfold dget_or. rewrite cap_fold_get by done. rewrite Hk.
    apply Z.ltb_lt in Hc, Hcap. by rewrite Hc, Hcap. }
  split; [intros R|]; cbv zeta; rewrite E.
  - by apply multiplier_bounds.
  - unfold multiplier_of. rewrite rnd_exact. field.
    apply Z.lt_gt in Hc. intros Hz. change 0%Q with (inject_Z 0) in Hz.
    rewrite inject_Z_injective in Hz. lia.
Qed.

(** ** Reassignment of split-capable nodes *)
Section Reassign.
Context `{R : Rounding}.
Context (env : Env).

Definition count_at (s : RentalState) (k : bucket_key) : Z :=
  dget_or 0 k (rp_unrented_count_by_bucket s).

(** The outcome of moving the node at [a] from [src] to [tgt]. *)
Definition moved_to (base : string) (a : addr) (r : JobResult) (src tgt : Z)
    (heap : list JobResult) (s : RentalState) (hs : list JobResult * RentalState) : Prop :=
  exists hr sys drv src_sum,
    jr_hourly_rate r = Some hr /\ jr_sysbox_multiplier r = Some sys /\ jr_driver_multiplier r = Some drv /\
    dget (base, src) (rp_weighted_rate_sum_by_bucket s) = Some src_sum /\
    let w := weighted_rate (jr_gpu_count r) hr sys drv in
    let sums := dset (base, src) (fsub src_sum w) (rp_weighted_rate_sum_by_bucket s) in
    hs = (<[a := set_max_cap (Some (cap_of env (base, tgt))) (set_count_bucket (Some tgt)
             (set_bucket_reassigned_from_multiplier
                (Some (rnd (inject_Z (pyminZ (count_at s (base, src)) (cap_of env (base, src)))
                            / inject_Z (count_at s (base, src)))))
                (set_bucket_reassigned_from (Some src) r)))]> heap,
          set_rp_weighted_rate_sum_by_bucket (dset (base, tgt) (fadd (dget_or 0%Q (base, tgt) sums) w) sums)
            (set_rp_unrented_count_by_bucket
              (dset (base, tgt) (count_at s (base, tgt) + jr_gpu_count r)
                (dset (base, src) (count_at s (base, src) - jr_gpu_count r)
                  (rp_unrented_count_by_bucket s))) s)).

(** What one move does, when it happens. *)
Lemma reassign_step_cases heap s base a hs :
  reassign_step env (heap, s) (base, a) = Ok hs ->
  hs = (heap, s) \/
  exists r src tgt, heap !! a = Some r /\ jr_count_bucket r = Some src /\
    jr_gpu_splitting_min_count r = Some tgt /\
    cap_of env (base, src) < count_at s (base, src) /\
    count_at s (base, tgt) + jr_gpu_count r <= cap_of env (base, tgt) /\
    0 < cap_of env (base, tgt) /\
    moved_to base a r src tgt heap s hs.
Proof.
  unfold reassign_step. intros H. apply bind_ok in H as (r & Hr & H).
  unfold deref in Hr. destruct (heap !! a) as [r0|] eqn:Er; [|done]. injection Hr as ->.
  destruct (jr_count_bucket r) as [src|] eqn:Es; [|by simplify_eq; left].
  destruct (jr_gpu_splitting_min_count r) as [tgt|] eqn:Et; [|by simplify_eq; left].
  destruct (Z.leb_spec (dget_or 0 tgt (cap_spec_of (env_config env) base)) 0); [by simplify_eq; left|].
  match type of H with context [?x <=? ?y] => destruct (Z.leb_spec x y) as [|Hsrc] end;
    [by simplify_eq; left|].
  match type of H with context [?x <? ?y] => destruct (Z.ltb_spec x y) as [|Htgt] end;
    [by simplify_eq; left|].
  apply bind_ok in H as (hr & Hhr%need_ok & H). apply bind_ok in H as (sb & Hsb%need_ok & H).
  apply bind_ok in H as (dr & Hdr%need_ok & H). apply bind_ok in H as (ss & Hss & H).
  destruct (dget (base, src) _) as [ss'|] eqn:Ess; [|done]. injection Hss as ->.
  right. exists r, src, tgt. split_and!; try done. simplify_eq.
  exists hr, sb, dr, ss. by split_and!.
Qed.

(** One step keeps the number of GPUs, fills no bucket beyond its cap and takes
    nothing from a bucket within its cap. *)
Lemma reassign_step_counts heap s base a heap' s' :
  Forall (fun r => 0 <= jr_gpu_count r) heap ->
  reassign_step env (heap, s) (base, a) = Ok (heap', s') ->
  Forall (fun r => 0 <= jr_gpu_count r) heap' /\
  Zsum (dvalues (rp_unrented_count_by_bucket s')) = Zsum (dvalues (rp_unrented_count_by_bucket s)) /\
  (forall k, count_at s' k <= Z.max (count_at s k) (cap_of env k)) /\
  (forall k, count_at s k <= cap_of env k -> count_at s k <= count_at s' k).
Proof.
  intros Hpos [[= -> ->]|H]%reassign_step_cases; [split_and!; [done|done|lia|lia]|].
  destruct H as (r & src & tgt & Hr & _ & _ & Hsrc & Htgt & _ & hr & sys & drv & ss & _ & _ & _ & _ & E).
  cbv zeta in E. injection E as -> ->.
  assert (0 <= jr_gpu_count r) as Hr0 by (rewrite Forall_forall in Hpos; by eapply Hpos, list_elem_of_lookup_2).
  assert ((base, src) <> (base, tgt)) as Hne by (intros [= ->]; lia).
  unfold count_at in *. cbn [rp_unrented_count_by_bucket set_rp_weighted_rate_sum_by_bucket
    set_rp_unrented_count_by_bucket]. split_and!.
  - apply Forall_insert; [done|cbn; lia].
  - rewrite !Zsum_dset, dget_or_dset_ne by done. unfold count_at. lia.
  - intros k. destruct (decide ((base, tgt) = k)) as [<-|Hk1]; [rewrite dget_or_dset_eq; lia|].
    rewrite dget_or_dset_ne by done.
    destruct (decide ((base, src) = k)) as [<-|Hk2]; [rewrite dget_or_dset_eq; lia|].
    rewrite dget_or_dset_ne by done. lia.
  - intros k Hk. destruct (decide ((base, tgt) = k)) as [<-|Hk1]; [rewrite dget_or_dset_eq; lia|].
    rewrite dget_or_dset_ne by done.
    destruct (decide ((base, src) = k)) as [<-|Hk2]; [lia|].
    by rewrite dget_or_dset_ne.
Qed.
End Reassign.

(** C26. Occupancy-aware reassignment, over all candidates: the number of idle
    GPUs over the buckets is kept; no bucket ends above both its own previous
    fill and its cap, so a move never pushes a bucket over its cap; and a bucket
    that was within its cap never loses a GPU. *)
Theorem reassignment_never_overfills `{R : Rounding} env heap s heap' s' :
  Forall (fun r => 0 <= jr_gpu_count r) heap ->
  reassign_split_candidates env heap s = Ok (heap', s') ->
  Zsum (dvalues (rp_unrented_count_by_bucket s')) = Zsum (dvalues (rp_unrented_count_by_bucket s)) /\
  (forall k, count_at s' k <= Z.max (count_at s k) (cap_of env k)) /\
  (forall k, count_at s k <= cap_of env k -> count_at s k <= count_at s' k).
Proof.
  intros Hpos H. unfold reassign_split_candidates in H.
  apply (foldM_inv (fun hs => Forall (fun r => 0 <= jr_gpu_count r) hs.1 /\
    Zsum (dvalues (rp_unrented_count_by_bucket hs.2)) = Zsum (dvalues (rp_unrented_count_by_bucket s)) /\
    (forall k, count_at hs.2 k <= Z.max (count_at s k) (cap_of env k)) /\
    (forall k, count_at s k <= cap_of env k -> count_at s k <= count_at hs.2 k))) in H.
  - by destruct H.
  - intros [h1 s1] [base a] [h2 s2] _ (P1 & P2 & P3 & P4) Hs. cbn in *.
    destruct (reassign_step_counts _ _ _ _ _ _ _ P1 Hs) as (Q1 & Q2 & Q3 & Q4).
    split_and!; [done|congruence| |]; intros k; specialize (P3 k); specialize (P4 k);
      specialize (Q3 k); specialize (Q4 k); lia.
  - split_and!; [done|done|intros; cbn; lia|intros; cbn; lia].
Qed.
