(* ===== verification/RentalScoring.v ===== *)
(** * Scoring one result: theorems

    What [RentalPriceIncentive.calculate_executor_score] and the idle-pool gates
    do to a result: which attributes they may touch, which pool the result is
    routed to, and what excludes it from both. *)

From Stdlib Require Import String.
From S2P Require Import Prelude Float64 PyValue JobResult IncentiveConfig Readings Burn IncentiveBase DefaultIncentive RentalGates RentalPrice.

Local Open Scope Z_scope.

(** ** What the gates may touch

    [core] erases the four attributes the gates write: the GPU count of a
    remainder, the GPUs left unpaid, and the two log lists. *)
Definition core (r : JobResult) : JobResult :=
  set_gpu_count 0 (set_port_unpaid_gpu_count 0 (set_incentive_logs [] (set_zero_incentive_reasons [] r))).

(** Whole node size: paid and unpaid GPUs together. *)
Definition size (r : JobResult) : Z := jr_gpu_count r + jr_port_unpaid_gpu_count r.

(** A step of the gate chain. *)
Record gated (r r' : JobResult) : Prop := {
  gated_core : core r' = core r;
  gated_size : size r' = size r;
  gated_whole : jr_is_split_remainder r = false -> jr_gpu_count r' = jr_gpu_count r
}.

#[export] Instance gated_refl : Reflexive gated.
Proof. by split. Qed.
#[export] Instance gated_trans : Transitive gated.
Proof.
  intros x y z [C1 S1 W1] [C2 S2 W2]. split; [congruence|congruence|].
  intros H. pose proof (f_equal jr_is_split_remainder C1) as E. cbn in E. rewrite W2; [auto|congruence].
Qed.

Lemma gated_log k r : gated r (log_line k r).
Proof. unfold log_line, record_incentive_log. destruct (ll_reason _); by split. Qed.
Lemma gated_no_payout reason r : gated r (log_no_payout reason r).
Proof. apply gated_log. Qed.
#[export] Hint Resolve gated_no_payout gated_log : rental.
#[export] Hint Extern 0 (gated ?r ?r) => reflexivity : rental.

Lemma gated_reasons reasons r : gated r (fold_left (fun r x => log_no_payout x r) reasons r).
Proof.
  revert r; induction reasons as [|x xs IH]; cbn; intros r; [done|].
  transitivity (log_no_payout x r); [apply gated_no_payout|apply IH].
Qed.

Section Gated.
Context `{R : Rounding}.
Context (env : Env).

Lemma gated_outdated st r : gated r (record_outdated_image_reason st r).1.
Proof.
  unfold record_outdated_image_reason. destruct (negb _); [done|]. destruct (negb _); [done|].
  destruct (has_reason _ _); cbn [fst]; auto with rental.
Qed.

Lemma gated_validation_failed r : gated r (record_validation_failed_reason r).
Proof.
  unfold record_validation_failed_reason. destruct (is_successful r); [done|].
  destruct (in_list _ _); [done|]. destruct (_ && _); auto with rental.
Qed.

Lemma gated_zero_factors d x r : gated r (record_zero_driver_and_sysbox_reasons d x r).
Proof.
  unfold record_zero_driver_and_sysbox_reasons.
  transitivity (if Qeqb d 0 then log_no_payout NVIDIA_DRIVER_BELOW_MINIMUM r else r);
    [destruct (Qeqb d 0)|destruct (Qeqb x 0)]; auto with rental.
Qed.

(** Moving GPUs from paid to unpaid. *)
Lemma gated_move n r : jr_is_split_remainder r = true ->
  gated r (set_port_unpaid_gpu_count (jr_port_unpaid_gpu_count r + n)
             (set_gpu_count (jr_gpu_count r - n) r)).
Proof. intros H. split; [done|unfold size; cbn; lia|congruence]. Qed.

Lemma port_limited_remainder_split r pl :
  port_limited_remainder r = Ok (Some pl) -> jr_is_split_remainder r = true.
Proof.
  unfold port_limited_remainder. destruct (jr_spec r); [|done].
  destruct (jr_gpu_splitting_min_count r); [|done].
  destruct (jr_is_split_remainder r); [done|]. done.
Qed.
Lemma disk_limited_remainder_split r dl :
  disk_limited_remainder r = Some dl -> jr_is_split_remainder r = true.
Proof.
  unfold disk_limited_remainder. destruct (jr_spec r); [|done].
  destruct (jr_gpu_splitting_min_count r); [|done].
  destruct (jr_is_split_remainder r); [done|]. done.
Qed.

Lemma gated_port_limit c e r e' r' :
  apply_port_limit c (e, r) = Ok (e', r') -> gated r r' /\ (e' = true -> e = true).
Proof.
  unfold apply_port_limit. intros H. apply bind_ok in H as ([pl|] & Hp & H); [|by simplify_eq].
  destruct c; [|done]. apply port_limited_remainder_split in Hp.
  destruct (pl_paid_split_count pl =? 0); simplify_eq; split; try done; auto with rental.
  eapply gated_trans; [by apply gated_move|apply gated_no_payout].
Qed.

Lemma gated_disk_limit c e r e' r' :
  apply_disk_limit c (e, r) = (e', r') -> gated r r' /\ (e' = true -> e = true).
Proof.
  unfold apply_disk_limit. intros H.
  destruct (if c then _ else _) as [dl|] eqn:Hd; [|by simplify_eq].
  destruct c; [|done]. apply disk_limited_remainder_split in Hd.
  destruct (dl_paid_split_count dl =? 0); simplify_eq; split; try done; auto with rental.
  eapply gated_trans; [by apply gated_move|apply gated_no_payout].
Qed.

Lemma gated_gate c hit reason e r e' r' :
  apply_gate c hit reason (e, r) = Ok (e', r') -> gated r r' /\ (e' = true -> e = true).
Proof.
  unfold apply_gate. intros H. apply bind_ok in H as ([|] & _ & H); simplify_eq; split; try done; auto with rental.
Qed.

Lemma gated_revert c e r e' r' :
  apply_revert_gate env c (e, r) = (e', r') -> gated r r' /\ (e' = true -> e = true).
Proof.
  unfold apply_revert_gate. intros H. destruct (_ && _); simplify_eq; split; try done; auto with rental.
Qed.

(** The whole chain of gates only logs, moves GPUs of a remainder from paid to
    unpaid, and never makes a node eligible. *)
Lemma gated_gates c base e r e' r' :
  idle_pool_gates env c base (e, r) = Ok (e', r') -> gated r r' /\ (e' = true -> e = true).
Proof.
  unfold idle_pool_gates. intros H.
  apply bind_ok in H as ([e1 r1] & H1%gated_port_limit & H).
  destruct (apply_disk_limit c (e1, r1)) as [e2 r2] eqn:H2. apply gated_disk_limit in H2.
  apply bind_ok in H as ([e3 r3] & H3%gated_gate & H).
  apply bind_ok in H as ([e4 r4] & H4%gated_gate & H).
  apply bind_ok in H as ([e5 r5] & H5%gated_gate & H).
  apply bind_ok in H as ([e6 r6] & H6%gated_gate & H).
  injection H as H. apply gated_revert in H.
  split; [|naive_solver].
  do 6 (etransitivity; [|by apply H || by apply H6 || by apply H5 || by apply H4 || by apply H3 || by apply H2]).
  apply H1.
Qed.
End Gated.

(** ** Which pool a result is routed to *)

(** [core] without the attributes scoring writes. *)
Definition core2 (r : JobResult) : JobResult :=
  set_mining_score None (set_eligible_for_rental_share false (set_spot_pay_candidate false
    (set_total_gpu_count None (set_gpu_portion None (set_sysbox_multiplier None
      (set_driver_multiplier None (set_uptime_multiplier None (core r)))))))).

Record scored_frame (r r' : JobResult) : Prop := {
  sf_core : core2 r' = core2 r;
  sf_size : size r' = size r;
  sf_whole : jr_is_split_remainder r = false -> jr_gpu_count r' = jr_gpu_count r
}.
#[export] Instance scored_frame_refl : Reflexive scored_frame.
Proof. by split. Qed.
#[export] Instance scored_frame_trans : Transitive scored_frame.
Proof.
  intros x y z [C1 S1 W1] [C2 S2 W2]. split; [congruence|congruence|].
  intros H. pose proof (f_equal jr_is_split_remainder C1) as E. cbn in E. rewrite W2; [auto|congruence].
Qed.
Lemma gated_scored r r' : gated r r' -> scored_frame r r'.
Proof. intros [C S W]. split; [|done|done]. unfold core2. by rewrite C. Qed.

(** The same node, whatever was recorded on it. *)
Record same_node (r r' : JobResult) : Prop := {
  sn_executor : jr_executor_info r' = jr_executor_info r;
  sn_model : jr_gpu_model r' = jr_gpu_model r;
  sn_rented : jr_is_rented r' = jr_is_rented r;
  sn_rented_count : jr_rented_gpu_count r' = jr_rented_gpu_count r;
  sn_remainder : jr_is_split_remainder r' = jr_is_split_remainder r;
  sn_size : size r' = size r;
  sn_whole : jr_is_split_remainder r = false -> jr_gpu_count r' = jr_gpu_count r
}.
#[export] Instance same_node_refl : Reflexive same_node.
Proof. by split. Qed.
#[export] Instance same_node_trans : Transitive same_node.
Proof.
  intros x y z [] []. split; try congruence. intros H. rewrite sn_whole1 by congruence. auto.
Qed.
Lemma scored_same_node r r' : scored_frame r r' -> same_node r r'.
Proof.
  intros [C S W]. split; try done.
  - exact (f_equal jr_executor_info C).
  - exact (f_equal jr_gpu_model C).
  - exact (f_equal jr_is_rented C).
  - exact (f_equal jr_rented_gpu_count C).
  - exact (f_equal jr_is_split_remainder C).
Qed.

(** The hard exclusions of [calculate_executor_score]. *)
Definition excluded_from_both_pools (env : Env) (r : JobResult) : bool :=
  (record_outdated_image_reason (env_settings env) r).2
  || negb (bool_decide (reasons_excluded_from_both_pools env r = [])).

(** Attributes the gates and logs do not touch read the same before and after. *)
Lemma core_attr {A} (p : JobResult -> A) r r' :
  (forall x, p (core x) = p x) -> gated r r' -> p r' = p r.
Proof. intros Hp [C _ _]. rewrite <- (Hp r'), C. apply Hp. Qed.
Lemma core2_attr {A} (p : JobResult -> A) r r' :
  (forall x, p (core2 x) = p x) -> scored_frame r r' -> p r' = p r.
Proof. intros Hp [C _ _]. rewrite <- (Hp r'), C. apply Hp. Qed.

(** The outcome of scoring a result [r], as [r']. *)
Inductive routed (env : Env) (r r' : JobResult) : Prop :=
| RouteSpot :
    jr_spot_pay_candidate r' = true -> jr_eligible_for_rental_share r' = false ->
    jr_mining_score r' = Some 0%Q -> jr_is_rented r = false ->
    excluded_from_both_pools env r = false ->
    jr_filler_revenue_per_gpu_hour r <> None -> routed env r r'
| RouteIdle base :
    jr_eligible_for_rental_share r' = true -> jr_spot_pay_candidate r' = jr_spot_pay_candidate r ->
    jr_mining_score r' = Some 0%Q -> jr_is_rented r = false ->
    excluded_from_both_pools env r = false ->
    get_base_model_for_gpu (jr_gpu_model r) = Ok base -> in_program env base = true -> routed env r r'
| RouteMining ms :
    jr_eligible_for_rental_share r' = false -> jr_spot_pay_candidate r' = jr_spot_pay_candidate r ->
    jr_mining_score r' = Some ms ->
    (jr_is_rented r = false \/ excluded_from_both_pools env r = true -> ms = 0%Q) -> routed env r r'.

Section Routes.
Context `{R : Rounding}.
Context (env : Env).

Lemma default_score_frame spot map r r' :
  default_calculate_executor_score env spot map r = Ok r' ->
  scored_frame r r' /\ exists ms, jr_mining_score r' = Some ms /\
    jr_eligible_for_rental_share r' = jr_eligible_for_rental_share r /\
    jr_spot_pay_candidate r' = jr_spot_pay_candidate r.
Proof.
  unfold default_calculate_executor_score. intros H.
  pose proof (gated_outdated (env_settings env) r) as Hg.
  destruct (record_outdated_image_reason (env_settings env) r) as [r1 out]. cbn in Hg.
  assert (scored_frame r r1 /\ jr_eligible_for_rental_share r1 = jr_eligible_for_rental_share r
    /\ jr_spot_pay_candidate r1 = jr_spot_pay_candidate r) as (F & E1 & E2).
  { split_and!; [by apply gated_scored| |]; by apply core_attr. }
  rewrite <- E1, <- E2. clear E1 E2 Hg.
  assert (scored_frame r1 r' /\ exists ms, jr_mining_score r' = Some ms /\
    jr_eligible_for_rental_share r' = jr_eligible_for_rental_share r1 /\
    jr_spot_pay_candidate r' = jr_spot_pay_candidate r1) as [F2 X]; [|split; [by transitivity r1|done]].
  clear F r.
  destruct out; [simplify_eq; split; [by split|by eexists]|].
  destruct (jr_is_hotkey_excluded_from_scoring r1).
  { assert (gated r1 (if has_reason HOTKEY_EXCLUDED_FROM_SCORING r1 then r1
              else log_no_payout HOTKEY_EXCLUDED_FROM_SCORING r1)) as G
      by (destruct (has_reason _ _); auto with rental).
    simplify_eq. set (r2 := if has_reason _ _ then _ else _) in *. split.
    - transitivity r2; [by apply gated_scored|by split].
    - exists 0%Q. cbn [jr_mining_score set_mining_score]. split_and!; [done| |].
      + exact (core_attr jr_eligible_for_rental_share r1 r2 ltac:(done) G).
      + exact (core_attr jr_spot_pay_candidate r1 r2 ltac:(done) G). }
  destruct (Qeqb (jr_score r1) 0); [simplify_eq; split; [by split|by eexists]|].
  destruct (_ || _); [simplify_eq; split; [by split|by eexists]|].
  destruct (_ =? 0); [simplify_eq; split; [by split|by eexists]|].
  apply bind_ok in H as (up & _ & H). injection H as <-.
  match goal with |- scored_frame _ (if _ then log_no_payout _ ?x else _) /\ _ => set (r2 := x) end.
  match goal with |- context [if ?c then log_no_payout ?y r2 else r2] =>
    assert (gated r2 (if c then log_no_payout y r2 else r2)) as G by (destruct c; auto with rental);
    set (r3 := if c then log_no_payout y r2 else r2) in * end.
  split; [transitivity r2; [unfold r2; by split|by apply gated_scored]|].
  eexists. split_and!.
  - rewrite (core_attr jr_mining_score r2 r3 ltac:(done) G). unfold r2. reflexivity.
  - by rewrite (core_attr jr_eligible_for_rental_share r2 r3 ltac:(done) G).
  - by rewrite (core_attr jr_spot_pay_candidate r2 r3 ltac:(done) G).
Qed.

(** Spot qualification either names a spot-pay candidate or leaves the flag. *)
Lemma qualify_spot_routed excl r0 r :
  gated r0 r -> on_spot_pay_path r0 = true -> excl = excluded_from_both_pools env r0 ->
  scored_frame r0 (qualify_spot_node excl r) /\ routed env r0 (qualify_spot_node excl r).
Proof.
  intros G Hspot ->. unfold qualify_spot_node.
  assert (jr_is_rented r0 = false) as Hr.
  { unfold on_spot_pay_path in Hspot. by destruct (jr_is_spot r0), (jr_is_on_spot_pay_list r0), (jr_is_rented r0). }
  pose proof (core_attr jr_spot_pay_candidate r0 r ltac:(done) G) as Es.
  pose proof (core_attr jr_filler_revenue_per_gpu_hour r0 r ltac:(done) G) as Ef.
  set (r1 := set_mining_score (Some 0%Q) (set_eligible_for_rental_share false r)).
  assert (scored_frame r0 r1) as F by (transitivity r; [by apply gated_scored|by split]).
  assert (forall x, gated r1 x -> scored_frame r0 x /\ routed env r0 x) as Hlog.
  { intros x Gx. split; [transitivity r1; [done|by apply gated_scored]|].
    apply (RouteMining _ _ _ 0%Q); try done.
    - by rewrite (core_attr jr_eligible_for_rental_share r1 x ltac:(done) Gx).
    - by rewrite (core_attr jr_spot_pay_candidate r1 x ltac:(done) Gx).
    - by rewrite (core_attr jr_mining_score r1 x ltac:(done) Gx). }
  destruct (excluded_from_both_pools env r0 || negb (has_score r1)) eqn:Hex; [apply Hlog; reflexivity|].
  destruct (negb (jr_has_lium_filler r1)); [apply Hlog; auto with rental|].
  destruct (jr_filler_revenue_per_gpu_hour r1) eqn:Hf; [|apply Hlog; auto with rental].
  split; [transitivity r1; [done|by split]|].
  apply RouteSpot; try done; [by apply orb_false_iff in Hex as [Hex _]|]. cbn in Hf. congruence.
Qed.

Lemma qualify_secure_routed r0 r :
  gated r0 r -> jr_is_rented r0 = false -> excluded_from_both_pools env r0 = false ->
  scored_frame r0 (qualify_spot_node_by_the_secure_decision r) /\
  routed env r0 (qualify_spot_node_by_the_secure_decision r).
Proof.
  intros G Hr Hex. unfold qualify_spot_node_by_the_secure_decision.
  pose proof (core_attr jr_spot_pay_candidate r0 r ltac:(done) G) as Es.
  pose proof (core_attr jr_filler_revenue_per_gpu_hour r0 r ltac:(done) G) as Ef.
  set (r1 := set_mining_score (Some 0%Q) (set_eligible_for_rental_share false r)).
  assert (scored_frame r0 r1) as F by (transitivity r; [by apply gated_scored|by split]).
  destruct (jr_filler_revenue_per_gpu_hour r1) eqn:Hf.
  - split; [transitivity r1; [done|by split]|]. apply RouteSpot; try done. cbn in Hf. congruence.
  - pose proof (gated_no_payout SPOT_NO_FILLER_REVENUE_FOR_GPU_CONFIG r1) as G1.
    set (x := log_no_payout _ r1) in *. split; [transitivity r1; [done|by apply gated_scored]|].
    by apply (RouteMining _ _ _ 0%Q).
Qed.

Lemma route_to_pool_routed map base excl on_spot eligible r0 r r' :
  gated r0 r -> excl = excluded_from_both_pools env r0 ->
  get_base_model_for_gpu (jr_gpu_model r0) = Ok base ->
  (eligible = true -> jr_is_rented r0 = false /\ excl = false /\ in_program env base = true) ->
  route_to_pool env map base excl on_spot eligible r = Ok r' ->
  scored_frame r0 r' /\ routed env r0 r'.
Proof.
  intros G Hexcl Hbase Hel H. unfold route_to_pool in H.
  pose proof (core_attr jr_spot_pay_candidate r0 r ltac:(done) G) as Es.
  pose proof (core_attr jr_is_rented r0 r ltac:(done) G) as Er.
  assert (scored_frame r0 (set_eligible_for_rental_share eligible r)) as F
    by (transitivity r; [by apply gated_scored|by split]).
  destruct eligible.
  { destruct (Hel eq_refl) as (Hr & He & Hp). destruct on_spot; cbn in H; simplify_eq.
    - apply qualify_secure_routed; congruence.
    - split; [etransitivity; [exact F|by split]|].
      apply (RouteIdle _ _ _ base); try done; congruence. }
  rewrite andb_false_r in H. cbn [jr_is_rented set_eligible_for_rental_share] in H. rewrite Er in H.
  destruct (jr_is_rented r0) eqn:Hr; cbn [negb] in H.
  - destruct excl.
    + simplify_eq. split; [etransitivity; [exact F|by split]|]. by apply (RouteMining _ _ _ 0%Q).
    + apply default_score_frame in H as (F2 & ms & Hms & E1 & E2).
      split; [by etransitivity|]. apply (RouteMining _ _ _ ms); try done.
      * rewrite E2. cbn. done.
      * intros [?|?]; congruence.
  - set (r1 := set_mining_score (Some 0%Q) (set_eligible_for_rental_share false r)) in *.
    match type of H with Ok (if ?c then _ else _) = _ =>
      assert (gated r1 (if c then log_no_payout GPU_MODEL_NOT_ELIGIBLE_FOR_UNRENTED_INCENTIVE r1 else r1))
        as G1 by (destruct c; auto with rental) end.
    injection H as H. rewrite H in G1.
    split; [transitivity r1; [etransitivity; [exact F|by split]|by apply gated_scored]|].
    apply (RouteMining _ _ _ 0%Q); try done.
    + by rewrite (core_attr jr_eligible_for_rental_share r1 r' ltac:(done) G1).
    + by rewrite (core_attr jr_spot_pay_candidate r1 r' ltac:(done) G1).
    + by rewrite (core_attr jr_mining_score r1 r' ltac:(done) G1).
Qed.

(** Every scored result goes down exactly one of the three routes. *)
Lemma rental_score_routed map r r' :
  rental_calculate_executor_score env map r = Ok r' -> scored_frame r r' /\ routed env r r'.
Proof.
  unfold rental_calculate_executor_score. intros H.
  pose proof (gated_outdated (env_settings env) r) as G1.
  assert (excluded_from_both_pools env r = (record_outdated_image_reason (env_settings env) r).2 ||
    negb (bool_decide (reasons_excluded_from_both_pools env (record_outdated_image_reason (env_settings env) r).1 = [])))
    as Hexcl.
  { unfold excluded_from_both_pools.
    by rewrite (core_attr (reasons_excluded_from_both_pools env) _ _ ltac:(done) G1). }
  destruct (record_outdated_image_reason (env_settings env) r) as [r1 out]. cbn [fst snd] in *.
  pose proof (gated_reasons (reasons_excluded_from_both_pools env r1) r1) as G2.
  set (r2 := fold_left _ _ r1) in *. rewrite <- Hexcl in H.
  assert (gated r r2) as G by (by transitivity r1).
  rewrite (core_attr on_spot_pay_path r r2 ltac:(done) G) in H.
  rewrite (core_attr jr_gpu_model r r2 ltac:(done) G) in H.
  rewrite (core_attr jr_is_rented r r2 ltac:(done) G) in H.
  rewrite (core_attr has_score r r2 ltac:(done) G) in H.
  destruct (on_spot_pay_path r && negb (SPOT_IDLE_PAY_SECURE_DECISION_ENABLED (env_settings env)))
    eqn:Hspot.
  { injection H as <-. apply andb_true_iff in Hspot as [Hspot _]. by apply qualify_spot_routed. }
  destruct (excluded_from_both_pools env r && _) eqn:Hunk.
  { injection H as <-. split; [transitivity r2; [by apply gated_scored|by split]|].
    apply (RouteMining _ _ _ 0%Q); try done. cbn. by apply core_attr. }
  apply bind_ok in H as (base & Hbase & H). apply bind_ok in H as ([el r3] & Hg & H).
  apply gated_gates in Hg as [G3 Hel].
  apply (route_to_pool_routed _ _ _ _ _ r) in H; [exact H| |done|done|].
  - transitivity r2; [done|]. transitivity r3; [done|].
    destruct (_ && negb el); [apply gated_zero_factors|done].
  - intros He. apply Hel, andb_true_iff in He as [Hc Hx].
    apply andb_true_iff in Hc as [Hc _]. apply andb_true_iff in Hc as [Hc1 Hc2].
    apply negb_true_iff in Hc1, Hx. done.
Qed.
End Routes.

(** C27. A node that any hard exclusion applies to (banned provider, spot tier,
    unconfirmed e-mail, missing Discord, paused, maintenance, own default job,
    excluded hotkey, enforced outdated image) scores 0 in the mining pool and is
    a candidate of neither idle pool; an unrented node never has a positive
    mining score; and a node is never a candidate of both idle pools.  Scoring
    changes neither the identity of the node nor its total GPU count. *)
Theorem scoring_routes_exclusively `{R : Rounding} env map r r' :
  jr_spot_pay_candidate r = false ->
  rental_calculate_executor_score env map r = Ok r' ->
  (exists ms, jr_mining_score r' = Some ms) /\
  (excluded_from_both_pools env r = true ->
     jr_mining_score r' = Some 0%Q /\ jr_eligible_for_rental_share r' = false /\
     jr_spot_pay_candidate r' = false) /\
  (jr_is_rented r = false -> jr_mining_score r' = Some 0%Q) /\
  (jr_is_rented r = true -> jr_eligible_for_rental_share r' = false /\ jr_spot_pay_candidate r' = false) /\
  ~ (jr_eligible_for_rental_share r' = true /\ jr_spot_pay_candidate r' = true) /\
  jr_executor_info r' = jr_executor_info r /\ jr_gpu_model r' = jr_gpu_model r /\
  jr_gpu_count r' + jr_port_unpaid_gpu_count r' = jr_gpu_count r + jr_port_unpaid_gpu_count r.
Proof.
  intros Hs H. apply rental_score_routed in H as [F Hr].
  pose proof (core2_attr jr_executor_info r r' ltac:(done) F).
  pose proof (core2_attr jr_gpu_model r r' ltac:(done) F). destruct F as [_ F _]. unfold size in F.
  split_and!; try done; inversion Hr; try naive_solver congruence.
Qed.
