(* ===== verification/RentalConservation.v ===== *)
(** * Conservation of the emission over a scoring cycle

    In exact arithmetic, the incentives a cycle of the rental-price algorithm
    pays add up to the mining share, the rental share and the unbucketed share
    (each counted when anyone earns from that pool).  The proof follows the
    program: what pre-processing adds to the bucket sums, how reassignment moves
    it, how spot pay and the secure floor are summed, and what post-processing
    pays out. *)

From Stdlib Require Import String.
From S2P Require Import Prelude Float64 PyValue JobResult IncentiveConfig Readings Burn IncentiveBase DefaultIncentive RentalGates RentalPrice RentalShares RentalScoring.

Local Open Scope Z_scope.
Local Existing Instance exact_rounding.

(** ** Quantities of a result *)
Definition base_of (r : JobResult) : string :=
  match get_base_model_for_gpu (jr_gpu_model r) with Ok b => b | Raise _ => ""%string end.
Definition oz (o : option Z) : Z := match o with Some z => z | None => 0 end.
Definition node_key (r : JobResult) : bucket_key := (base_of r, oz (jr_count_bucket r)).
(** GPUs times rate times the node's own factors, before dilution. *)
Definition node_weight (r : JobResult) : Q :=
  (inject_Z (jr_gpu_count r) * opt_or_0 (jr_hourly_rate r) * opt_or_0 (jr_sysbox_multiplier r)
   * opt_or_0 (jr_driver_multiplier r))%Q.
(** An eligible node that was added to its bucket. *)
Definition counted (r : JobResult) : bool :=
  jr_eligible_for_rental_share r && Qltb 0 (opt_or_0 (jr_hourly_rate r)) && (0 <? oz (jr_max_cap r)).

(** A result no scoring pass has touched. *)
Definition fresh_result (r : JobResult) : Prop :=
  jr_incentive r = None /\ jr_mining_score r = None /\
  jr_eligible_for_rental_share r = false /\ jr_spot_pay_candidate r = false.

(** What a result looks like between the two passes. *)
Record priced (env : Env) (r : JobResult) : Prop := {
  pr_incentive : jr_incentive r = None;
  pr_spot : jr_spot_pay_candidate r = true ->
    jr_eligible_for_rental_share r = false /\ jr_mining_score r = Some 0%Q;
  pr_idle : jr_eligible_for_rental_share r = true ->
    jr_spot_pay_candidate r = false /\ jr_mining_score r = Some 0%Q /\
    get_base_model_for_gpu (jr_gpu_model r) = Ok (base_of r) /\
    (exists hr sys drv b, jr_hourly_rate r = Some hr /\ jr_sysbox_multiplier r = Some sys /\
       jr_driver_multiplier r = Some drv /\ jr_count_bucket r = Some b /\
       (0 <= hr)%Q /\ (0 <= sys)%Q /\ (0 <= drv)%Q) /\
    jr_max_cap r = Some (cap_of env (node_key r))
}.

(** A result whose validation failed takes part in neither idle pool. *)
Definition idle_if_failed (r r' : JobResult) : Prop :=
  is_successful r = false ->
  jr_eligible_for_rental_share r' = false /\ jr_spot_pay_candidate r' = false /\ jr_mining_score r' = None.

(** What a pre-processing visit guarantees. *)
Record visit_ok (env : Env) (v : visit) : Prop := {
  vo_priced : priced env (v_after v);
  vo_same : same_node (v_before v) (v_after v);
  vo_failed : idle_if_failed (v_before v) (v_after v)
}.

(** What the configuration must satisfy: no negative price, no
    negative cap, and a sysbox portion
    of at most 1. *)
Record sane_config (env : Env) : Prop := {
  sane_rates : forall r n, (0 <= rate_for env r n)%Q;
  sane_caps : forall k, 0 <= cap_of env k;
  sane_sysbox : (PORTION_FOR_SYSBOX_UNRENTED (env_settings env) <= 1)%Q
}.

(** The custom prices hold no negative amount. *)
Definition price_nonneg (p : price) : bool :=
  match p with PFixed usd => Qleb 0 usd | PDefault multiplier => Qleb 0 multiplier end.

(** A dictionary whose entries pass a test answers every lookup with one that does. *)
Lemma dget_forallb {K V} `{EqDecision K} (p : V -> bool) (d : list (K * V)) k v :
  forallb (fun kv => p kv.2) d = true -> dget k d = Some v -> p v = true.
Proof. intros H Hd%dget_In. rewrite forallb_forall in H. by apply (H (k, v)), list_elem_of_In. Qed.

Lemma get_hourly_rate_nonneg model n custom prices :
  forallb (fun kv => forallb (fun cp => price_nonneg cp.2) kv.2) custom = true ->
  forallb (fun kv => negb (Qltb kv.2 0)) prices = true ->
  (0 <= get_hourly_rate model n custom prices)%Q.
Proof.
  intros Hc Hp. unfold get_hourly_rate.
  match goal with |- context [match ?g with Some _ => _ | None => 0%Q end] =>
    destruct g as [gc|] eqn:Eg; [|done] end.
  assert (forallb (fun cp => price_nonneg cp.2) gc = true) as Hgc.
  { destruct (match model with Some m => din m custom | None => false end);
      eapply (dget_forallb (fun g => forallb (fun cp => price_nonneg cp.2) g)); eauto. }
  assert (forall v, (match dget (Text.str_of_Z n) gc with Some v => Some v | None => dget "*"%string gc end) = Some v ->
    price_nonneg v = true) as Hv.
  { intros v. destruct (dget (Text.str_of_Z n) gc) eqn:E; [intros [= <-]|intros E'];
      eapply (dget_forallb price_nonneg); eauto. }
  destruct (match dget (Text.str_of_Z n) gc with Some v => Some v | None => dget "*"%string gc end) as [v|]; [|done].
  specialize (Hv v eq_refl). destruct v as [usd|mul]; cbn in Hv; qbool; [done|].
  unfold fmul. rewrite rnd_exact. apply Qmult_le_0_compat; [|done].
  destruct model as [m|]; [|done]. unfold dget_or. destruct (dget m prices) as [q|] eqn:E; [|done].
  pose proof (dget_forallb (fun q => negb (Qltb q 0)) prices m _ Hp E) as Hq%negb_true_iff. by apply Qltb_nlt.
Qed.

(** A configuration that passed the validators of [IncentiveConfig] and whose
    custom prices are not negative is one. *)
Lemma validated_is_sane env :
  make_config (env_config env) = Ok (env_config env) ->
  forallb (fun kv => forallb (fun cp => price_nonneg cp.2) kv.2) (cfg_gpu_count_custom_prices (env_config env)) = true ->
  (PORTION_FOR_SYSBOX_UNRENTED (env_settings env) <= 1)%Q -> sane_config env.
Proof.
  intros Hm Hc Hs. unfold make_config in Hm.
  apply bind_ok in Hm as (? & _ & Hm). apply bind_ok in Hm as (? & H2 & Hm).
  apply bind_ok in Hm as (? & H3 & _). unfold validate_max_unrented_gpus in H2. unfold validate_rental_prices in H3.
  destruct (forallb _ (cfg_max_unrented_gpus _)) eqn:E2; [|done].
  destruct (forallb _ (cfg_rental_prices_per_hour _)) eqn:E3; [|done].
  split; [|intros [b n]|done].
  - intros r n. by apply get_hourly_rate_nonneg.
  - unfold cap_of, cap_spec_of, dget_or at 1. cbn.
    destruct (dget n _) as [c|] eqn:E; [|lia]. unfold dget_or in E. destruct (dget b _) as [sp|] eqn:Eb; [|done].
    apply (dget_forallb (fun sp => forallb (fun bc => (0 <? bc.1) && (0 <=? bc.2)) sp) _ _ _ E2) in Eb.
    apply dget_In in E. rewrite forallb_forall in Eb. specialize (Eb (n, c) (proj1 (list_elem_of_In _ _) E)).
    cbn in Eb. lia.
Qed.

(** What one pre-processing visit adds to the algorithm's attributes. *)
Definition rental_acc (env : Env) (v : visit) (s : RentalState) : RentalState :=
  if negb (is_successful (v_before v)) then s
  else
    let s := set_rp_base (default_acc v (rp_base s)) s in
    let r := v_after v in
    if jr_spot_pay_candidate r
    then set_rp_spot_pay_candidates (rp_spot_pay_candidates s ++ [(base_of r, v_addr v)]) s
    else if counted r
    then accumulate_bucket (base_of r) (oz (jr_count_bucket r)) (v_addr v) r
           (weighted_rate (jr_gpu_count r) (opt_or_0 (jr_hourly_rate r))
              (opt_or_0 (jr_sysbox_multiplier r)) (opt_or_0 (jr_driver_multiplier r))) s
    else s.

Section Pre.
Context (env : Env) (sane : sane_config env).

Lemma driver_nonneg st now d b : (0 <= get_min_driver_multiplier st now d b)%Q.
Proof.
  unfold get_min_driver_multiplier. destruct b; [lra|].
  destruct (parse_driver_version d), (parse_driver_version (MIN_NVIDIA_DRIVER_VERSION st)); try lra.
  destruct (tuple_geb _ _); [lra|]. destruct (_ <? _); lra.
Qed.

Lemma idle_sysbox_nonneg r : (0 <= idle_sysbox_multiplier env r)%Q.
Proof.
  unfold idle_sysbox_multiplier. destruct (jr_sysbox_runtime r); [lra|].
  apply fsub_nonneg, sane.
Qed.

Lemma listed_rate_nonneg r q : listed_hourly_rate env r = Ok q -> (0 <= q)%Q.
Proof.
  unfold listed_hourly_rate. intros H. apply bind_ok in H as (n & _ & H).
  pose proof (sane_rates env sane r n).
  destruct (splits r); [|by simplify_eq]. apply bind_ok in H as (m & _ & H). simplify_eq.
  eapply Qle_trans; [|apply pymax_l]. done.
Qed.

Lemma price_idle_priced base a r s r' s' :
  jr_incentive r = None -> jr_spot_pay_candidate r = false -> jr_mining_score r = Some 0%Q ->
  jr_eligible_for_rental_share r = true ->
  get_base_model_for_gpu (jr_gpu_model r) = Ok base ->
  price_idle_node env base a r s = Ok (r', s') ->
  priced env r' /\ same_node r r' /\ jr_mining_score r' = jr_mining_score r /\
  jr_job_score r' = jr_job_score r /\ jr_spot_pay_candidate r' = false /\
  s' = if counted r'
       then accumulate_bucket base (oz (jr_count_bucket r')) a r'
              (weighted_rate (jr_gpu_count r') (opt_or_0 (jr_hourly_rate r'))
                 (opt_or_0 (jr_sysbox_multiplier r')) (opt_or_0 (jr_driver_multiplier r'))) s
       else s.
Proof.
  intros Hi Hs Hm He Hb H. unfold price_idle_node in H.
  apply bind_ok in H as (rate & Hrate%listed_rate_nonneg & H).
  pose proof (idle_sysbox_nonneg (set_hourly_rate (Some rate) r)) as Hsys.
  set (r1 := set_sysbox_multiplier _ _) in H.
  pose proof (driver_nonneg (env_settings env) (env_now env) (jr_nvidia_driver_version r1) false) as Hdrv.
  set (r2 := set_driver_multiplier _ _) in H.
  set (b := resolve_bucket r2 (cap_spec_of (env_config env) base)) in H.
  set (r3 := set_max_cap _ _) in H.
  assert (base_of r3 = base) as Eb by (unfold base_of; cbn; by rewrite Hb).
  assert (r' = r3) as -> by (destruct (_ && _); by simplify_eq).
  assert (counted r3 = Qltb 0 rate && (0 <? dget_or 0 b (cap_spec_of (env_config env) base))) as Ec
    by (unfold counted; cbn; by rewrite He).
  split_and!.
  - split; [done|cbn; congruence|]. intros _. cbn [jr_eligible_for_rental_share]. split_and!; try done.
    + unfold base_of. cbn. by rewrite Hb.
    + cbn. eexists _, _, _, _. by split_and!.
    + unfold cap_of, node_key. by rewrite Eb.
  - by split.
  - done.
  - done.
  - done.
  - rewrite Ec. destruct (_ && _); by simplify_eq.
Qed.

Lemma price_spot_priced a r s r' s' :
  jr_incentive r = None -> jr_spot_pay_candidate r = true -> jr_mining_score r = Some 0%Q ->
  jr_eligible_for_rental_share r = false ->
  price_spot_node env a r s = Ok (r', s') ->
  priced env r' /\ same_node r r' /\ jr_mining_score r' = jr_mining_score r /\
  jr_job_score r' = jr_job_score r /\ jr_spot_pay_candidate r' = true /\
  s' = set_rp_spot_pay_candidates (rp_spot_pay_candidates s ++ [(base_of r', a)]) s.
Proof.
  intros Hi Hs Hm He H. unfold price_spot_node in H.
  apply bind_ok in H as (base & Hb & H). apply bind_ok in H as (r2 & Hr2 & H).
  set (r1 := set_driver_multiplier _ _) in Hr2.
  assert (exists rate, gated (set_hourly_rate (Some rate) r1) r2) as (rate & G).
  { destruct (negb (in_program env base)); [|destruct (_ <=? 0)].
    - simplify_eq. eexists. apply gated_no_payout.
    - simplify_eq. eexists. apply gated_no_payout.
    - apply bind_ok in Hr2 as (rate & _ & Hr2). simplify_eq. by eexists. }
  apply bind_ok in H as (f & _ & H). apply bind_ok in H as (sec & _ & H).
  set (r4 := set_hourly_rate (Some rate) r1) in *.
  match type of H with context [set_effective_rate _ ?x] =>
    assert (gated r4 x) as G2 by (etransitivity; [exact G|apply gated_zero_factors]);
    set (r3 := x) in * end.
  clearbody r3. clear Hr2 G.
  injection H as <- <-.
  set (r5 := set_effective_rate _ r3).
  assert (base_of r5 = base) as ->.
  { unfold base_of. cbn [jr_gpu_model r5 set_effective_rate].
    change (jr_gpu_model r5) with (jr_gpu_model r3).
    rewrite (core_attr jr_gpu_model r4 r3 ltac:(done) G2). cbn. by rewrite Hb. }
  split_and!; try done.
  - split.
    + change (jr_incentive r5) with (jr_incentive r3).
      by rewrite (core_attr jr_incentive r4 r3 ltac:(done) G2).
    + intros _. change (jr_eligible_for_rental_share r5) with (jr_eligible_for_rental_share r3).
      change (jr_mining_score r5) with (jr_mining_score r3).
      by rewrite (core_attr jr_eligible_for_rental_share r4 r3 ltac:(done) G2),
        (core_attr jr_mining_score r4 r3 ltac:(done) G2).
    + change (jr_eligible_for_rental_share r5) with (jr_eligible_for_rental_share r3).
      rewrite (core_attr jr_eligible_for_rental_share r4 r3 ltac:(done) G2). cbn. congruence.
  - transitivity r3; [|by split]. transitivity r4; [by split|]. by apply scored_same_node, gated_scored.
  - change (jr_mining_score r5) with (jr_mining_score r3).
    by rewrite (core_attr jr_mining_score r4 r3 ltac:(done) G2).
  - change (jr_job_score r5) with (jr_job_score r3).
    by rewrite (core_attr jr_job_score r4 r3 ltac:(done) G2).
  - change (jr_spot_pay_candidate r5) with (jr_spot_pay_candidate r3).
    by rewrite (core_attr jr_spot_pay_candidate r4 r3 ltac:(done) G2).
Qed.

Lemma outdated_keeps_success st r :
  is_successful (record_outdated_image_reason st r).1 = is_successful r.
Proof.
  unfold record_outdated_image_reason. destruct (negb _); [done|]. destruct (negb _); [done|].
  by destruct (has_reason _ _).
Qed.

Lemma default_acc_ext v w s :
  jr_mining_score (v_after v) = jr_mining_score (v_after w) ->
  jr_job_score (v_after v) = jr_job_score (v_after w) -> default_acc v s = default_acc w s.
Proof. intros E1 E2. unfold default_acc, mining_score_of. by rewrite E1, E2. Qed.

(** A fresh result that only gathered log lines. *)
Lemma fresh_priced r r' : fresh_result r -> gated r r' -> priced env r'.
Proof.
  intros (Hi & Hm & He & Hs) G. split.
  - by rewrite (core_attr jr_incentive r r' ltac:(done) G).
  - rewrite (core_attr jr_spot_pay_candidate r r' ltac:(done) G). congruence.
  - rewrite (core_attr jr_eligible_for_rental_share r r' ltac:(done) G). congruence.
Qed.

(** Pre-processing prices the result and adds exactly [rental_acc] to the
    algorithm. *)
Lemma rental_pre_factor h a r s r' s' :
  fresh_result r -> rental_pre_process env a r s = Ok (r', s') ->
  visit_ok env (mkVisit h a r r') /\ s' = rental_acc env (mkVisit h a r r') s.
Proof.
  enough (fresh_result r -> rental_pre_process env a r s = Ok (r', s') ->
    priced env r' /\ same_node r r' /\ idle_if_failed r r' /\ s' = rental_acc env (mkVisit h a r r') s)
    as Hx by (intros Hf H; destruct (Hx Hf H) as (?&?&?&?); split; [by split|done]).
  intros Hf H. unfold rental_pre_process in H. unfold rental_acc. cbn [v_before v_after v_addr].
  pose proof (gated_outdated (env_settings env) r) as G1.
  pose proof (outdated_keeps_success (env_settings env) r) as Hok.
  destruct (record_outdated_image_reason (env_settings env) r) as [r1 out]. cbn [fst] in *.
  rewrite Hok in H. destruct (is_successful r) eqn:Hsucc; cbn [negb] in *.
  2:{ injection H as <- <-.
      assert (gated r (record_validation_failed_reason r1)) as G
        by (transitivity r1; [done|apply gated_validation_failed]).
      split_and!; [by eapply fresh_priced|by apply scored_same_node, gated_scored| |done].
      intros _. destruct Hf as (_ & Hm & He & Hs). set (r2 := record_validation_failed_reason r1) in *.
      by rewrite (core_attr jr_eligible_for_rental_share r r2 ltac:(done) G),
        (core_attr jr_spot_pay_candidate r r2 ltac:(done) G),
        (core_attr jr_mining_score r r2 ltac:(done) G). }
  apply bind_ok in H as ([r2 base2] & H1 & H).
  apply (default_pre_factor _ _ _ _ _ h a) in H1 as ((r0 & Hscore & Hr2) & (ms & Hms) & Hbase).
  apply rental_score_routed in Hscore as [F Hroute].
  assert (gated r0 r2) as G2 by (rewrite Hr2; apply gated_validation_failed). clear Hr2.
  destruct Hf as (Hi & Hm & He & Hs).
  assert (same_node r r2) as Hsame.
  { transitivity r1; [by apply scored_same_node, gated_scored|]. transitivity r0; [by apply scored_same_node|].
    by apply scored_same_node, gated_scored. }
  assert (jr_incentive r2 = None) as Hi2.
  { rewrite (core_attr jr_incentive r0 r2 ltac:(done) G2), (core2_attr jr_incentive r1 r0 ltac:(done) F).
    by rewrite (core_attr jr_incentive r r1 ltac:(done) G1). }
  pose proof (core_attr jr_spot_pay_candidate r0 r2 ltac:(done) G2) as Es2.
  pose proof (core_attr jr_eligible_for_rental_share r0 r2 ltac:(done) G2) as Ee2.
  pose proof (core_attr jr_mining_score r0 r2 ltac:(done) G2) as Em2.
  pose proof (core_attr jr_spot_pay_candidate r r1 ltac:(done) G1) as Es1. rewrite Hs in Es1.
  assert (jr_gpu_model r2 = jr_gpu_model r1) as Eg.
  { rewrite (core_attr jr_gpu_model r0 r2 ltac:(done) G2). by apply core2_attr. }
  destruct Hroute as [Hsp Hel Hmz _ _ _|base Hel Hsp Hmz _ _ Hb Hp|ms' Hel Hsp Hmz _].
  - rewrite Es2, Hsp in H.
    apply price_spot_priced in H as (P & N & Em & Ej & Esp & ->); try congruence.
    split_and!; [done|by transitivity r2|by intros ?; congruence|]. rewrite Esp, Hbase.
    by rewrite (default_acc_ext (mkVisit h a r1 r2) (mkVisit h a r r')) by done.
  - rewrite Es2, Hsp, Es1 in H. rewrite Eg in H. rewrite Hb in H. cbn in H. rewrite Hp in H. cbn in H.
    rewrite Ee2, Hel in H.
    apply price_idle_priced in H as (P & N & Em & Ej & Esp & Hs'); try congruence.
    split_and!; [done|by transitivity r2|by intros ?; congruence|]. rewrite Esp, Hs', Hbase.
    rewrite (default_acc_ext (mkVisit h a r1 r2) (mkVisit h a r r')) by done.
    destruct (counted r') eqn:Ec; [|done].
    assert (base_of r' = base) as ->; [|done].
    unfold base_of. rewrite (sn_model _ _ N), Eg, Hb. done.
  - rewrite Es2, Hsp, Es1 in H.
    assert (r' = r2 /\ s' = set_rp_base base2 s) as [-> ->].
    { apply bind_ok in H as (b & _ & H). rewrite Ee2, Hel in H. destruct (negb _); by simplify_eq. }
    split_and!; [|done|by intros ?; congruence|].
    + split; [done|intros; congruence|intros; congruence].
    + rewrite Es2, Hsp, Es1. unfold counted. rewrite Ee2, Hel. cbn. by rewrite Hbase.
Qed.
End Pre.

(** ** What pre-processing adds up *)

(** Sum of a dict of rates, each key weighted. *)
Definition wsum (f : bucket_key -> Q) (d : list (bucket_key * Q)) : Q :=
  Qsum (map (fun kv => f kv.1 * kv.2)%Q d).

#[local] Arguments wsum : simpl never.

Lemma wsum_dset f k v d : (wsum f (dset k v d) == wsum f d + f k * (v - dget_or 0 k d))%Q.
Proof.
  unfold wsum, dget_or. induction d as [|[k' v'] d IH]; cbn; [ring|].
  case_decide; subst; cbn; [ring|]. rewrite IH. ring.
Qed.

(** What a result contributes to the bucket sums, its bucket weighted by [f]. *)
Definition contrib (f : bucket_key -> Q) (r : JobResult) : Q :=
  if counted r then (f (node_key r) * node_weight r)%Q else 0%Q.

Definition cand_of (v : visit) : string * addr := (base_of (v_after v), v_addr v).
Definition is_spot_visit (v : visit) : bool := jr_spot_pay_candidate (v_after v).
Definition is_floor_visit (v : visit) : bool :=
  counted (v_after v) && is_some (jr_filler_revenue_per_gpu_hour (v_after v)).

(** The attributes no pre-processing visit touches. *)
Record pre_const (s s' : RentalState) : Prop := {
  pc_mults : rp_cap_multiplier_by_bucket s' = rp_cap_multiplier_by_bucket s;
  pc_unbucketed : rp_unbucketed_rental_cost s' = rp_unbucketed_rental_cost s;
  pc_cost : rp_total_rental_cost s' = rp_total_rental_cost s;
  pc_burn : rp_total_burn_emission s' = rp_total_burn_emission s;
  pc_mining_share : ds_mining_share (rp_base s') = ds_mining_share (rp_base s);
  pc_incentives : ds_miner_incentives (rp_base s') = ds_miner_incentives (rp_base s)
}.

Record pre_sums (tr : list visit) (s s' : RentalState) : Prop := {
  ps_const : pre_const s s';
  ps_mining : (ds_total_mining_score (rp_base s') ==
     ds_total_mining_score (rp_base s) + Qsum (map (fun v => mining_score_of (v_after v)) tr))%Q;
  ps_wsum : forall f, (wsum f (rp_weighted_rate_sum_by_bucket s') ==
     wsum f (rp_weighted_rate_sum_by_bucket s) + Qsum (map (fun v => contrib f (v_after v)) tr))%Q;
  ps_nodup : NoDup (dkeys (rp_unrented_count_by_bucket s)) -> NoDup (dkeys (rp_unrented_count_by_bucket s'));
  ps_spot : rp_spot_pay_candidates s' =
     rp_spot_pay_candidates s ++ map cand_of (List.filter is_spot_visit tr);
  ps_floor : rp_secure_floor_candidates s' =
     rp_secure_floor_candidates s ++ map cand_of (List.filter is_floor_visit tr);
  ps_split : forall c, c ∈ rp_split_fallback_candidates s' ->
     c ∈ rp_split_fallback_candidates s \/ exists v, v ∈ tr /\ counted (v_after v) = true /\ c = cand_of v
}.

Section PreSums.
Context (env : Env).

Lemma accumulate_bucket_sums base b a r w s :
  let s' := accumulate_bucket base b a r w s in
  pre_const s s' /\ rp_base s' = rp_base s /\
  rp_spot_pay_candidates s' = rp_spot_pay_candidates s /\
  rp_secure_floor_candidates s' = rp_secure_floor_candidates s ++
    (if is_some (jr_filler_revenue_per_gpu_hour r) then [(base, a)] else []) /\
  (forall c, c ∈ rp_split_fallback_candidates s' -> c ∈ rp_split_fallback_candidates s \/ c = (base, a)) /\
  rp_weighted_rate_sum_by_bucket s' = dset (base, b)
    (fadd (dget_or 0%Q (base, b) (rp_weighted_rate_sum_by_bucket s)) w) (rp_weighted_rate_sum_by_bucket s) /\
  rp_unrented_count_by_bucket s' = dset (base, b)
    (dget_or 0 (base, b) (rp_unrented_count_by_bucket s) + jr_gpu_count r) (rp_unrented_count_by_bucket s).
Proof.
  cbv zeta. unfold accumulate_bucket.
  destruct (jr_filler_revenue_per_gpu_hour r), (is_split_candidate r b); cbn;
    rewrite ?app_nil_r; split_and!; try done; try (by split); set_solver.
Qed.

Lemma rental_acc_sums v s : visit_ok env v -> pre_sums [v] s (rental_acc env v s).
Proof.
  intros [P _ Hfail]. unfold rental_acc. destruct (is_successful (v_before v)) eqn:Hs; cbn [negb].
  2:{ destruct (Hfail Hs) as (He & Hsp & Hm).
      assert (counted (v_after v) = false) as Hc by (unfold counted; by rewrite He).
      split; try done; cbn; unfold contrib, mining_score_of, is_spot_visit, is_floor_visit.
      - rewrite Hm. lra.
      - intros f. rewrite Hc. lra.
      - by rewrite Hsp, app_nil_r.
      - by rewrite Hc, app_nil_r.
      - set_solver. }
  set (s1 := set_rp_base _ s).
  assert (pre_const s s1) as C1 by (by split).
  assert (ds_total_mining_score (rp_base s1) == ds_total_mining_score (rp_base s) +
     Qsum (map (fun v => mining_score_of (v_after v)) [v]))%Q as M1 by (cbn; exactify; lra).
  destruct (jr_spot_pay_candidate (v_after v)) eqn:Hsp.
  { destruct (pr_spot _ _ P Hsp) as [He _].
    assert (counted (v_after v) = false) as Hc by (unfold counted; by rewrite He).
    split; [by split|done| |done| | |]; cbn; unfold contrib, is_spot_visit, is_floor_visit.
    - intros f. rewrite Hc. lra.
    - by rewrite Hsp.
    - by rewrite Hc, app_nil_r.
    - set_solver. }
  destruct (counted (v_after v)) eqn:Hc.
  2:{ split; [done|done| |done| | |]; cbn; unfold contrib, is_spot_visit, is_floor_visit.
      - intros f. rewrite Hc. lra.
      - by rewrite Hsp, app_nil_r.
      - by rewrite Hc, app_nil_r.
      - set_solver. }
  match goal with |- pre_sums _ _ (accumulate_bucket ?b ?k ?a ?r ?w ?x) =>
    destruct (accumulate_bucket_sums b k a r w x) as (C2 & Hb & Hspot & Hfloor & Hsplit & Hw & Hcnt);
    set (s2 := accumulate_bucket b k a r w x) in * end.
  split.
  - destruct C1, C2. split; congruence.
  - by rewrite Hb.
  - intros f. rewrite Hw, wsum_dset. cbn. unfold contrib. rewrite Hc. unfold node_key, node_weight.
    exactify. unfold weighted_rate. exactify. ring.
  - intros Hnd. rewrite Hcnt. by apply NoDup_dset.
  - rewrite Hspot. cbn. unfold is_spot_visit. rewrite Hsp, app_nil_r. done.
  - rewrite Hfloor. cbn. unfold is_floor_visit. rewrite Hc. cbn. by destruct (is_some _).
  - intros c [Hin| ->]%Hsplit; [by left|]. right. exists v. set_solver.
Qed.

Lemma pre_sums_trans tr1 tr2 s1 s2 s3 : pre_sums tr1 s1 s2 -> pre_sums tr2 s2 s3 -> pre_sums (tr1 ++ tr2) s1 s3.
Proof.
  intros [C1 M1 W1 N1 S1 F1 P1] [C2 M2 W2 N2 S2 F2 P2]. split.
  - destruct C1, C2. split; congruence.
  - rewrite M2, M1, map_app, Qsum_app. lra.
  - intros f. rewrite W2, W1, map_app, Qsum_app. lra.
  - auto.
  - rewrite S2, S1, List.filter_app, map_app, app_assoc. done.
  - rewrite F2, F1, List.filter_app, map_app, app_assoc. done.
  - intros c [Hc|(v & Hv & Hx)]%P2; [apply P1 in Hc as [|(v & Hv & Hx)]|]; [by left| |]; right; set_solver.
Qed.

Lemma rental_acc_fold tr s :
  Forall (visit_ok env) tr -> pre_sums tr s (foldl (fun s v => rental_acc env v s) s tr).
Proof.
  intros H. revert s; induction H as [|v tr Hv _ IH]; cbn; intros s.
  - split; try done; cbn; try (by split); try (intros; lra); rewrite ?app_nil_r; try done; set_solver.
  - change (v :: tr) with ([v] ++ tr). eapply pre_sums_trans; [by apply rental_acc_sums|apply IH].
Qed.
End PreSums.

(** ** Reassignment keeps the sums in step with the results *)

(** A result without its bucket attributes. *)
Definition core3 (r : JobResult) : JobResult :=
  set_count_bucket None (set_max_cap None (set_bucket_reassigned_from None
    (set_bucket_reassigned_from_multiplier None r))).
Lemma core3_attr {A} (p : JobResult -> A) r r' :
  (forall x, p (core3 x) = p x) -> core3 r' = core3 r -> p r' = p r.
Proof. intros Hp C. rewrite <- (Hp r'), C. apply Hp. Qed.

Section ReassignSums.
Context (env : Env) (tr : list visit).
Context (tr_nodup : NoDup (map v_addr tr)).
Context (s1 : RentalState).
Context (split_ok : forall c, c ∈ rp_split_fallback_candidates s1 ->
           exists v, v ∈ tr /\ counted (v_after v) = true /\ c = cand_of v).

(** A result at its address, up to its bucket. *)
Definition rebucketed (heap : list JobResult) (v : visit) : Prop :=
  exists r, heap !! v_addr v = Some r /\ core3 r = core3 (v_after v) /\ priced env r /\
    counted r = counted (v_after v).

Record in_step (heap : list JobResult) (s : RentalState) : Prop := {
  is_results : forall v, v ∈ tr -> rebucketed heap v;
  is_wsum : forall f, (wsum f (rp_weighted_rate_sum_by_bucket s) ==
                       results_sum (contrib f) heap (map v_addr tr))%Q;
  is_nodup : NoDup (dkeys (rp_unrented_count_by_bucket s));
  is_rest : exists c w, s = set_rp_weighted_rate_sum_by_bucket w (set_rp_unrented_count_by_bucket c s1)
}.

Lemma reassign_step_in_step heap s c heap' s' :
  c ∈ rp_split_fallback_candidates s1 -> in_step heap s ->
  reassign_step env (heap, s) c = Ok (heap', s') -> in_step heap' s'.
Proof.
  destruct c as [base a]. intros Hc I H. destruct (split_ok _ Hc) as (v & Hv & Hcv & E).
  unfold cand_of in E. simplify_eq.
  apply reassign_step_cases in H as [[= -> ->]|H]; [done|].
  destruct H as (r & src & tgt & Hr & Hsrc & Htgt & _ & _ & Hcap & hr & sys & drv & ss & Hhr & Hsys & Hdrv & Hss & E).
  cbv zeta in E. injection E as -> ->.
  match goal with |- in_step (<[_ := ?x]> _) _ => set (r' := x) end.
  destruct I as [Hres Hw Hnd Hrest].
  destruct (Hres v Hv) as (r0 & Hr0 & Hcore & Hpr & Hcnt). rewrite Hr in Hr0. injection Hr0 as <-.
  assert (counted r = true) as Hcr by congruence.
  assert (jr_eligible_for_rental_share r = true) as Hel
    by (unfold counted in Hcr; by destruct (jr_eligible_for_rental_share r)).
  destruct (pr_idle _ _ Hpr Hel) as (Hsp & Hms & Hbase & (hr0 & sys0 & drv0 & b0 & E1 & E2 & E3 & E4 & P1 & P2 & P3) & Hmax).
  rewrite E1 in Hhr. rewrite E2 in Hsys. rewrite E3 in Hdrv.
  injection Hhr as ->. injection Hsys as ->. injection Hdrv as ->.
  assert (base_of r = base_of (v_after v)) as Eb by (by apply (core3_attr base_of)).
  assert (base_of r' = base_of r) as Eb' by done.
  assert (counted r' = true) as Hcr'.
  { unfold counted in Hcr |- *. cbn. rewrite E1 in *. cbn in *. rewrite Hel in Hcr |- *. cbn in *.
    apply andb_true_iff in Hcr as [-> _]. cbn. by apply Z.ltb_lt. }
  assert (node_weight r = weighted_rate (jr_gpu_count r) hr sys drv) as Ew.
  { unfold node_weight, weighted_rate. rewrite E1, E2, E3. by exactify. }
  split.
  - intros u Hu. destruct (decide (v_addr u = v_addr v)) as [Ea|Ha].
    + assert (u = v) as ->.
      { apply list_elem_of_lookup in Hu as (i & Hi). apply list_elem_of_lookup in Hv as (j & Hj).
        assert (i = j) as ->; [|congruence]. eapply (NoDup_lookup (map v_addr tr)); [done| |].
        - by rewrite list_lookup_fmap, Hi.
        - rewrite list_lookup_fmap, Hj. cbn. by rewrite Ea. }
      exists r'. split_and!.
      * apply list_lookup_insert_eq. by eapply lookup_lt_Some.
      * by rewrite <- Hcore.
      * split; [apply Hpr|cbn; congruence|]. intros _. split_and!; try done.
        -- cbn. eexists _, _, _, _. by split_and!.
        -- unfold node_key. rewrite Eb', Eb. done.
      * congruence.
    + destruct (Hres u Hu) as (ru & ? & ?). exists ru. rewrite list_lookup_insert_ne; [done|congruence].
  - intros f. cbn [rp_weighted_rate_sum_by_bucket set_rp_weighted_rate_sum_by_bucket].
    rewrite (results_sum_insert _ _ _ _ r r' tr_nodup ltac:(apply list_elem_of_fmap; by exists v) Hr).
    rewrite <- Hw, !wsum_dset. unfold contrib. rewrite Hcr, Hcr'.
    unfold node_key. rewrite Eb', Eb, Hsrc. cbn [oz jr_count_bucket r' set_max_cap set_count_bucket].
    assert (node_weight r' = node_weight r) as -> by done. rewrite Ew.
    assert (dget_or 0%Q (base_of (v_after v), src) (rp_weighted_rate_sum_by_bucket s) = ss) as ->
      by (unfold dget_or; by rewrite Hss).
    change (oz (Some tgt)) with tgt. change (oz (Some src)) with src.
    unfold weighted_rate. exactify. ring.
  - by apply NoDup_dset, NoDup_dset.
  - destruct Hrest as (c & w & ->). by eexists _, _.
Qed.

Lemma reassign_in_step heap s' heap' :
  in_step heap s1 -> reassign_split_candidates env heap s1 = Ok (heap', s') -> in_step heap' s'.
Proof.
  intros I H. unfold reassign_split_candidates in H.
  apply (foldM_inv (fun hs => in_step hs.1 hs.2)) in H; [done| |done].
  intros [h s] c [h' s2] Hc%elem_of_psort Hi Hs. by eapply reassign_step_in_step.
Qed.
End ReassignSums.

(** ** Between the passes *)

(** What a result keeps while the pools are settled. *)
Record carried (env : Env) (r r' : JobResult) : Prop := {
  ca_priced : priced env r';
  ca_counted : counted r' = counted r;
  ca_spot : jr_spot_pay_candidate r' = jr_spot_pay_candidate r;
  ca_eligible : jr_eligible_for_rental_share r' = jr_eligible_for_rental_share r;
  ca_mining : jr_mining_score r' = jr_mining_score r;
  ca_filler : jr_filler_revenue_per_gpu_hour r' = jr_filler_revenue_per_gpu_hour r;
  ca_base : base_of r' = base_of r;
  ca_same : same_node r r'
}.
Lemma carried_trans env r1 r2 r3 : carried env r1 r2 -> carried env r2 r3 -> carried env r1 r3.
Proof. intros [] []. split; try congruence. by transitivity r2. Qed.

Lemma rebucketed_carried env v r :
  core3 r = core3 (v_after v) -> priced env r -> counted r = counted (v_after v) ->
  carried env (v_after v) r.
Proof.
  intros C P E. split; try done.
  - by apply core3_attr.
  - by apply core3_attr.
  - by apply core3_attr.
  - by apply core3_attr.
  - by apply (core3_attr base_of).
  - split.
    + by apply core3_attr.
    + by apply core3_attr.
    + by apply core3_attr.
    + by apply core3_attr.
    + by apply core3_attr.
    + by apply (core3_attr size).
    + intros _. by apply core3_attr.
Qed.

(** The idle, spot and floor costs of a result, in USD/hour. *)
Definition idle_cost (mult : bucket_key -> Q) (r : JobResult) : Q :=
  if jr_eligible_for_rental_share r then (mult (node_key r) * node_weight r)%Q else 0%Q.
Definition spot_cost (r : JobResult) : Q :=
  if jr_spot_pay_candidate r
  then (inject_Z (jr_gpu_count r) * opt_or_0 (jr_effective_rate r))%Q else 0%Q.
(** The secure-floor top-up per GPU and hour, before the node's own factors. *)
Definition floor_gap (mult : bucket_key -> Q) (r : JobResult) : Q :=
  let diluted := (opt_or_0 (jr_hourly_rate r) * mult (node_key r))%Q in
  (floored_rate r diluted - diluted)%Q.
Definition floor_cost (mult : bucket_key -> Q) (r : JobResult) : Q :=
  if jr_eligible_for_rental_share r
  then (inject_Z (jr_gpu_count r) * floor_gap mult r * opt_or_0 (jr_sysbox_multiplier r)
        * opt_or_0 (jr_driver_multiplier r))%Q
  else 0%Q.

Section Between.
Context (env : Env).

Lemma contrib_idle mult r :
  (forall k, cap_of env k <= 0 -> mult k = 0%Q) -> priced env r ->
  (contrib mult r == idle_cost mult r)%Q.
Proof.
  intros Hm P. unfold contrib, idle_cost, counted.
  destruct (jr_eligible_for_rental_share r) eqn:He; cbn [andb]; [|done].
  destruct (pr_idle _ _ P He) as (_ & _ & _ & (hr & sys & drv & b & E1 & E2 & E3 & E4 & P1 & P2 & P3) & Hmax).
  rewrite E1, Hmax. cbn [opt_or_0 oz]. destruct (Qltb 0 hr) eqn:Hq; qbool; cbn [andb].
  - destruct (Z.ltb_spec 0 (cap_of env (node_key r))); [done|]. rewrite Hm by lia. lra.
  - unfold node_weight. rewrite E1. cbn [opt_or_0]. assert (hr == 0)%Q as -> by lra. ring.
Qed.

Lemma floor_gap_nonneg mult r : (0 <= floor_gap mult r)%Q.
Proof.
  unfold floor_gap, floored_rate. destruct (jr_filler_revenue_per_gpu_hour r); [|lra].
  destruct (_ || _); [lra|].
  match goal with |- (0 <= pymax ?a ?b - _)%Q => pose proof (pymax_l a b) end. lra.
Qed.

(** Only the nodes the floor loop visits have a top-up. *)
Lemma floor_cost_zero mult r :
  sane_config env -> priced env r -> counted r && is_some (jr_filler_revenue_per_gpu_hour r) = false ->
  (floor_cost mult r == 0)%Q.
Proof.
  intros sane P Hc. unfold floor_cost. destruct (jr_eligible_for_rental_share r) eqn:He; [|done].
  destruct (pr_idle _ _ P He) as (_ & _ & _ & (hr & sys & drv & b & E1 & E2 & E3 & E4 & P1 & P2 & P3) & Hmax).
  assert (floor_gap mult r == 0)%Q as ->; [|ring].
  unfold floor_gap, floored_rate. destruct (jr_filler_revenue_per_gpu_hour r); [|lra].
  cbn in Hc. rewrite andb_true_r in Hc. unfold counted in Hc. rewrite He, E1, Hmax in Hc. cbn in Hc.
  rewrite E1, Hmax. cbn [opt_or_0 truthyZ]. pose proof (sane_caps env sane (node_key r)).
  destruct (Qltb 0 hr) eqn:Hq; qbool; cbn in Hc.
  - assert (cap_of env (node_key r) = 0) as -> by (apply Z.ltb_ge in Hc; lia). cbn. lra.
  - assert (hr == 0)%Q as Hz by lra. apply Qeqb_eq in Hz. rewrite Hz, orb_true_r. lra.
Qed.

Lemma bucket_cost_fold m d acc :
  (fold_left (bucket_cost m) d acc == acc + wsum (fun k => dget_or 0%Q k m) d)%Q.
Proof.
  revert acc; induction d as [|[k v] d IH]; cbn; intros acc; [unfold wsum; cbn; lra|].
  rewrite IH. unfold bucket_cost, wsum. cbn. exactify. lra.
Qed.

(** The second pass over the spot candidates. *)
Lemma spot_pay_loop sums pools L heap t heap' t' :
  NoDup (map snd L) ->
  (forall a r, a ∈ map snd L -> heap !! a = Some r -> priced env r /\ jr_spot_pay_candidate r = true) ->
  foldM (spot_pay_step sums pools) (heap, t) L = Ok (heap', t') ->
  (forall a, a ∉ map snd L -> heap' !! a = heap !! a) /\
  (forall a, a ∈ map snd L -> exists r r', heap !! a = Some r /\ heap' !! a = Some r' /\ carried env r r') /\
  (t' == t + results_sum spot_cost heap' (map snd L))%Q.
Proof.
  revert heap t; induction L as [|[base a] L IH]; cbn; intros heap t Hnd Hpr H.
  { simplify_eq. split_and!; [done|set_solver|unfold results_sum; cbn; lra]. }
  apply NoDup_cons in Hnd as [Ha Hnd]. apply bind_ok in H as ([heap1 t1] & H1 & H).
  apply bind_ok in H1 as (r & Hr & H1). unfold deref in Hr. cbn in Hr.
  destruct (heap !! a) as [r0|] eqn:Er; [|done]. injection Hr as ->.
  apply bind_ok in H1 as (rs & _ & H1). apply bind_ok in H1 as (pool & _ & H1).
  apply bind_ok in H1 as (eff & _ & H1). injection H1 as <- <-.
  match type of H with context [<[_ := ?x]> heap] => set (r' := x) in * end.
  destruct (Hpr a r ltac:(set_solver) Er) as [P Hsp].
  assert (priced env r') as P'.
  { destruct P as [Pi Ps Pe]. split; [done|apply Ps|].
    intros He. destruct (Ps Hsp) as [? _]. cbn in He. congruence. }
  assert (a < length heap)%nat as Hlt by (by eapply lookup_lt_Some).
  apply IH in H as (Hother & Hin & Ht); [|done|].
  2:{ intros b rb Hb Erb. assert (a <> b) as Hne by set_solver.
      rewrite list_lookup_insert_ne in Erb by done. apply (Hpr b); [set_solver|done]. }
  assert (heap' !! a = Some r') as Ea by (rewrite Hother by done; by apply list_lookup_insert_eq).
  split_and!.
  - intros b Hb. rewrite Hother by set_solver. apply list_lookup_insert_ne. set_solver.
  - intros b [->|Hb]%elem_of_cons.
    + exists r, r'. split_and!; [done|done|]. by split.
    + destruct (Hin b Hb) as (x & x' & Hx & Hx' & Hc). exists x, x'.
      rewrite list_lookup_insert_ne in Hx by set_solver. done.
  - rewrite Ht. unfold results_sum. cbn. rewrite Ea. unfold spot_cost at 2. cbn.
    rewrite Hsp. exactify. cbn. lra.
Qed.

(** The floor loop adds up the top-ups of the nodes it visits. *)
Lemma floor_loop_sum heap s L t t' :
  (forall base a r, (base, a) ∈ L -> heap !! a = Some r ->
     priced env r /\ jr_eligible_for_rental_share r = true /\ base = base_of r) ->
  foldM (secure_floor_step heap s) t L = Ok t' ->
  (t' == t + results_sum (floor_cost (fun k => dget_or 0%Q k (rp_cap_multiplier_by_bucket s)))
               heap (map snd L))%Q.
Proof.
  revert t; induction L as [|[base a] L IH]; cbn; intros t Hpr H; [simplify_eq; unfold results_sum; cbn; lra|].
  apply bind_ok in H as (t1 & H1 & H). unfold secure_floor_step in H1. cbn in H1.
  apply bind_ok in H1 as (r & Hr & H1). unfold deref in Hr.
  destruct (heap !! a) as [r0|] eqn:Er; [|done]. injection Hr as ->.
  destruct (Hpr base a r ltac:(set_solver) Er) as (P & He & ->).
  destruct (pr_idle _ _ P He) as (_ & _ & _ & (hr & sys & drv & b & E1 & E2 & E3 & E4 & _) & _).
  rewrite E1, E2, E3, E4 in H1. cbn in H1. injection H1 as <-.
  apply IH in H; [|intros base b0 r0 Hin; apply (Hpr base b0 r0); by right].
  rewrite H. unfold results_sum. cbn [map Qsum snd]. unfold floor_cost at 2, floor_gap.
  rewrite He, E1, E2, E3. unfold node_key. rewrite E4. cbn [oz opt_or_0]. exactify. lra.
Qed.
End Between.

Lemma results_sum_filter (g : JobResult -> Q) heap p tr :
  (forall v, v ∈ tr -> p v = false -> exists r, heap !! v_addr v = Some r /\ g r == 0)%Q ->
  (results_sum g heap (map snd (map cand_of (List.filter p tr))) == results_sum g heap (map v_addr tr))%Q.
Proof.
  unfold results_sum. induction tr as [|v tr IH]; cbn; intros H; [done|].
  destruct (p v) eqn:E; cbn; rewrite IH by set_solver; [done|].
  destruct (H v) as (r & -> & Hz); [set_solver|done|]. lra.
Qed.

Lemma results_sum_pointwise (g : JobResult -> Q) heap heap' addrs :
  (forall a, a ∈ addrs -> match heap !! a with Some r => g r | None => 0 end
                       == match heap' !! a with Some r => g r | None => 0 end)%Q ->
  (results_sum g heap addrs == results_sum g heap' addrs)%Q.
Proof. intros H. by apply Qsum_ext. Qed.

(** Settling the shares touches none of the costs. *)
Lemma settle_shares_frame env s :
  let s' := settle_shares env s in
  rp_cap_multiplier_by_bucket s' = rp_cap_multiplier_by_bucket s /\
  rp_total_rental_cost s' = rp_total_rental_cost s /\
  rp_unbucketed_rental_cost s' = rp_unbucketed_rental_cost s /\
  ds_total_mining_score (rp_base s') = ds_total_mining_score (rp_base s) /\
  ds_mining_share (rp_base s') = ds_mining_share (rp_base s) /\
  ds_miner_incentives (rp_base s') = ds_miner_incentives (rp_base s).
Proof.
  cbv zeta. unfold settle_shares, calculate_rental_share. destruct (rp_seed_snapshot s); [done|].
  by destruct (env_tao_price env), (env_alpha_rate env).
Qed.

Section Finish.
Context (env : Env) (sane : sane_config env) (tr : list visit).
Context (tr_nodup : NoDup (map v_addr tr)).
Context (s1 : RentalState).
Context (split_ok : forall c, c ∈ rp_split_fallback_candidates s1 ->
           exists v, v ∈ tr /\ counted (v_after v) = true /\ c = cand_of v).
Context (spots : rp_spot_pay_candidates s1 = map cand_of (List.filter is_spot_visit tr)).
Context (floors : rp_secure_floor_candidates s1 = map cand_of (List.filter is_floor_visit tr)).
Context (mults : rp_cap_multiplier_by_bucket s1 = []).
Context (cost0 : rp_total_rental_cost s1 = 0%Q) (unb0 : rp_unbucketed_rental_cost s1 = 0%Q).

Definition carried_at (heap : list JobResult) (v : visit) : Prop :=
  exists r, heap !! v_addr v = Some r /\ carried env (v_after v) r.

Lemma visit_at v : v_addr v ∈ map v_addr tr -> exists u, u ∈ tr /\ v_addr u = v_addr v.
Proof. intros (u & E & Hu)%list_elem_of_fmap. by exists u. Qed.

Lemma filter_nodup p : NoDup (map snd (map cand_of (List.filter p tr))).
Proof. rewrite map_map. by apply map_filter_NoDup. Qed.

(** The spot pass, seen from the results. *)
Lemma spot_pass heap2 s heap3 total :
  (forall v, v ∈ tr -> carried_at heap2 v) ->
  rp_spot_pay_candidates s = map cand_of (List.filter is_spot_visit tr) ->
  spot_pay_within_filler_earnings heap2 s = Ok (heap3, total) ->
  (forall v, v ∈ tr -> carried_at heap3 v) /\
  (forall v, v ∈ tr -> is_spot_visit v = false -> heap3 !! v_addr v = heap2 !! v_addr v) /\
  (total == results_sum spot_cost heap3 (map v_addr tr))%Q.
Proof.
  intros Hc Hs H. unfold spot_pay_within_filler_earnings in H. rewrite Hs in H.
  apply bind_ok in H as (sums & _ & H).
  assert (forall v, v ∈ tr -> v_addr v ∈ map snd (map cand_of (List.filter is_spot_visit tr)) ->
    is_spot_visit v = true) as Hmem.
  { intros v Hv. rewrite map_map. intros (u & E & [Hu Hs']%elem_of_bfilter)%list_elem_of_fmap.
    assert (u = v) as <-; [|done]. cbn in E.
    apply list_elem_of_lookup in Hu as (i & Hi). apply list_elem_of_lookup in Hv as (j & Hj).
    assert (i = j) as ->; [|congruence]. eapply (NoDup_lookup (map v_addr tr)); [done| |].
    - by rewrite list_lookup_fmap, Hi.
    - rewrite list_lookup_fmap, Hj. cbn. by rewrite E. }
  apply (spot_pay_loop env) in H as (Hother & Hin & Ht).
  - split_and!.
    + intros v Hv. destruct (Hc v Hv) as (r & Hr & C).
      destruct (decide (v_addr v ∈ map snd (map cand_of (List.filter is_spot_visit tr)))) as [Hm|Hm].
      * destruct (Hin _ Hm) as (x & x' & Hx & Hx' & C'). exists x'. split; [done|].
        rewrite Hr in Hx. injection Hx as <-. by eapply carried_trans.
      * exists r. by rewrite Hother.
    + intros v Hv Hs'. apply Hother. intros Hm. apply Hmem in Hm; congruence.
    + rewrite Ht, results_sum_filter; [lra|]. intros v Hv Hs'. destruct (Hc v Hv) as (r & Hr & C).
      exists r. rewrite Hother by (intros Hm; apply Hmem in Hm; congruence). split; [done|].
      unfold spot_cost. rewrite (ca_spot _ _ _ C). unfold is_spot_visit in Hs'. by rewrite Hs'.
  - apply filter_nodup.
  - intros a r Ha Hr. rewrite map_map in Ha.
    apply list_elem_of_fmap in Ha as (v & -> & [Hv Hs']%elem_of_bfilter).
    destruct (Hc v Hv) as (r' & Hr' & C). cbn in Hr. rewrite Hr in Hr'. injection Hr' as <-.
    split; [apply C|]. by rewrite (ca_spot _ _ _ C).
Qed.

(** The whole callback between the passes: the costs it settles on are the sums
    over the results it leaves. *)
Lemma on_finish_settled heap1 heap3 s3 :
  in_step env tr s1 heap1 s1 -> rental_on_finish env heap1 s1 = Ok (heap3, s3) ->
  let mult k := dget_or 0%Q k (rp_cap_multiplier_by_bucket s3) in
  (forall v, v ∈ tr -> carried_at heap3 v) /\
  (rp_total_rental_cost s3 == results_sum (idle_cost mult) heap3 (map v_addr tr))%Q /\
  (rp_unbucketed_rental_cost s3 ==
     results_sum spot_cost heap3 (map v_addr tr) + results_sum (floor_cost mult) heap3 (map v_addr tr))%Q /\
  ds_total_mining_score (rp_base s3) = ds_total_mining_score (rp_base s1) /\
  ds_mining_share (rp_base s3) = ds_mining_share (rp_base s1) /\
  ds_miner_incentives (rp_base s3) = ds_miner_incentives (rp_base s1) /\
  (rp_rental_share s3 + rp_unbucketed_share s3 + ds_burn_share (rp_base s3) == rp_total_burn_emission s1)%Q.
Proof.
  intros I H. unfold rental_on_finish in H.
  apply bind_ok in H as ([heap2 s2] & H2 & H).
  apply (reassign_in_step env tr tr_nodup s1 split_ok) in H2; [|done].
  destruct H2 as [Hres Hw Hnd (c & w & Hrest)].
  assert (rp_cap_multiplier_by_bucket s2 = []) as Hm2 by (by rewrite Hrest).
  assert (rp_total_rental_cost s2 = 0%Q /\ rp_unbucketed_rental_cost s2 = 0%Q) as [Hc2 Hu2]
    by (by rewrite Hrest).
  assert (rp_secure_floor_candidates s2 = map cand_of (List.filter is_floor_visit tr)) as Hf2
    by (by rewrite Hrest).
  assert (rp_total_burn_emission s2 = rp_total_burn_emission s1) as Ht2 by (by rewrite Hrest).
  apply bind_ok in H as ([heap4 spot] & H4 & H). apply bind_ok in H as (top & H5 & H).
  injection H as <- <-.
  match goal with |- context [settle_shares env ?x] =>
    destruct (settle_shares_frame env x) as (F1 & F2 & F3 & F4 & F5 & F6);
    destruct (settle_shares_bounds env x) as (B1 & _ & _ & _ & B2) end.
  cbn in B1. cbn in F1, F2, F3, F4, F5, F6. cbv zeta. rewrite F1, F2, F3, F4, F5, F6. clear F1 F2 F3 F4 F5 F6.
  set (m := cap_multipliers env s2) in *. rewrite Hc2, Hu2 in *.
  assert (forall v, v ∈ tr -> carried_at heap2 v) as Hc.
  { intros v Hv. destruct (Hres v Hv) as (r & Hr & Hcore & P & E). exists r.
    split; [done|by apply rebucketed_carried]. }
  apply spot_pass in H4 as (Hc4 & Hsame & Hspot); [|done|by rewrite Hrest].
  assert (forall k, cap_of env k <= 0 -> dget_or 0%Q k m = 0%Q) as Hmz.
  { intros k Hk. unfold m, cap_multipliers, dget_or. rewrite cap_fold_get, Hm2 by done.
    destruct (dget k _); [|done]. by rewrite (proj2 (Z.ltb_ge 0 (cap_of env k))), andb_false_r by lia. }
  split_and!; try done; try (by rewrite Hrest).
  - rewrite bucket_cost_fold, Hw, Qplus_0_l.
    rewrite (results_sum_ext _ (idle_cost (fun k => dget_or 0%Q k m)) heap2).
    2:{ intros a r (v & -> & Hv)%list_elem_of_fmap Hr. destruct (Hc v Hv) as (r' & Hr' & C).
        rewrite Hr in Hr'. injection Hr' as <-. apply (contrib_idle env); [done|apply C]. }
    apply results_sum_pointwise. intros a (v & -> & Hv)%list_elem_of_fmap.
    destruct (is_spot_visit v) eqn:Hs; [|by rewrite Hsame].
    destruct (Hc v Hv) as (r & -> & C). destruct (Hc4 v Hv) as (r4 & -> & C4).
    assert (jr_spot_pay_candidate r = true) as Hsp by (by rewrite (ca_spot _ _ _ C)).
    destruct (pr_spot _ _ (ca_priced _ _ _ C) Hsp) as [He _].
    unfold idle_cost. rewrite (ca_eligible _ _ _ C4), <- (ca_eligible _ _ _ C), He. done.
  - unfold secure_floor_top_up in H5. cbn in H5. rewrite Hf2 in H5.
    apply (floor_loop_sum env) in H5.
    + exactify. rewrite H5, Hspot. cbn. rewrite results_sum_filter; [lra|].
      intros v Hv Hf. destruct (Hc4 v Hv) as (r & Hr & C). exists r. split; [done|].
      apply (floor_cost_zero env); [done|apply C|].
      by rewrite (ca_counted _ _ _ C), (ca_filler _ _ _ C).
    + intros base a r (v & E & [Hv Hf]%elem_of_bfilter)%list_elem_of_fmap Hr.
      unfold cand_of in E. injection E as -> ->. destruct (Hc4 v Hv) as (r' & Hr' & C).
      rewrite Hr in Hr'. injection Hr' as <-. split_and!; [apply C| |by rewrite (ca_base _ _ _ C)].
      rewrite (ca_eligible _ _ _ C). unfold is_floor_visit, counted in Hf.
      by destruct (jr_eligible_for_rental_share (v_after v)).
  - rewrite B2, B1, Ht2. unfold fsub. rewrite !rnd_exact.
    generalize (rp_total_burn_emission s1). clear.
    match goal with |- context [settle_shares env ?x] => generalize (settle_shares env x) end.
    intros s q. ring.
Qed.
End Finish.

(** ** What post-processing pays *)
Definition mult_of (s : RentalState) (k : bucket_key) : Q := dget_or 0%Q k (rp_cap_multiplier_by_bucket s).

(** The part of the unbucketed share a cost is paid. *)
Definition unbucketed_pay (s : RentalState) (cost : Q) : Q :=
  if Qleb (rp_unbucketed_rental_cost s) 0 then 0%Q
  else (rp_unbucketed_share s * cost / rp_unbucketed_rental_cost s)%Q.
Definition idle_pay (s : RentalState) (cost : Q) : Q :=
  if Qltb 0 (rp_total_rental_cost s) then (rp_rental_share s * cost / rp_total_rental_cost s)%Q else 0%Q.

Definition node_pay (s : RentalState) (r : JobResult) : Q :=
  if jr_spot_pay_candidate r then unbucketed_pay s (spot_cost r)
  else if jr_eligible_for_rental_share r
  then (idle_pay s (idle_cost (mult_of s) r) + unbucketed_pay s (floor_cost (mult_of s) r))%Q
  else mining_pay (ds_mining_share (rp_base s)) (ds_total_mining_score (rp_base s)) r.

(** Crediting a hotkey. *)
Definition credited (h : string) (q : Q) (s s' : RentalState) : Prop :=
  (exists mi, s' = set_rp_base (set_ds_miner_incentives mi (rp_base s)) s) /\
  forall h', (dget_or 0 h' (ds_miner_incentives (rp_base s')) ==
    dget_or 0 h' (ds_miner_incentives (rp_base s)) + if String.eqb h h' then q else 0)%Q.

Lemma credit_credited h q q' s : (q' == q)%Q -> credited h q s (credit h q' s).
Proof.
  intros E. split; [by eexists|]. intros h'. cbn.
  destruct (String.eqb_spec h h') as [<-|Hne].
  - rewrite dget_or_dset_eq. exactify. lra.
  - rewrite dget_or_dset_ne by done. lra.
Qed.

(** The handlers unfold before the record updates they are made of. *)
Strategy expand [post_spot post_idle rental_post_process default_post_process add_floor_top_up].
Section Post.
Context (env : Env).

Lemma gated_incentive r r' : gated r r' -> incentive_of r' = incentive_of r.
Proof. by apply (core_attr incentive_of). Qed.

Lemma incentive_of_ctx s r : incentive_of (set_cycle_formula_context s r) = incentive_of r.
Proof. done. Qed.

Lemma unbucketed_pay_proper s c c' : (c == c')%Q -> (unbucketed_pay s c == unbucketed_pay s c')%Q.
Proof. intros E. unfold unbucketed_pay. destruct (Qleb _ _); [done|]. by rewrite E. Qed.

Lemma pay_unbucketed_spec s rate r :
  exists r' q, pay_unbucketed s rate r = (r', q) /\
    (q == unbucketed_pay s (inject_Z (jr_gpu_count r) * rate))%Q.
Proof.
  eexists _, _. split; [reflexivity|]. unfold unbucketed_pay.
  change (jr_gpu_count (set_floor_top_up_rate _ _)) with (jr_gpu_count r).
  destruct (Qleb _ _); [done|]. unfold fdiv, fmul, fint. rewrite !rnd_exact. unfold Qdiv. ring.
Qed.

Lemma context_attrs s r : exists r1, set_cycle_formula_context s r = r1 /\
  jr_effective_rate r1 = jr_effective_rate r /\ jr_gpu_count r1 = jr_gpu_count r /\
  incentive_of r1 = incentive_of r.
Proof. by eexists. Qed.

Lemma post_spot_pay h r s r' s' :
  jr_spot_pay_candidate r = true -> post_spot h r s = Ok (r', s') ->
  (incentive_of r' == node_pay s r)%Q /\ credited h (node_pay s r) s s'.
Proof.
  intros Hsp H. unfold post_spot in H.
  destruct (context_attrs s r) as (r1 & E1 & Ee & Eg & _). rewrite E1 in H.
  apply bind_ok in H as (eff & Heff%need_ok & H).
  destruct (pay_unbucketed_spec s eff r1) as (r2 & pay & E2 & Epay). rewrite E2 in H.
  assert (pay == node_pay s r)%Q as Hpay.
  { rewrite Epay. unfold node_pay, spot_cost. rewrite Hsp, <- Ee, Heff, <- Eg. done. }
  apply bind_ok in H as (r3 & Hr3 & H). injection H as <- <-.
  assert (gated (set_incentive (Some pay) r2) r3) as G.
  { destruct (_ && _); [injection Hr3 as <-; apply gated_no_payout|].
    apply bind_ok in Hr3 as (? & _ & Hr3). apply bind_ok in Hr3 as (? & _ & Hr3).
    injection Hr3 as <-. apply gated_log. }
  split; [|by apply credit_credited].
  rewrite (gated_incentive _ _ G). done.
Qed.

(** The floor part adds the unbucketed pay of the top-up. *)
Lemma add_floor_pay s rate inc r cost :
  (cost == inject_Z (jr_gpu_count r) * rate)%Q -> (0 <= rate)%Q -> incentive_of r = inc ->
  (incentive_of (add_floor_top_up s rate inc r).1 == inc + unbucketed_pay s cost)%Q /\
  ((add_floor_top_up s rate inc r).2 == inc + unbucketed_pay s cost)%Q.
Proof.
  intros Hcost Hrate Hinc. unfold add_floor_top_up. destruct (Qltb 0 rate) eqn:Hr; qbool.
  2:{ assert (unbucketed_pay s cost == 0)%Q as E.
      { assert (cost == 0)%Q as Hz by (rewrite Hcost; assert (rate == 0)%Q as -> by lra; ring).
        unfold unbucketed_pay. destruct (Qleb _ _); [done|]. rewrite Hz. unfold Qdiv. ring. }
      cbn. rewrite Hinc, E. split; lra. }
  destruct (pay_unbucketed_spec s rate r) as (r2 & top & E2 & Et). rewrite E2.
  pose proof (unbucketed_pay_proper s _ _ Hcost) as Ec. cbn [fst snd]. split.
  - match goal with |- (incentive_of ?y == _)%Q => assert (gated (set_incentive (Some (fadd inc top)) r2) y) as G
      by (destruct (Qltb 0 top); [apply gated_log|destruct (unbucketed_clamped_to_zero s); [apply gated_log|done]])
    end.
    rewrite (gated_incentive _ _ G). change (inc + top == inc + unbucketed_pay s cost)%Q. lra.
  - change (inc + top == inc + unbucketed_pay s cost)%Q. lra.
Qed.

Lemma gated_explain c d x r : gated r (explain_zero_effective_rate c d x r).
Proof.
  unfold explain_zero_effective_rate.
  transitivity (if Qeqb c 0 then log_no_payout NO_UNRENTED_CAPACITY_FOR_GPU_COUNT r else r);
    [destruct (Qeqb c 0); auto with rental|apply gated_zero_factors].
Qed.

Lemma post_idle_pay h r s r' s' :
  priced env r -> jr_eligible_for_rental_share r = true -> post_idle env h r s = Ok (r', s') ->
  (incentive_of r' == node_pay s r)%Q /\ credited h (node_pay s r) s s'.
Proof.
  intros P He H. unfold post_idle in H.
  destruct (pr_idle _ _ P He) as (Hsp & _ & Hb & (hr & sys & drv & b & E1 & E2 & E3 & E4 & P1 & P2 & P3) & Hmax).
  rewrite Hb, E4, E1, E2, E3, Hmax in H. cbn [need mbind res_bind] in H.
  assert ((base_of r, b) = node_key r) as Ek by (unfold node_key; by rewrite E4). rewrite Ek in H.
  set (m := dget_or 0%Q (node_key r) (rp_cap_multiplier_by_bucket s)) in H.
  set (gap := fsub (floored_rate r (fmul hr m)) (fmul hr m)) in H.
  assert (gap = floor_gap (mult_of s) r) as Egap by (unfold gap, floor_gap; rewrite E1; done).
  match type of H with context [set_cycle_formula_context s ?x] =>
    destruct (context_attrs s x) as (r1 & Ec & _ & Eg & _); rewrite Ec in H;
    change (jr_gpu_count x) with (jr_gpu_count r) in Eg end.
  rewrite Eg in H.
  set (q := if Qltb 0 (rp_total_rental_cost s) then _ else _) in H.
  assert (q == idle_pay s (idle_cost (mult_of s) r))%Q as Eq.
  { unfold q, idle_pay, idle_cost. rewrite He. destruct (Qltb 0 _); [|done].
    unfold node_weight. rewrite E1, E2, E3. fold (mult_of s (node_key r)) in m. subst m.
    cbn [opt_or_0]. unfold fdiv, fmul, fint. rewrite !rnd_exact. unfold Qdiv. ring. }
  clearbody q.
  set (r2 := log_line RentalIncentiveCalculated (set_incentive (Some q) r1)) in H.
  assert (incentive_of r2 = q) as Ei2 by done.
  assert (jr_gpu_count r2 = jr_gpu_count r) as Eg2 by (by rewrite <- Eg).
  clearbody r2.
  set (rate := fmul (fmul gap sys) drv) in H.
  assert (0 <= rate)%Q as Hrate.
  { pose proof (floor_gap_nonneg (mult_of s) r) as Hg. rewrite <- Egap in Hg.
    unfold rate, fmul. rewrite !rnd_exact. apply Qmult_le_0_compat; [|done]. by apply Qmult_le_0_compat. }
  destruct (add_floor_pay s rate q r2 (floor_cost (mult_of s) r)) as [F1 F2]; [|done|done|].
  { unfold floor_cost. rewrite He, E2, E3, Eg2, <- Egap. unfold rate, fmul. rewrite !rnd_exact.
    cbn [opt_or_0]. ring. }
  destruct (add_floor_top_up s rate q r2) as [r3 q3]. cbn [fst snd] in F1, F2.
  injection H as <- <-.
  assert (q + unbucketed_pay s (floor_cost (mult_of s) r) == node_pay s r)%Q as Ep
    by (unfold node_pay; rewrite Hsp, He; lra).
  split; [|apply credit_credited; lra].
  match goal with |- (incentive_of ?y == _)%Q => assert (gated r3 y) as G end.
  { etransitivity; [|apply gated_explain]. destruct (jr_bucket_reassigned_from r3); [apply gated_log|done]. }
  rewrite (gated_incentive _ _ G). lra.
Qed.

Lemma rental_post_pay h r s r' s' :
  priced env r -> rental_post_process env h r s = Ok (r', s') ->
  (incentive_of r' == node_pay s r)%Q /\ credited h (node_pay s r) s s'.
Proof.
  intros P H. unfold rental_post_process in H.
  destruct (jr_spot_pay_candidate r) eqn:Hsp; [by apply post_spot_pay|].
  destruct (jr_eligible_for_rental_share r) eqn:He; cbn [negb] in H; [by apply post_idle_pay|].
  assert (node_pay s r = mining_pay (ds_mining_share (rp_base s)) (ds_total_mining_score (rp_base s)) r) as ->
    by (unfold node_pay; by rewrite Hsp, He).
  destruct (jr_mining_score r) as [ms|] eqn:Hms.
  - assert (jr_mining_score r <> None) as Hn by congruence.
    destruct (default_post_pay h r (rp_base s) Hn) as [F1 F2].
    destruct (default_post_process h r (rp_base s)) as [r1 b1]. cbn [fst snd] in F1, F2.
    injection H as <- <-. split; [by rewrite incentive_of_ctx, F1|]. rewrite F2.
    by apply credit_credited.
  - unfold default_post_process in H.
    change (jr_mining_score (set_total_mining_score _ _)) with (jr_mining_score r) in H.
    rewrite Hms in H. injection H as <- <-.
    assert (mining_pay (ds_mining_share (rp_base s)) (ds_total_mining_score (rp_base s)) r == 0)%Q as Hz.
    { unfold mining_pay, mining_score_of. rewrite Hms. destruct (Qltb _ _); [|done]. unfold Qdiv. ring. }
    split.
    + rewrite incentive_of_ctx, Hz. unfold incentive_of.
      match goal with |- (match jr_incentive ?x with _ => _ end == 0)%Q =>
        change (jr_incentive x) with (jr_incentive r) end.
      by rewrite (pr_incentive _ _ P).
    + split; [exists (ds_miner_incentives (rp_base s)); by destruct s as [[] ]|].
      set (q := mining_pay _ _ r) in *. clearbody q. intros h'. cbn. destruct (String.eqb _ _); lra.
Qed.
End Post.

(** ** The payout of a cycle *)
Lemma results_sum_plus f g heap addrs :
  (results_sum (fun r => f r + g r) heap addrs == results_sum f heap addrs + results_sum g heap addrs)%Q.
Proof.
  unfold results_sum. induction addrs as [|a addrs IH]; cbn; [lra|]. rewrite IH.
  destruct (heap !! a); lra.
Qed.
Lemma results_sum_scale c g heap addrs :
  (results_sum (fun r => c * g r) heap addrs == c * results_sum g heap addrs)%Q.
Proof.
  unfold results_sum. induction addrs as [|a addrs IH]; cbn; [lra|]. rewrite IH.
  destruct (heap !! a); lra.
Qed.
Lemma results_sum_zero heap addrs : (results_sum (fun _ => 0%Q) heap addrs == 0)%Q.
Proof.
  unfold results_sum. induction addrs as [|a addrs IH]; cbn; [lra|]. rewrite IH.
  destruct (heap !! a); lra.
Qed.

(** A pool shared in proportion to a cost pays out exactly the pool. *)
Lemma pool_share_sum (share total : Q) g heap addrs :
  (results_sum g heap addrs == total)%Q ->
  (results_sum (fun r => if Qltb 0 total then share * g r / total else 0)%Q heap addrs
     == if Qltb 0 total then share else 0)%Q.
Proof.
  intros E. destruct (Qltb 0 total) eqn:H; [|apply results_sum_zero]. qbool.
  rewrite (results_sum_ext _ (fun r => share / total * g r)%Q) by (intros; field; lra).
  rewrite results_sum_scale, E. field. lra.
Qed.

(** Every node is paid from the pools it has a cost in. *)
Lemma node_pay_parts env s r : priced env r ->
  (node_pay s r ==
     (mining_pay (ds_mining_share (rp_base s)) (ds_total_mining_score (rp_base s)) r +
      idle_pay s (idle_cost (mult_of s) r)) +
     unbucketed_pay s (spot_cost r + floor_cost (mult_of s) r))%Q.
Proof.
  intros P. unfold node_pay, mining_pay, mining_score_of, idle_pay, unbucketed_pay, spot_cost, idle_cost, floor_cost.
  destruct (jr_spot_pay_candidate r) eqn:Hsp.
  - destruct (pr_spot _ _ P Hsp) as [-> ->]. unfold Qdiv. qsplit; ring.
  - destruct (jr_eligible_for_rental_share r) eqn:He; [|unfold Qdiv; qsplit; ring].
    destruct (pr_idle _ _ P He) as (_ & -> & _). unfold Qdiv. qsplit; ring.
Qed.

Lemma node_pay_total env s heap addrs :
  (forall a r, a ∈ addrs -> heap !! a = Some r -> priced env r) ->
  (results_sum mining_score_of heap addrs == ds_total_mining_score (rp_base s))%Q ->
  (results_sum (idle_cost (mult_of s)) heap addrs == rp_total_rental_cost s)%Q ->
  (results_sum spot_cost heap addrs + results_sum (floor_cost (mult_of s)) heap addrs
     == rp_unbucketed_rental_cost s)%Q ->
  (results_sum (node_pay s) heap addrs ==
     ((if Qltb 0 (ds_total_mining_score (rp_base s)) then ds_mining_share (rp_base s) else 0) +
      (if Qltb 0 (rp_total_rental_cost s) then rp_rental_share s else 0)) +
     (if Qltb 0 (rp_unbucketed_rental_cost s) then rp_unbucketed_share s else 0))%Q.
Proof.
  intros P HT HC HU.
  rewrite (results_sum_ext _ _ _ _ (fun a r Ha Hr => node_pay_parts env s r (P a r Ha Hr))).
  rewrite !results_sum_plus.
  assert (results_sum (fun r => spot_cost r + floor_cost (mult_of s) r)%Q heap addrs
            == rp_unbucketed_rental_cost s)%Q as HU' by (by rewrite results_sum_plus).
  unfold mining_pay, idle_pay, unbucketed_pay.
  rewrite (pool_share_sum _ _ _ _ _ HT), (pool_share_sum _ _ _ _ _ HC).
  rewrite <- (pool_share_sum (rp_unbucketed_share s) _ _ _ _ HU').
  apply Qplus_comp; [done|]. apply results_sum_ext. intros a r _ _. unfold Qltb, Qleb.
  by destruct (Qle_bool _ _).
Qed.

(** The second pass, visit by visit. *)
Lemma rental_post_runs env s3 tr s s' :
  (exists mi, s = set_rp_base (set_ds_miner_incentives mi (rp_base s3)) s3) ->
  (forall v, v ∈ tr -> priced env (v_before v)) ->
  runs (@post_callback _ _ (rental_algorithm env)) s tr s' ->
  (exists mi, s' = set_rp_base (set_ds_miner_incentives mi (rp_base s3)) s3) /\
  (forall v, v ∈ tr -> incentive_of (v_after v) == node_pay s3 (v_before v))%Q /\
  (forall h, dget_or 0 h (ds_miner_incentives (rp_base s')) == dget_or 0 h (ds_miner_incentives (rp_base s)) +
     Qsum (map (fun v => node_pay s3 (v_before v)) (List.filter (fun v => String.eqb (v_hotkey v) h) tr)))%Q.
Proof.
  intros Hs P H. revert Hs P. induction H as [s|v tr s s1 s2 Hf _ IH]; intros Hs P.
  { split_and!; [done|set_solver|intros; cbn; lra]. }
  unfold post_callback, ia_post in Hf. cbn in Hf. apply bind_ok in Hf as ([r1 s1'] & Hf & E).
  injection E as Hv <-. apply (rental_post_pay env) in Hf as [Hpay [[mi Hmi] Hcr]]; [|apply P; set_solver].
  destruct Hs as [mi0 ->].
  assert (forall r, node_pay (set_rp_base (set_ds_miner_incentives mi0 (rp_base s3)) s3) r = node_pay s3 r) as En
    by done. rewrite En in *.
  destruct IH as (I1 & I2 & I3); [subst; by exists mi|intros; apply P; set_solver|].
  split_and!; [done| |].
  - intros u [->|Hu]%elem_of_cons; [|auto]. by rewrite <- Hv, incentive_of_split.
  - intros h. rewrite I3, Hcr. cbn. rewrite ?En. destruct (String.eqb (v_hotkey v) h); cbn; lra.
Qed.

(** The first pass, visit by visit. *)
Lemma rental_pre_runs env tr s s' :
  sane_config env -> (forall v, v ∈ tr -> fresh_result (v_before v)) ->
  runs (@pre_callback _ (rental_algorithm env) (env_settings env)) s tr s' ->
  Forall (visit_ok env) tr /\ s' = foldl (fun s v => rental_acc env v s) s tr.
Proof.
  intros sane Hfresh H. induction H as [s|v tr s s1 s2 Hf _ IH]; [by split|].
  destruct v as [h a r r']. unfold pre_callback, ia_pre in Hf. cbn [v_hotkey v_addr v_before v_after] in Hf.
  apply (rental_pre_factor env sane h) in Hf as [[P N F] ->].
  2:{ exact (Hfresh (mkVisit h a r r') ltac:(set_solver)). }
  destruct IH as [IH1 IH2]; [set_solver|]. split; [|done].
  constructor; [|done]. split; [done| |done]. cbn in N |- *. destruct N. by split.
Qed.

(** In step after the first pass. *)
Lemma pre_in_step env tr heap1 s0 s1 pairs :
  map v_pair tr = pairs -> (forall v, v ∈ tr -> heap1 !! v_addr v = Some (v_after v)) ->
  Forall (visit_ok env) tr -> pre_sums tr s0 s1 ->
  rp_unrented_count_by_bucket s0 = [] -> rp_weighted_rate_sum_by_bucket s0 = [] ->
  in_step env tr s1 heap1 s1.
Proof.
  intros Htr Hh Hok PS Hc0 Hw0. rewrite Forall_forall in Hok. split.
  - intros v Hv. exists (v_after v). split_and!; [auto|done|by apply Hok|done].
  - intros f. rewrite (ps_wsum _ _ _ PS), Hw0.
    rewrite <- (results_sum_visits (contrib f) heap1 pairs tr v_after), <- Htr, map_map by done.
    unfold wsum. cbn. rewrite Qplus_0_l. done.
  - apply (ps_nodup _ _ _ PS). rewrite Hc0. apply NoDup_nil_2.
  - exists (rp_unrented_count_by_bucket s1), (rp_weighted_rate_sum_by_bucket s1). by destruct s1.
Qed.

Lemma rental_cycle_facts env map0 heap jobs s0 w :
  sane_config env -> NoDup (map snd (scored_pairs jobs)) ->
  (forall h a r, (h, a) ∈ scored_pairs jobs -> heap !! a = Some r -> fresh_result r) ->
  rental_init env map0 None = Ok s0 ->
  @calculate_mining_scores _ _ (rental_algorithm env) (env_settings env) (mkWorld heap jobs s0) = Ok w ->
  let s := w_eng w in
  (results_sum incentive_of (w_heap w) (map snd (scored_pairs jobs)) ==
     ((if Qltb 0 (ds_total_mining_score (rp_base s)) then ds_mining_share (rp_base s) else 0) +
      (if Qltb 0 (rp_total_rental_cost s) then rp_rental_share s else 0)) +
     (if Qltb 0 (rp_unbucketed_rental_cost s) then rp_unbucketed_share s else 0))%Q /\
  (forall h, dget_or 0 h (ds_miner_incentives (rp_base s)) ==
     results_sum incentive_of (w_heap w) (addrs_of h (scored_pairs jobs)))%Q /\
  (ds_mining_share (rp_base s) + rp_rental_share s + rp_unbucketed_share s + ds_burn_share (rp_base s) == 1)%Q.
Proof.
  intros sane Hnd Hfresh Hinit H. unfold calculate_mining_scores in H. cbn [w_heap w_jobs w_eng] in H.
  set (pairs := scored_pairs jobs) in *.
  apply bind_ok in H as ([heap1 s1] & H1 & H). apply bind_ok in H as ([heap3 s3] & H3 & H).
  apply bind_ok in H as ([heap5 s5] & H5 & [= <-]). cbn.
  apply step_loop_runs in H1 as (_ & _ & tr & Htr & Hruns & Hall); [|done].
  apply step_loop_runs in H5 as (_ & _ & tr2 & Htr2 & Hruns2 & Hall2); [|done].
  apply rental_pre_runs in Hruns as [Hok ->]; [|done|].
  2:{ intros v Hv. apply (Hfresh (v_hotkey v) (v_addr v)).
      - rewrite <- Htr. apply list_elem_of_fmap. by exists v.
      - apply (Hall v Hv). }
  pose proof (rental_acc_fold env tr s0 Hok) as PS.
  set (s1 := foldl (fun s v => rental_acc env v s) s0 tr) in *.
  unfold rental_init in Hinit. destruct (negb _); [done|]. injection Hinit as Hinit.
  assert (NoDup (map v_addr tr)) as Hnd' by (rewrite <- Htr, map_map in Hnd; done).
  assert (map snd pairs = map v_addr tr) as Ea by (rewrite <- Htr, map_map; done).
  pose proof (ps_const _ _ _ PS) as [C1 C2 C3 C4 C5 C6].
  assert (in_step env tr s1 heap1 s1) as I.
  { eapply pre_in_step; [done| |done|exact PS|by rewrite <- Hinit|by rewrite <- Hinit].
    intros v Hv. apply (Hall v Hv). }
  destruct (on_finish_settled env sane tr Hnd' s1) with (heap1 := heap1) (heap3 := heap3) (s3 := s3)
    as (Hcar & HC & HU & ET & ES & EI & EB).
  { intros c Hc. apply (ps_split _ _ _ PS) in Hc as [Hc|?]; [|done]. rewrite <- Hinit in Hc. set_solver. }
  { rewrite (ps_spot _ _ _ PS), <- Hinit. done. }
  { rewrite (ps_floor _ _ _ PS), <- Hinit. done. }
  { by rewrite C1, <- Hinit. }
  { by rewrite C3, <- Hinit. }
  { by rewrite C2, <- Hinit. }
  { done. }
  { done. }
  assert (forall v, v ∈ tr2 -> heap3 !! v_addr v = Some (v_before v)) as Hb2 by (intros v Hv; apply (Hall2 v Hv)).
  assert (forall a r, a ∈ map v_addr tr -> heap3 !! a = Some r -> priced env r) as Hpr.
  { intros a r (v & -> & Hv)%list_elem_of_fmap Hr. destruct (Hcar v Hv) as (r' & Hr' & C).
    rewrite Hr in Hr'. injection Hr' as <-. apply C. }
  apply (rental_post_runs env s3) in Hruns2 as ([mi ->] & Hpay & Hcredit).
  2:{ exists (ds_miner_incentives (rp_base s3)). by destruct s3 as [[] ]. }
  2:{ intros v Hv. apply (Hpr (v_addr v)); [|auto]. rewrite <- Ea, <- Htr2, map_map.
      apply list_elem_of_fmap. by exists v. }
  cbn [rp_base set_rp_base ds_total_mining_score ds_mining_share ds_miner_incentives ds_burn_share
    set_ds_miner_incentives rp_rental_share rp_total_rental_cost rp_unbucketed_rental_cost
    rp_unbucketed_share] in *.
  assert (results_sum mining_score_of heap3 (map v_addr tr) == ds_total_mining_score (rp_base s3))%Q as HT.
  { rewrite ET, (ps_mining _ _ _ PS), <- Hinit. cbn [rp_base set_ds_burn_share default_init ds_total_mining_score].
    rewrite Qplus_0_l. unfold results_sum. rewrite map_map. apply Qsum_ext. intros v Hv.
    destruct (Hcar v Hv) as (r & -> & C). unfold mining_score_of. by rewrite (ca_mining _ _ _ C). }
  split_and!.
  - rewrite <- (node_pay_total env s3 heap3 (map v_addr tr)); [|done|done|by symmetry|by symmetry].
    rewrite (results_sum_visits _ _ _ tr2 v_after) by (try done; intros v Hv; apply (Hall2 v Hv)).
    rewrite <- Ea, (results_sum_visits _ _ _ tr2 v_before) by done. apply Qsum_ext. auto.
  - intros h. rewrite Hcredit, EI, C6, <- Hinit.
    rewrite (results_sum_visits_of _ _ _ tr2 v_after) by (try done; intros v Hv; apply (Hall2 v Hv)).
    cbn. unfold dget_or. cbn. rewrite Qplus_0_l. apply Qsum_ext.
    intros v [Hv _]%elem_of_bfilter. symmetry. by apply Hpay.
  - rewrite ES, C5. rewrite C4 in EB. rewrite <- Hinit in EB |- *. cbn in EB |- *. exactify. lra.
Qed.

(** C1. A whole cycle of the rental-price algorithm in exact arithmetic: what it
    pays to all nodes together is the mining share (when any node has a mining
    score) plus the rental share (when any idle node has a cost) plus the
    unbucketed share (when spot pay or floor top-ups have a cost), no more and no
    less; every hotkey is credited exactly what its own nodes were paid; and the
    four shares, burn included, add up to the whole emission. *)
Theorem rental_cycle_conserves env map0 heap jobs s0 w :
  sane_config env -> NoDup (map snd (scored_pairs jobs)) ->
  (forall h a r, (h, a) ∈ scored_pairs jobs -> heap !! a = Some r -> fresh_result r) ->
  rental_init env map0 None = Ok s0 ->
  @calculate_mining_scores _ _ (rental_algorithm env) (env_settings env) (mkWorld heap jobs s0) = Ok w ->
  let s := w_eng w in
  (results_sum incentive_of (w_heap w) (map snd (scored_pairs jobs)) ==
     ((if Qltb 0 (ds_total_mining_score (rp_base s)) then ds_mining_share (rp_base s) else 0) +
      (if Qltb 0 (rp_total_rental_cost s) then rp_rental_share s else 0)) +
     (if Qltb 0 (rp_unbucketed_rental_cost s) then rp_unbucketed_share s else 0))%Q /\
  (forall h, dget_or 0 h (ds_miner_incentives (rp_base s)) ==
     results_sum incentive_of (w_heap w) (addrs_of h (scored_pairs jobs)))%Q /\
  (ds_mining_share (rp_base s) + rp_rental_share s + rp_unbucketed_share s + ds_burn_share (rp_base s) == 1)%Q.
Proof. exact (rental_cycle_facts env map0 heap jobs s0 w). Qed.
