(* ===== verification/RentalSplit.v ===== *)
(** * Partially rented split nodes, and the identity of nodes across a cycle

    [RentalPriceIncentive.calculate_mining_scores] replaces a partially rented
    split node by two virtual results, scores the extended lists, and merges the
    two results back.  This file shows that a cycle never changes which node a
    result describes, and that expansion and merge leave every list, every node
    size and every payment as one result per executor. *)

From Stdlib Require Import String.
From S2P Require Import Prelude Float64 PyValue JobResult IncentiveConfig Readings Burn IncentiveBase DefaultIncentive RentalGates RentalPrice RentalShares RentalScoring RentalConservation.

Local Open Scope Z_scope.

(** ** Results keep describing the same node *)
Lemma gated_same r r' : gated r r' -> same_node r r'.
Proof. intros G. by apply scored_same_node, gated_scored. Qed.

Definition heap_same (heap heap' : list JobResult) : Prop :=
  forall a r, heap !! a = Some r -> exists r', heap' !! a = Some r' /\ same_node r r'.

#[export] Instance heap_same_refl : Reflexive heap_same.
Proof. intros heap a r H. by exists r. Qed.
#[export] Instance heap_same_trans : Transitive heap_same.
Proof.
  intros h1 h2 h3 H1 H2 a r H. destruct (H1 a r H) as (r2 & E2 & S2). destruct (H2 a r2 E2) as (r3 & E3 & S3).
  exists r3. split; [done|by transitivity r2].
Qed.
Lemma heap_same_insert heap a r r' :
  heap !! a = Some r -> same_node r r' -> heap_same heap (<[a := r']> heap).
Proof.
  intros Ha Hs b x Hb. assert (a < length heap)%nat as Hlt by (by eapply lookup_lt_Some).
  destruct (decide (a = b)) as [->|Hne].
  - exists r'. rewrite list_lookup_insert_eq by done. rewrite Ha in Hb. injection Hb as <-. done.
  - exists x. by rewrite list_lookup_insert_ne.
Qed.

Section Frames.
Context `{R : Rounding}.
Context (env : Env).

Lemma reassign_step_same heap s c heap' s' :
  reassign_step env (heap, s) c = Ok (heap', s') -> heap_same heap heap'.
Proof.
  intros H. unfold reassign_step in H. destruct c as [b a].
  apply bind_ok in H as (r & Hr & H). unfold deref in Hr. destruct (heap !! a) as [r0|] eqn:Ea; [|done].
  injection Hr as ->. destruct (jr_count_bucket r) as [src|]; [|by injection H as <- <-].
  destruct (jr_gpu_splitting_min_count r) as [tgt|]; [|by injection H as <- <-].
  cbv zeta in H.
  repeat (match type of H with (if ?b then _ else _) = _ => destruct b; [by injection H as <- <-|] end).
  do 4 (apply bind_ok in H as (? & _ & H)). injection H as <- _.
  eapply heap_same_insert; [done|]. by split.
Qed.

Lemma foldM_same {S} (f : list JobResult * S -> string * addr -> res (list JobResult * S)) cs heap s heap' s' :
  (forall h s c h' s', f (h, s) c = Ok (h', s') -> heap_same h h') ->
  foldM f (heap, s) cs = Ok (heap', s') -> heap_same heap heap'.
Proof.
  intros Hf. revert heap s. induction cs as [|c cs IH]; cbn; intros heap s H; [by injection H as <- <-|].
  apply bind_ok in H as ([h1 s1] & H1 & H). transitivity h1; [by eapply Hf|by eapply IH].
Qed.

Lemma spot_step_same sums pools heap q c heap' q' :
  spot_pay_step sums pools (heap, q) c = Ok (heap', q') -> heap_same heap heap'.
Proof.
  intros H. unfold spot_pay_step in H. apply bind_ok in H as (r & Hr & H).
  unfold deref in Hr. destruct (heap !! c.2) as [r0|] eqn:Ea; [|done]. injection Hr as ->.
  do 3 (apply bind_ok in H as (? & _ & H)). cbv zeta in H. injection H as <- _.
  eapply heap_same_insert; [done|]. by split.
Qed.

Lemma on_finish_same heap s heap' s' : rental_on_finish env heap s = Ok (heap', s') -> heap_same heap heap'.
Proof.
  intros H. unfold rental_on_finish in H. apply bind_ok in H as ([h1 s1] & H1 & H).
  apply bind_ok in H as ([h2 q] & H2 & H). apply bind_ok in H as (top & _ & H). injection H as <- _.
  transitivity h1.
  - eapply foldM_same; [|exact H1]. intros; by eapply reassign_step_same.
  - unfold spot_pay_within_filler_earnings in H2. apply bind_ok in H2 as (sums & _ & H2).
    eapply foldM_same; [|exact H2]. intros; by eapply spot_step_same.
Qed.

Lemma context_same s r : same_node r (set_cycle_formula_context s r).
Proof. by split. Qed.
Lemma incentive_same o r : same_node r (set_incentive o r).
Proof. by split. Qed.
Lemma pay_unbucketed_same s q r : same_node r (pay_unbucketed s q r).1.
Proof. by split. Qed.
Lemma log_same k r : same_node r (log_line k r).
Proof. apply gated_same, gated_log. Qed.
Lemma split_pools_same r : same_node r (split_incentive_across_pools r).
Proof. unfold split_incentive_across_pools. destruct (jr_incentive r); by split. Qed.

(** Name an intermediate result, keeping only what is known of it. *)
Lemma name_result r x : same_node r x -> exists y, x = y /\ same_node r y.
Proof. intros H. by exists x. Qed.

Lemma post_spot_same h r s r' s' : post_spot h r s = Ok (r', s') -> same_node r r'.
Proof.
  intros H. unfold post_spot in H.
  destruct (name_result r _ (context_same s r)) as (r1 & E1 & S1). rewrite E1 in H. clear E1.
  apply bind_ok in H as (q & _ & H). pose proof (pay_unbucketed_same s q r1) as S2.
  destruct (pay_unbucketed s q r1) as [r2 pay]. cbn [fst] in S2.
  apply bind_ok in H as (r3 & H3 & H). injection H as <- _.
  transitivity r1; [done|]. transitivity r2; [done|]. transitivity (set_incentive (Some pay) r2); [by split|].
  destruct (_ && _); [injection H3 as <-; apply log_same|].
  apply bind_ok in H3 as (? & _ & H3). apply bind_ok in H3 as (? & _ & H3). injection H3 as <-. apply log_same.
Qed.

Lemma floor_top_up_same s q i r : same_node r (add_floor_top_up s q i r).1.
Proof.
  unfold add_floor_top_up. destruct (Qltb 0 q); [|done].
  pose proof (pay_unbucketed_same s q r) as S. destruct (pay_unbucketed s q r) as [r1 top]. cbn [fst] in *.
  transitivity r1; [done|]. transitivity (set_incentive (Some (fadd i top)) r1); [by split|].
  destruct (Qltb 0 top); [apply log_same|]. destruct (unbucketed_clamped_to_zero s); [apply log_same|done].
Qed.

Lemma zero_factors_same d y r : same_node r (record_zero_driver_and_sysbox_reasons d y r).
Proof. apply gated_same. apply gated_zero_factors. Qed.

Lemma post_idle_same h r s r' s' : post_idle env h r s = Ok (r', s') -> same_node r r'.
Proof.
  intros H. unfold post_idle in H. do 5 (apply bind_ok in H as (? & _ & H)). cbv zeta in H.
  match type of H with context [set_cycle_formula_context s ?x] =>
    destruct (name_result r (set_cycle_formula_context s x)) as (r1 & E1 & S2);
      [by split|rewrite E1 in H; clear E1] end.
  match type of H with context [log_line RentalIncentiveCalculated (set_incentive ?i r1)] =>
    destruct (name_result r1 (log_line RentalIncentiveCalculated (set_incentive i r1))) as (r2 & E2 & S3);
      [transitivity (set_incentive i r1); [by split|apply log_same]|rewrite E2 in H; clear E2] end.
  match type of H with context [add_floor_top_up s ?q ?i r2] =>
    pose proof (floor_top_up_same s q i r2) as S4; destruct (add_floor_top_up s q i r2) as [r3 inc] end.
  cbn [fst] in S4. injection H as <- _.
  transitivity r1; [exact S2|]. transitivity r2; [exact S3|]. transitivity r3; [exact S4|].
  unfold explain_zero_effective_rate.
  etransitivity; [|apply zero_factors_same]. etransitivity; [|destruct (Qeqb _ 0); [apply log_same|reflexivity]].
  destruct (jr_bucket_reassigned_from r3); [apply log_same|done].
Qed.

Lemma rental_post_same h r s r' s' : rental_post_process env h r s = Ok (r', s') -> same_node r r'.
Proof.
  intros H. unfold rental_post_process in H. destruct (jr_spot_pay_candidate r); [by eapply post_spot_same|].
  destruct (negb _); [|by eapply post_idle_same].
  assert (same_node r (default_post_process h r (rp_base s)).1) as S1.
  { unfold default_post_process. destruct (jr_mining_score _); cbn [fst]; [|etransitivity; [|apply log_same]; by split].
    etransitivity; [|apply log_same]. by split. }
  destruct (default_post_process h r (rp_base s)) as [r1 b]. injection H as <- _. cbn [fst] in S1.
  transitivity r1; [done|apply context_same].
Qed.
End Frames.

(** ** Expansion *)

(** What the expansion makes of one partially rented node. *)
Definition portion_of (heap heap' : list JobResult) (p : SplitPortions) : Prop :=
  exists r rented free, heap !! sp_rented p = Some r /\
    free_gpu_count_of_partially_rented_split r = Some free /\ jr_rented_gpu_count r = Some rented /\
    heap' !! sp_rented p = Some (set_gpu_count rented r) /\ heap' !! sp_free p = Some (free_portion_of free r).

(** The new objects follow the old ones in the store, one per split node. *)
Record expanded (heap heap' : list JobResult) (pairs : list (string * addr)) (ps : list SplitPortions) : Prop := {
  xp_free : map sp_free ps = seq (length heap) (length ps);
  xp_length : length heap' = (length heap + length ps)%nat;
  xp_in : forall p, p ∈ ps -> (sp_hotkey p, sp_rented p) ∈ pairs;
  xp_nodup : NoDup (map sp_rented ps);
  xp_other : forall a, (a < length heap)%nat -> a ∉ map sp_rented ps -> heap' !! a = heap !! a;
  xp_portion : forall p, p ∈ ps -> portion_of heap heap' p
}.

Lemma expanded_nil heap pairs : expanded heap heap pairs [].
Proof. split; cbn; [done|lia|set_solver|apply NoDup_nil_2|done|set_solver]. Qed.

Lemma expanded_one heap hotkey a r rented free :
  heap !! a = Some r -> free_gpu_count_of_partially_rented_split r = Some free ->
  jr_rented_gpu_count r = Some rented ->
  expanded heap (<[a := set_gpu_count rented r]> heap ++ [free_portion_of free r]) [(hotkey, a)]
    [mkPortions hotkey a (length heap)].
Proof.
  intros Ha Hf Hr. assert (a < length heap)%nat as Hlt by (by eapply lookup_lt_Some).
  split; cbn; try done.
  - rewrite length_app, length_insert. cbn. lia.
  - set_solver.
  - apply NoDup_singleton.
  - intros b Hb Hne. rewrite lookup_app_l by (by rewrite length_insert). apply list_lookup_insert_ne. set_solver.
  - intros p ->%list_elem_of_singleton. exists r, rented, free. cbn. split_and!; try done.
    + rewrite lookup_app_l by (by rewrite length_insert). by apply list_lookup_insert_eq.
    + rewrite lookup_app_r by (by rewrite length_insert). by rewrite length_insert, Nat.sub_diag.
Qed.

Lemma expanded_rented_in heap heap' pairs ps p :
  expanded heap heap' pairs ps -> p ∈ ps -> sp_rented p ∈ map snd pairs.
Proof. intros E Hp%(xp_in _ _ _ _ E). apply list_elem_of_fmap. by exists (sp_hotkey p, sp_rented p). Qed.

Lemma expanded_free_range heap heap' pairs ps p :
  expanded heap heap' pairs ps -> p ∈ ps -> (length heap <= sp_free p < length heap')%nat.
Proof.
  intros E Hp. assert (sp_free p ∈ map sp_free ps) as Hin by (apply list_elem_of_fmap; by exists p).
  rewrite (xp_free _ _ _ _ E) in Hin. apply elem_of_seq in Hin. rewrite (xp_length _ _ _ _ E). lia.
Qed.

Lemma expanded_app h0 h1 h2 P1 P2 q1 q2 :
  expanded h0 h1 P1 q1 -> expanded h1 h2 P2 q2 ->
  (forall p, p ∈ P1 ++ P2 -> p.2 < length h0)%nat -> NoDup (map snd (P1 ++ P2)) ->
  expanded h0 h2 (P1 ++ P2) (q1 ++ q2).
Proof.
  intros E1 E2 Hlt Hnd. rewrite map_app in Hnd. apply NoDup_app in Hnd as (N1 & N12 & N2).
  assert (forall p, p ∈ q1 ++ q2 -> sp_rented p < length h0)%nat as L.
  { intros p [Hp|Hp]%elem_of_app; [apply (xp_in _ _ _ _ E1) in Hp|apply (xp_in _ _ _ _ E2) in Hp];
      apply (Hlt (sp_hotkey p, sp_rented p)); set_solver. }
  pose proof (xp_length _ _ _ _ E1) as Len1.
  assert (forall a, a ∈ map sp_rented q1 -> a ∉ map sp_rented q2) as D.
  { intros a (p & -> & Hp)%list_elem_of_fmap (p' & E & Hp')%list_elem_of_fmap.
    apply (N12 (sp_rented p)); [by apply (expanded_rented_in _ _ _ _ _ E1)|].
    rewrite E. by apply (expanded_rented_in _ _ _ _ _ E2). }
  split.
  - rewrite map_app, length_app, seq_app, (xp_free _ _ _ _ E1), (xp_free _ _ _ _ E2). by rewrite Len1.
  - rewrite (xp_length _ _ _ _ E2), length_app. lia.
  - intros p [Hp|Hp]%elem_of_app; [apply (xp_in _ _ _ _ E1) in Hp|apply (xp_in _ _ _ _ E2) in Hp]; set_solver.
  - rewrite map_app. apply NoDup_app. split_and!; [apply E1|done|apply E2].
  - intros a Ha Hn. rewrite map_app in Hn. rewrite (xp_other _ _ _ _ E2) by (lia || set_solver).
    apply (xp_other _ _ _ _ E1); [done|set_solver].
  - intros p [Hp|Hp]%elem_of_app.
    + destruct (xp_portion _ _ _ _ E1 p Hp) as (r & k & n & A1 & A2 & A3 & A4 & A5).
      exists r, k, n. split_and!; try done.
      * rewrite (xp_other _ _ _ _ E2); [done| |].
        -- assert (sp_rented p < length h0)%nat by (apply L; set_solver). lia.
        -- apply D, list_elem_of_fmap. by exists p.
      * rewrite (xp_other _ _ _ _ E2); [done|by apply (expanded_free_range _ _ _ _ _ E1)|].
        intros (p' & E & Hp')%list_elem_of_fmap. pose proof (expanded_free_range _ _ _ _ _ E1 Hp).
        assert (sp_rented p' < length h0)%nat by (apply L; set_solver). lia.
    + destruct (xp_portion _ _ _ _ E2 p Hp) as (r & k & n & A1 & A2 & A3 & A4 & A5).
      exists r, k, n. split_and!; try done. rewrite <- A1. symmetry. apply (xp_other _ _ _ _ E1).
      * apply L. set_solver.
      * intros Hin. apply (D _ Hin), list_elem_of_fmap. by exists p.
Qed.

Lemma expand_fold_spec hotkey addrs heap siblings ps heap' siblings' ps' :
  foldM (expand_result hotkey) (heap, siblings, ps) addrs = Ok (heap', siblings', ps') ->
  (forall a, a ∈ addrs -> a < length heap)%nat -> NoDup addrs ->
  exists qs, ps' = ps ++ qs /\ siblings' = siblings ++ map sp_free qs /\
    (forall p, p ∈ qs -> sp_hotkey p = hotkey) /\ expanded heap heap' (map (pair hotkey) addrs) qs.
Proof.
  revert heap siblings ps. induction addrs as [|a addrs IH]; cbn; intros heap siblings ps H Hlt Hnd.
  { injection H as <- <- <-. exists []. rewrite !app_nil_r. split_and!; [done|done|set_solver|apply expanded_nil]. }
  apply NoDup_cons in Hnd as [Ha Hnd]. apply bind_ok in H as ([[h1 sib1] ps1] & H1 & H).
  assert (forall pr, pr ∈ (hotkey, a) :: map (pair hotkey) addrs -> (pr.2 < length heap)%nat) as Hlt'.
  { intros pr [->|(b & -> & Hb)%list_elem_of_fmap]%elem_of_cons; apply Hlt; set_solver. }
  assert (map snd (map (pair hotkey) addrs) = addrs) as Es by (rewrite map_map; apply map_id).
  unfold expand_result in H1. apply bind_ok in H1 as (r & Hr & H1). unfold deref in Hr.
  destruct (heap !! a) as [r0|] eqn:Er; [|done]. injection Hr as ->.
  destruct (free_gpu_count_of_partially_rented_split r) as [free|] eqn:Hf.
  - apply bind_ok in H1 as (rented & Hrc%need_ok & H1). injection H1 as <- <- <-.
    pose proof (expanded_one heap hotkey a r rented free Er Hf Hrc) as E1.
    apply IH in H as (qs & -> & -> & Hq & E2); [| |done].
    2:{ intros b Hb. rewrite (xp_length _ _ _ _ E1). specialize (Hlt b ltac:(set_solver)). lia. }
    exists (mkPortions hotkey a (length heap) :: qs). rewrite <- !app_assoc. split_and!; [done|done|set_solver|].
    apply (expanded_app _ _ _ [(hotkey, a)] _ [_] _ E1 E2); [done|]. cbn. rewrite Es. by apply NoDup_cons.
  - injection H1 as <- <- <-. apply IH in H as (qs & -> & -> & Hq & E2); [|set_solver|done].
    exists qs. split_and!; [done|done|done|].
    apply (expanded_app _ _ _ [(hotkey, a)] _ [] _ (expanded_nil heap _) E2); [done|]. cbn. rewrite Es.
    by apply NoDup_cons.
Qed.

(** The miners' lists after the expansion: each gains its own free portions. *)
Definition with_free (ps : list SplitPortions) (jobs : list (string * list addr)) : list (string * list addr) :=
  map (fun ha => (ha.1, ha.2 ++ map sp_free (List.filter (fun p => String.eqb (sp_hotkey p) ha.1) ps))) jobs.

Lemma expand_jobs_spec jobs heap heap' jobs' ps :
  expand_jobs heap jobs = Ok (heap', jobs', ps) ->
  (forall p, p ∈ scored_pairs jobs -> p.2 < length heap)%nat ->
  NoDup (map snd (scored_pairs jobs)) -> NoDup (map fst jobs) ->
  expanded heap heap' (scored_pairs jobs) ps /\ jobs' = with_free ps jobs.
Proof.
  revert heap heap' jobs' ps. induction jobs as [|[h addrs] jobs IH]; intros heap heap' jobs' ps H Hlt Hnd Hk.
  { cbn in H. injection H as <- <- <-. split; [apply expanded_nil|done]. }
  cbn [expand_jobs] in H. apply bind_ok in H as ([[h1 sib] ps1] & H1 & H).
  apply bind_ok in H as ([[h2 jobs2] ps2] & H2 & H). injection H as <- <- <-.
  cbn [scored_pairs flat_map fst snd] in *. fold (scored_pairs jobs) in *.
  pose proof Hnd as Hnd0. rewrite map_app in Hnd. apply NoDup_app in Hnd as (N1 & N12 & N2).
  assert (map snd (map (pair h) addrs) = addrs) as Es by (rewrite map_map; apply map_id). rewrite Es in *.
  apply NoDup_cons in Hk as [Hh Hk].
  apply expand_fold_spec in H1 as (qs & -> & -> & Hq & E1); [| |done].
  2:{ intros a Ha. apply (Hlt (h, a)). apply elem_of_app. left. apply list_elem_of_fmap. by exists a. }
  apply IH in H2 as [E2 ->]; [| |done|done].
  2:{ intros p Hp. rewrite (xp_length _ _ _ _ E1). specialize (Hlt p ltac:(set_solver)). lia. }
  split; [by apply (expanded_app _ _ _ _ _ _ _ E1 E2)|]. cbn [with_free map fst snd].
  assert (forall p, p ∈ ps2 -> sp_hotkey p ∈ map fst jobs) as Hin2.
  { intros p Hp%(xp_in _ _ _ _ E2). unfold scored_pairs in Hp.
    apply list_elem_of_In, in_flat_map in Hp as (ha & Hha & Hp).
    apply list_elem_of_In in Hha. apply list_elem_of_In in Hp.
    apply list_elem_of_fmap in Hp as (b & [= -> _] & _). apply list_elem_of_fmap. by exists ha. }
  f_equal.
  - rewrite List.filter_app, (filter_all _ qs), (filter_none _ ps2); [by rewrite app_nil_r| |].
    + intros p Hp. apply String.eqb_neq. intros <-. by apply Hh, Hin2.
    + intros p Hp. apply String.eqb_eq. by apply Hq.
  - unfold with_free. apply map_ext_in. intros ha Hha. rewrite List.filter_app, (filter_none _ qs); [done|].
    intros p Hp. apply String.eqb_neq. rewrite (Hq p Hp). intros ->. apply Hh, list_elem_of_fmap. exists ha.
    split; [done|by apply list_elem_of_In].
Qed.

Lemma hotkey_filter_perm ps h hs : h ∉ hs ->
  List.filter (fun p => in_list (sp_hotkey p) (h :: hs)) ps ≡ₚ
  List.filter (fun p => String.eqb (sp_hotkey p) h) ps ++ List.filter (fun p => in_list (sp_hotkey p) hs) ps.
Proof.
  intros Hh. rewrite <- filter_or_perm.
  - apply eq_subrelation; [apply _|]. apply filter_ext. intros p. apply eq_true_iff_eq.
    unfold in_list. rewrite orb_true_iff, !bool_decide_eq_true, String.eqb_eq. set_solver.
  - intros p ->%String.eqb_eq. by apply bool_decide_eq_false.
Qed.

Definition free_pair (p : SplitPortions) : string * addr := (sp_hotkey p, sp_free p).

Lemma scored_pairs_with_free ps jobs :
  NoDup (map fst jobs) -> (forall p, p ∈ ps -> sp_hotkey p ∈ map fst jobs) ->
  scored_pairs (with_free ps jobs) ≡ₚ scored_pairs jobs ++ map free_pair ps.
Proof.
  intros Hnd Hin.
  enough (scored_pairs (with_free ps jobs) ≡ₚ scored_pairs jobs ++
    map free_pair (List.filter (fun p => in_list (sp_hotkey p) (map fst jobs)) ps)) as ->.
  { rewrite filter_all; [done|]. intros p Hp. by apply bool_decide_eq_true, Hin. }
  clear Hin. induction jobs as [|[h addrs] jobs IH]; cbn [with_free map fst snd scored_pairs flat_map].
  { by rewrite filter_none. }
  cbn in Hnd. apply NoDup_cons in Hnd as [Hh Hnd]. fold (scored_pairs jobs).
  change (flat_map _ (map _ jobs)) with (scored_pairs (with_free ps jobs)). rewrite (IH Hnd).
  rewrite (hotkey_filter_perm ps h (map fst jobs) Hh), !map_app.
  assert (map free_pair (List.filter (fun p => String.eqb (sp_hotkey p) h) ps) =
    map (pair h) (map sp_free (List.filter (fun p => String.eqb (sp_hotkey p) h) ps))) as ->.
  { rewrite map_map. apply map_ext_in. intros p [_ <-%String.eqb_eq]%filter_In. done. }
  rewrite <- !app_assoc. apply Permutation_app_head. rewrite !app_assoc.
  apply Permutation_app_tail, Permutation_app_comm.
Qed.

(** ** Merge *)
Local Existing Instance exact_rounding.

Definition portions_apart (ps : list SplitPortions) : Prop :=
  forall p q, p ∈ ps -> q ∈ ps -> sp_free p <> sp_rented q.

Lemma merge_step_ok heap jobs p heap1 jobs1 :
  merge_step (heap, jobs) p = Ok (heap1, jobs1) ->
  exists m f, heap !! sp_rented p = Some m /\ heap !! sp_free p = Some f /\
    heap1 = <[sp_rented p := merge_portions m f]> heap /\ jobs1 = drop_sibling (sp_hotkey p) (sp_free p) jobs.
Proof.
  intros H. unfold merge_step in H. apply bind_ok in H as (m & Hm & H). apply bind_ok in H as (f & Hf & H).
  unfold deref in Hm, Hf. cbn in Hm, Hf. destruct (heap !! sp_rented p); [|done].
  destruct (heap !! sp_free p); [|done]. injection Hm as ->. injection Hf as ->. injection H as <- <-.
  by exists m, f.
Qed.

Lemma merge_heap ps heap jobs heap2 jobs2 :
  foldM merge_step (heap, jobs) ps = Ok (heap2, jobs2) ->
  NoDup (map sp_rented ps) -> portions_apart ps ->
  jobs2 = fold_left (fun j p => drop_sibling (sp_hotkey p) (sp_free p) j) ps jobs /\
  (forall a, a ∉ map sp_rented ps -> heap2 !! a = heap !! a) /\
  (forall p, p ∈ ps -> exists m f, heap !! sp_rented p = Some m /\ heap !! sp_free p = Some f /\
     heap2 !! sp_rented p = Some (merge_portions m f)).
Proof.
  revert heap jobs. induction ps as [|p ps IH]; cbn; intros heap jobs H Hnd Hap.
  { injection H as <- <-. split_and!; [done|done|set_solver]. }
  apply NoDup_cons in Hnd as [Hp Hnd]. apply bind_ok in H as ([h1 j1] & H1 & H).
  apply merge_step_ok in H1 as (m & f & Hm & Hf & -> & ->).
  assert (sp_rented p < length heap)%nat as Hlt by (by eapply lookup_lt_Some).
  apply IH in H as (-> & Hother & Hall); [|done|intros q q' ? ?; apply Hap; set_solver].
  split_and!; [done| |].
  - intros a Ha. rewrite Hother by set_solver. apply list_lookup_insert_ne. set_solver.
  - intros q [->|Hq]%elem_of_cons.
    + exists m, f. rewrite Hother by done. by rewrite list_lookup_insert_eq.
    + destruct (Hall q Hq) as (m' & f' & A1 & A2 & A3). exists m', f'.
      assert (sp_rented p <> sp_rented q) as Hne by (intros E; apply Hp; rewrite E; apply list_elem_of_fmap; by exists q).
      rewrite list_lookup_insert_ne in A1 by done. rewrite list_lookup_insert_ne in A2; [done|].
      intros E. apply (Hap q p); [set_solver|set_solver|done].
Qed.

Lemma incentive_of_merge m f : (incentive_of (merge_portions m f) == incentive_of m + incentive_of f)%Q.
Proof.
  change (incentive_of (merge_portions m f)) with (fadd (opt_or_0 (jr_incentive m)) (opt_or_0 (jr_incentive f))).
  exactify. done.
Qed.

Lemma results_sum_insert_other g heap addrs a r :
  a ∉ addrs -> results_sum g (<[a := r]> heap) addrs = results_sum g heap addrs.
Proof.
  intros Ha. unfold results_sum. f_equal. apply map_ext_in. intros b Hb%list_elem_of_In.
  rewrite list_lookup_insert_ne; [done|]. set_solver.
Qed.

Lemma results_sum_cons g heap a r addrs :
  heap !! a = Some r -> results_sum g heap (a :: addrs) = (g r + results_sum g heap addrs)%Q.
Proof. intros H. unfold results_sum. cbn. by rewrite H. Qed.

(** Merging moves the payment of every free portion to its rented one. *)
Lemma merge_sum A ps heap jobs heap2 jobs2 :
  foldM merge_step (heap, jobs) ps = Ok (heap2, jobs2) -> NoDup A -> portions_apart ps ->
  (results_sum incentive_of heap2 A == results_sum incentive_of heap A +
     results_sum incentive_of heap (map sp_free (List.filter (fun p => bool_decide (sp_rented p ∈ A)) ps)))%Q.
Proof.
  intros H HA. revert heap jobs H. induction ps as [|p ps IH]; cbn [foldM List.filter map]; intros heap jobs H Hap.
  { injection H as <- <-. change (results_sum incentive_of heap []) with 0%Q. lra. }
  apply bind_ok in H as ([h1 j1] & H1 & H). apply merge_step_ok in H1 as (m & f & Hm & Hf & -> & ->).
  apply IH in H; [|intros q q' ? ?; apply Hap; set_solver]. rewrite H.
  rewrite (results_sum_insert_other _ _ (map _ _)).
  2:{ intros (q & E & [Hq _]%elem_of_bfilter)%list_elem_of_fmap. apply (Hap q p); [set_solver|set_solver|done]. }
  case_bool_decide as Hin.
  - rewrite (results_sum_insert _ _ _ _ m), incentive_of_merge by done.
    cbn [map]. rewrite (results_sum_cons _ _ _ f) by done. lra.
  - by rewrite results_sum_insert_other.
Qed.

(** Dropping every free portion gives the original lists back. *)
Lemma drop_all ps jobs :
  fold_left (fun j p => drop_sibling (sp_hotkey p) (sp_free p) j) ps jobs =
  map (fun ha => (ha.1, List.filter (fun a => negb (existsb (fun p => String.eqb ha.1 (sp_hotkey p)
                                                          && Nat.eqb a (sp_free p)) ps)) ha.2)) jobs.
Proof.
  revert jobs. induction ps as [|p ps IH]; cbn; intros jobs.
  { rewrite <- (map_id jobs) at 1. apply map_ext. intros [h l]. cbn. f_equal. symmetry. by apply filter_all. }
  rewrite IH. unfold drop_sibling. rewrite map_map. apply map_ext. intros [h l]. cbn.
  destruct (String.eqb h (sp_hotkey p)); cbn; [|done]. f_equal. rewrite filter_filter_bool.
  apply filter_ext. intros a. by rewrite negb_orb.
Qed.

Lemma drop_with_free ps jobs n :
  (forall pr, pr ∈ scored_pairs jobs -> pr.2 < n)%nat -> (forall p, p ∈ ps -> n <= sp_free p)%nat ->
  fold_left (fun j p => drop_sibling (sp_hotkey p) (sp_free p) j) ps (with_free ps jobs) = jobs.
Proof.
  intros Hlt Hge. rewrite drop_all. unfold with_free. rewrite map_map.
  rewrite <- (map_id jobs) at 2. apply map_ext_in. intros [h l] Hin. cbn. f_equal.
  rewrite List.filter_app, filter_all, filter_none; [apply app_nil_r| |].
  - intros a (p & -> & [Hp E]%elem_of_bfilter)%list_elem_of_fmap. apply negb_false_iff, existsb_exists.
    exists p. rewrite String.eqb_sym, E, Nat.eqb_refl. split; [by apply list_elem_of_In|done].
  - intros a Ha. apply negb_true_iff, not_true_iff_false. intros (p & Hp & E)%existsb_exists.
    apply andb_true_iff in E as [_ ->%Nat.eqb_eq]. apply list_elem_of_In in Hp. specialize (Hge p Hp).
    assert (sp_free p < n)%nat; [|lia]. apply (Hlt (h, sp_free p)).
    unfold scored_pairs. apply list_elem_of_In, in_flat_map. exists (h, l). split; [done|]. cbn. by apply in_map, list_elem_of_In.
Qed.

(** ** A cycle with split nodes *)

(** The breakdown of a payment over the two pools. *)
Definition pools_add (r : JobResult) : Prop :=
  forall i, jr_incentive r = Some i -> exists rented idle,
    jr_incentive_rented r = Some rented /\ jr_incentive_idle r = Some idle /\ (i == rented + idle)%Q.

Lemma pools_add_split r : pools_add (split_incentive_across_pools r).
Proof.
  unfold split_incentive_across_pools, pools_add. destruct (jr_incentive r) as [i0|] eqn:E; [|by rewrite E].
  intros i [= <-]. eexists _, _. split_and!; [done|done|]. exactify. done.
Qed.
Lemma pools_add_merge m f : pools_add (merge_portions m f).
Proof.
  intros i Hi. change (jr_incentive (merge_portions m f))
    with (Some (fadd (opt_or_0 (jr_incentive m)) (opt_or_0 (jr_incentive f)))) in Hi.
  injection Hi as <-. eexists _, _. split_and!; [done|done|]. exactify. done.
Qed.

(** Across a whole cycle a result keeps describing its node. *)
Lemma rental_cycle_nodes env heap jobs s0 w :
  sane_config env -> NoDup (map snd (scored_pairs jobs)) ->
  (forall h a r, (h, a) ∈ scored_pairs jobs -> heap !! a = Some r -> fresh_result r) ->
  @calculate_mining_scores _ _ (rental_algorithm env) (env_settings env) (mkWorld heap jobs s0) = Ok w ->
  w_jobs w = jobs /\
  forall h a r, (h, a) ∈ scored_pairs jobs -> heap !! a = Some r ->
    exists r', w_heap w !! a = Some r' /\ same_node r r' /\ pools_add r'.
Proof.
  intros sane Hnd Hfresh H. unfold calculate_mining_scores in H. cbn [w_heap w_jobs w_eng] in H.
  apply bind_ok in H as ([heap1 s1] & H1 & H). apply bind_ok in H as ([heap3 s3] & H3%on_finish_same & H).
  apply bind_ok in H as ([heap5 s5] & H5 & [= <-]). cbn. split; [done|]. intros h a r Hp Ha.
  apply step_loop_runs in H1 as (_ & _ & tr & Htr & Hruns & Hall); [|done].
  apply step_loop_runs in H5 as (_ & _ & tr2 & Htr2 & Hruns2 & Hall2); [|done].
  apply rental_pre_runs in Hruns as [Hok _]; [|done|].
  2:{ intros v Hv. apply (Hfresh (v_hotkey v) (v_addr v)).
      - rewrite <- Htr. apply list_elem_of_fmap. by exists v.
      - apply (Hall v Hv). }
  rewrite Forall_forall in Hok.
  assert ((h, a) ∈ map v_pair tr) as (v & Ev & Hv)%list_elem_of_fmap by (by rewrite Htr).
  assert ((h, a) ∈ map v_pair tr2) as (v2 & Ev2 & Hv2)%list_elem_of_fmap by (by rewrite Htr2).
  unfold v_pair in Ev, Ev2. injection Ev as _ ->. injection Ev2 as _ E2.
  destruct (Hall v Hv) as [B1 A1]. destruct (Hall2 v2 Hv2) as [B2 A2]. rewrite <- E2 in *.
  rewrite Ha in B1. injection B1 as ->. destruct (H3 _ _ A1) as (r3 & C3 & S3).
  rewrite C3 in B2. injection B2 as ->. exists (v_after v2). split; [done|].
  pose proof (vo_same _ _ (Hok v Hv)) as S1.
  destruct (runs_in _ _ _ _ Hruns2 v2 Hv2) as (sa & sb & Hf). unfold post_callback, ia_post in Hf. cbn in Hf.
  apply bind_ok in Hf as ([r5 s6] & Hf & E). injection E as <- _. apply rental_post_same in Hf.
  split; [|apply pools_add_split]. cbn [fst].
  etransitivity; [exact S1|]. etransitivity; [exact S3|]. etransitivity; [exact Hf|]. apply split_pools_same.
Qed.

(** A result of a passed or failed validation, before the cycle. *)
Definition unscored (r : JobResult) : Prop :=
  fresh_result r /\ jr_port_unpaid_gpu_count r = 0 /\ jr_is_split_remainder r = false.

Lemma results_sum_perm g heap l l' : l ≡ₚ l' -> (results_sum g heap l == results_sum g heap l')%Q.
Proof. intros H. apply Qsum_perm. by apply Permutation_map. Qed.
Lemma results_sum_app g heap l l' : (results_sum g heap (l ++ l') == results_sum g heap l + results_sum g heap l')%Q.
Proof. unfold results_sum. rewrite map_app. apply Qsum_app. Qed.

(** The scored results of the expanded lists are as fresh as the nodes. *)
Lemma expanded_fresh heap heap' pairs ps h a r :
  expanded heap heap' pairs ps -> (forall h a, (h, a) ∈ pairs -> exists r, heap !! a = Some r /\ unscored r) ->
  (h, a) ∈ pairs ++ map free_pair ps -> heap' !! a = Some r -> fresh_result r.
Proof.
  intros E Hu Hin Hr. apply elem_of_app in Hin as [Hin|(p & [= -> ->] & Hp)%list_elem_of_fmap].
  - destruct (Hu h a Hin) as (r0 & H0 & [Hf _]). destruct (decide (a ∈ map sp_rented ps)) as [Ha|Ha].
    + apply list_elem_of_fmap in Ha as (p & -> & Hp).
      destruct (xp_portion _ _ _ _ E p Hp) as (r1 & k & n & A1 & _ & _ & A4 & _).
      rewrite A4 in Hr. injection Hr as <-. rewrite H0 in A1. injection A1 as <-. done.
    + rewrite (xp_other _ _ _ _ E) in Hr; [|by eapply lookup_lt_Some|done].
      rewrite H0 in Hr. by injection Hr as <-.
  - destruct (xp_portion _ _ _ _ E p Hp) as (r1 & k & n & A1 & _ & _ & _ & A5).
    rewrite A5 in Hr. injection Hr as <-.
    destruct (Hu _ _ (xp_in _ _ _ _ E p Hp)) as (r0 & H0 & [Hf _]). rewrite H0 in A1. by injection A1 as <-.
Qed.

Lemma free_count_split r free rented :
  free_gpu_count_of_partially_rented_split r = Some free -> jr_rented_gpu_count r = Some rented ->
  rented + free = jr_gpu_count r.
Proof.
  unfold free_gpu_count_of_partially_rented_split. intros H E. rewrite E in H.
  destruct (_ && _); [|done]. cbv zeta in H. destruct (0 <? _); [|done]. injection H as <-. lia.
Qed.

Lemma merged_count m f free rented r :
  free_gpu_count_of_partially_rented_split r = Some free -> jr_rented_gpu_count r = Some rented -> unscored r ->
  same_node (set_gpu_count rented r) m -> same_node (free_portion_of free r) f ->
  jr_gpu_count (merge_portions m f) = jr_gpu_count r.
Proof.
  intros Hf Hr (_ & Hu & Hs) Sm Sf.
  change (jr_gpu_count (merge_portions m f)) with (jr_gpu_count m + size f).
  rewrite (sn_whole _ _ Sm) by exact Hs. rewrite (sn_size _ _ Sf).
  change (size (free_portion_of free r)) with (free + jr_port_unpaid_gpu_count r). rewrite Hu.
  change (jr_gpu_count (set_gpu_count rented r)) with rented.
  pose proof (free_count_split r free rented Hf Hr). lia.
Qed.

(** The nodes after expansion, cycle and merge. *)
Lemma split_nodes heap heap1 heap2 jobs2 heap3 jobs3 pairs ps :
  expanded heap heap1 pairs ps ->
  (forall h a r, (h, a) ∈ pairs ++ map free_pair ps -> heap1 !! a = Some r ->
     exists r', heap2 !! a = Some r' /\ same_node r r' /\ pools_add r') ->
  foldM merge_step (heap2, jobs2) ps = Ok (heap3, jobs3) ->
  (forall p, p ∈ pairs -> p.2 < length heap)%nat ->
  forall h a r, (h, a) ∈ pairs -> heap !! a = Some r -> unscored r ->
    exists r', heap3 !! a = Some r' /\ jr_executor_info r' = jr_executor_info r /\
      jr_gpu_model r' = jr_gpu_model r /\ jr_gpu_count r' = jr_gpu_count r /\ pools_add r'.
Proof.
  intros E Hn H Hlt h a r Hin Ha Hu.
  apply merge_heap in H as (_ & Hother & Hall); [|apply E|].
  2:{ intros p q Hp Hq. pose proof (expanded_free_range _ _ _ _ _ E Hp).
      pose proof (Hlt _ (xp_in _ _ _ _ E q Hq)) as Hl. cbn in Hl. lia. }
  destruct (decide (a ∈ map sp_rented ps)) as [Hs|Hs].
  - apply list_elem_of_fmap in Hs as (p & -> & Hp).
    destruct (xp_portion _ _ _ _ E p Hp) as (r0 & k & n & A1 & A2 & A3 & A4 & A5).
    rewrite Ha in A1. injection A1 as <-.
    destruct (Hall p Hp) as (m & f & M1 & M2 & M3).
    destruct (Hn h (sp_rented p) _ ltac:(set_solver) A4) as (m' & M1' & Sm & _).
    destruct (Hn (sp_hotkey p) (sp_free p) _
      ltac:(apply elem_of_app; right; apply list_elem_of_fmap; by exists p) A5) as (f' & M2' & Sf & _).
    rewrite M1 in M1'. injection M1' as <-. rewrite M2 in M2'. injection M2' as <-.
    exists (merge_portions m f). split_and!; [done|exact (sn_executor _ _ Sm)|exact (sn_model _ _ Sm)| |apply pools_add_merge].
    by eapply merged_count.
  - rewrite Hother by done. rewrite <- (xp_other _ _ _ _ E) in Ha; [|by eapply lookup_lt_Some|done].
    destruct (Hn h a r ltac:(set_solver) Ha) as (r' & Hr' & S & P). exists r'.
    split_and!; [done|apply S|apply S| |done]. apply (sn_whole _ _ S). apply Hu.
Qed.

(** The payments after the merge: those of the expanded lists. *)
Lemma split_sums heap heap1 heap2 jobs2 heap3 jobs3 pairs ps (sel : string -> bool) :
  expanded heap heap1 pairs ps -> foldM merge_step (heap2, jobs2) ps = Ok (heap3, jobs3) ->
  (forall p, p ∈ pairs -> p.2 < length heap)%nat -> NoDup (map snd pairs) ->
  let chosen := fun l => map snd (List.filter (fun p : string * addr => sel p.1) l) in
  (results_sum incentive_of heap3 (chosen pairs) ==
     results_sum incentive_of heap2 (chosen (pairs ++ map free_pair ps)))%Q.
Proof.
  intros E H Hlt Hnd chosen.
  rewrite (merge_sum _ _ _ _ _ _ H); [| |].
  2:{ unfold chosen. by apply map_filter_NoDup. }
  2:{ intros p q Hp Hq. pose proof (expanded_free_range _ _ _ _ _ E Hp).
      pose proof (Hlt _ (xp_in _ _ _ _ E q Hq)) as Hl. cbn in Hl. lia. }
  unfold chosen. rewrite List.filter_app, map_app, results_sum_app.
  apply Qplus_comp; [done|]. match goal with |- (results_sum _ _ ?l == results_sum _ _ ?l')%Q => assert (l = l') as -> end; [|done].
  rewrite filter_map_comm, map_map. cbn. f_equal. apply filter_ext_in. intros p Hp%list_elem_of_In.
  apply eq_true_iff_eq. rewrite bool_decide_eq_true. split.
  - intros ([h a] & Ea & [Hin Hs]%elem_of_bfilter)%list_elem_of_fmap. cbn in Ea, Hs. subst a.
    pose proof (xp_in _ _ _ _ E p Hp) as Hin'.
    assert (h = sp_hotkey p) as <-; [|done]. by eapply NoDup_snd_inj.
  - intros Hs. apply list_elem_of_fmap. exists (sp_hotkey p, sp_rented p). split; [done|].
    apply elem_of_bfilter. split; [by apply (xp_in _ _ _ _ E)|done].
Qed.

Lemma hotkey_filter_pairs h (l l' : list (string * addr)) :
  l ≡ₚ l' -> List.filter (fun p => String.eqb p.1 h) l ≡ₚ List.filter (fun p => String.eqb p.1 h) l'.
Proof. induction 1; cbn; repeat case_match; eauto using Permutation. Qed.

(** C30. A whole cycle of [RentalPriceIncentive.calculate_mining_scores], split nodes
    included, in exact arithmetic.  Afterwards the miners' lists are the ones
    before, every result still describes its executor with its full GPU count,
    and its two-pool breakdown adds up to its incentive; all nodes together are
    paid the shares of the pools, and every hotkey exactly what its nodes show. *)
Theorem split_cycle_conserves env map0 heap jobs s0 w :
  sane_config env -> NoDup (map fst jobs) -> NoDup (map snd (scored_pairs jobs)) ->
  (forall h a, (h, a) ∈ scored_pairs jobs -> exists r, heap !! a = Some r /\ unscored r) ->
  rental_init env map0 None = Ok s0 ->
  rental_calculate_mining_scores env (mkWorld heap jobs s0) = Ok w ->
  let s := w_eng w in
  w_jobs w = jobs /\
  (forall h a r, (h, a) ∈ scored_pairs jobs -> heap !! a = Some r ->
     exists r', w_heap w !! a = Some r' /\ jr_executor_info r' = jr_executor_info r /\
       jr_gpu_model r' = jr_gpu_model r /\ jr_gpu_count r' = jr_gpu_count r /\ pools_add r') /\
  (results_sum incentive_of (w_heap w) (map snd (scored_pairs jobs)) ==
     ((if Qltb 0 (ds_total_mining_score (rp_base s)) then ds_mining_share (rp_base s) else 0) +
      (if Qltb 0 (rp_total_rental_cost s) then rp_rental_share s else 0)) +
     (if Qltb 0 (rp_unbucketed_rental_cost s) then rp_unbucketed_share s else 0))%Q /\
  (forall h, dget_or 0 h (ds_miner_incentives (rp_base s)) ==
     results_sum incentive_of (w_heap w) (addrs_of h (scored_pairs jobs)))%Q.
Proof.
  intros sane Hk Hnd Hu Hinit H. unfold rental_calculate_mining_scores in H. cbn [w_heap w_jobs w_eng] in H.
  apply bind_ok in H as ([[heap1 jobs1] ps] & H1 & H). apply bind_ok in H as (w1 & Hw & H).
  apply bind_ok in H as ([heap3 jobs3] & H3 & [= <-]). cbn [fst snd w_heap w_jobs w_eng].
  set (pairs := scored_pairs jobs) in *.
  assert (forall p, p ∈ pairs -> p.2 < length heap)%nat as Hlt.
  { intros [h a] Hp. destruct (Hu h a Hp) as (r & Hr & _). by eapply lookup_lt_Some. }
  apply expand_jobs_spec in H1 as [E ->]; [|done|done|done].
  assert (scored_pairs (with_free ps jobs) ≡ₚ pairs ++ map free_pair ps) as Hperm.
  { apply scored_pairs_with_free; [done|]. intros p Hp%(xp_in _ _ _ _ E). by eapply scored_pairs_hotkey. }
  assert (NoDup (map snd (scored_pairs (with_free ps jobs)))) as Hnd1.
  { rewrite Hperm, map_app. apply NoDup_app. split_and!; [done| |].
    - intros a (p & -> & Hp)%list_elem_of_fmap Hf. rewrite map_map in Hf.
      apply list_elem_of_fmap in Hf as (q & Eq & Hq). pose proof (expanded_free_range _ _ _ _ _ E Hq).
      specialize (Hlt p Hp). cbn in Eq. lia.
    - rewrite map_map. change (map (fun x => (free_pair x).2) ps) with (map sp_free ps).
      rewrite (xp_free _ _ _ _ E). apply NoDup_seq. }
  assert (forall h a r, (h, a) ∈ scored_pairs (with_free ps jobs) -> heap1 !! a = Some r -> fresh_result r) as Hfresh.
  { intros h a r. rewrite Hperm. intros Hin Hr. by eapply expanded_fresh. }
  pose proof (rental_cycle_facts env map0 heap1 _ s0 w1 sane Hnd1 Hfresh Hinit Hw) as (Ft & Fh & _).
  apply rental_cycle_nodes in Hw as [Hj Hn]; [|done|done|done].
  pose proof (fun sel => split_sums _ _ _ _ _ _ _ _ sel E H3 Hlt Hnd) as Hsum. cbv beta zeta in Hsum.
  split_and!.
  - rewrite Hj in H3. apply merge_heap in H3 as (-> & _); [|apply E|].
    + eapply drop_with_free; [exact Hlt|]. intros p Hp. apply (expanded_free_range _ _ _ _ _ E Hp).
    + intros p q Hp Hq. pose proof (expanded_free_range _ _ _ _ _ E Hp).
      pose proof (Hlt _ (xp_in _ _ _ _ E q Hq)) as Hl. cbn in Hl. lia.
  - intros h a r Hin Ha. destruct (Hu h a Hin) as (r0 & Hr0 & Hu0). rewrite Ha in Hr0. injection Hr0 as <-.
    eapply split_nodes; [exact E| |exact H3|done|done|done|done].
    intros h' a' r' Hin'. apply (Hn h'). by rewrite Hperm.
  - rewrite <- Ft. specialize (Hsum (fun _ => true)). rewrite !filter_all in Hsum by done.
    etransitivity; [exact Hsum|]. apply results_sum_perm. by rewrite Hperm.
  - intros h. rewrite Fh. specialize (Hsum (fun x => String.eqb x h)). etransitivity; [|symmetry; exact Hsum].
    apply results_sum_perm, Permutation_map, hotkey_filter_pairs. by rewrite Hperm.
Qed.
