(* ===== verification/Witnesses.v ===== *)
(** * The theorems at concrete inputs

    Each lemma applies one theorem of the development to the data of [Fixtures]
    (or to a small input of its own), with every hypothesis discharged by
    evaluating the model. *)

From Stdlib Require Import String.
From S2P Require Import Prelude Float64 PyValue JobResult IncentiveConfig Readings Burn Fixtures Weights IncentiveBase Settlement Availability PriceProvider DefaultIncentive RentalGates RentalPrice RentalShares RentalScoring RentalConservation RentalSplit.

Local Open Scope string_scope.
Local Open Scope list_scope.
Local Open Scope Z_scope.

(** Evaluate both sides of an equation between closed terms. *)
Ltac run := vm_compute; reflexivity.
(** A decidable closed proposition. *)
Ltac by_decision := apply (bool_decide_unpack _); vm_compute; exact I.
(** Every value of a closed dictionary is non-negative. *)
Ltac nonneg_values :=
  let k := fresh in let v := fresh in let H := fresh in
  intros k v H; change (0 <= (k, v).2)%Q; revert H; generalize (k, v); apply Forall_forall;
  repeat constructor; vm_compute; congruence.

(** ** Burn *)
Lemma burn_scores_only_verified_witness :
  exists scores,
    @calculate_burn_scores binary64_rounding sample_settings sample_miners (1 # 2) = Ok scores /\
    forall hotkey v, (hotkey, v) ∈ scores ->
      (0 <= v)%Q /\ verified_burner sample_settings sample_miners hotkey.
Proof.
  eexists. split; [run|]. eapply (@burn_scores_only_verified binary64_rounding _ _ (1 # 2)); [|run].
  vm_compute; congruence.
Defined.

Lemma burn_scores_conserve_witness :
  exists scores,
    @calculate_burn_scores exact_rounding sample_settings sample_miners (1 # 2) = Ok scores /\
    (Qsum (dvalues scores) == 1 # 2)%Q.
Proof.
  eexists. split; [run|].
  eapply (burn_scores_conserve sample_settings sample_miners (1 # 2));
    [done|by_decision|by_decision|run|].
  intros u Hu. assert (u = 47 \/ u = 48) as [->| ->] by (cbn in Hu; set_solver).
  - exists burner. split; [unfold sample_miners; set_solver|by split].
  - exists second_burner. split; [unfold sample_miners; set_solver|by split].
Defined.

(** ** Weights *)
Lemma convert_weights_spec_witness :
  exists us vs fl,
    @convert_weights_with_positive_floor binary64_rounding [10; 11; 12] [(1 # 2)%Q; 0%Q; (1 # 1000000)%Q]
      = (us, vs, fl) /\ us = [10; 12] /\ (forall v, v ∈ vs -> 1 <= v <= 65535).
Proof.
  eexists _, _, _. split; [run|].
  destruct (@convert_weights_spec binary64_rounding [10; 11; 12] [(1 # 2)%Q; 0%Q; (1 # 1000000)%Q] _ _ _
    eq_refl (ltac:(run))) as (H & _ & Hb & _).
  split; [exact H|exact Hb].
Defined.

Lemma eligibility_floor_spec_witness :
  exists us vs floored,
    apply_eligibility_floor [47; 1] [65535; 7] sample_miners ["bob"] [47] = (us, vs, floored) /\
    Zsum vs = 65542 /\ NoDup us.
Proof.
  eexists _, _, _. split; [run|].
  edestruct (eligibility_floor_spec [47; 1] [65535; 7] sample_miners ["bob"] [47])
    as (_ & Hnd & Hsum & _); [done|by_decision|by_decision| |run|].
  - apply Forall_forall. repeat constructor; lia.
  - split; [exact Hsum|exact Hnd].
Defined.

Lemma fold_unregistered_conserves_witness :
  let folded := @fold_unregistered_into_burner exact_rounding
    [("alice", 1%Q); ("gone", 2%Q); ("burn", 3%Q)] ["alice"; "burn"] (Some "burn") in
  (Qsum (dvalues folded) == 6)%Q /\ (forall k, k ∈ dkeys folded -> k ∈ ["alice"; "burn"]).
Proof.
  destruct (fold_unregistered_conserves [("alice", 1%Q); ("gone", 2%Q); ("burn", 3%Q)] ["alice"; "burn"] "burn")
    as (Hs & _ & Hk).
  - nonneg_values.
  - by_decision.
  - split; [exact Hs|exact Hk].
Defined.

Lemma set_weights_u16_witness :
  exists us vs,
    @set_weights binary64_rounding (fun q => q) (fun us ws => (us, ws)) sample_settings sample_miners sample_miners
      [("alice", 1 # 3)%Q; ("bob", 1 # 7)%Q; ("burn", 1 # 2)%Q] ["evil"] true = Ok (Some (us, vs)) /\
    length vs = length us /\ forall v, v ∈ vs -> 1 <= v <= 65535.
Proof.
  eexists _, _. split; [run|].
  apply (@set_weights_u16 binary64_rounding (fun q => q) (fun us ws => (us, ws)) sample_settings sample_miners
    sample_miners [("alice", 1 # 3)%Q; ("bob", 1 # 7)%Q; ("burn", 1 # 2)%Q] ["evil"] true); [done|run].
Defined.

(** ** Final scores *)
Definition sample_cycle : list (string * Q) :=
  [("burn", 1 # 2)%Q; ("alice", 1 # 4)%Q; ("bob", 1 # 4)%Q].

Lemma referral_pool_conserves_witness :
  let c' := @apply_referral_pool exact_rounding exact_env [] sample_cycle [("burn", 1 # 2)%Q] sample_miners
              [("alice", 3%Q); ("gone", 5%Q)] in
  (Qsum (dvalues c') == 1)%Q /\ dget "bob" c' = Some (1 # 4)%Q.
Proof.
  edestruct (referral_pool_conserves exact_env [] sample_cycle [("burn", 1 # 2)%Q] sample_miners
    [("alice", 3%Q); ("gone", 5%Q)]) as (Hs & Hk & _); [by_decision|by_decision|nonneg_values|].
  cbv zeta. split; [rewrite Hs; run|]. rewrite Hk; [run|by_decision|left; by_decision].
Defined.

Definition sample_state : DefaultState :=
  set_ds_burn_share (1 # 2) (set_ds_miner_incentives [("alice", 1 # 4)%Q; ("evil", 1 # 8)%Q]
    (@default_init exact_rounding exact_env [])).

Lemma excluded_hotkey_final_zero_witness :
  exists cycle,
    @calculate_final_weights binary64_rounding binary64_env sample_state sample_miners [("evil", 1%Q)] = Ok cycle /\
    (dget "evil" cycle = None \/ dget "evil" cycle = Some 0%Q).
Proof.
  eexists. split; [run|].
  eapply (@excluded_hotkey_final_zero binary64_rounding binary64_env sample_state sample_miners [("evil", 1%Q)]);
    [run|by_decision|].
  assert (Forall (fun m => n_hotkey m = "evil" -> n_uid m ∉ NEW_BURNERS sample_settings) sample_miners) as Hf
    by by_decision.
  intros (m & Hm & Hh & Hu & _). rewrite Forall_forall in Hf. exact (Hf m Hm Hh Hu).
Defined.


(** ** Scoring *)
Definition sample_world {S} (s : S) : World S := mkWorld sample_heap sample_jobs s.

Lemma default_mining_pool_conserves_witness :
  exists w,
    @calculate_mining_scores exact_rounding DefaultState (@default_algorithm exact_rounding exact_env)
      sample_settings (sample_world (@default_init exact_rounding exact_env sample_counts)) = Ok w /\
    (results_sum incentive_of (w_heap w) [0%nat; 1%nat; 2%nat] == 9 # 100)%Q.
Proof.
  eexists. split; [run|].
  edestruct (default_mining_pool_conserves exact_env sample_counts sample_heap sample_jobs) as (_ & Hs & _);
    [by_decision|run|].
  change [0%nat; 1%nat; 2%nat] with (map snd (scored_pairs sample_jobs)). rewrite Hs. run.
Defined.

Lemma scoring_routes_exclusively_witness :
  exists r',
    @rental_calculate_executor_score binary64_rounding binary64_env sample_counts idle_result = Ok r' /\
    jr_mining_score r' = Some 0%Q /\ jr_gpu_count r' + jr_port_unpaid_gpu_count r' = 8.
Proof.
  eexists. split; [run|].
  edestruct (@scoring_routes_exclusively binary64_rounding binary64_env sample_counts idle_result)
    as (_ & _ & Hm & _ & _ & _ & _ & Hc); [done|run|].
  split; [by apply Hm|exact Hc].
Defined.

(** ** The rental-price cycle *)
Definition sample_rental `{R : Rounding} (env : Env) : RentalState :=
  let none := mkRental (default_init env []) [] [] [] [] 0%Q 0%Q 0%Q 1%Q [] [] 0%Q 0%Q 0%Q 0%Q 0%Q None None None in
  match rental_init env sample_counts None with Ok s => s | Raise _ => none end.

(** A crowded bucket: one idle node of eight GPUs in a bucket with 60 others. *)
Definition crowded `{R : Rounding} (env : Env) : RentalState :=
  set_rp_split_fallback_candidates [("H100", 1%nat)]
    (set_rp_weighted_rate_sum_by_bucket [("H100", 8, 100%Q)]
      (set_rp_unrented_count_by_bucket [("H100", 8, 100)] (sample_rental env))).

(** The candidate of the crowded bucket, as pre-processing leaves it. *)
Definition crowded_heap : list JobResult :=
  [rented_result;
   set_max_cap (Some 64) (set_count_bucket (Some 8) (set_hourly_rate (Some 2%Q)
     (set_sysbox_multiplier (Some 1%Q) (set_driver_multiplier (Some 1%Q)
       (set_eligible_for_rental_share true split_result)))))].

Lemma reassignment_never_overfills_witness :
  exists heap' s',
    @reassign_split_candidates binary64_rounding binary64_env crowded_heap (@crowded binary64_rounding binary64_env)
      = Ok (heap', s') /\
    count_at s' ("H100", 1) = 8 /\ Zsum (dvalues (rp_unrented_count_by_bucket s')) = 100.
Proof.
  eexists _, _. split; [run|].
  edestruct (@reassignment_never_overfills binary64_rounding binary64_env crowded_heap
    (@crowded binary64_rounding binary64_env)) as (Hs & _); [|run|].
  - repeat constructor; vm_compute; congruence.
  - split; [run|exact Hs].
Defined.

Lemma cap_dilution_witness :
  let m := dget_or 0%Q ("H100", 8) (fold_left (@cap_multiplier_step exact_rounding exact_env) [(("H100", 8), 100)] []) in
  (m * inject_Z 100 == 64)%Q.
Proof.
  destruct (cap_dilution exact_env [(("H100", 8), 100)] ("H100", 8) 100) as (_ & H);
    [by_decision|reflexivity|lia|run|]. exact H.
Defined.

Lemma emission_shares_bounded_witness :
  exists heap' s',
    @rental_on_finish binary64_rounding binary64_env crowded_heap (@crowded binary64_rounding binary64_env)
      = Ok (heap', s') /\ (0 < rp_rental_share s')%Q /\ (0 <= ds_burn_share (rp_base s'))%Q.
Proof.
  eexists _, _. split; [run|].
  edestruct (@emission_shares_bounded binary64_rounding binary64_env crowded_heap
    (@crowded binary64_rounding binary64_env)) as (_ & _ & Hb); [run|].
  split; [vm_compute; reflexivity|exact Hb].
Defined.

Lemma sample_config_sane : sane_config exact_env.
Proof. apply validated_is_sane; [run|run|vm_compute; congruence]. Qed.

Lemma rental_cycle_conserves_witness :
  exists w,
    @calculate_mining_scores exact_rounding _ (@rental_algorithm exact_rounding exact_env) sample_settings
      (sample_world (@sample_rental exact_rounding exact_env)) = Ok w /\
    (0 < rp_unbucketed_share (w_eng w) /\ 0 < rp_rental_share (w_eng w))%Q /\
    (results_sum incentive_of (w_heap w) [0%nat; 1%nat; 2%nat] ==
       (9 # 100) + rp_rental_share (w_eng w) + rp_unbucketed_share (w_eng w))%Q.
Proof.
  eexists. split; [run|]. split; [split; run|].
  edestruct (rental_cycle_conserves exact_env sample_counts sample_heap sample_jobs
    (@sample_rental exact_rounding exact_env)) as (Hs & _); [apply sample_config_sane|by_decision| |run|run|].
  - intros h a r _ Ha. assert (r ∈ sample_heap) as Hr by (by eapply list_elem_of_lookup_2).
    revert Hr. apply Forall_forall. repeat constructor.
  - change [0%nat; 1%nat; 2%nat] with (map snd (scored_pairs sample_jobs)). rewrite Hs. run.
Defined.

Lemma split_cycle_conserves_witness :
  exists w,
    @rental_calculate_mining_scores exact_rounding exact_env
      (mkWorld [rented_result; partly_rented_result] [("alice", [0%nat]); ("bob", [1%nat])]
        (@sample_rental exact_rounding exact_env)) = Ok w /\
    w_jobs w = [("alice", [0%nat]); ("bob", [1%nat])] /\
    (exists r, w_heap w !! 1%nat = Some r /\ jr_gpu_count r = 8 /\ incentive_source r = "mixed") /\
    (results_sum incentive_of (w_heap w) [0%nat; 1%nat] == (9 # 100) + rp_rental_share (w_eng w))%Q.
Proof.
  eexists. split; [run|].
  edestruct (split_cycle_conserves exact_env sample_counts [rented_result; partly_rented_result]
    [("alice", [0%nat]); ("bob", [1%nat])] (@sample_rental exact_rounding exact_env)) as (Hj & _ & Hs & _);
    [apply sample_config_sane|by_decision|by_decision| |run|run|].
  - intros h a [Ha|Ha]%elem_of_cons; [|apply list_elem_of_singleton in Ha]; injection Ha as -> ->;
      eexists; (split; [reflexivity|]); repeat split.
  - split; [exact Hj|]. split; [eexists; repeat split|].
    change [0%nat; 1%nat] with (map snd (scored_pairs [("alice", [0%nat]); ("bob", [1%nat])])). rewrite Hs. run.
Defined.

(** ** Settlement *)
Definition no_text (_ : json) : string := "".

(** Two hotkeys report the machine at 10.0.0.1:22; bob's copy is rented. *)
Lemma one_miner_per_endpoint_witness :
  exists dups heap',
    keep_one_miner_per_executor no_text [idle_result; rented_result] [("alice", [0%nat]); ("bob", [1%nat])] []
      = Ok (dups, heap') /\ length dups = 1%nat /\ heap' !! 1%nat = Some rented_result /\
    (exists r, heap' !! 0%nat = Some r /\ is_successful r = false).
Proof.
  eexists _, _. split; [run|].
  edestruct (one_miner_per_endpoint no_text [idle_result; rented_result] [("alice", [0%nat]); ("bob", [1%nat])] [])
    as (_ & _ & Hz); [by_decision|run|].
  split; [done|]. split; [done|].
  destruct (Hz ("alice", 0%nat) idle_result) as [Hs|((r & Hr & Hzero) & _)]; [by_decision|done|discriminate Hs|].
  exists r. split; [exact Hr|by apply zeroed_unsuccessful in Hzero].
Defined.

Lemma one_executor_per_gpu_witness :
  exists heap' aliases,
    keep_one_executor_per_gpu no_text
      [with_gpus ["GPU-1"] idle_result; with_gpus ["GPU-1"; "GPU-2"] rented_result] [("alice", [0%nat; 1%nat])]
      = Ok (heap', aliases) /\ aliases = [("alice", 0%nat)] /\
    heap' !! 1%nat = Some (with_gpus ["GPU-1"; "GPU-2"] rented_result).
Proof.
  eexists _, _. split; [run|]. split; [done|].
  edestruct (one_executor_per_gpu no_text
    [with_gpus ["GPU-1"] idle_result; with_gpus ["GPU-1"; "GPU-2"] rented_result] [("alice", [0%nat; 1%nat])])
    as (_ & Hr & _); [by_decision|run|]. by apply Hr.
Defined.

(** Three idle executors of one miner in a chain of shared GPUs: the second loses
    its score to the first, and the third loses its score to the second.  GPU-2
    is then paid under none of the executors that report it. *)
Example gpu_chain_earns_nowhere :
  let heap := [with_gpus ["GPU-1"] idle_result; with_gpus ["GPU-1"; "GPU-2"] (passed_result "bbbb" h100 8 false None);
               with_gpus ["GPU-2"] floored_result] in
  exists heap' aliases,
    keep_one_executor_per_gpu no_text heap [("alice", [0%nat; 1%nat; 2%nat])] = Ok (heap', aliases) /\
    Forall (fun r => is_successful r = true) heap /\
    map is_successful heap' = [true; false; false] /\
    map (gpu_uuids no_text) heap' = [Ok ["GPU-1"]; Ok ["GPU-1"; "GPU-2"]; Ok ["GPU-2"]].
Proof. eexists _, _. split; [run|]. split; [repeat constructor|]. split; run. Qed.

(** ** Availability *)
Definition ssh_failure : list (string * json) :=
  [("reason_code", JStr "EXECUTOR_SSH_UNREACHABLE"); ("reach_source", JStr "validator")].
Definition gpu_lost : list (string * json) := [("reason_code", JStr "GPU_LOST"); ("reach_source", JStr "validator")].
Definition reachable (uuid : string) : JobResult := set_availability_errors (Some []) (passed_result uuid h100 8 false None).
Definition unreachable (uuid : string) (errors : list (list (string * json))) : JobResult :=
  set_availability_errors (Some errors) (set_score 0 (set_job_score 0 (passed_result uuid h100 8 false None))).

Definition early_jobs : list (option (list (nat * JobResult) * bool)) :=
  [Some ([(0%nat, reachable "a"); (1%nat, reachable "b"); (2%nat, reachable "c")], true);
   Some ([(3%nat, unreachable "d" [ssh_failure])], true); None;
   Some ([(4%nat, unreachable "e" [ssh_failure]); (5%nat, unreachable "f" [ssh_failure])], true)].


(** Four of six readings failed: the SSH failures are withdrawn, the lost GPU stays,
    and the node published early gets its last list back. *)
Lemma report_reachability_spec_witness :
  exists heap',
    @report_reachability exact_rounding
      [reachable "a"; reachable "b"; unreachable "c" [ssh_failure]; unreachable "d" [ssh_failure; gpu_lost];
       unreachable "e" [ssh_failure]; unreachable "f" [ssh_failure]] [0%nat; 1%nat; 2%nat; 3%nat; 4%nat; 5%nat]
      (Some (mkTally "batch" [] 6 4 ["d"])) [("d", [gpu_lost; ssh_failure])] = Ok heap' /\
    map errors_of heap' = [[]; []; []; [gpu_lost; ssh_failure]; []; []] /\
    exists r', heap' !! 3%nat = Some r' /\ gpu_lost ∈ errors_of r'.
Proof.
  eexists. split; [run|]. split; [run|].
  edestruct (@report_reachability_spec exact_rounding
      [reachable "a"; reachable "b"; unreachable "c" [ssh_failure]; unreachable "d" [ssh_failure; gpu_lost];
       unreachable "e" [ssh_failure]; unreachable "f" [ssh_failure]] [0%nat; 1%nat; 2%nat; 3%nat; 4%nat; 5%nat]
      (mkTally "batch" [] 6 4 ["d"]) [("d", [gpu_lost; ssh_failure])]) as (r' & Hr' & Hkeep & _);
    [by_decision|run|apply list_elem_of_In; cbn; do 3 right; left; reflexivity|reflexivity|].
  exists r'. split; [exact Hr'|]. apply Hkeep; [|run]. apply list_elem_of_In. right. by left.
Defined.

(** ** Price provider *)

(** CoinGecko refuses, Coinbase answers; later everything fails. *)
Definition coinbase_up (_ : nat) (p : RateProvider) : res json :=
  match p with
  | CoinbaseProvider => Ok (JObj [("data", JObj [("amount", JStr "412.5")])])
  | _ => Raise ClientError
  end.
Definition feeds_down (_ : nat) (_ : RateProvider) : res json := Raise ClientError.
Definition chain_down (_ : nat) : res num := Raise TypeError.

Lemma provider_refines_witness :
  exists p' vs,
    @run_ops exact_rounding new_provider
      [GetTao coinbase_up (mkClock 10 11); GetTao feeds_down (mkClock 2000 2001); GetAlpha chain_down (mkClock 5 6)] = (p', vs) /\
    vs = [Some (Some (Fin (4125 # 10))); Some (Some (Fin (4125 # 10))); Some (Some (Fin (1 # 1000)))] /\
    provider_ok p'.
Proof.
  eexists _, _. split; [run|]. split; [run|].
  eapply (@provider_refines exact_rounding
    [GetTao coinbase_up (mkClock 10 11); GetTao feeds_down (mkClock 2000 2001); GetAlpha chain_down (mkClock 5 6)]). run.
Defined.
