(* ===== verification/ValidationWitnesses.v ===== *)
(** * The theorems on validation at concrete inputs

    Each lemma applies one theorem about the pipeline and its checks to a small
    concrete run, with every hypothesis discharged by evaluating the model. *)

From Stdlib Require Import String.
From stdpp Require Import gmap strings.
From S2P Require Import Prelude Float64 PyValue JobResult IncentiveConfig Readings Burn IncentiveBase Settlement Availability Pipeline PipelineLanes GpuDrop GpuLossHold.

Local Open Scope string_scope.
Local Open Scope list_scope.
Local Open Scope Z_scope.

(** ** Pipeline *)
Definition plain_event (check_id reason : string) : ValidationEvent :=
  mkEvent reason reason "info" "runtime" "" None [] (Some check_id).
Definition empty_context : Context := mkContext (mkState ∅ ∅) ∅.

(** A check that passes and writes one text into the specs. *)
Definition spec_check (id key text : string) : Check :=
  mkCheck id true (fun c => Ok (mkCheckResult true (plain_event id "OK")
    (mkUpdates [] (Some (mkState (st_fields (cx_state c)) (<[key := JStr text]> (st_specs (cx_state c)))))) false None [], (0%Q, 1%Q))).
(** A check that fails, with the given fatality. *)
Definition failing_check (id : string) (fatal : bool) : Check :=
  mkCheck id fatal (fun _ => Ok (mkCheckResult false (plain_event id "BAD") (mkUpdates [] None) false None [], (1%Q, 2%Q))).

Definition self_equal (c : Context) : Prop := forall k v, cell c (Spec k) = Some v -> json_eqb v v = true.

Lemma spec_check_cell id key text c r t l :
  ck_run (spec_check id key text) c = Ok (r, t) ->
  cell (lane_ctx c (spec_check id key text) r) l = if decide (l = Spec key) then Some (JStr text) else cell c l.
Proof.
  intros [= <- <-]. destruct l as [k|k|k]; [by destruct (decide _)| |by destruct (decide _)].
  change (<[key := JStr text]> (st_specs (cx_state c)) !! k = if decide (Spec k = Spec key) then Some (JStr text) else cell c (Spec k)).
  destruct (decide (Spec k = Spec key)) as [E|E]; [injection E as ->; by rewrite lookup_insert_eq|].
  rewrite lookup_insert_ne; [done|congruence].
Qed.

Lemma json_eqb_str_l text v : json_eqb (JStr text) v = true -> v = JStr text.
Proof. destruct v; cbn; try done. intros H. apply String.eqb_eq in H. congruence. Qed.
Lemma json_eqb_str_r text v : json_eqb v (JStr text) = true -> v = JStr text.
Proof. destruct v as [| | |[]| | |]; cbn; try done. intros H. apply String.eqb_eq in H. congruence. Qed.

Lemma spec_check_confined id key text :
  confined self_equal (fun l => bool_decide (l = Spec key)) (fun l => bool_decide (l = Spec key)) (spec_check id key text).
Proof.
  split.
  - intros c r t Hc H k v. rewrite (spec_check_cell _ _ _ _ _ _ _ H). destruct (decide _); [|by apply Hc].
    intros [= <-]. cbn. apply String.eqb_refl.
  - intros c d _ _ _. split; [done|]. split; [by repeat split|]. intros l Hl.
    rewrite !(spec_check_cell id key text _ _ (0%Q, 1%Q)) by done. apply bool_decide_unpack in Hl as ->. by destruct (decide _).
  - intros c r t l _ H Hl. rewrite (spec_check_cell _ _ _ _ _ _ _ H). apply bool_decide_eq_false in Hl. by destruct (decide _).
  - intros c r t l b v _ H Hb. rewrite (spec_check_cell _ _ _ _ _ _ _ H). destruct (decide _); [|intros; congruence].
    intros [= <-] [E|E]; [symmetry; by apply json_eqb_str_r|symmetry; by apply json_eqb_str_l].
  - intros c r t k _ H. rewrite (spec_check_cell _ _ _ _ _ _ _ H). by destruct (decide _).
Qed.

Definition spec_lane (id key text : string) : lane_spec :=
  mkLaneSpec [spec_check id key text] (fun l => bool_decide (l = Spec key)) (fun l => bool_decide (l = Spec key)).
Lemma spec_lane_ok id key text : lane_spec_ok self_equal (spec_lane id key text).
Proof. split; [done|done|]. constructor; [apply spec_check_confined|constructor]. Qed.


(** A non-fatal failure goes on, a fatal one ends the run before the last check. *)
Lemma pipeline_verdict_witness :
  exists events ctx,
    @run_pipeline exact_rounding 0
      [Single (spec_check "a" "ram" "x"); Single (failing_check "soft" false); Single (failing_check "hard" true);
       Single (spec_check "b" "ports" "y")] empty_context = Ok (false, events, ctx) /\
    map ev_check_id events = [Some "a"; Some "soft"; Some "hard"] /\
    exists rans, map rc_check rans `sublist_of`
        [spec_check "a" "ram" "x"; failing_check "soft" false; failing_check "hard" true; spec_check "b" "ports" "y"] /\
      map strip events ≡ₚ map strip (flat_map reported rans).
Proof.
  eexists _, _. split; [vm_compute; reflexivity|]. split; [vm_compute; reflexivity|].
  edestruct (@pipeline_verdict exact_rounding 0
      [Single (spec_check "a" "ram" "x"); Single (failing_check "soft" false); Single (failing_check "hard" true);
       Single (spec_check "b" "ports" "y")] empty_context) as (rans & Hs & Hp & _); [vm_compute; reflexivity|].
  exists rans. split; [exact Hs|exact Hp].
Defined.

(** ** Incidents *)
Definition at_time (now : Z) (a : option (option string)) : Outside :=
  mkOutside (inject_Z now) "t" true true true a.
Definition redis_down (now : Z) (a : option (option string)) : Outside :=
  mkOutside (inject_Z now) "t" false false false a.
(** Two cards rented, one listed. *)
Definition two_of_two : option GpuDrop := judge_rented_gpus (Some 2) ["GPU-1"; "GPU-2"] 2 ["GPU-1"; "GPU-2"] 2 JNull [].
Definition one_of_two : option GpuDrop := judge_rented_gpus (Some 2) ["GPU-1"; "GPU-2"] 2 ["GPU-1"] 1 (JStr "NVMLError_GpuIsLost(15)") [].
Definition faulty_sight : Sight := mkSight one_of_two (Some 2) 2 false.
Definition clean_sight : Sight := mkSight two_of_two (Some 2) 2 false.

Ltac in_time := repeat (apply Forall_cons_2; [split; vm_compute; congruence|]); apply Forall_nil_2.

(** The first report is never answered, the second is recorded while Redis is down. *)
Definition faulty_cycles : list (Outside * Sight) :=
  [(at_time 0 None, faulty_sight); (redis_down 900 (Some (Some "recorded")), faulty_sight)].

Lemma reported_once_witness :
  exists ms1 oc po ms2 posts,
    @track_pod exact_rounding 3600 (at_time 0 (Some (Some "notified"))) "pod" (Some 2) faulty_sight (mkMarks [] []) = (ms1, oc, Some po) /\
    @run_cycles exact_rounding 3600 "pod" (Some 2) [(redis_down 900 None, faulty_sight); (at_time 1800 None, faulty_sight)] ms1 = (ms2, posts) /\
    Forall (fun pa => pa.1 = None) posts.
Proof.
  eexists _, _, _, _, _. split; [vm_compute; reflexivity|]. split; [vm_compute; reflexivity|].
  eapply (@reported_once exact_rounding 3600 "pod" (Some 2) 3600 (at_time 0 (Some (Some "notified"))) faulty_sight _ (mkMarks [] []) _ _ _
    (Some "notified") [(redis_down 900 None, faulty_sight); (at_time 1800 None, faulty_sight)]).
  - split; vm_compute; congruence.
  - in_time.
  - vm_compute. reflexivity.
  - vm_compute. reflexivity.
  - reflexivity.
  - reflexivity.
  - repeat (apply Forall_cons_2; [eexists; split; vm_compute; reflexivity|]). apply Forall_nil_2.
  - vm_compute. reflexivity.
Defined.

(** ** The hold *)
Definition redis_up (now : Z) : Redis := mkRedis (inject_Z now) "t" true true true.
Definition whole_scrape : Scrape := mkScrape "GPU-1,GPU-2" (Some 2) None ["GPU-1"; "GPU-2"] 2 JNull.
Definition short_scrape : Scrape := mkScrape "GPU-1,GPU-2" (Some 2) None ["GPU-1"] 1 JNull.
Definition a_pod : RentedPod := mkPod "pod" "pod_1" (Some 2) None.
Definition test_of (failures : list string) : ProbeInput := mkProbe false [] failures true false.
Definition node_at (now : Z) (pods : list RentedPod) (s : Scrape) (p : ProbeInput) : NodeCycle :=
  mkNodeCycle (mkHoldInput pods s false None) (redis_up now) true p (redis_up now).
Definition held_store : HoldStore := mkHoldStore (Some (mkHold true "s" "l" false, inject_Z 200000)) None.
Definition no_other (_ : json) : string := "".

(** Rented and clean, then a card drops again, then clean with a failed test, then a
    test that passes. *)
Definition held_cycles : list NodeCycle :=
  [node_at 0 [a_pod] whole_scrape (test_of []); node_at 900 [] short_scrape (test_of []);
   node_at 1800 [] whole_scrape (test_of ["card 1"]); node_at 2700 [] whole_scrape (test_of [])].

Lemma clean_load_test_lists_witness :
  @node_cycle exact_rounding no_other "node" (node_at 0 [] whole_scrape (test_of [])) held_store = Ok (mkHoldStore None None, true).
Proof.
  apply (@clean_load_test_lists exact_rounding no_other "node" 200000).
  - repeat split; vm_compute; congruence.
  - do 2 eexists. repeat split. vm_compute. congruence.
  - reflexivity.
  - vm_compute. reflexivity.
  - reflexivity.
  - reflexivity.
  - repeat split. vm_compute. congruence.
Defined.

(** A node on hold whose renter is resetting GPUs it names none of: the check passes
    and reports no availability error, and the hold is still there. *)
Example held_node_unhidden_during_reset :
  exists st r,
    @loss_hold_check exact_rounding no_other false "node" (mkHoldInput [a_pod] whole_scrape true None) (redis_up 0) held_store = Ok (st, r) /\
    hides_node r = false /\ cr_passed r = true /\ st = held_store.
Proof. eexists _, _. split; [vm_compute; reflexivity|]. repeat split. Qed.
