(* ===== verification/ExpressLane.v ===== *)
(** * The express lane beside the wave

    [core/express_lane.py] verifies new executors ahead of the cycle, in the same process
    as the wave of [services/miner_service.py]; one dict, [in_flight], keeps them apart.
    The coroutines are modelled by their runs between two awaits: each such run is a step,
    and the steps of all of them interleave freely.  Redis, the portal, the miners and the
    pipeline's verdict are inputs of the steps; times are seconds; [_Pending] objects are
    shared by reference, so they live in a heap.  Log lines
    are left out. *)

From Stdlib Require Import String.
From stdpp Require Import strings relations.
From S2P Require Import Prelude Float64 IncentiveConfig.

Local Open Scope string_scope.
Local Open Scope list_scope.
Local Open Scope Z_scope.

(** ** Data *)
Inductive lane_tag := CYCLE_LANE | EXPRESS_LANE | CYCLE_DONE.
#[export] Instance lane_tag_eq_dec : EqDecision lane_tag.
Proof. solve_decision. Defined.

Record PortalExecutor := mkPortal { pe_id : string; pe_validator_hotkey : string; pe_created_at : option Z }.
(** [_Pending] *)
Record Pending := mkPending {
  pn_executor : PortalExecutor;
  pn_miner_hotkey : string;
  pn_first_seen_at : Z;
  pn_attempts : Z;
  pn_not_before : Q;
  pn_failed_runs : Z;
  pn_recheck_deadline : option Q;
  pn_recheck_only : bool;
  pn_requested : bool
}.
Definition new_pending (e : PortalExecutor) (miner_hotkey : string) (first_seen_at : Z) (recheck_only : bool) : Pending :=
  mkPending e miner_hotkey first_seen_at 0 0 0 None recheck_only false.
Definition with_attempts (n : Z) (p : Pending) : Pending :=
  mkPending (pn_executor p) (pn_miner_hotkey p) (pn_first_seen_at p) n (pn_not_before p) (pn_failed_runs p)
    (pn_recheck_deadline p) (pn_recheck_only p) (pn_requested p).
Definition with_not_before (t : Q) (p : Pending) : Pending :=
  mkPending (pn_executor p) (pn_miner_hotkey p) (pn_first_seen_at p) (pn_attempts p) t (pn_failed_runs p)
    (pn_recheck_deadline p) (pn_recheck_only p) (pn_requested p).
Definition with_failed_runs (n : Z) (p : Pending) : Pending :=
  mkPending (pn_executor p) (pn_miner_hotkey p) (pn_first_seen_at p) (pn_attempts p) (pn_not_before p) n
    (pn_recheck_deadline p) (pn_recheck_only p) (pn_requested p).
Definition with_recheck (requested : bool) (deadline : option Q) (p : Pending) : Pending :=
  mkPending (pn_executor p) (pn_miner_hotkey p) (pn_first_seen_at p) (pn_attempts p) (pn_not_before p) (pn_failed_runs p)
    deadline (pn_recheck_only p) requested.
Definition without_deadline (p : Pending) : Pending := with_recheck (pn_requested p) None p.

(** [settings], as far as the lane reads it. *)
Record LaneSettings := mkLaneSettings {
  EXPRESS_LANE_MAX_IN_FLIGHT : Z;
  EXPRESS_LANE_MAX_IN_FLIGHT_PER_MINER : Z;
  VALIDATION_FAST_PATH_ENABLED : bool;
  EXPRESS_LANE_MINER_SNAPSHOT_RETRY_SECONDS : Z;
  EXPRESS_LANE_MINER_SNAPSHOT_MAX_ATTEMPTS : Z;
  EXPRESS_LANE_FAILED_FIRST_PASS_RETRY_ENABLED : bool;
  BLOCKS_FOR_JOB : Z
}.
Definition RESTART_LOOKBACK : Z := 30 * 60.
Definition LANE_MAX_ATTEMPTS : Z := 3.
Definition RETRY_SECONDS : Z := 120.
Definition MINER_DID_NOT_RETURN_EXECUTOR : string := "miner did not return the executor".
Definition FIRST_PASS_FAILED_RETRY_SECONDS : Z := 60.
Definition FIRST_PASS_MAX_RUNS : Z := 3.
Definition LANE_SECONDS_PER_BLOCK : Z := 12.
Definition RECHECK_MIN_SECONDS : Z := 300.
Definition RECHECK_MARGIN_SECONDS : Z := 60.
Definition RECHECK_MAX_RUNS : Z := 2.

Definition addr : Type := nat.
Inductive phase :=
| Requesting
| Publishing (passed again : bool)
| Published (passed again : bool).
(** A running [_verify]. *)
Record Task := mkTask { tk_addr : addr; tk_id : string; tk_directory : string; tk_attempt : Z; tk_phase : phase }.
(** A running wave request that has claimed its miner's executors. *)
Record WaveJob := mkWave { wj_miner : string; wj_claimed : list string }.

(** The fields of [ExpressLane] and of [MinerService] that the two lanes share. *)
Record State := mkState {
  heap : list Pending;
  pending : list (string * addr);
  left_to_cycle : list string;
  directories_in_use : list (string * Z);
  recheck_runs : list (string * Z);
  rechecks_in_flight : list (string * string);
  in_flight : list (string * lane_tag);
  miners_awaiting_wave_list : list (string * string);
  tasks : list Task;
  waves : list WaveJob
}.
Definition initial : State := mkState [] [] [] [] [] [] [] [] [] [].

(** Field updates. *)
Definition set_heap (h : list Pending) (s : State) : State :=
  mkState h (pending s) (left_to_cycle s) (directories_in_use s) (recheck_runs s) (rechecks_in_flight s) (in_flight s)
    (miners_awaiting_wave_list s) (tasks s) (waves s).
Definition set_pending (d : list (string * addr)) (s : State) : State :=
  mkState (heap s) d (left_to_cycle s) (directories_in_use s) (recheck_runs s) (rechecks_in_flight s) (in_flight s)
    (miners_awaiting_wave_list s) (tasks s) (waves s).
Definition set_left (l : list string) (s : State) : State :=
  mkState (heap s) (pending s) l (directories_in_use s) (recheck_runs s) (rechecks_in_flight s) (in_flight s)
    (miners_awaiting_wave_list s) (tasks s) (waves s).
Definition set_directories (d : list (string * Z)) (s : State) : State :=
  mkState (heap s) (pending s) (left_to_cycle s) d (recheck_runs s) (rechecks_in_flight s) (in_flight s)
    (miners_awaiting_wave_list s) (tasks s) (waves s).
Definition set_recheck_runs (d : list (string * Z)) (s : State) : State :=
  mkState (heap s) (pending s) (left_to_cycle s) (directories_in_use s) d (rechecks_in_flight s) (in_flight s)
    (miners_awaiting_wave_list s) (tasks s) (waves s).
Definition set_rechecks_in_flight (d : list (string * string)) (s : State) : State :=
  mkState (heap s) (pending s) (left_to_cycle s) (directories_in_use s) (recheck_runs s) d (in_flight s)
    (miners_awaiting_wave_list s) (tasks s) (waves s).
Definition set_in_flight (d : list (string * lane_tag)) (s : State) : State :=
  mkState (heap s) (pending s) (left_to_cycle s) (directories_in_use s) (recheck_runs s) (rechecks_in_flight s) d
    (miners_awaiting_wave_list s) (tasks s) (waves s).
Definition set_awaiting (d : list (string * string)) (s : State) : State :=
  mkState (heap s) (pending s) (left_to_cycle s) (directories_in_use s) (recheck_runs s) (rechecks_in_flight s) (in_flight s)
    d (tasks s) (waves s).
Definition set_tasks (l : list Task) (s : State) : State :=
  mkState (heap s) (pending s) (left_to_cycle s) (directories_in_use s) (recheck_runs s) (rechecks_in_flight s) (in_flight s)
    (miners_awaiting_wave_list s) l (waves s).
Definition set_waves (l : list WaveJob) (s : State) : State :=
  mkState (heap s) (pending s) (left_to_cycle s) (directories_in_use s) (recheck_runs s) (rechecks_in_flight s) (in_flight s)
    (miners_awaiting_wave_list s) (tasks s) l.
(** Mutate the object at an address. *)
Definition modify (a : addr) (f : Pending -> Pending) (s : State) : State :=
  match heap s !! a with Some p => set_heap (<[a := f p]> (heap s)) s | None => s end.
Definition add_to (x : string) (l : list string) : list string := if in_list x l then l else l ++ [x].
(** [counter[k]]: a missing key counts 0. *)
Definition count_of (k : string) (d : list (string * Z)) : Z := dget_or 0 k d.

Section Lane.
Context (st : LaneSettings) (my_hotkey : string).

(** [retry_seconds_for], [max_attempts_for] *)
Definition retry_seconds_for (reason : string) : Z :=
  if VALIDATION_FAST_PATH_ENABLED st && String.eqb reason MINER_DID_NOT_RETURN_EXECUTOR
  then EXPRESS_LANE_MINER_SNAPSHOT_RETRY_SECONDS st else RETRY_SECONDS.
Definition max_attempts_for (reason : string) : Z :=
  if VALIDATION_FAST_PATH_ENABLED st && String.eqb reason MINER_DID_NOT_RETURN_EXECUTOR
  then pymaxZ LANE_MAX_ATTEMPTS (EXPRESS_LANE_MINER_SNAPSHOT_MAX_ATTEMPTS st) else LANE_MAX_ATTEMPTS.

(** [_defer] *)
Definition defer (a : addr) (reason : string) (now : Q) (s : State) : State :=
  match heap s !! a with
  | None => s
  | Some p =>
      let id := pe_id (pn_executor p) in
      if max_attempts_for reason <=? pn_attempts p
      then set_pending (ddel id (pending s)) (set_left (add_to id (left_to_cycle s)) s)
      else modify a (with_not_before (now + inject_Z (retry_seconds_for reason))%Q) s
  end.

(** ** Selecting *)

(** What a tick knows when it selects. *)
Record TickInputs := mkTick {
  ti_snapshot : list (string * list PortalExecutor);
  ti_validated : list string;
  ti_rechecks : list string;
  ti_fleet_known_since : Z;
  ti_now : Q;
  ti_now_wall : Z
}.

(** An executor no cycle has published, registered since about the start. *)
Definition new_to_lane (i : TickInputs) (s : State) (e : PortalExecutor) : bool :=
  negb (in_list (pe_id e) (ti_validated i) || in_list (pe_id e) (left_to_cycle s)
        || match pe_created_at e with None => true | Some t => t <? ti_fleet_known_since i - RESTART_LOOKBACK end).

(** One executor of the snapshot: the object that stands for it, in the queue when new. *)
Definition track (i : TickInputs) (miner_hotkey : string) (e : PortalExecutor) (s : State) : State * addr :=
  match dget (pe_id e) (pending s) with
  | Some a => (s, a)
  | None =>
      let is_new := new_to_lane i s e in
      let a := length (heap s) in
      let s := set_heap (heap s ++ [new_pending e miner_hotkey (ti_now_wall i) (negb is_new)]) s in
      (if is_new then set_pending (dset (pe_id e) a (pending s)) s else s, a)
  end.
Definition scan_step (i : TickInputs) (miner_hotkey : string) (acc : State * list string * list addr) (e : PortalExecutor)
    : State * list string * list addr :=
  let '(s, present, candidates) := acc in
  if negb (String.eqb (pe_validator_hotkey e) my_hotkey) then acc
  else if negb (new_to_lane i s e) && negb (in_list (pe_id e) (ti_rechecks i)) then acc
  else
    let '(s, a) := track i miner_hotkey e s in
    let waits := match heap s !! a with Some p => Qltb (ti_now i) (pn_not_before p) | None => true end in
    if din (pe_id e) (in_flight s) || waits || din miner_hotkey (miners_awaiting_wave_list s)
    then (s, add_to (pe_id e) present, candidates)
    else (s, add_to (pe_id e) present, candidates ++ [a]).
Definition scan (i : TickInputs) (s : State) : State * list string * list addr :=
  fold_left (fun acc me => fold_left (scan_step i me.1) me.2 acc) (ti_snapshot i) (s, [], []).

Definition sort_key (s : State) (a : addr) : Z :=
  match heap s !! a with
  | Some p => match pe_created_at (pn_executor p) with Some t => t | None => pn_first_seen_at p end
  | None => 0
  end.
Definition miner_at (s : State) (a : addr) : string :=
  match heap s !! a with Some p => pn_miner_hotkey p | None => "" end.
(** The executors the lane is verifying, and how many of each miner. *)
Definition express_in_flight (s : State) : list string :=
  map fst (List.filter (fun el => bool_decide (el.2 = EXPRESS_LANE)) (in_flight s)).
Definition running_miners (s : State) : list string :=
  flat_map (fun e => match dget e (pending s) with Some a => [miner_at s a] | None => [] end) (express_in_flight s)
  ++ dvalues (rechecks_in_flight s).
Definition count_in (x : string) (l : list string) : Z := Z.of_nat (length (List.filter (String.eqb x) l)).

(** The loop under the two caps; [per_miner] is the list of the miners counted so far. *)
Fixpoint choose (s : State) (room : Z) (per_miner : list string) (candidates : list addr) : list addr :=
  match candidates with
  | [] => []
  | a :: rest =>
      if room <=? 0 then []
      else if EXPRESS_LANE_MAX_IN_FLIGHT_PER_MINER st <=? count_in (miner_at s a) per_miner then choose s room per_miner rest
      else a :: choose s (room - 1) (per_miner ++ [miner_at s a]) rest
  end.

(** [_select] *)
Definition forget_absent (present : list string) (s : State) : State :=
  set_pending (List.filter (fun ea => in_list ea.1 present || din ea.1 (in_flight s)) (pending s)) s.
Definition select (i : TickInputs) (s : State) : State * list addr :=
  let '(s, present, candidates) := scan i s in
  let s := forget_absent present s in
  let candidates := psort (fun a b => Z.leb (sort_key s a) (sort_key s b)) candidates in
  let room := EXPRESS_LANE_MAX_IN_FLIGHT st - Z.of_nat (length (express_in_flight s)) in
  (s, choose s room (running_miners s) candidates).

(** [tick], from the last read to the first await of [_launch]. *)
Definition tick_select (i : TickInputs) (started_at : Q) (s : State) : State * list addr :=
  let recheck_deadline := (started_at + inject_Z (BLOCKS_FOR_JOB st * LANE_SECONDS_PER_BLOCK) - inject_Z RECHECK_MARGIN_SECONDS)%Q in
  let i := if Qltb (recheck_deadline - ti_now i)%Q (inject_Z RECHECK_MIN_SECONDS)
           then mkTick (ti_snapshot i) (ti_validated i) [] (ti_fleet_known_since i) (ti_now i) (ti_now_wall i) else i in
  let '(s, chosen) := select i s in
  (fold_left (fun s a => modify a (fun p =>
      let requested := in_list (pe_id (pn_executor p)) (ti_rechecks i) in
      with_recheck requested
        (if requested && in_list (pe_id (pn_executor p)) (ti_validated i) then Some recheck_deadline else None) p) s) chosen s,
   chosen).

(** ** Launching *)

(** One chosen executor; [miners] are the hotkeys of the serving miners. *)
Definition launch_step (miners : list string) (directory : string) (now : Q) (s : State) (a : addr) : State :=
  match heap s !! a with
  | None => s
  | Some p =>
      let id := pe_id (pn_executor p) in
      if din id (in_flight s) then s
      else if din (pn_miner_hotkey p) (miners_awaiting_wave_list s) then s
      else if negb (in_list (pn_miner_hotkey p) miners)
      then defer a "miner is not among the serving opted-in miners" now (modify a (with_attempts (pn_attempts p + 1)) s)
      else
        let s := set_in_flight (dset id EXPRESS_LANE (in_flight s)) s in
        let s := if pn_recheck_only p then set_rechecks_in_flight (dset id (pn_miner_hotkey p) (rechecks_in_flight s)) s else s in
        let s := if pn_requested p then set_recheck_runs (dset id (count_of id (recheck_runs s) + 1) (recheck_runs s)) s else s in
        let s := set_directories (dset directory (count_of directory (directories_in_use s) + 1) (directories_in_use s)) s in
        set_tasks (tasks s ++ [mkTask a id directory (pn_attempts p + 1) Requesting]) s
  end.
(** [_end_recheck], up to its await. *)
Definition end_recheck (id : string) (s : State) : State := set_recheck_runs (ddel id (recheck_runs s)) s.
(** [_launch], from its last await on; [files] says whether the job files are there.  The
    requests whose budget of runs is spent end right after the loop. *)
Definition spent (before : State) (s : State) (a : addr) : list string :=
  match heap s !! a with
  | Some p =>
      let id := pe_id (pn_executor p) in
      if pn_requested p && (count_of id (recheck_runs before) <? count_of id (recheck_runs s))
         && (RECHECK_MAX_RUNS <=? count_of id (recheck_runs s)) then [id] else []
  | None => []
  end.
Definition launch (miners : list string) (directory : string) (files : bool) (now : Q) (chosen : list addr) (s : State) : State :=
  if negb files then s
  else
    let s' := fold_left (launch_step miners directory now) chosen s in
    fold_left (fun s id => end_recheck id s) (flat_map (spent s s') chosen) s'.

(** ** Verifying *)

(** The [finally] of [_verify]: the claim, the recheck and the directory are let go. *)
Definition let_go (t : Task) (s : State) : State :=
  let s := match dget (tk_id t) (in_flight s) with
           | Some EXPRESS_LANE => set_in_flight (ddel (tk_id t) (in_flight s)) s
           | _ => s
           end in
  let s := set_rechecks_in_flight (ddel (tk_id t) (rechecks_in_flight s)) s in
  let left_ := count_of (tk_directory t) (directories_in_use s) - 1 in
  set_directories (if left_ <=? 0 then ddel (tk_directory t) (directories_in_use s)
                   else dset (tk_directory t) left_ (directories_in_use s)) s.

(** What the await a task is at came to: the request, the publication, the record in
    Redis.  After the request, every answer but [Failed] and [Cancelled] means it went through. *)
Inductive answer :=
| FilesGone                      (* the job files went away meanwhile *)
| NoResult                       (* the miner did not return the executor *)
| Failed (error : string)        (* an exception, the time limit included *)
| Cancelled                      (* the task itself is cancelled *)
| Result (passed : bool).
(** [_publish] from its first await on: the publication came back, then the record in Redis. *)
Definition publishing_step (t : Task) (passed again : bool) (a : answer) (now : Q) (s : State) : State * option phase :=
  match a with
  | Cancelled => (let_go t s, None)
  | Failed e => (let_go t (defer (tk_addr t) e now (modify (tk_addr t) (with_attempts (tk_attempt t)) s)), None)
  | _ =>
      let s := modify (tk_addr t) without_deadline s in
      (if again then s else end_recheck (tk_id t) s, Some (Published passed again))
  end.
Definition published_step (t : Task) (passed again : bool) (a : answer) (now : Q) (s : State) : State * option phase :=
  let dropped s := set_pending (ddel (tk_id t) (pending s)) s in
  let left s := set_left (add_to (tk_id t) (left_to_cycle s)) s in
  match a with
  | Cancelled => (let_go t s, None)
  | _ =>
      if again
      then (let_go t (modify (tk_addr t) (fun p => with_not_before (now + inject_Z FIRST_PASS_FAILED_RETRY_SECONDS)%Q
                                                     (with_failed_runs (pn_failed_runs p + 1) p)) s), None)
      else if negb passed then (let_go t (dropped (left s)), None)
      else (let_go t (dropped match a with Failed _ => left s | _ => s end), None)
  end.
(** The next step of a task ([_verify]): its effect, and the phase it goes on with, if it does. *)
Definition verify_step (t : Task) (a : answer) (now : Q) (s : State) : State * option phase :=
  let counted := modify (tk_addr t) (with_attempts (tk_attempt t)) s in
  match tk_phase t with
  | Publishing passed again => publishing_step t passed again a now s
  | Published passed again => published_step t passed again a now s
  | Requesting =>
      match a with
      | Cancelled => (let_go t s, None)
      | FilesGone => (let_go t (modify (tk_addr t) (with_not_before (now + inject_Z RETRY_SECONDS)%Q) s), None)
      | NoResult => (let_go t (defer (tk_addr t) MINER_DID_NOT_RETURN_EXECUTOR now counted), None)
      | Failed e => (let_go t (defer (tk_addr t) e now counted), None)
      | Result passed =>
          let failed_runs := match heap s !! tk_addr t with Some p => pn_failed_runs p | None => 0 end in
          (counted, Some (Publishing passed
             (negb passed && EXPRESS_LANE_FAILED_FIRST_PASS_RETRY_ENABLED st && (failed_runs + 1 <? FIRST_PASS_MAX_RUNS))))
      end
  end.
Definition in_phase (ph : phase) (t : Task) : Task := mkTask (tk_addr t) (tk_id t) (tk_directory t) (tk_attempt t) ph.
(** The step of the n-th task. *)
Definition step_task (n : nat) (a : answer) (now : Q) (s : State) : State :=
  match tasks s !! n with
  | None => s
  | Some t =>
      let '(s', next) := verify_step t a now s in
      match next with
      | Some ph => set_tasks (<[n := in_phase ph t]> (tasks s)) s'
      | None => set_tasks (delete n (tasks s)) s'
      end
  end.

(** ** The wave *)

(** [start_awaiting_wave_lists] *)
Definition start_awaiting_wave_lists (job_batch_id : string) (miner_hotkeys : list string) (s : State) : State :=
  set_awaiting (fold_left (fun d h => dset h job_batch_id d) miner_hotkeys []) s.
(** [_stop_awaiting_wave_list] *)
Definition stop_awaiting_wave_list (miner_hotkey job_batch_id : string) (s : State) : State :=
  if decide (dget miner_hotkey (miners_awaiting_wave_list s) = Some job_batch_id)
  then set_awaiting (ddel miner_hotkey (miners_awaiting_wave_list s)) s else s.
(** [_first_entry_per_uuid], [_only_requested] on the uuids. *)
Definition first_entry_per_uuid (executors : list string) : list string := fold_left (fun u e => add_to e u) executors [].
Definition only_requested (executors : list string) (executor_id : string) : list string :=
  first_entry_per_uuid (List.filter (fun e => String.eqb e executor_id) executors).
(** [_claim_for_cycle] *)
Definition claim_step (acc : State * list string) (e : string) : State * list string :=
  let '(s, claimed) := acc in
  if bool_decide (dget e (in_flight s) = Some EXPRESS_LANE) || din e (pending s) then acc
  else (set_in_flight (dset e CYCLE_LANE (in_flight s)) s, claimed ++ [e]).
Definition claim_for_cycle (miner_hotkey job_batch_id : string) (executors : list string) (s : State) : State * list string :=
  fold_left claim_step (first_entry_per_uuid executors) (stop_awaiting_wave_list miner_hotkey job_batch_id s, []).
(** [_release_cycle_claims] *)
Definition release_step (s : State) (e : string) : State :=
  if decide (dget e (in_flight s) = Some CYCLE_LANE) then set_in_flight (dset e CYCLE_DONE (in_flight s)) s else s.
Definition release_cycle_claims (executors : list string) (s : State) : State := fold_left release_step executors s.
(** [forget_cycle_done] *)
Definition forget_cycle_done (s : State) : State :=
  set_in_flight (List.filter (fun el => negb (bool_decide (el.2 = CYCLE_DONE))) (in_flight s)) s.
End Lane.

(** ** Self-hosted miners *)

(** What the lane has heard from the miners that list their executors themselves: when each
    executor was first seen ([None]: in the miner's first answer), the misses in a row and the
    end of the back-off. *)
Record SelfHosted := mkSelfHosted {
  sh_self_hosted : list (string * list (string * option Z));
  sh_misses : list (string * Z);
  sh_backoff : list (string * Q)
}.
Definition SELF_HOSTED_LIST_SECONDS : Z := 60.
Definition SELF_HOSTED_LIST_FAILURE_BACKOFF_SECONDS : Z := 600.

(** The miners asked this time: serving, not behind the central miner, not backed off. *)
Definition to_list (central : list string) (now : Q) (miners : list (string * bool)) (h : SelfHosted) : list string :=
  map fst (List.filter (fun m : string * bool => m.2 && negb (in_list m.1 central) && Qle_bool (dget_or 0%Q m.1 (sh_backoff h)) now) miners).
(** [list_one] from its await on; [now] is the listing's start. *)
Definition list_one (now : Q) (now_wall : Z) (miner : string) (executor_ids : option (list string)) (h : SelfHosted) : SelfHosted :=
  match executor_ids with
  | None =>
      let misses := dset miner (count_of miner (sh_misses h) + 1) (sh_misses h) in
      mkSelfHosted (sh_self_hosted h) misses
        (dset miner (now + inject_Z (pyminZ (SELF_HOSTED_LIST_SECONDS * 2 ^ (count_of miner misses - 1))
                                            SELF_HOSTED_LIST_FAILURE_BACKOFF_SECONDS))%Q (sh_backoff h))
  | Some ids =>
      let known := dget miner (sh_self_hosted h) in
      let seen_at := if known then Some now_wall else None in
      mkSelfHosted
        (dset miner (fold_left (fun d e => dset e (dget_or seen_at e (default [] known)) d) ids []) (sh_self_hosted h))
        (ddel miner (sh_misses h)) (sh_backoff h)
  end.
(** [_with_self_hosted] *)
Definition with_self_hosted (my_hotkey : string) (h : SelfHosted) (snapshot : list (string * list PortalExecutor))
    : list (string * list PortalExecutor) :=
  fold_left (fun merged ml =>
      let listed := default [] (dget ml.1 snapshot) in
      dset ml.1 (listed ++ map (fun es : string * option Z => mkPortal es.1 my_hotkey es.2)
                             (List.filter (fun es => negb (in_list es.1 (map pe_id listed))) ml.2)) merged)
    (sh_self_hosted h) snapshot.

(** ** Steps *)
Section Steps.
Context (st : LaneSettings) (my_hotkey : string).

(** Ticks may overlap ([Validator.sync] runs one beside the lane's own loop), so a launch
    takes any list.  Two miners may return one executor, so two running wave requests may hold
    it.  [forget_cycle_done] comes at the cycle's end: its requests are done or cancelled. *)

(** [step b]: [b] says whether it is a launch. *)
Inductive step (s : State) : bool -> State -> Prop :=
| step_select i started_at : step s false (tick_select st my_hotkey i started_at s).1
| step_launch miners directory files now chosen : step s true (launch st miners directory files now chosen s)
| step_verify n a now : step s false (step_task st n a now s)
| step_start_awaiting batch miners : step s false (start_awaiting_wave_lists batch miners s)
| step_stop_awaiting miner batch : step s false (stop_awaiting_wave_list miner batch s)
| step_claim miner batch executors s' claimed :
    claim_for_cycle miner batch executors s = (s', claimed) ->
    step s false (set_waves (waves s' ++ [mkWave miner claimed]) s')
| step_release n j : waves s !! n = Some j ->
    step s false (set_waves (delete n (waves s)) (release_cycle_claims (wj_claimed j) s))
| step_forget : waves s = [] -> step s false (forget_cycle_done s).

Definition quiet (s s' : State) : Prop := step s false s'.
Definition any_step (s s' : State) : Prop := exists b, step s b s'.
Definition reachable (s : State) : Prop := rtc any_step initial s.
End Steps.

(** ** What the claims say *)
Section Claims.
Context (st : LaneSettings) (my_hotkey : string).

Definition in_directory (d : string) (ts : list Task) : nat := length (List.filter (fun t => String.eqb (tk_directory t) d) ts).
Definition held_by (n : nat) : option Z := if (n =? 0)%nat then None else Some (Z.of_nat n).

#[local] Arguments in_directory : simpl never.
#[local] Arguments ddel : simpl never.

(** The lane's claims are its running verifications; an executor of a running wave request is
    claimed by the wave or done by it; every claim of the wave has such a request; and a
    directory is held once per verification. *)
Record claims_exact (s : State) : Prop := {
  express_exact : forall e, dget e (in_flight s) = Some EXPRESS_LANE <-> exists t, t ∈ tasks s /\ tk_id t = e;
  one_task : NoDup (map tk_id (tasks s));
  wave_claimed : forall e j, j ∈ waves s -> e ∈ wj_claimed j ->
    dget e (in_flight s) = Some CYCLE_LANE \/ dget e (in_flight s) = Some CYCLE_DONE;
  cycle_held : forall e, dget e (in_flight s) = Some CYCLE_LANE -> exists j, j ∈ waves s /\ e ∈ wj_claimed j;
  keys_once : NoDup (dkeys (in_flight s));
  directories_exact : forall d, dget d (directories_in_use s) = held_by (in_directory d (tasks s))
}.

(** Two states with the same claims. *)
Definition same_claims (s s' : State) : Prop :=
  in_flight s' = in_flight s /\ tasks s' = tasks s /\ waves s' = waves s /\ directories_in_use s' = directories_in_use s.
Lemma same_claims_exact s s' : same_claims s s' -> claims_exact s -> claims_exact s'.
Proof. intros (H1 & H2 & H3 & H4) [? ? ? ? ? ?]. split; rewrite ?H1, ?H2, ?H3, ?H4; done. Qed.
#[local] Instance same_claims_preorder : PreOrder same_claims.
Proof.
  split; [done|]. intros s1 s2 s3 (? & ? & ? & ?) (? & ? & ? & ?). unfold same_claims. split_and!; congruence.
Qed.

Lemma modify_same a f s : same_claims s (modify a f s).
Proof. unfold modify. by destruct (heap s !! a). Qed.
Lemma defer_same a reason now s : same_claims s (defer st a reason now s).
Proof. unfold defer. destruct (heap s !! a); [|done]. case_match; [done|apply modify_same]. Qed.
Lemma fold_same {A} (f : State -> A -> State) l s : (forall s x, same_claims s (f s x)) -> same_claims s (fold_left f l s).
Proof. intros Hf. revert s. induction l as [|x l IH]; intros s; cbn; [done|]. etrans; [apply Hf|apply IH]. Qed.

Lemma track_same i miner e s : same_claims s (track i miner e s).1.
Proof. unfold track. destruct (dget _ (pending s)); [done|]. by destruct (new_to_lane i s e). Qed.
Lemma scan_step_same i miner acc e : same_claims acc.1.1 (scan_step my_hotkey i miner acc e).1.1.
Proof.
  destruct acc as [[s present] cs]. cbn. case_match; [done|]. case_match; [done|].
  pose proof (track_same i miner e s) as Ht. destruct (track i miner e s) as [s' a]. by case_match.
Qed.
Lemma scan_same i s : same_claims s (scan my_hotkey i s).1.1.
Proof.
  unfold scan. change s with (s, @nil string, @nil addr).1.1 at 1. generalize (s, @nil string, @nil addr). intros acc. revert acc.
  induction (ti_snapshot i) as [|[miner es] l IH]; intros acc; cbn; [done|]. etrans; [|apply IH].
  clear IH. revert acc. induction es as [|e es IH]; intros acc; cbn; [done|]. etrans; [apply scan_step_same|apply IH].
Qed.
Lemma tick_select_same i started_at s : same_claims s (tick_select st my_hotkey i started_at s).1.
Proof.
  unfold tick_select, select. match goal with |- context [scan my_hotkey ?j s] => pose proof (scan_same j s) as Hs; destruct (scan my_hotkey j s) as [[s1 present] cs] end.
  cbn in *. etrans; [exact Hs|]. etrans; [|apply fold_same; intros; apply modify_same]. done.
Qed.

(** ** Each step keeps the claims exact *)

Lemma in_directory_app d ts ts' : in_directory d (ts ++ ts') = (in_directory d ts + in_directory d ts')%nat.
Proof. unfold in_directory. rewrite List.filter_app. apply length_app. Qed.
Lemma in_directory_one d t : in_directory d [t] = if decide (tk_directory t = d) then 1%nat else 0%nat.
Proof. unfold in_directory. cbn. destruct (String.eqb_spec (tk_directory t) d); case_decide; done. Qed.
Lemma count_held d (dirs : list (string * Z)) n : dget d dirs = held_by n -> count_of d dirs = Z.of_nat n.
Proof. unfold count_of, dget_or, held_by. intros ->. destruct (Nat.eqb_spec n 0); lia. Qed.

Lemma dget_dset {A} k v (d : list (string * A)) e : dget e (dset k v d) = if decide (e = k) then Some v else dget e d.
Proof. case_decide; [subst; apply dget_dset_eq|by apply dget_dset_ne]. Qed.
Lemma dget_ddel {A} k (d : list (string * A)) e : dget e (ddel k d) = if decide (e = k) then None else dget e d.
Proof. case_decide; [subst; apply dget_ddel_eq|by apply dget_ddel_ne]. Qed.

(** Filtering a dict. *)
Lemma NoDup_filter_keys {A} (P : string * A -> bool) (d : list (string * A)) :
  NoDup (dkeys d) -> NoDup (dkeys (List.filter P d)).
Proof.
  unfold dkeys. induction d as [|kv d IH]; cbn; [done|]. intros [Hn Hk]%NoDup_cons. destruct (P kv); cbn; [|by apply IH].
  constructor; [|by apply IH]. intros (kv' & Heq & Hin)%list_elem_of_fmap. apply Hn. rewrite Heq. apply list_elem_of_fmap_2.
  apply list_elem_of_In, filter_In in Hin as [Hin _]. by apply list_elem_of_In.
Qed.
Lemma dget_filter {A} (P : string * A -> bool) (d : list (string * A)) k v :
  NoDup (dkeys d) -> dget k (List.filter P d) = Some v <-> dget k d = Some v /\ P (k, v) = true.
Proof.
  intros Hk. split.
  - intros Hin%dget_In%list_elem_of_In%filter_In. destruct Hin as [Hin%list_elem_of_In HP]. split; [by apply elem_of_dget|done].
  - intros [Hin%dget_In HP]. apply elem_of_dget; [by apply NoDup_filter_keys|]. apply list_elem_of_In, filter_In. by rewrite <- list_elem_of_In.
Qed.

(** A new verification takes a claim nobody holds. *)
Lemma new_task_exact s t :
  claims_exact s -> dget (tk_id t) (in_flight s) = None ->
  claims_exact (set_tasks (tasks s ++ [t]) (set_directories
    (dset (tk_directory t) (count_of (tk_directory t) (directories_in_use s) + 1) (directories_in_use s))
    (set_in_flight (dset (tk_id t) EXPRESS_LANE (in_flight s)) s))).
Proof.
  intros [He Ho Hw Hc Hk Hd] Hnone. split; cbn.
  - intros e. rewrite dget_dset. setoid_rewrite elem_of_app. setoid_rewrite list_elem_of_singleton. case_decide as Heq.
    + split; [intros _; exists t; auto|done].
    + rewrite He. split; [intros (t' & ? & ?); eauto|intros (t' & [| ->] & <-); eauto; done].
  - rewrite map_app. apply NoDup_app. split_and!; [done| |apply NoDup_singleton]. cbn. intros x Hx ->%list_elem_of_singleton.
    apply list_elem_of_fmap in Hx as (t' & Hid & Ht'). assert (dget (tk_id t) (in_flight s) = Some EXPRESS_LANE); [|congruence].
    apply He. eauto.
  - intros e j Hj Hin. rewrite dget_dset. case_decide; [subst; destruct (Hw _ _ Hj Hin); congruence|eauto].
  - intros e. rewrite dget_dset. case_decide; [done|auto].
  - by apply NoDup_dset.
  - intros d. rewrite dget_dset, in_directory_app, in_directory_one. case_decide as Hdd.
    + subst d. rewrite decide_True by done. rewrite (count_held _ _ _ (Hd _)). unfold held_by.
      destruct (Nat.eqb_spec (in_directory (tk_directory t) (tasks s) + 1) 0); [lia|]. f_equal. lia.
    + rewrite decide_False by done. by rewrite Nat.add_0_r.
Qed.

Lemma launch_step_exact miners directory now s a : claims_exact s -> claims_exact (launch_step st miners directory now s a).
Proof.
  intros Hs. unfold launch_step. destruct (heap s !! a) as [p|]; [|done]. set (id := pe_id (pn_executor p)).
  destruct (din id (in_flight s)) eqn:Hin; [done|]. destruct (din (pn_miner_hotkey p) _); [done|].
  destruct (negb _).
  { eapply same_claims_exact; [|exact Hs]. etrans; [apply modify_same|apply defer_same]. }
  assert (dget id (in_flight s) = None) as Hnone by (unfold din in Hin; by destruct (dget id (in_flight s))).
  pose proof (new_task_exact s (mkTask a id directory (pn_attempts p + 1) Requesting) Hs Hnone) as Hnew.
  eapply same_claims_exact; [|exact Hnew]. by destruct (pn_recheck_only p), (pn_requested p).
Qed.
Lemma launch_exact miners directory files now chosen s : claims_exact s -> claims_exact (launch st miners directory files now chosen s).
Proof.
  intros Hs. unfold launch. destruct files; cbn [negb]; [|done]. eapply same_claims_exact; [by apply fold_same|].
  generalize chosen at 1. intros l. revert s Hs. induction l as [|a l IH]; intros s Hs; cbn; [done|]. apply IH. by apply launch_step_exact.
Qed.

(** A verification that ends lets go of exactly what it held. *)
Lemma let_go_exact s n t :
  claims_exact s -> tasks s !! n = Some t -> claims_exact (set_tasks (delete n (tasks s)) (let_go t s)).
Proof.
  intros [He Ho Hw Hc Hk Hd] Hn. destruct (list_elem_of_split_length _ _ _ Hn) as (l1 & l2 & Hts & ->).
  assert (dget (tk_id t) (in_flight s) = Some EXPRESS_LANE) as Hex.
  { apply He. exists t. split; [|done]. rewrite Hts. set_solver. }
  assert (delete (length l1) (tasks s) = l1 ++ l2) as -> by (rewrite Hts; apply delete_middle).
  unfold let_go. rewrite Hex. rewrite Hts, map_app in Ho. cbn in Ho.
  assert (forall t', t' ∈ l1 ++ l2 -> tk_id t' <> tk_id t) as Hother.
  { intros t' Ht' Heq. apply NoDup_app in Ho as (_ & Hd1 & [Hn2 _]%NoDup_cons). apply elem_of_app in Ht' as [Ht'|Ht'].
    - apply (Hd1 (tk_id t)); [rewrite <- Heq; by apply list_elem_of_fmap_2|left].
    - apply Hn2. rewrite <- Heq. by apply list_elem_of_fmap_2. }
  split; cbn.
  - intros e. rewrite dget_ddel. case_decide as Heq.
    + split; [done|]. intros (t' & Ht' & Hid). exfalso. apply (Hother t' Ht'). congruence.
    + rewrite He, Hts. split; intros (t' & Ht' & Hid); exists t'; (split; [|done]).
      * apply elem_of_app in Ht' as [|[ ->|]%elem_of_cons]; [set_solver|done|set_solver].
      * set_solver.
  - rewrite map_app. apply NoDup_app in Ho as (H1 & H2 & [_ H3]%NoDup_cons). apply NoDup_app. split_and!; [done| |done]. set_solver.
  - intros e j Hj Hin. rewrite dget_ddel. case_decide; [subst; destruct (Hw _ _ Hj Hin); congruence|eauto].
  - intros e. rewrite dget_ddel. case_decide; [done|auto].
  - by apply NoDup_filter_keys.
  - intros d. rewrite (count_held _ _ _ (Hd (tk_directory t))). specialize (Hd d). rewrite Hts in Hd |- *. rewrite !in_directory_app in Hd |- *.
    change (t :: l2) with ([t] ++ l2) in Hd |- *. rewrite !in_directory_app, !in_directory_one in Hd |- *. rewrite decide_True by done.
    rewrite ?in_directory_app. destruct (decide (tk_directory t = d)) as [->|Hne].
    + destruct (Z.leb_spec (Z.of_nat (in_directory d l1 + (1 + in_directory d l2)) - 1) 0).
      * rewrite dget_ddel_eq. unfold held_by. destruct (Nat.eqb_spec (in_directory d l1 + in_directory d l2) 0); [done|lia].
      * rewrite dget_dset_eq. unfold held_by. destruct (Nat.eqb_spec (in_directory d l1 + in_directory d l2) 0); [lia|]. f_equal. lia.
    + rewrite Nat.add_0_l in Hd. rewrite <- Hd. case_match; [by apply dget_ddel_ne|by apply dget_dset_ne].
Qed.

Lemma id_in_tasks e ts : (exists t, t ∈ ts /\ tk_id t = e) <-> e ∈ map tk_id ts.
Proof. change (map tk_id ts) with (tk_id <$> ts). rewrite list_elem_of_fmap. naive_solver. Qed.
Lemma phase_exact n t ph s s' :
  claims_exact s -> tasks s !! n = Some t -> same_claims s s' -> claims_exact (set_tasks (<[n := in_phase ph t]> (tasks s)) s').
Proof.
  intros [He Ho Hw Hc Hk Hd] Hn (H1 & H2 & H3 & H4). destruct (list_elem_of_split_length _ _ _ Hn) as (l1 & l2 & Hts & ->).
  rewrite Hts in *. rewrite insert_app_r_alt, Nat.sub_diag by lia. cbn [list_insert insert].
  split; cbn; rewrite ?H1, ?H3, ?H4; try done.
  - intros e. rewrite He, !id_in_tasks, !map_app. done.
  - rewrite map_app in *. done.
  - intros d. rewrite Hd, !in_directory_app. change (t :: l2) with ([t] ++ l2). change (in_phase ph t :: l2) with ([in_phase ph t] ++ l2).
    by rewrite (in_directory_app d [t]), (in_directory_app d [in_phase ph t]), !in_directory_one.
Qed.
(** Before it lets go, a verification changes no claim. *)
Lemma step_task_exact n a now s : claims_exact s -> claims_exact (step_task st n a now s).
Proof.
  intros Hs. unfold step_task. destruct (tasks s !! n) as [t|] eqn:Hn; [|done].
  assert (forall s', same_claims s s' -> claims_exact (set_tasks (delete n (tasks s)) (let_go t s'))) as Hgo.
  { intros s' Hsame. pose proof Hsame as (_ & Ht & _). rewrite <- Ht. apply let_go_exact; [by eapply same_claims_exact|congruence]. }
  assert (forall ph s', same_claims s s' -> claims_exact (set_tasks (<[n := in_phase ph t]> (tasks s)) s')) as Hon.
  { intros ph s' Hsame. by apply phase_exact. }
  pose proof (modify_same (tk_addr t) (with_attempts (tk_attempt t)) s) as Hcounted.
  unfold verify_step, publishing_step, published_step. destruct (tk_phase t) as [|passed again|passed again], a; cbn; try destruct passed; try destruct again; cbn;
    first [apply Hgo | apply Hon]; solve [done | apply modify_same | apply defer_same | etrans; [apply Hcounted | apply defer_same]
      | etrans; [apply modify_same | done]].
Qed.

(** What a wave request claims: nothing the lane is on, each executor once. *)
Lemma claim_fold es s c s' c' :
  NoDup (c ++ es) -> fold_left claim_step es (s, c) = (s', c') ->
  exists d, c' = c ++ d /\ NoDup c' /\ tasks s' = tasks s /\ waves s' = waves s /\ directories_in_use s' = directories_in_use s
    /\ (NoDup (dkeys (in_flight s)) -> NoDup (dkeys (in_flight s')))
    /\ (forall e, dget e (in_flight s') = if decide (e ∈ d) then Some CYCLE_LANE else dget e (in_flight s))
    /\ Forall (fun e => dget e (in_flight s) <> Some EXPRESS_LANE) d.
Proof.
  revert s c. induction es as [|e es IH]; intros s c Hnd; cbn.
  - intros [= <- <-]. exists []. rewrite app_nil_r in *. split_and!; auto.
  - destruct (bool_decide (dget e (in_flight s) = Some EXPRESS_LANE) || din e (pending s)) eqn:Hskip.
    { apply IH. apply NoDup_app in Hnd as (? & Hd & [_ ?]%NoDup_cons). apply NoDup_app. split_and!; [done| |done]. set_solver. }
    apply orb_false_iff in Hskip as [Hex%bool_decide_eq_false _].
    assert (NoDup ((c ++ [e]) ++ es)) as Hnd' by (by rewrite <- app_assoc).
    assert (e ∉ es) as He by (apply NoDup_app in Hnd as (_ & _ & Hnd); by apply NoDup_cons in Hnd as [? _]).
    intros Hf. destruct (IH _ _ Hnd' Hf) as (d & -> & Hc' & Ht & Hw & Hdir & Hk & Hget & Hall). cbn in *.
    exists (e :: d). rewrite <- app_assoc in *. split_and!; auto.
    + intros Hkeys. by apply Hk, NoDup_dset.
    + intros x. rewrite Hget, dget_dset. destruct (decide (x ∈ d)), (decide (x = e)), (decide (x ∈ e :: d)); set_solver.
    + constructor; [done|]. rewrite Forall_forall in *. intros x Hx. specialize (Hall x Hx). rewrite dget_dset in Hall.
      apply NoDup_app in Hc' as (_ & _ & [Hne _]%NoDup_cons). rewrite decide_False in Hall; set_solver.
Qed.
Lemma first_entry_NoDup es : NoDup (first_entry_per_uuid es).
Proof.
  unfold first_entry_per_uuid. assert (NoDup (@nil string)) as H by constructor. revert H. generalize (@nil string).
  induction es as [|e es IH]; intros u Hu; cbn; [done|]. apply IH. unfold add_to. destruct (in_list e u) eqn:Hin; [done|].
  apply NoDup_app. split_and!; [done| |apply NoDup_singleton]. intros x Hx ->%list_elem_of_singleton.
  by apply bool_decide_eq_false in Hin.
Qed.

(** A wave request claims nothing the lane is on. *)
Lemma claim_exact miner batch es s s' c :
  claims_exact s -> claim_for_cycle miner batch es s = (s', c) -> claims_exact (set_waves (waves s' ++ [mkWave miner c]) s').
Proof.
  intros Hs Hclaim. assert (claims_exact (stop_awaiting_wave_list miner batch s)) as [He Ho Hw Hc Hk Hd].
  { eapply same_claims_exact; [|exact Hs]. unfold stop_awaiting_wave_list. by case_decide. }
  destruct (claim_fold (first_entry_per_uuid es) _ [] _ _ (first_entry_NoDup es) Hclaim) as (d & -> & Hnd & Ht & Hwv & Hdir & Hkeys & Hget & Hfree).
  cbn in *. rewrite Forall_forall in Hfree. split; cbn; rewrite ?Ht, ?Hwv, ?Hdir; auto.
  - intros e. rewrite Hget, <- He. case_decide as Hin; [|done]. split; [done|]. intros Hx. by destruct (Hfree e Hin).
  - intros e j Hj Hin. rewrite Hget. case_decide as Hd'; [by left|].
    apply elem_of_app in Hj as [Hj| ->%list_elem_of_singleton]; [by eapply Hw|done].
  - intros e. rewrite Hget. setoid_rewrite elem_of_app. setoid_rewrite list_elem_of_singleton. case_decide as Hin.
    + intros _. exists (mkWave miner d). auto.
    + intros (j & ? & ?)%Hc. eauto.
Qed.

Lemma release_fold es s :
  same_claims (set_in_flight (in_flight (release_cycle_claims es s)) s) (release_cycle_claims es s)
  /\ (NoDup (dkeys (in_flight s)) -> NoDup (dkeys (in_flight (release_cycle_claims es s))))
  /\ (forall e, dget e (in_flight (release_cycle_claims es s)) =
        if decide (e ∈ es /\ dget e (in_flight s) = Some CYCLE_LANE) then Some CYCLE_DONE else dget e (in_flight s)).
Proof.
  unfold release_cycle_claims. revert s. induction es as [|x es IH]; intros s; cbn.
  - split_and!; [done..|]. intros e. rewrite decide_False; [done|]. by intros [?%not_elem_of_nil _].
  - destruct (IH (release_step s x)) as (Hsame & Hk & Hget). unfold release_step in *. case_decide as Hx; cbn in *.
    + split_and!; [done| |]. { intros ?. by apply Hk, NoDup_dset. }
      intros e. rewrite Hget, dget_dset. clear Hget. destruct (decide (e = x)) as [->|Hne].
      * rewrite decide_False by (by intros [_ ?]). rewrite decide_True; [done|]. split; [left|done].
      * apply decide_ext. set_solver.
    + split_and!; [done..|]. intros e. rewrite Hget. clear Hget. apply decide_ext. set_solver.
Qed.

Lemma release_exact s n j :
  claims_exact s -> waves s !! n = Some j -> claims_exact (set_waves (delete n (waves s)) (release_cycle_claims (wj_claimed j) s)).
Proof.
  intros [He Ho Hw Hc Hk Hd] Hn. destruct (release_fold (wj_claimed j) s) as ((_ & Ht & _ & Hdir) & Hkeys & Hget).
  destruct (list_elem_of_split_length _ _ _ Hn) as (l1 & l2 & Hws & ->). cbn in *. rewrite Hws in *. rewrite delete_middle.
  split; cbn; rewrite ?Ht, ?Hdir; auto.
  - intros e. rewrite Hget, <- He. case_decide as Hin; [|done]. destruct Hin as [_ ->]. split; done.
  - intros e j' Hj' Hin. rewrite Hget. case_decide; [by right|]. apply (Hw e j'); [set_solver|done].
  - intros e. rewrite Hget. case_decide as Hin; [done|]. intros Hcy. destruct (Hc e Hcy) as (j' & Hj' & Hin'). exists j'. split; [|done].
    apply elem_of_app in Hj' as [|[ ->|]%elem_of_cons]; [set_solver| |set_solver]. destruct Hin. auto.
Qed.

(** At the end of a cycle no request runs, so no claim in use is forgotten. *)
Lemma forget_exact s : waves s = [] -> claims_exact s -> claims_exact (forget_cycle_done s).
Proof.
  intros Hnone [He Ho Hw Hc Hk Hd]. split; cbn; auto using NoDup_filter_keys.
  - intros e. rewrite dget_filter, <- He by done. cbn. naive_solver.
  - intros e j. rewrite Hnone. set_solver.
  - intros e. rewrite dget_filter by done. naive_solver.
Qed.

Lemma step_exact s b s' : step st my_hotkey s b s' -> claims_exact s -> claims_exact s'.
Proof.
  intros Hstep Hs. destruct Hstep.
  - by eapply same_claims_exact; [apply tick_select_same|].
  - by apply launch_exact.
  - by apply step_task_exact.
  - by eapply same_claims_exact; [|exact Hs].
  - eapply same_claims_exact; [|exact Hs]. unfold stop_awaiting_wave_list. by case_decide.
  - by eapply claim_exact.
  - by apply release_exact.
  - by apply forget_exact.
Qed.
Lemma initial_exact : claims_exact initial.
Proof. split; cbn; try (intros; split; [done|]); try constructor; intros; set_solver. Qed.
Lemma reachable_exact s : reachable st my_hotkey s -> claims_exact s.
Proof.
  intros Hs. cut (forall s0, claims_exact s0 -> rtc (any_step st my_hotkey) s0 s -> claims_exact s); [eauto using initial_exact|].
  clear Hs. induction 2 as [|? ? ? [b Hb]]; eauto using step_exact.
Qed.

(** ** The caps *)

(** Under exact claims the lane's claims count its verifications. *)
Lemma express_count s : claims_exact s -> length (express_in_flight s) = length (tasks s).
Proof.
  intros [He Ho _ _ Hk _]. rewrite <- (length_map tk_id (tasks s)). apply Permutation_length, NoDup_Permutation; [|done|].
  - unfold express_in_flight. by apply (NoDup_filter_keys _ (in_flight s)).
  - intros e. rewrite <- id_in_tasks, <- He. unfold express_in_flight. split.
    + intros Hin. apply list_elem_of_In, in_map_iff in Hin as ([k v] & <- & [Hin Hv]%filter_In). apply elem_of_dget; [done|].
      apply bool_decide_eq_true in Hv. cbn in *. subst. by apply list_elem_of_In.
    + intros Hget%dget_In. apply list_elem_of_In, in_map_iff. exists (e, EXPRESS_LANE). split; [done|]. apply filter_In.
      by rewrite <- list_elem_of_In.
Qed.
Lemma quiet_tasks s s' : quiet st my_hotkey s s' -> (length (tasks s') <= length (tasks s))%nat.
Proof.
  intros Hq. unfold quiet in Hq. inversion Hq; subst; cbn; try done.
  - by destruct (tick_select_same i started_at s) as (_ & -> & _).
  - unfold step_task. destruct (tasks s !! n) as [t|] eqn:Hn; [|done]. destruct (verify_step st t a now s) as [s' [ph|]]; cbn.
    + by rewrite length_insert.
    + rewrite length_delete by eauto. lia.
  - unfold stop_awaiting_wave_list. by case_decide.
  - unfold claim_for_cycle in *. destruct (claim_fold _ _ [] _ _ (first_entry_NoDup executors) H) as (d & _ & _ & -> & _).
    unfold stop_awaiting_wave_list. by case_decide.
  - by destruct (release_fold (wj_claimed j) s) as ((_ & -> & _) & _).
Qed.
Lemma launch_tasks miners directory files now chosen s :
  (length (tasks (launch st miners directory files now chosen s)) <= length (tasks s) + length chosen)%nat.
Proof.
  unfold launch. destruct files; cbn [negb]; [|lia].
  match goal with |- (length (tasks (fold_left ?f ?l ?s0)) <= _)%nat => destruct (fold_same f l s0) as (_ & -> & _); [done|] end.
  revert s. induction chosen as [|a l IH]; intros s; cbn; [lia|].
  etrans; [apply IH|]. enough (length (tasks (launch_step st miners directory now s a)) <= S (length (tasks s)))%nat by lia.
  unfold launch_step. destruct (heap s !! a) as [p|]; [|lia]. case_match; [lia|]. case_match; [lia|]. case_match.
  - destruct (defer_same a "miner is not among the serving opted-in miners" now (modify a (with_attempts (pn_attempts p + 1)) s)) as (_ & -> & _).
    destruct (modify_same a (with_attempts (pn_attempts p + 1)) s) as (_ & -> & _). lia.
  - cbn. rewrite length_app. cbn. destruct (pn_recheck_only p), (pn_requested p); cbn; lia.
Qed.
Lemma count_in_app x l l' : count_in x (l ++ l') = count_in x l + count_in x l'.
Proof. unfold count_in. rewrite List.filter_app, length_app. lia. Qed.
Lemma choose_within s room per_miner cs :
  Z.of_nat (length (choose st s room per_miner cs)) <= Z.max 0 room
  /\ forall m, count_in m (per_miner ++ map (miner_at s) (choose st s room per_miner cs))
               <= Z.max (EXPRESS_LANE_MAX_IN_FLIGHT_PER_MINER st) (count_in m per_miner).
Proof.
  revert room per_miner. induction cs as [|a cs IH]; intros room per_miner; cbn [choose].
  - cbn. split; [lia|]. intros m. rewrite app_nil_r. lia.
  - destruct (Z.leb_spec room 0). { cbn. split; [lia|]. intros m. rewrite app_nil_r. lia. }
    case_match eqn:Hcap; [apply IH|]. apply Z.leb_gt in Hcap. destruct (IH (room - 1) (per_miner ++ [miner_at s a])) as [H1 H2].
    split; [cbn; lia|]. intros m. specialize (H2 m). rewrite <- app_assoc in H2. cbn [map app] in *. etrans; [exact H2|].
    rewrite (count_in_app m per_miner [miner_at s a]). unfold count_in at 2. cbn [List.filter].
    destruct (String.eqb_spec m (miner_at s a)) as [->|]; cbn; lia.
Qed.
Lemma miner_at_modify b f s a : (forall p, pn_miner_hotkey (f p) = pn_miner_hotkey p) -> miner_at (modify b f s) a = miner_at s a.
Proof.
  intros Hf. unfold modify, miner_at. destruct (heap s !! b) as [p|] eqn:Hb; [|done]. cbn.
  destruct (decide (a = b)) as [->|Hne]; [|by rewrite list_lookup_insert_ne].
  rewrite list_lookup_insert_eq by (by eapply lookup_lt_Some). by rewrite Hb, Hf.
Qed.
Lemma marks_frame f l s :
  (forall p, pn_miner_hotkey (f p) = pn_miner_hotkey p) ->
  let s' := fold_left (fun s a => modify a f s) l s in
  (forall a, miner_at s' a = miner_at s a) /\ pending s' = pending s /\ in_flight s' = in_flight s
  /\ rechecks_in_flight s' = rechecks_in_flight s.
Proof.
  intros Hf. revert s. induction l as [|b l IH]; intros s; cbn; [done|]. destruct (IH (modify b f s)) as (H1 & -> & -> & ->).
  split; [intros a; by rewrite H1, miner_at_modify|]. unfold modify. by destruct (heap s !! b).
Qed.
(** What a tick chooses, counted where the launch will start from. *)
Lemma tick_select_within i started_at s s1 chosen :
  tick_select st my_hotkey i started_at s = (s1, chosen) ->
  Z.of_nat (length chosen) <= Z.max 0 (EXPRESS_LANE_MAX_IN_FLIGHT st - Z.of_nat (length (express_in_flight s1)))
  /\ forall m, count_in m (running_miners s1 ++ map (miner_at s1) chosen)
               <= Z.max (EXPRESS_LANE_MAX_IN_FLIGHT_PER_MINER st) (count_in m (running_miners s1)).
Proof.
  unfold tick_select, select.
  match goal with |- context [scan my_hotkey ?j s] => destruct (scan my_hotkey j s) as [[s0 present] cs] end.
  set (s0' := forget_absent present s0). set (cs' := psort _ cs). intros [= <- <-].
  match goal with |- context [fold_left ?f ?l s0'] => set (marked := fold_left f l s0') end.
  assert ((forall a, miner_at marked a = miner_at s0' a) /\ pending marked = pending s0' /\ in_flight marked = in_flight s0'
          /\ rechecks_in_flight marked = rechecks_in_flight s0') as (Hm & Hp & Hf & Hr).
  { apply marks_frame. done. }
  assert (express_in_flight marked = express_in_flight s0') as Hex by (unfold express_in_flight; by rewrite Hf).
  assert (running_miners marked = running_miners s0') as Hrun.
  { unfold running_miners. rewrite Hex, Hp, Hr. f_equal. apply flat_map_ext. intros e. destruct (dget e _); [by rewrite Hm|done]. }
  rewrite Hex, Hrun, (map_ext _ _ Hm). apply choose_within.
Qed.


(** A registration flood stays under the caps.  A tick that selects, waits while the
    verifications and the wave go on, then launches, leaves at most the configured number of
    verifications running (or as many as before it), and it chooses for no miner more than the
    miner's cap leaves beside what that miner has running. *)
Theorem tick_within_caps s i started_at s1 chosen s2 miners directory files now :
  reachable st my_hotkey s -> tick_select st my_hotkey i started_at s = (s1, chosen) -> rtc (quiet st my_hotkey) s1 s2 ->
  Z.of_nat (length (tasks (launch st miners directory files now chosen s2)))
    <= Z.max (EXPRESS_LANE_MAX_IN_FLIGHT st) (Z.of_nat (length (tasks s)))
  /\ forall m, count_in m (running_miners s1 ++ map (miner_at s1) chosen)
               <= Z.max (EXPRESS_LANE_MAX_IN_FLIGHT_PER_MINER st) (count_in m (running_miners s1)).
Proof.
  intros Hs%reachable_exact Hsel Hquiet. destruct (tick_select_within _ _ _ _ _ Hsel) as [Htotal Hminer].
  pose proof (tick_select_same i started_at s) as Hsame. rewrite Hsel in Hsame. cbn in Hsame.
  rewrite express_count in Htotal by (by eapply same_claims_exact). destruct Hsame as (_ & Ht & _). rewrite Ht in Htotal.
  assert (length (tasks s2) <= length (tasks s1))%nat as Hq.
  { clear -Hquiet. induction Hquiet as [|? ? ? H%quiet_tasks]; [done|lia]. }
  pose proof (launch_tasks miners directory files now chosen s2). rewrite Ht in Hq. split; [lia|done].
Qed.
End Claims.
