(* ===== verification/LaneWitnesses.v ===== *)
(** * A run of the express lane beside the wave

    A validator whose fleet has two executors of one miner: the wave holds the old one, the
    lane verifies the new one.  The states of [ExpressLane.v] on that run show that its
    theorems' hypotheses hold together. *)

From Stdlib Require Import String.
From stdpp Require Import strings relations.
From S2P Require Import Prelude Float64 IncentiveConfig ExpressLane.

Local Open Scope string_scope.
Local Open Scope list_scope.
Local Open Scope Z_scope.

Definition lane_settings : LaneSettings := mkLaneSettings 1 1 false 35 12 true 75.
Definition fleet : list (string * list PortalExecutor) :=
  [("miner", [mkPortal "old" "me" (Some 0); mkPortal "new1" "me" (Some 5000); mkPortal "new2" "me" (Some 4000)])].
Definition tick_inputs : TickInputs := mkTick fleet ["old"] [] 3000 100 6000.

(** The cycle starts, its wave gets the miner's list, and a tick of the lane selects. *)
Definition waiting : State := start_awaiting_wave_lists "batch" ["miner"] initial.
Definition wave_runs : State :=
  let '(s, claimed) := claim_for_cycle "miner" "batch" ["old"; "old"] waiting in set_waves (waves s ++ [mkWave "miner" claimed]) s.
Definition ticked : State := (tick_select lane_settings "me" tick_inputs 0 wave_runs).1.
Definition lane_runs : State :=
  launch lane_settings ["miner"] "/job" true 101 (tick_select lane_settings "me" tick_inputs 0 wave_runs).2 ticked.

Lemma wave_runs_reachable : reachable lane_settings "me" wave_runs.
Proof.
  eapply rtc_l; [exists false; apply (step_start_awaiting _ _ _ "batch" ["miner"])|].
  eapply rtc_l; [|apply rtc_refl]. exists false.
  apply (step_claim lane_settings "me" waiting "miner" "batch" ["old"; "old"] (claim_for_cycle "miner" "batch" ["old"; "old"] waiting).1 ["old"]).
  reflexivity.
Qed.
Lemma lane_runs_reachable : reachable lane_settings "me" lane_runs.
Proof.
  eapply rtc_r; [eapply rtc_r; [exact wave_runs_reachable|]|].
  - exists false. apply step_select.
  - exists true. apply step_launch.
Qed.


(** Two new executors, room for one. *)
Lemma tick_within_caps_witness :
  Z.of_nat (length (tasks lane_runs)) = 1 /\ Z.of_nat (length (tasks lane_runs)) <= 1.
Proof.
  split; [reflexivity|].
  apply (tick_within_caps lane_settings "me" wave_runs tick_inputs 0 ticked (tick_select lane_settings "me" tick_inputs 0 wave_runs).2 ticked
           ["miner"] "/job" true 101 wave_runs_reachable); [reflexivity|apply rtc_refl].
Defined.
