(* ===== verification/Effects.v ===== *)
(** * Programs with effects

    The asynchronous code of the validator talks to Redis, to the hosts over SSH and
    to the clock; every such call is one step at which another coroutine may run, and
    every one of them may fail.  [prog] is a program over a signature of calls: it
    returns, raises, or makes a call and goes on with the answer.  A handler gives the
    calls their meaning on a world; [perform] runs one program on it, [gather] several
    at once, at most [limit] started and not over, in the order of an explicit
    schedule.  [safe] is the proof rule that both runs share: a program that keeps to a
    protocol keeps its invariant, whatever runs beside it and whatever the answers. *)

From S2P Require Import Prelude.

Local Open Scope list_scope.

(** What becomes of a call to Redis: done, lost, or done with its answer lost. *)
Inductive fate := Done | Lost | DoneUnanswered.
Definition RedisDown : exc := OtherError "RedisError".

Section Programs.
Context {E : Type -> Type}.

Inductive prog (A : Type) : Type :=
| Ret (a : A)
| Exc (e : exc)
| Call {X : Type} (c : E X) (k : X -> prog A).

#[global] Arguments Ret {A} a.
#[global] Arguments Exc {A} e.
#[global] Arguments Call {A X} c k.

Definition call {X} (c : E X) : prog X := Call c Ret.

Fixpoint pbind {A B} (f : A -> prog B) (p : prog A) : prog B :=
  match p with
  | Ret a => f a
  | Exc e => Exc e
  | Call c k => Call c (fun x => pbind f (k x))
  end.

(** [try: p except e if catches(e): handler(e)] *)
Fixpoint try_except {A} (p : prog A) (handler : exc -> option (prog A)) : prog A :=
  match p with
  | Ret a => Ret a
  | Exc e => match handler e with Some q => q | None => Exc e end
  | Call c k => Call c (fun x => try_except (k x) handler)
  end.

Definition of_res {A} (r : res A) : prog A := match r with Ok a => Ret a | Raise e => Exc e end.

(** [for x in l: state = f(state, x)] *)
Fixpoint pfold {S A} (f : S -> A -> prog S) (s : S) (l : list A) : prog S :=
  match l with
  | [] => Ret s
  | x :: l' => pbind (fun s' => pfold f s' l') (f s x)
  end.
End Programs.
#[global] Arguments prog : clear implicits.

#[export] Instance prog_ret {E} : MRet (prog E) := fun A a => Ret a.
#[export] Instance prog_bind {E} : MBind (prog E) := fun A B f p => pbind f p.

Lemma pfold_cons {E S A} (f : S -> A -> prog E S) s x l : pfold f s (x :: l) = (s' ← f s x; pfold f s' l).
Proof. done. Qed.

Section Running.
Context {E : Type -> Type} {W : Type} (handle : forall X, E X -> W -> W * X).

(** State and exceptions: a raise keeps what was done before it. *)
Definition act (A : Type) : Type := W -> W * res A.
#[export] Instance act_ret : MRet act := fun A a w => (w, Ok a).
#[export] Instance act_bind : MBind act := fun A B f m w =>
  match m w with (w', Ok a) => f a w' | (w', Raise e) => (w', Raise e) end.
Definition raise {A} (e : exc) : act A := fun w => (w, Raise e).

Fixpoint perform {A} (p : prog E A) : act A := fun w =>
  match p with
  | Ret a => (w, Ok a)
  | Exc e => (w, Raise e)
  | Call c k => let '(w', x) := handle _ c w in perform (k x) w'
  end.

(** A coroutine of a [gather] under a semaphore: not started, started, or over. *)
Inductive thread (A : Type) :=
| Idle (p : prog E A)
| Live (p : prog E A)
| Over (o : res A).
#[global] Arguments Idle {A} p.
#[global] Arguments Live {A} p.
#[global] Arguments Over {A} o.

Definition is_live {A} (t : thread A) : bool := match t with Live _ => true | _ => false end.
Definition running {A} (ts : list (thread A)) : nat := length (List.filter is_live ts).

(** One turn of a thread: it takes a free slot, makes its next call, or ends. *)
Definition turn {A} (limit : nat) (ts : list (thread A)) (t : thread A) (w : W) : W * thread A :=
  match t with
  | Idle p => if (running ts <? limit)%nat then (w, Live p) else (w, t)
  | Live (Ret a) => (w, Over (Ok a))
  | Live (Exc e) => (w, Over (Raise e))
  | Live (Call c k) => let '(w', x) := handle _ c w in (w', Live (k x))
  | Over _ => (w, t)
  end.

Fixpoint interleave {A} (limit : nat) (schedule : list nat) (ts : list (thread A)) (w : W) : W * list (thread A) :=
  match schedule with
  | [] => (w, ts)
  | i :: rest =>
      match ts !! i with
      | Some t => let '(w', t') := turn limit ts t w in interleave limit rest (<[i := t']> ts) w'
      | None => interleave limit rest ts w
      end
  end.

(** The rest of the threads, one after the other: the started ones first. *)
Definition finish {A} (all : bool) (t : thread A) (w : W) : W * thread A :=
  match t with
  | Live p => let '(w', o) := perform p w in (w', Over o)
  | Idle p => if all then let '(w', o) := perform p w in (w', Over o) else (w, t)
  | Over _ => (w, t)
  end.
Fixpoint finish_all {A} (all : bool) (ts : list (thread A)) (w : W) : W * list (thread A) :=
  match ts with
  | [] => (w, [])
  | t :: ts' =>
      let '(w', t') := finish all t w in
      let '(w'', ts'') := finish_all all ts' w' in (w'', t' :: ts'')
  end.

Definition outcome_of {A} (t : thread A) : res A :=
  match t with Over o => o | _ => Raise AssertionError end.

(** [asyncio.gather] of the coroutines under [Semaphore(limit)]: what each coroutine came to.  Every
    finite interleaving is the one of some schedule. *)
Definition gather {A} (limit : nat) (schedule : list nat) (ps : list (prog E A)) (w : W) : W * list (res A) :=
  let '(w1, ts1) := interleave limit schedule (map Idle ps) w in
  let '(w2, ts2) := finish_all false ts1 w1 in
  let '(w3, ts3) := finish_all true ts2 w2 in
  (w3, map outcome_of ts3).
End Running.
#[global] Arguments act : clear implicits.

(** ** Bind and the run of a program *)
Section RunFacts.
Context {E : Type -> Type} {W : Type} (handle : forall X, E X -> W -> W * X).

Lemma perform_bind {A B} (f : A -> prog E B) (p : prog E A) w :
  perform handle (p ≫= f) w = (perform handle p ≫= fun a => perform handle (f a)) w.
Proof.
  unfold mbind, prog_bind, act_bind. revert w. induction p as [a|e|X c k IH]; intros w; cbn; [done|done|].
  destruct (handle X c w) as [w' x]. apply IH.
Qed.

Lemma perform_bind_ok {A B} (f : A -> prog E B) (p : prog E A) w w1 a :
  perform handle p w = (w1, Ok a) -> perform handle (p ≫= f) w = perform handle (f a) w1.
Proof. intros H. rewrite perform_bind. unfold mbind, act_bind. by rewrite H. Qed.
Lemma perform_try {A} (p : prog E A) (h : exc -> option (prog E A)) w :
  perform handle (try_except p h) w =
  match perform handle p w with
  | (w', Raise e) => match h e with Some q => perform handle q w' | None => (w', Raise e) end
  | done_ => done_
  end.
Proof.
  revert w. induction p as [a|e|X c k IH]; intros w; cbn; [done|by destruct (h e)|]. destruct (handle X c w) as [w' x]. apply IH.
Qed.

Lemma act_bind_ok {A B} (m : act W A) (f : A -> act W B) w w' b :
  (m ≫= f) w = (w', Ok b) -> exists w1 a, m w = (w1, Ok a) /\ f a w1 = (w', Ok b).
Proof. unfold mbind, act_bind. destruct (m w) as [w1 [a|e]]; [eauto|congruence]. Qed.

Lemma finish_over {A} all (t : thread A) w w' t' :
  finish handle all t w = (w', t') -> all = true -> exists o, t' = Over o.
Proof.
  intros H ->. destruct t as [p|p|o]; cbn in H; [destruct (perform _ _ _); simplify_eq; eauto..|simplify_eq; eauto].
Qed.
End RunFacts.

(** ** Triples of a program that runs alone

    [inv] holds before and after every call, so also where the program is cut off. *)
Section Triples.
Context {E : Type -> Type} {W : Type} (handle : forall X, E X -> W -> W * X) (inv : W -> Prop).

Fixpoint throughout {A} (p : prog E A) (w : W) : Prop :=
  inv w /\ match p with Call c k => let '(w', x) := handle _ c w in throughout (k x) w' | _ => True end.
Definition triple {A} (pre : W -> Prop) (p : prog E A) (post : res A -> W -> Prop) : Prop :=
  forall w, pre w -> throughout p w /\ forall w' o, perform handle p w = (w', o) -> post o w'.

Lemma triple_ret {A} (pre : W -> Prop) (a : A) (post : res A -> W -> Prop) :
  (forall w, pre w -> inv w /\ post (Ok a) w) -> triple pre (Ret a) post.
Proof. intros H w Hw. destruct (H w Hw). split; [done|]. intros w' o Hr. cbn in Hr. by simplify_eq. Qed.
Lemma throughout_bind {A B} (p : prog E A) (f : A -> prog E B) w :
  throughout p w -> (forall w' a, perform handle p w = (w', Ok a) -> throughout (f a) w') -> throughout (p ≫= f) w.
Proof.
  revert w. induction p as [a|e|X c k IH]; intros w Hp Hf; cbn in *; [by apply Hf|done|].
  destruct (handle X c w) as [w' x] eqn:Hc. destruct Hp as [Hi Hp]. split; [done|]. apply IH; [done|]. intros w1 a H1. by apply Hf.
Qed.
Lemma triple_bind {A B} pre mid (p : prog E A) (f : A -> prog E B) (post : res B -> W -> Prop) :
  triple pre p mid -> (forall a, triple (mid (Ok a)) (f a) post) -> (forall e w, mid (Raise e) w -> post (Raise e) w) ->
  triple pre (p ≫= f) post.
Proof.
  intros Hp Hf He w Hw. destruct (Hp w Hw) as [Ht Hm]. split.
  - apply throughout_bind; [done|]. intros w' a Hr. by apply Hf, Hm.
  - intros w' o Hr. rewrite perform_bind in Hr. unfold mbind, act_bind in Hr.
    destruct (perform handle p w) as [w1 [a|e]]; [|simplify_eq; by apply He, Hm]. by apply (Hf a w1 (Hm _ _ eq_refl)).
Qed.
Lemma triple_call {X B} (pre : W -> Prop) mid (c : E X) (f : X -> prog E B) (post : res B -> W -> Prop) :
  (forall w w' x, pre w -> handle X c w = (w', x) -> inv w /\ mid x w') -> (forall x, triple (mid x) (f x) post) ->
  triple pre (call c ≫= f) post.
Proof.
  intros Hc Hf w Hw. cbn. destruct (handle X c w) as [w1 x] eqn:H1. destruct (Hc _ _ _ Hw H1) as [Hi Hm].
  destruct (Hf x w1 Hm) as [Ht Hp]. by split.
Qed.
Lemma triple_weaken {A} (pre pre' : W -> Prop) (p : prog E A) (post post' : res A -> W -> Prop) :
  triple pre p post -> (forall w, pre' w -> pre w) -> (forall o w, post o w -> post' o w) -> triple pre' p post'.
Proof. intros H H1 H2 w Hw. destruct (H w (H1 w Hw)) as [? ?]. split; [done|]. eauto. Qed.

(** [asyncio.wait_for]: the program is cut off at its [n]-th call, whose answer is lost with it. *)
Fixpoint cut {A} (n : nat) (p : prog E A) {struct p} : prog E (option A) :=
  match p with
  | Ret a => Ret (Some a)
  | Exc e => Exc e
  | Call c k => match n with O => Call c (fun _ => Ret None) | S n' => Call c (fun x => cut n' (k x)) end
  end.
Lemma throughout_inv {A} (p : prog E A) w : throughout p w -> inv w.
Proof. by destruct p; intros [? _]. Qed.
Lemma cut_throughout {A} n (p : prog E A) w w' o :
  throughout p w -> perform handle (cut n p) w = (w', o) ->
  throughout (cut n p) w /\ inv w' /\ match o with Ok _ => True | Raise e => exists w1, perform handle p w = (w1, Raise e) end.
Proof.
  revert n w. induction p as [a|e|X c k IH]; intros n w Ht Hr; cbn in *.
  { injection Hr as <- <-. tauto. }
  { injection Hr as <- <-. split_and!; [tauto..|eauto]. }
  destruct Ht as [Hi Ht]. destruct n as [|n]; cbn in *; destruct (handle X c w) as [w1 x] eqn:Hc.
  - simplify_eq. apply throughout_inv in Ht. by split_and!.
  - destruct (IH x n w1 Ht Hr) as (? & ? & ?). by split_and!.
Qed.
Lemma triple_cut {A} n pre (p : prog E A) (post : res A -> W -> Prop) : triple pre p post -> triple pre (cut n p) (fun _ => inv).
Proof.
  intros Hp w Hw. destruct (Hp w Hw) as [Ht _]. destruct (perform handle (cut n p) w) as [w1 o1] eqn:Hc.
  destruct (cut_throughout _ _ _ _ _ Ht Hc) as (? & ? & _). split; [done|]. intros w' o [= <- <-]. done.
Qed.
Lemma triple_last {X} (pre : W -> Prop) (c : E X) (post : res X -> W -> Prop) :
  (forall w w' x, pre w -> handle X c w = (w', x) -> inv w /\ inv w' /\ post (Ok x) w') -> triple pre (call c) post.
Proof.
  intros H w Hw. cbn. destruct (handle X c w) as [w1 x] eqn:Hc. destruct (H _ _ _ Hw Hc) as (? & ? & ?). split; [done|]. by intros w' o [= <- <-].
Qed.
Lemma triple_try {A} pre mid (p : prog E A) (h : exc -> prog E A) (post : res A -> W -> Prop) :
  triple pre p mid -> (forall a w, mid (Ok a) w -> post (Ok a) w) -> (forall e, triple (mid (Raise e)) (h e) post) ->
  triple pre (try_except p (fun e => Some (h e))) post.
Proof.
  intros Hp Ha He w Hw. destruct (Hp w Hw) as [Ht Hm]. split; [|intros w' o; rewrite perform_try; destruct (perform handle p w) as [w1 [a|e]]].
  - clear Hw Hp. revert w Ht Hm. induction p as [a|e|X c k IH]; intros w Ht Hm; cbn in *; [done|by apply He, Hm|].
    destruct (handle X c w) as [w1 x]. destruct Ht. split; [done|]. by apply IH.
  - intros [= <- <-]. by apply Ha, Hm.
  - by apply (He e), Hm.
Qed.
Lemma triple_exc {A} (pre : W -> Prop) e (post : res A -> W -> Prop) :
  (forall w, pre w -> inv w /\ post (Raise e) w) -> triple pre (Exc e) post.
Proof. intros H w Hw. destruct (H w Hw). split; [done|]. intros w' o Hr. cbn in Hr. by simplify_eq. Qed.
End Triples.
Lemma triple_looser {E : Type -> Type} {W A} (handle : forall X, E X -> W -> W * X) (inv inv' : W -> Prop) pre (p : prog E A) post :
  (forall w, inv w -> inv' w) -> triple handle inv pre p post -> triple handle inv' pre p post.
Proof.
  intros Hi Hp w Hw. destruct (Hp w Hw) as [Ht Hr]. split; [|done]. clear Hr Hw Hp. revert w Ht.
  induction p as [a|e|X c k IH]; intros w Ht; cbn in *; [by destruct Ht; auto..|].
  destruct (handle X c w) as [w1 x]. destruct Ht. split; [by apply Hi|]. by apply IH.
Qed.

(** ** The calls a program may make *)
Section Calls.
Context {E : Type -> Type} (ok : forall X, E X -> Prop).

Fixpoint calls_only {A} (p : prog E A) : Prop :=
  match p with Call c k => ok _ c /\ forall x, calls_only (k x) | _ => True end.
Lemma calls_only_bind {A B} (f : A -> prog E B) p : calls_only p -> (forall a, calls_only (f a)) -> calls_only (p ≫= f).
Proof. intros Hp Hf. induction p as [a|e|X c k IH]; cbn in *; [apply Hf|done|]. destruct Hp as [Hc Hk]. split; [done|]. intros x. by apply IH. Qed.
Lemma calls_only_call {X B} (c : E X) (f : X -> prog E B) : ok X c -> (forall x, calls_only (f x)) -> calls_only (call c ≫= f).
Proof. by split. Qed.
Lemma calls_only_last {X} (c : E X) : ok X c -> calls_only (call c).
Proof. by split. Qed.
Lemma calls_only_try {A} (h : exc -> option (prog E A)) p :
  calls_only p -> (forall e q, h e = Some q -> calls_only q) -> calls_only (try_except p h).
Proof.
  intros Hp Hh. induction p as [a|e|X c k IH]; cbn in *; [done| |].
  - destruct (h e) eqn:He; [by eapply Hh|done].
  - destruct Hp as [Hc Hk]. split; [done|]. intros x. by apply IH.
Qed.
Lemma calls_only_cut {A} n (p : prog E A) : calls_only p -> calls_only (cut n p).
Proof.
  revert n. induction p as [a|e|X c k IH]; intros n; cbn; [done|done|]. intros [Hc Hk]. destruct n; cbn; (split; [done|]); [done|]. intros x. by apply IH.
Qed.
Lemma calls_only_of_res {A} (r : res A) : calls_only (of_res r).
Proof. by destruct r. Qed.

(** Programs that raise nothing, whatever the answers. *)
Fixpoint quiet {A} (p : prog E A) : Prop :=
  match p with Ret _ => True | Exc _ => False | Call c k => forall x, quiet (k x) end.
Lemma quiet_bind {A B} (f : A -> prog E B) p : quiet p -> (forall a, quiet (f a)) -> quiet (p ≫= f).
Proof. intros Hp Hf. induction p as [a|e|X c k IH]; cbn in *; [apply Hf|done|]. intros x. by apply IH. Qed.
Lemma quiet_call {X} (c : E X) : quiet (call c).
Proof. done. Qed.
Lemma quiet_cut {A} n (p : prog E A) : quiet p -> quiet (cut n p).
Proof. revert n. induction p as [a|e|X c k IH]; intros n; cbn; [done|done|]. intros Hk. destruct n; cbn; [done|]. intros x. by apply IH. Qed.
Lemma quiet_try {A} (p : prog E A) (q : exc -> prog E A) : (forall e, quiet (q e)) -> quiet (try_except p (fun e => Some (q e))).
Proof. intros Hq. induction p as [a|e|X c k IH]; cbn; [done|apply Hq|]. intros x. apply IH. Qed.

Context {W : Type} (handle : forall X, E X -> W -> W * X) (inv : W -> Prop).
Lemma quiet_returns {A} (p : prog E A) w : quiet p -> exists w' a, perform handle p w = (w', Ok a).
Proof. revert w. induction p as [a|e|X c k IH]; intros w Hp; cbn in *; [eauto|done|]. destruct (handle X c w) as [w1 x]. by apply IH. Qed.
(** A time limit that is long enough does not show. *)
Lemma cut_long_enough {A} (p : prog E A) w w' a :
  perform handle p w = (w', Ok a) -> exists n, forall m, (n <= m)%nat -> perform handle (cut m p) w = (w', Ok (Some a)).
Proof.
  revert w. induction p as [b|e|X c k IH]; intros w Hp; cbn in *.
  - exists 0%nat. intros. by simplify_eq.
  - done.
  - destruct (handle X c w) as [w1 x] eqn:Hc. destruct (IH x w1 Hp) as [n Hn]. exists (S n). intros [|m] Hm; [lia|]. cbn. rewrite Hc. apply Hn. lia.
Qed.
Lemma calls_only_keeps {A} (p : prog E A) :
  (forall X (c : E X) w w' x, ok X c -> inv w -> handle X c w = (w', x) -> inv w') -> calls_only p -> triple handle inv inv p (fun _ => inv).
Proof.
  intros Hok. induction p as [a|e|X c k IH]; intros Hp w Hw; cbn in *.
  1, 2: split; [done|]; intros w' o Hr; by injection Hr as <- <-.
  destruct (handle X c w) as [w1 x] eqn:Hc. destruct Hp as [Hc1 Hk]. destruct (IH x (Hk x) w1 (Hok _ _ _ _ _ Hc1 Hw Hc)). by split.
Qed.
End Calls.
Lemma triple_quiet_bind {E : Type -> Type} {W A B} (handle : forall X, E X -> W -> W * X) (inv : W -> Prop) pre mid (p : prog E A) (f : A -> prog E B) post :
  quiet p -> triple handle inv pre p (fun _ => mid) -> (forall a, triple handle inv mid (f a) post) -> triple handle inv pre (p ≫= f) post.
Proof.
  intros Hq Hp Hf. apply triple_bind with (mid := fun o w => (exists a, o = Ok a) /\ mid w).
  - intros w Hw. destruct (Hp w Hw) as [Ht Hm]. split; [done|]. intros w' o Hr. split; [|by eapply Hm].
    destruct (quiet_returns handle p w Hq) as (w1 & a & H1). rewrite H1 in Hr. simplify_eq. eauto.
  - intros a. eapply triple_weaken; [apply Hf| |done]. tauto.
  - by intros e w [[a ?] _].
Qed.
Lemma calls_only_weaken {E : Type -> Type} {A} (ok ok' : forall X, E X -> Prop) (p : prog E A) :
  (forall X (c : E X), ok X c -> ok' X c) -> calls_only ok p -> calls_only ok' p.
Proof. intros Hok. induction p as [a|e|X c k IH]; cbn; [done|done|]. intros [Hc Hk]. split; [by apply Hok|]. intros x. by apply IH. Qed.

(** ** The rule for programs that run beside others

    [K] is what a program knows of the world; [allowed] the calls it may make knowing
    that, [answers] what the calls may answer, [learns] what it knows then.  What one
    program knows stays true whatever the others do. *)
Record Protocol (E : Type -> Type) (W : Type) := mkProtocol {
  knows : Type;
  holds : knows -> W -> Prop;
  inv : W -> Prop;
  allowed : knows -> forall X, E X -> Prop;
  answers : knows -> forall X, E X -> X -> Prop;
  learns : knows -> forall X, E X -> X -> knows
}.
#[global] Arguments knows {E W} p.
#[global] Arguments holds {E W} p k w.
#[global] Arguments inv {E W} p w.
#[global] Arguments allowed {E W} p k {X} c.
#[global] Arguments answers {E W} p k {X} c x.
#[global] Arguments learns {E W} p k {X} c x.

Section Safe.
Context {E : Type -> Type} {W : Type} (handle : forall X, E X -> W -> W * X) (P : Protocol E W).

Class Sound : Prop := sound_call : forall k X (c : E X) w w' x,
  inv P w -> holds P k w -> allowed P k c -> handle X c w = (w', x) ->
  inv P w' /\ answers P k c x /\ holds P (learns P k c x) w' /\ forall k', holds P k' w -> holds P k' w'.

Fixpoint safe {A} (post : res A -> knows P -> Prop) (k : knows P) (p : prog E A) : Prop :=
  match p with
  | Ret a => post (Ok a) k
  | Exc e => post (Raise e) k
  | Call c f => allowed P k c /\ forall x, answers P k c x -> safe post (learns P k c x) (f x)
  end.

Lemma safe_weaken {A} (post post' : res A -> knows P -> Prop) k p :
  (forall o k', post o k' -> post' o k') -> safe post k p -> safe post' k p.
Proof.
  intros Hpp. revert k. induction p as [a|e|X c f IH]; intros k; cbn; [apply Hpp|apply Hpp|].
  intros [Ha Hf]. eauto.
Qed.

Lemma safe_bind {A B} (post : res B -> knows P -> Prop) (f : A -> prog E B) p k :
  safe (fun o k' => match o with Ok a => safe post k' (f a) | Raise e => post (Raise e) k' end) k p ->
  safe post k (p ≫= f).
Proof.
  revert k. induction p as [a|e|X c g IH]; intros k; cbn; [done|done|]. intros [Ha Hf]. split; [done|]. intros x Hx. by apply IH, Hf.
Qed.

Lemma safe_call {X B} (post : res B -> knows P -> Prop) (c : E X) (f : X -> prog E B) k :
  allowed P k c -> (forall x, answers P k c x -> safe post (learns P k c x) (f x)) -> safe post k (call c ≫= f).
Proof. by split. Qed.

Lemma safe_try {A} (post : res A -> knows P -> Prop) (h : exc -> option (prog E A)) p k :
  safe (fun o k' => match o with
                    | Ok a => post (Ok a) k'
                    | Raise e => match h e with Some q => safe post k' q | None => post (Raise e) k' end
                    end) k p ->
  safe post k (try_except p h).
Proof.
  revert k. induction p as [a|e|X c g IH]; intros k; cbn; [done| |].
  - by destruct (h e).
  - intros [Ha Hf]. split; [done|]. intros x Hx. by apply IH, Hf.
Qed.

Lemma safe_fold {S A} (J : S -> knows P -> Prop) (post : exc -> Prop) (f : S -> A -> prog E S) l s k :
  (forall s x k, x ∈ l -> J s k -> safe (fun o k' => match o with Ok s' => J s' k' | Raise e => post e end) k (f s x)) ->
  J s k -> safe (fun o k' => match o with Ok s' => J s' k' | Raise e => post e end) k (pfold f s l).
Proof.
  revert s k. induction l as [|x l IH]; intros s k Hf HJ; [done|]. cbn [pfold]. apply safe_bind.
  eapply safe_weaken; [|apply Hf; [left|done]]. intros [s'|e] k' H; [|done]. apply IH; [|done]. intros. apply Hf; [by right|done].
Qed.

Context {HS : Sound}.

Lemma perform_safe {A} post (p : prog E A) k w w' o :
  inv P w -> holds P k w -> safe post k p -> perform handle p w = (w', o) ->
  inv P w' /\ (exists k', post o k' /\ holds P k' w') /\ forall k', holds P k' w -> holds P k' w'.
Proof.
  revert k w. induction p as [a|e|X c f IH]; intros k w Hi Hk Hs Hp; cbn in *; [naive_solver..|].
  destruct (handle X c w) as [w1 x] eqn:Hc. destruct Hs as [Ha Hf].
  destruct (sound_call _ _ _ _ _ _ Hi Hk Ha Hc) as (Hi1 & Hx & Hk1 & Hmono).
  destruct (IH x _ w1 Hi1 Hk1 (Hf x Hx) Hp) as (? & ? & ?). naive_solver.
Qed.

Definition thread_safe {A} (post : res A -> knows P -> Prop) (w : W) (t : thread A) : Prop :=
  match t with
  | Idle p | Live p => exists k, holds P k w /\ safe post k p
  | Over o => exists k, holds P k w /\ post o k
  end.

Lemma thread_safe_mono {A} post w w' (t : thread A) :
  (forall k, holds P k w -> holds P k w') -> thread_safe post w t -> thread_safe post w' t.
Proof. destruct t; cbn; naive_solver. Qed.

Lemma turn_safe {A} post limit (ts : list (thread A)) t w w' t' :
  inv P w -> thread_safe post w t -> turn handle limit ts t w = (w', t') ->
  inv P w' /\ thread_safe post w' t' /\ forall k, holds P k w -> holds P k w'.
Proof.
  intros Hi Ht H. destruct t as [p|[a|e|X c f]|o]; cbn in H.
  - case_match; simplify_eq; done.
  - simplify_eq. done.
  - simplify_eq. done.
  - destruct (handle X c w) as [w1 x] eqn:Hc. simplify_eq. destruct Ht as (k & Hk & Ha & Hf).
    destruct (sound_call _ _ _ _ _ _ Hi Hk Ha Hc) as (Hi1 & Hx & Hk1 & Hmono). split_and!; [done| |done]. cbn. eauto.
  - simplify_eq. done.
Qed.

(** Each thread has its own postcondition. *)
Definition threads_safe {A} (posts : list (res A -> knows P -> Prop)) (w : W) (ts : list (thread A)) : Prop :=
  Forall2 (fun post t => thread_safe post w t) posts ts.

Lemma threads_safe_mono {A} (posts : list (res A -> knows P -> Prop)) w w' ts :
  (forall k, holds P k w -> holds P k w') -> threads_safe posts w ts -> threads_safe posts w' ts.
Proof. intros Hm Hts. eapply Forall2_impl; [exact Hts|]. intros post t. by apply thread_safe_mono. Qed.

Lemma interleave_safe {A} (posts : list (res A -> knows P -> Prop)) limit schedule (ts : list (thread A)) w w' ts' :
  inv P w -> threads_safe posts w ts -> interleave handle limit schedule ts w = (w', ts') ->
  inv P w' /\ threads_safe posts w' ts' /\ forall k, holds P k w -> holds P k w'.
Proof.
  revert ts w. induction schedule as [|i rest IH]; intros ts w Hi Hts H; cbn in H; [simplify_eq; done|].
  destruct (ts !! i) as [t|] eqn:Hlk; [|eauto]. destruct (turn handle limit ts t w) as [w1 t1] eqn:Ht.
  destruct (Forall2_lookup_r _ _ _ _ _ Hts Hlk) as (post & Hpost & Hti).
  destruct (turn_safe _ _ _ _ _ _ _ Hi Hti Ht) as (Hi1 & Ht1 & Hm1).
  destruct (IH (<[i := t1]> ts) w1 Hi1) as (? & ? & Hm2); [|done|].
  { rewrite <- (list_insert_id posts i post) by done. apply Forall2_insert; [by eapply threads_safe_mono|done]. }
  split_and!; eauto.
Qed.

Lemma finish_safe {A} post all (t : thread A) w w' t' :
  inv P w -> thread_safe post w t -> finish handle all t w = (w', t') ->
  inv P w' /\ thread_safe post w' t' /\ forall k, holds P k w -> holds P k w'.
Proof.
  intros Hi Ht H. destruct t as [p|p|o]; cbn in H; [destruct all| |].
  2,4: simplify_eq; done.
  all: destruct (perform handle p w) as [w1 o] eqn:Hp; simplify_eq; destruct Ht as (k & Hk & Hs);
    destruct (perform_safe _ _ _ _ _ _ Hi Hk Hs Hp) as (? & (k' & ? & ?) & ?); split_and!; cbn; eauto.
Qed.

Lemma finish_all_safe {A} (posts : list (res A -> knows P -> Prop)) all (ts : list (thread A)) w w' ts' :
  inv P w -> threads_safe posts w ts -> finish_all handle all ts w = (w', ts') ->
  inv P w' /\ threads_safe posts w' ts' /\ (forall k, holds P k w -> holds P k w') /\
  (all = true -> Forall (fun t => exists o, t = Over o) ts').
Proof.
  intros Hi Hts. revert w w' ts' Hi Hts. induction ts as [|t ts IH] in posts |- *; intros w w' ts' Hi Hts H; cbn in H; [simplify_eq; by split_and!|].
  destruct (finish handle all t w) as [w1 t1] eqn:Hf. destruct (finish_all handle all ts w1) as [w2 ts2] eqn:Hr. simplify_eq.
  apply Forall2_cons_inv_r in Hts as (post & posts' & Ht & Hts & ->). destruct (finish_safe _ _ _ _ _ _ Hi Ht Hf) as (Hi1 & Ht1 & Hm1).
  destruct (IH posts' w1 w' ts2 Hi1) as (? & ? & Hm2 & Ho); [by eapply threads_safe_mono|done|].
  split_and!; [done| |eauto|].
  - constructor; [by eapply thread_safe_mono|done].
  - intros Hall. apply Forall_cons_2; [by eapply finish_over|by apply Ho].
Qed.

(** Programs that keep to the protocol keep the invariant when they run at once. *)
Lemma gather_safe {A} (posts : list (res A -> knows P -> Prop)) limit schedule (ps : list (prog E A)) w w' os :
  inv P w -> Forall2 (fun post p => exists k, holds P k w /\ safe post k p) posts ps ->
  gather handle limit schedule ps w = (w', os) ->
  inv P w' /\ Forall2 (fun post o => exists k, holds P k w' /\ post o k) posts os /\ forall k, holds P k w -> holds P k w'.
Proof.
  intros Hi Hps H. unfold gather in H.
  destruct (interleave _ _ _ _ w) as [w1 ts1] eqn:E1. destruct (finish_all _ false ts1 w1) as [w2 ts2] eqn:E2.
  destruct (finish_all _ true ts2 w2) as [w3 ts3] eqn:E3. simplify_eq.
  assert (threads_safe posts w (map Idle ps)) as H0.
  { unfold threads_safe. apply Forall2_fmap_r. exact Hps. }
  destruct (interleave_safe _ _ _ _ _ _ _ Hi H0 E1) as (Hi1 & H1 & M1).
  destruct (finish_all_safe _ _ _ _ _ _ Hi1 H1 E2) as (Hi2 & H2 & M2 & _).
  destruct (finish_all_safe _ _ _ _ _ _ Hi2 H2 E3) as (Hi3 & H3 & M3 & O3). specialize (O3 eq_refl).
  split_and!; [done| |eauto]. apply Forall2_fmap_r. clear -H3 O3. unfold threads_safe in H3.
  induction H3 as [|post t posts ts Ht _ IH]; [done|]. apply Forall_cons in O3 as [[o ->] O3]. constructor; [exact Ht|by apply IH].
Qed.
End Safe.
#[global] Arguments safe : simpl never.
