(* ===== verification/IsoTime.v ===== *)
(** * Times as text

    [datetime.isoformat] and [datetime.fromisoformat] on the times the validator writes: aware,
    in UTC.  Python's parser takes more spellings of a time; the ones no code of the validator
    writes are outside the model (they read as [ValueError]). *)

From Stdlib Require Import Ascii String.
From S2P Require Import Prelude PyValue.
Import Text.

Local Open Scope list_scope.
Local Open Scope Z_scope.

Record datetime := mkTime {
  dt_year : Z; dt_month : Z; dt_day : Z; dt_hour : Z; dt_minute : Z; dt_second : Z; dt_microsecond : Z
}.

Definition is_leap (y : Z) : bool := (y mod 4 =? 0) && (negb (y mod 100 =? 0) || (y mod 400 =? 0)).
Definition days_in_month (y m : Z) : Z :=
  if m =? 2 then (if is_leap y then 29 else 28)
  else if (m =? 4) || (m =? 6) || (m =? 9) || (m =? 11) then 30 else 31.
Definition within (lo hi x : Z) : bool := (lo <=? x) && (x <=? hi).
(** The times a [datetime] can hold. *)
Definition valid_time (t : datetime) : bool :=
  within 1 9999 (dt_year t) && within 1 12 (dt_month t) && within 1 (days_in_month (dt_year t) (dt_month t)) (dt_day t)
  && within 0 23 (dt_hour t) && within 0 59 (dt_minute t) && within 0 59 (dt_second t) && within 0 999999 (dt_microsecond t).

(** Microseconds since 1970, [t.timestamp() * 10 ** 6]; comparing times of one zone is comparing these. *)
Definition days_before_month (y m : Z) : Z :=
  foldl (fun acc k => if k <? m then acc + days_in_month y k else acc) 0 [1; 2; 3; 4; 5; 6; 7; 8; 9; 10; 11].
Definition days_since_epoch (t : datetime) : Z :=
  let y := dt_year t - 1 in 365 * y + y / 4 - y / 100 + y / 400 + days_before_month (dt_year t) (dt_month t) + dt_day t - 719163.
Definition instant (t : datetime) : Z :=
  (((days_since_epoch t * 24 + dt_hour t) * 60 + dt_minute t) * 60 + dt_second t) * 1000000 + dt_microsecond t.
Example instant_ex : instant (mkTime 1970 1 1 0 0 0 0) = 0 /\ instant (mkTime 2024 3 1 12 30 0 5) = 1709296200000005.
Proof. by vm_compute. Qed.

Definition digit (n : Z) : ascii := ascii_of_nat (Z.to_nat (48 + n)).
(** Two digits. *)
Definition two (n : Z) : list ascii := [digit (n / 10); digit (n mod 10)].
Definition read_two (l : list ascii) : option (Z * list ascii) :=
  match l with
  | a :: b :: rest => x ← digit_val a; y ← digit_val b; if (x <? 10) && (y <? 10) then Some (10 * x + y, rest) else None
  | _ => None
  end.
Definition expect (c : ascii) (l : list ascii) : option (list ascii) :=
  match l with a :: rest => if Ascii.eqb a c then Some rest else None | [] => None end.

Definition isoformat_chars (t : datetime) : list ascii :=
  two (dt_year t / 100) ++ two (dt_year t mod 100) ++ ["-"%char] ++ two (dt_month t) ++ ["-"%char] ++ two (dt_day t)
  ++ ["T"%char] ++ two (dt_hour t) ++ [":"%char] ++ two (dt_minute t) ++ [":"%char] ++ two (dt_second t)
  ++ (if dt_microsecond t =? 0 then []
      else ["."%char] ++ two (dt_microsecond t / 10000) ++ two (dt_microsecond t / 100 mod 100) ++ two (dt_microsecond t mod 100))
  ++ ["+"%char] ++ two 0 ++ [":"%char] ++ two 0.
(** [t.isoformat()] *)
Definition isoformat (t : datetime) : string := of_chars (isoformat_chars t).

Definition read_fraction (l : list ascii) : option (Z * list ascii) :=
  match expect "." l with
  | None => Some (0, l)
  | Some l => '(a, l) ← read_two l; '(b, l) ← read_two l; '(c, l) ← read_two l; Some (10000 * a + 100 * b + c, l)
  end.
Definition read_offset (l : list ascii) : option unit :=
  l ← expect "+" l; '(h, l) ← read_two l; l ← expect ":" l; '(m, l) ← read_two l;
  if (h =? 0) && (m =? 0) then match l with [] => Some tt | _ => None end else None.
Definition read_time (l : list ascii) : option datetime :=
  '(c, l) ← read_two l; '(y, l) ← read_two l; l ← expect "-" l; '(mo, l) ← read_two l; l ← expect "-" l; '(d, l) ← read_two l;
  l ← expect "T" l; '(h, l) ← read_two l; l ← expect ":" l; '(mi, l) ← read_two l; l ← expect ":" l; '(s, l) ← read_two l;
  '(us, l) ← read_fraction l; _ ← read_offset l;
  let t := mkTime (100 * c + y) mo d h mi s us in if valid_time t then Some t else None.
(** [datetime.fromisoformat(s)] *)
Definition fromisoformat (s : string) : res datetime :=
  match read_time (chars s) with Some t => Ok t | None => Raise ValueError end.

(** ** Reading back what was written *)

Lemma two_digits n : 0 <= n < 100 -> digit_val (digit (n / 10)) = Some (n / 10) /\ digit_val (digit (n mod 10)) = Some (n mod 10).
Proof.
  intros Hn. assert (forall k, 0 <= k < 10 -> digit_val (digit k) = Some k) as H.
  { intros k Hk. assert (k = 0 \/ k = 1 \/ k = 2 \/ k = 3 \/ k = 4 \/ k = 5 \/ k = 6 \/ k = 7 \/ k = 8 \/ k = 9) as Hc by lia.
    repeat destruct Hc as [ ->|Hc]; try subst k; reflexivity. }
  split; apply H; [split; [apply Z.div_pos; lia|apply Z.div_lt_upper_bound; lia]|apply Z.mod_pos_bound; lia].
Qed.
Lemma read_two_two n rest : 0 <= n < 100 -> read_two (two n ++ rest) = Some (n, rest).
Proof.
  intros Hn. unfold read_two, two. cbn [app]. destruct (two_digits n Hn) as [-> ->]. cbn.
  assert (n / 10 < 10) by (apply Z.div_lt_upper_bound; lia). pose proof (Z.mod_pos_bound n 10).
  rewrite (proj2 (Z.ltb_lt _ _)), (proj2 (Z.ltb_lt _ _)) by lia. cbn. do 2 f_equal. pose proof (Z_div_mod_eq_full n 10). lia.
Qed.
Lemma expect_here c rest : expect c ([c] ++ rest) = Some rest.
Proof. cbn. by rewrite Ascii.eqb_refl. Qed.

Lemma within_spec lo hi x : within lo hi x = true <-> lo <= x <= hi.
Proof. unfold within. lia. Qed.

(** A time survives being written and read. *)
Lemma isoformat_round_trip t : valid_time t = true -> fromisoformat (isoformat t) = Ok t.
Proof.
  intros Hv. unfold fromisoformat, isoformat, chars, of_chars. rewrite list_ascii_of_string_of_list_ascii.
  enough (read_time (isoformat_chars t) = Some t) as -> by done. pose proof Hv as Hr. unfold valid_time in Hr.
  rewrite !andb_true_iff, !within_spec in Hr. destruct Hr as [[[[[[Hy Hmo] Hd] Hh] Hmi] Hs] Hus].
  assert (dt_day t <= 31) as Hd31 by (unfold days_in_month in Hd; repeat case_match; lia).
  destruct t as [y mo d h mi s us]; cbn [dt_year dt_month dt_day dt_hour dt_minute dt_second dt_microsecond] in *.
  unfold isoformat_chars, read_time. cbn [dt_year dt_month dt_day dt_hour dt_minute dt_second dt_microsecond].
  assert (0 <= y / 100 < 100) by (split; [apply Z.div_pos|apply Z.div_lt_upper_bound]; lia).
  assert (0 <= y mod 100 < 100) by (apply Z.mod_pos_bound; lia).
  repeat first [rewrite read_two_two by lia; cbn [mbind option_bind] | rewrite expect_here; cbn [mbind option_bind]].
  assert (read_fraction ((if us =? 0 then [] else ["."%char] ++ two (us / 10000) ++ two (us / 100 mod 100) ++ two (us mod 100))
            ++ ["+"%char] ++ two 0 ++ [":"%char] ++ two 0) = Some (us, ["+"%char] ++ two 0 ++ [":"%char] ++ two 0)) as ->.
  { destruct (Z.eqb_spec us 0) as [ ->|Hne]; [reflexivity|]. unfold read_fraction. rewrite <- app_assoc, expect_here.
    assert (0 <= us / 10000 < 100) by (split; [apply Z.div_pos|apply Z.div_lt_upper_bound]; lia).
    assert (0 <= us / 100 mod 100 < 100 /\ 0 <= us mod 100 < 100) as [? ?] by (split; apply Z.mod_pos_bound; lia).
    rewrite <- !app_assoc. repeat (rewrite read_two_two by lia; cbn [mbind option_bind]). do 2 f_equal.
    pose proof (Z_div_mod_eq_full us 100). pose proof (Z_div_mod_eq_full (us / 100) 100).
    rewrite Z.div_div in * by lia. change (100 * 100) with 10000 in *. lia. }
  cbn [mbind option_bind]. replace (read_offset _) with (Some tt) by reflexivity. cbn [mbind option_bind].
  assert (100 * (y / 100) + y mod 100 = y) as -> by (pose proof (Z_div_mod_eq_full y 100); lia). by rewrite Hv.
Qed.
