(* ===== verification/RolloutTracker.v ===== *)
(** * The grace window of an executor rollout

    [services/executor_rollout.py], the tracker: it remembers in Redis the digest of the executor
    image and the cycle in which it last changed, and tells each cycle whether its verdicts on
    failing nodes are withheld.  [core/validator.py] asks it at the start of a cycle and again at
    its end.  Redis is one key; each call may be lost, or done with its answer lost.  Its value is
    what its text loads to ([None] for text that does not load).  Log lines are left out. *)

From Stdlib Require Import Ascii String.
From S2P Require Import Prelude Float64 PyValue Effects IsoTime.
Import Text.

Local Open Scope string_scope.
Local Open Scope list_scope.
Local Open Scope Z_scope.

(** ** Image digests *)

Definition is_hex (c : ascii) : bool := is_digit c || ((97 <=? code c) && (code c <=? 102)).
(** [^sha256:[0-9a-f]{64}$] *)
Definition is_sha256_digest (s : string) : bool :=
  match chars s with
  | a :: b :: c :: d :: e :: f :: g :: rest =>
      String.eqb (of_chars [a; b; c; d; e; f; g]) "sha256:" && (length rest =? 64)%nat && forallb is_hex rest
  | _ => false
  end.
Definition normalize_sha256_digest (v : json) : option string :=
  match v with
  | JStr s => let digest := lower (strip s) in if is_sha256_digest digest then Some digest else None
  | _ => None
  end.

(** ** The remembered state *)

(** Digests are kept as the JSON they were read as: [JNull] for [None]. *)
Record RolloutState := mkRollout {
  rs_digest : json;
  rs_previous_digest : json;
  rs_started_at : option datetime;
  rs_opened_job_block : option Z;
  rs_last_job_block : option Z;
  rs_cycles_seen : Z;
  rs_withheld : Z;
  rs_closed : bool
}.
Definition no_rollout : RolloutState := mkRollout JNull JNull None None None 0 0 false.

Definition optional_int (v : json) : res (option Z) :=
  match v with JNull => Ok None | _ => z ← int_of_json v; Ok (Some z) end.
Definition optional_time (v : json) : res (option datetime) :=
  if negb (truthy v) then Ok None
  else match v with JStr s => t ← fromisoformat s; Ok (Some t) | _ => Raise TypeError end.

(** [RolloutState.from_json]; [None] is text that [json.loads] refuses. *)
Definition from_json (raw : option json) : res RolloutState :=
  match raw with
  | None => Raise ValueError
  | Some (JObj fields) =>
      let get k := dget_or JNull k fields in
      started_at ← optional_time (get "started_at");
      opened_job_block ← optional_int (get "opened_job_block");
      last_job_block ← optional_int (get "last_job_block");
      cycles_seen ← int_of_json (dget_or (JInt 0) "cycles_seen" fields);
      withheld ← int_of_json (dget_or (JInt 0) "withheld" fields);
      Ok (mkRollout (get "digest") (get "previous_digest") started_at opened_job_block last_job_block cycles_seen withheld
            (truthy (dget_or (JBool false) "closed" fields)))
  | Some _ => Raise ValueError
  end.
Definition json_of_int (o : option Z) : json := match o with Some z => JInt z | None => JNull end.
(** [RolloutState.to_json], before [json.dumps]. *)
Definition to_json (s : RolloutState) : json :=
  JObj [("digest", rs_digest s); ("previous_digest", rs_previous_digest s);
        ("started_at", match rs_started_at s with Some t => JStr (isoformat t) | None => JNull end);
        ("opened_job_block", json_of_int (rs_opened_job_block s)); ("last_job_block", json_of_int (rs_last_job_block s));
        ("cycles_seen", JInt (rs_cycles_seen s)); ("withheld", JInt (rs_withheld s)); ("closed", JBool (rs_closed s))].

Record RolloutWindow := mkWindow {
  rw_digest : json;
  rw_previous_digest : json;
  rw_started_at : option datetime;
  rw_opened_job_block : option Z;
  rw_cycles_seen : Z;
  rw_grace_cycles : Z
}.
(** [RolloutWindow.covers] *)
Definition covers (w : RolloutWindow) (job_block : Z) : bool :=
  if rw_grace_cycles w <=? 0 then false
  else match rw_opened_job_block w with
       | None => false
       | Some b => (b <=? job_block) && (0 <? rw_cycles_seen w) && (rw_cycles_seen w <=? rw_grace_cycles w)
       end.

Definition MAX_ROLLOUT_GRACE_CYCLES : Z := 2.
(** [ExecutorRolloutTracker.__init__] *)
Definition grace_cycles_of (configured : Z) : Z := pyminZ configured MAX_ROLLOUT_GRACE_CYCLES.

(** ** The tracker *)

Inductive redis_call : Type -> Type :=
| GetState : redis_call (res (option (option json)))
| SetState (v : json) : redis_call (res unit).
Notation P := (prog redis_call).

Section Tracker.
Context (grace_cycles : Z).

Definition window_of (s : RolloutState) : RolloutWindow :=
  mkWindow (rs_digest s) (rs_previous_digest s) (rs_started_at s) (rs_opened_job_block s) (rs_cycles_seen s) grace_cycles.

(** [_load], [_save] *)
Definition load_state : P RolloutState :=
  answer ← call GetState; raw ← of_res answer;
  match raw with
  | None => Ret no_rollout
  | Some v =>
      match from_json v with
      | Ok s => Ret s
      | Raise ValueError | Raise TypeError => Ret no_rollout
      | Raise e => Exc e
      end
  end.
Definition save_state (s : RolloutState) : P unit := answer ← call (SetState (to_json s)); of_res answer.

(** [_count_this_cycle] *)
Definition count_this_cycle (s : RolloutState) (job_block : Z) : P RolloutState :=
  if bool_decide (rs_opened_job_block s = None) || bool_decide (rs_last_job_block s = Some job_block) then Ret s
  else
    let counted := mkRollout (rs_digest s) (rs_previous_digest s) (rs_started_at s) (rs_opened_job_block s) (Some job_block)
                     (rs_cycles_seen s + 1) (rs_withheld s) (rs_closed s) in
    _ ← save_state counted; Ret counted.
(** [_a_new_window_may_open] *)
Definition a_new_window_may_open (s : RolloutState) : bool :=
  bool_decide (rs_opened_job_block s = None) || (grace_cycles + 2 <=? rs_cycles_seen s).
Definition seeded (digest : string) : RolloutState := mkRollout (JStr digest) JNull None None None 0 0 false.
Definition opened (s : RolloutState) (digest : string) (job_block : Z) (now : datetime) : RolloutState :=
  mkRollout (JStr digest) (rs_digest s) (Some now) (Some job_block) (Some job_block) 1 0 false.
Definition chained (s : RolloutState) (digest : string) : RolloutState :=
  mkRollout (JStr digest) (rs_digest s) (rs_started_at s) (rs_opened_job_block s) (rs_last_job_block s) (rs_cycles_seen s)
    (rs_withheld s) (rs_closed s).
(** [_react_to_the_changed_digest] *)
Definition react_to_the_changed_digest (s : RolloutState) (digest : string) (job_block : Z) (now : datetime) : P RolloutWindow :=
  let next :=
    if bool_decide (rs_digest s = JNull) then seeded digest
    else if a_new_window_may_open s then opened s digest job_block now
    else chained s digest in
  _ ← save_state next; Ret (window_of next).
Definition with_closed (s : RolloutState) : RolloutState :=
  mkRollout (rs_digest s) (rs_previous_digest s) (rs_started_at s) (rs_opened_job_block s) (rs_last_job_block s) (rs_cycles_seen s)
    (rs_withheld s) true.
(** [_close_the_window_when_it_is_over] *)
Definition close_the_window_when_it_is_over (s : RolloutState) (job_block : Z) : P RolloutWindow :=
  let window := window_of s in
  if (grace_cycles <=? 0) || bool_decide (rs_opened_job_block s = None) || rs_closed s || covers window job_block
  then Ret window
  else _ ← save_state (with_closed s); Ret window.
(** [observe]; [now] is the clock. *)
Definition observe (digest : json) (job_block : Z) (now : datetime) : P RolloutWindow :=
  loaded ← load_state; s ← count_this_cycle loaded job_block;
  match normalize_sha256_digest digest with
  | Some d => if json_eqb (JStr d) (rs_digest s) then close_the_window_when_it_is_over s job_block
              else react_to_the_changed_digest s d job_block now
  | None => close_the_window_when_it_is_over s job_block
  end.
Definition with_withheld (n : Z) (s : RolloutState) : RolloutState :=
  mkRollout (rs_digest s) (rs_previous_digest s) (rs_started_at s) (rs_opened_job_block s) (rs_last_job_block s) (rs_cycles_seen s)
    n (rs_closed s).
(** [record_withheld] *)
Definition record_withheld (count : Z) : P unit :=
  if count <=? 0 then Ret tt else s ← load_state; save_state (with_withheld (rs_withheld s + count) s).

(** ** A cycle ([core/validator.py]) *)

Definition any_exception {A} (p : P A) (e : exc) : option (P A) := Some p.
(** [observe_executor_rollout] *)
Definition no_window (digest : json) : RolloutWindow := mkWindow digest JNull None None 0 0.
Definition observe_executor_rollout (digest : json) (job_block : Z) (now : datetime) (fallback : option RolloutWindow)
    : P RolloutWindow :=
  try_except (observe digest job_block now) (any_exception (Ret (default (no_window digest) fallback))).
(** [record_withheld_verdicts] *)
Definition record_withheld_verdicts (window : RolloutWindow) (withheld job_block : Z) : P unit :=
  if covers window job_block then try_except (record_withheld withheld) (any_exception (Ret tt)) else Ret tt.

(** What a cycle meets: its job block, the digests and the clock at its start and end, and how many
    verdicts it withholds under a window. *)
Record Cycle := mkCycle {
  cy_job_block : Z;
  cy_digest_at_start : json;
  cy_started : datetime;
  cy_digest_at_end : json;
  cy_ended : datetime;
  cy_withheld : RolloutWindow -> Z
}.
(** The window a cycle's verdicts are judged by ([sync], [withhold_verdicts_for_rollout]). *)
Definition rollout_cycle (c : Cycle) : P RolloutWindow :=
  at_start ← observe_executor_rollout (cy_digest_at_start c) (cy_job_block c) (cy_started c) None;
  window ← observe_executor_rollout (cy_digest_at_end c) (cy_job_block c) (cy_ended c) (Some at_start);
  _ ← record_withheld_verdicts window (cy_withheld c window) (cy_job_block c);
  Ret window.
End Tracker.

(** ** Redis *)
Section Store.
Context (fate_of : nat -> fate).

Record Store := mkStore { stored : option (option json); calls : nat }.
Definition answered {A} (f : fate) (a : A) : res A := match f with Done => Ok a | _ => Raise RedisDown end.
Definition handle_redis (X : Type) (c : redis_call X) : Store -> Store * X :=
  match c in redis_call X return Store -> Store * X with
  | GetState => fun w => (mkStore (stored w) (S (calls w)), answered (fate_of (calls w)) (stored w))
  | SetState v => fun w =>
      (mkStore match fate_of (calls w) with Lost => stored w | _ => Some (Some v) end (S (calls w)),
       answered (fate_of (calls w)) tt)
  end.

(** The cycles of a validator, one after the other: whether each was covered. *)
Fixpoint run_cycles (grace_cycles : Z) (cs : list Cycle) (w : Store) : Store * list bool :=
  match cs with
  | [] => (w, [])
  | c :: rest =>
      let '(w, o) := perform handle_redis (rollout_cycle grace_cycles c) w in
      let covered := match o with Ok window => covers window (cy_job_block c) | Raise _ => false end in
      let '(w, bs) := run_cycles grace_cycles rest w in (w, covered :: bs)
  end.
End Store.

(** ** What is remembered *)

(** What the tracker writes: times a [datetime] can hold, and a window only on a known digest. *)
Definition well_formed (s : RolloutState) : Prop :=
  (forall t, rs_started_at s = Some t -> valid_time t = true)
  /\ (rs_opened_job_block s <> None -> rs_digest s <> JNull).

Lemma from_to_json s : (forall t, rs_started_at s = Some t -> valid_time t = true) -> from_json (Some (to_json s)) = Ok s.
Proof.
  intros Ht. destruct s as [d pd [t|] ob lb cs wh cl]; [|by destruct ob, lb].
  specialize (Ht t eq_refl). apply isoformat_round_trip in Ht. unfold to_json. cbn [rs_started_at].
  assert (exists c x, isoformat t = String c x) as (c & x & Hx) by (eexists _, _; reflexivity).
  rewrite Hx in *. destruct ob, lb; cbv -[fromisoformat]; rewrite Ht; reflexivity.
Qed.

Section Facts.
Context (fate_of : nat -> fate) (grace : Z).
Implicit Types (s : RolloutState) (w : Store).
Notation run p w := (perform (handle_redis fate_of) p w).

(** Redis holds [s]. *)
Definition remembers w s : Prop :=
  well_formed s /\ (stored w = None /\ s = no_rollout \/ stored w = Some (Some (to_json s))).

(** Same window and count. *)
Definition same_clock s s' : Prop :=
  rs_opened_job_block s' = rs_opened_job_block s /\ rs_last_job_block s' = rs_last_job_block s /\ rs_cycles_seen s' = rs_cycles_seen s.

(** What the cycle of block [b] may leave of [s]: nothing counted, or this cycle counted as one
    more, or as the first of a window that may open. *)
Definition counted_once b s s' : Prop :=
  same_clock s s'
  \/ (rs_opened_job_block s = None /\ rs_opened_job_block s' = None)
  \/ (rs_opened_job_block s' <> None /\ rs_last_job_block s' = Some b
      /\ (rs_opened_job_block s <> None /\ rs_cycles_seen s' = rs_cycles_seen s + 1
          \/ rs_cycles_seen s' = 1 /\ (rs_opened_job_block s = None \/ grace + 2 <= rs_cycles_seen s + 1))).
Definition settled b s : Prop := rs_opened_job_block s = None \/ rs_last_job_block s = Some b.

Lemma load_spec w s w' o :
  remembers w s -> run load_state w = (w', o) -> stored w' = stored w /\ (o = Ok s \/ o = Raise RedisDown).
Proof.
  intros [Hwf Hst]. unfold load_state. cbn. intros H. destruct (fate_of (calls w)); cbn in H; simplify_eq; cbn; auto.
  destruct Hst as [[Hn Hs]|Hst]; [rewrite Hn in H; cbn in H; simplify_eq; auto|]. rewrite Hst in H. cbn -[from_json to_json] in H.
  rewrite from_to_json in H by apply Hwf. cbn in H. simplify_eq. auto.
Qed.
Lemma save_spec w s s1 w' o :
  remembers w s -> well_formed s1 -> run (save_state s1) w = (w', o) ->
  (o = Ok tt /\ remembers w' s1) \/ (o = Raise RedisDown /\ (remembers w' s \/ remembers w' s1)).
Proof.
  intros Hs Hwf. unfold save_state. cbn -[to_json]. intros H. unfold remembers in *.
  destruct (fate_of (calls w)); cbn -[to_json] in H; simplify_eq; cbn -[to_json]; intuition.
Qed.
Lemma remembers_stored w w' s : stored w' = stored w -> remembers w s -> remembers w' s.
Proof. unfold remembers. by intros ->. Qed.

Lemma redis_bind {A B} (p : prog redis_call A) (f : A -> prog redis_call B) w w' o :
  run (p ≫= f) w = (w', o) ->
  (exists w1 a, run p w = (w1, Ok a) /\ run (f a) w1 = (w', o)) \/ (exists e, run p w = (w', Raise e) /\ o = Raise e).
Proof.
  rewrite perform_bind. unfold mbind, act_bind. destruct (run p w) as [w1 [a|e]]; [left; eauto|intros; simplify_eq; right; eauto].
Qed.

(** A save that comes back raising leaves the old state or the new one. *)
Lemma save_then {A} w s s1 (a : A) w' o :
  remembers w s -> well_formed s1 -> run (_ ← save_state s1; Ret a) w = (w', o) ->
  (o = Ok a /\ remembers w' s1) \/ (o = Raise RedisDown /\ (remembers w' s \/ remembers w' s1)).
Proof.
  intros Hs Hwf [(w1 & [] & H1 & H2)|(e & H1 & ->)]%redis_bind; destruct (save_spec _ _ _ _ _ Hs Hwf H1) as [[? ?]|[? ?]]; simplify_eq.
  - cbn in H2. simplify_eq. auto.
  - auto.
Qed.

Ltac clock := unfold counted_once, settled, same_clock in *; cbn in *; intuition (try congruence; try lia).

Lemma count_spec b w s0 s w' o :
  remembers w s -> counted_once b s0 s -> (rs_last_job_block s0 <> Some b \/ rs_opened_job_block s0 = None) ->
  run (count_this_cycle s b) w = (w', o) ->
  exists s', remembers w' s' /\ counted_once b s0 s' /\ (settled b s -> s' = s)
    /\ match o with Ok s1 => s1 = s' /\ settled b s1 | Raise _ => True end.
Proof.
  intros Hs Hc Hb. unfold count_this_cycle.
  destruct (bool_decide_reflect (rs_opened_job_block s = None)); cbn [orb]; [intros H; cbn in H; simplify_eq; exists s; clock|].
  destruct (bool_decide_reflect (rs_last_job_block s = Some b)); [intros H; cbn in H; simplify_eq; exists s; clock|].
  set (s1 := mkRollout _ _ _ _ _ _ _ _). intros H.
  assert (well_formed s1) as Hwf by (destruct Hs as [[? ?] _]; split; cbn; auto).
  assert (counted_once b s0 s1) as Hc1 by (unfold s1; clock).
  destruct (save_then _ _ _ _ _ _ Hs Hwf H) as [[ -> Hs1]|[ -> [Hs1|Hs1]]].
  - exists s1. split_and!; [done|done| |done|right; done]. intros [?|?]; done.
  - exists s. split_and!; done.
  - exists s1. split_and!; [done|done| |done]. intros [?|?]; done.
Qed.

(** A window is judged by the state it was made from. *)
Definition window_for (window : RolloutWindow) b s : Prop :=
  rw_opened_job_block window = rs_opened_job_block s /\ rw_cycles_seen window = rs_cycles_seen s
  /\ rw_grace_cycles window = grace /\ settled b s.

Lemma react_spec b d now w s0 s w' o :
  valid_time now = true -> remembers w s -> counted_once b s0 s -> settled b s ->
  (rs_opened_job_block s0 <> None -> rs_last_job_block s0 <> Some b) ->
  run (react_to_the_changed_digest grace s d b now) w = (w', o) ->
  exists s', remembers w' s' /\ counted_once b s0 s'
    /\ (rs_opened_job_block s <> None -> rs_cycles_seen s < grace + 2 -> same_clock s s')
    /\ match o with Ok window => window_for window b s' | Raise _ => True end.
Proof.
  intros Hnow Hs Hc Hset Hb H. unfold react_to_the_changed_digest in H.
  match type of H with context [save_state ?x] => set (next := x) in * end.
  assert (well_formed next /\ counted_once b s0 next /\ settled b next
          /\ (rs_opened_job_block s <> None -> rs_cycles_seen s < grace + 2 -> same_clock s next)) as (Hwf & Hc1 & Hset1 & Hsame).
  { destruct Hs as [[Ht Hd] _]. unfold next. destruct (bool_decide_reflect (rs_digest s = JNull)) as [Hnull|Hnull].
    { destruct (rs_opened_job_block s) eqn:Hop; [by destruct Hd|]. split_and!; [split; cbn; done|clock..]. }
    unfold a_new_window_may_open. destruct (bool_decide_reflect (rs_opened_job_block s = None)) as [Hop|Hop]; cbn [orb].
    { split_and!; [split; cbn; congruence|clock..]. }
    destruct (Z.leb_spec (grace + 2) (rs_cycles_seen s)); (split_and!; [split; cbn; try congruence; auto|clock..]). }
  assert (window_for (window_of grace next) b next) as Hw by (split_and!; done).
  destruct (save_then _ _ _ _ _ _ Hs Hwf H) as [[ -> Hs1]|[ -> [Hs1|Hs1]]].
  - by exists next.
  - exists s. split_and!; done.
  - exists next. by split_and!.
Qed.
Lemma close_spec b w s0 s w' o :
  remembers w s -> counted_once b s0 s -> settled b s -> run (close_the_window_when_it_is_over grace s b) w = (w', o) ->
  exists s', remembers w' s' /\ counted_once b s0 s' /\ same_clock s s'
    /\ match o with Ok window => window_for window b s' | Raise _ => True end.
Proof.
  intros Hs Hc Hset. unfold close_the_window_when_it_is_over. case_match; [intros Hr; cbn in Hr; simplify_eq; exists s; by split_and!|].
  intros Hr. assert (well_formed (with_closed s)) as Hwf by (destruct Hs as [[? ?] _]; by split).
  destruct (save_then _ _ _ _ _ _ Hs Hwf Hr) as [[ -> Hs1]|[ -> [Hs1|Hs1]]].
  - exists (with_closed s). split_and!; done.
  - exists s. split_and!; done.
  - exists (with_closed s). split_and!; done.
Qed.

(** An observation of block [b] counts its cycle at most once. *)
Lemma observe_spec b digest now w s0 s w' o :
  valid_time now = true -> remembers w s -> counted_once b s0 s ->
  (rs_opened_job_block s0 <> None -> rs_last_job_block s0 <> Some b) ->
  run (observe grace digest b now) w = (w', o) ->
  exists s', remembers w' s' /\ counted_once b s0 s'
    /\ (rs_opened_job_block s <> None -> rs_last_job_block s = Some b -> rs_cycles_seen s < grace + 2 -> same_clock s s')
    /\ match o with Ok window => window_for window b s' | Raise _ => True end.
Proof.
  intros Hnow Hs Hc Hb H. unfold observe in H. apply redis_bind in H as [(w1 & s1 & Hl & H)|(e & Hl & ->)]; cycle 1.
  { destruct (load_spec _ _ _ _ Hs Hl) as [Hst _]. exists s. split_and!; eauto using remembers_stored. done. }
  destruct (load_spec _ _ _ _ Hs Hl) as [Hst [?|?]]; simplify_eq. pose proof (remembers_stored _ _ _ Hst Hs) as Hs1.
  assert (rs_last_job_block s0 <> Some b \/ rs_opened_job_block s0 = None) as Hb' by (destruct (rs_opened_job_block s0); auto).
  apply redis_bind in H as [(w2 & s2 & Hcount & H)|(e & Hcount & ->)];
    destruct (count_spec _ _ _ _ _ _ Hs1 Hc Hb' Hcount) as (s' & Hs' & Hc' & Hsame & Ho); cycle 1.
  { exists s'. split_and!; [done|done| |done]. intros Hop Hlast _. rewrite Hsame; [done|by right]. }
  destruct Ho as [<- Hset]. assert (rs_opened_job_block s <> None -> rs_last_job_block s = Some b -> s2 = s) as Heq by (intros; apply Hsame; by right).
  destruct (normalize_sha256_digest digest) as [d|]; [case_match|].
  1, 3: destruct (close_spec _ _ _ _ _ _ Hs' Hc' Hset H) as (s3 & ? & ? & ? & ?); exists s3; split_and!; try done;
    intros Hop Hlast _; by rewrite <- (Heq Hop Hlast).
  destruct (react_spec _ _ _ _ _ _ _ _ Hnow Hs' Hc' Hset Hb H) as (s3 & ? & ? & Hk & ?). exists s3. split_and!; try done.
  intros Hop Hlast Hlt. rewrite (Heq Hop Hlast) in *. auto.
Qed.
Lemma observe_or_spec b digest now fallback w s0 s w' o :
  valid_time now = true -> remembers w s -> counted_once b s0 s ->
  (rs_opened_job_block s0 <> None -> rs_last_job_block s0 <> Some b) ->
  run (observe_executor_rollout grace digest b now fallback) w = (w', o) ->
  exists s' window, o = Ok window /\ remembers w' s' /\ counted_once b s0 s'
    /\ (rs_opened_job_block s <> None -> rs_last_job_block s = Some b -> rs_cycles_seen s < grace + 2 -> same_clock s s')
    /\ (window_for window b s' \/ window = default (no_window digest) fallback).
Proof.
  intros Hnow Hs Hc Hb H. unfold observe_executor_rollout in H. rewrite perform_try in H.
  destruct (run (observe grace digest b now) w) as [w1 o1] eqn:Ho.
  destruct (observe_spec _ _ _ _ _ _ _ _ Hnow Hs Hc Hb Ho) as (s' & ? & ? & ? & ?).
  destruct o1 as [window|e]; cbn in H; simplify_eq; eauto 10.
Qed.

Lemma record_withheld_spec window n b w s w' o :
  remembers w s -> run (record_withheld_verdicts window n b) w = (w', o) -> o = Ok tt /\ exists s', remembers w' s' /\ same_clock s s'.
Proof.
  intros Hs H. unfold record_withheld_verdicts in H. case_match; [|cbn in H; simplify_eq; split; [done|by exists s]].
  rewrite perform_try in H. unfold record_withheld in H. destruct (n <=? 0); [cbn in H; simplify_eq; split; [done|by exists s]|].
  destruct (run _ w) as [w1 o1] eqn:Hr. enough (exists s', remembers w1 s' /\ same_clock s s') by (destruct o1 as [[]|e]; cbn in H; simplify_eq; done).
  clear H. apply redis_bind in Hr as [(w2 & s1 & Hl & Hsave)|(e & Hl & ->)]; destruct (load_spec _ _ _ _ Hs Hl) as [Hst Ho]; cycle 1.
  { exists s. split; [by eapply remembers_stored|done]. }
  destruct Ho as [?|?]; simplify_eq. pose proof (remembers_stored _ _ _ Hst Hs) as Hs1.
  assert (well_formed (with_withheld (rs_withheld s + n) s)) as Hwf by (destruct Hs as [[? ?] _]; by split).
  destruct (save_spec _ _ _ _ _ Hs1 Hwf Hsave) as [[_ ?]|[_ [?|?]]]; by eexists.
Qed.

(** A covered cycle is counted, within the grace. *)
Lemma cycle_spec c w s w' o :
  valid_time (cy_started c) = true -> valid_time (cy_ended c) = true -> remembers w s ->
  (rs_opened_job_block s <> None -> rs_last_job_block s <> Some (cy_job_block c)) ->
  run (rollout_cycle grace c) w = (w', o) ->
  exists s' window, o = Ok window /\ remembers w' s' /\ counted_once (cy_job_block c) s s'
    /\ (covers window (cy_job_block c) = true ->
          rs_opened_job_block s' <> None /\ rs_last_job_block s' = Some (cy_job_block c) /\ 0 < rs_cycles_seen s' <= grace).
Proof.
  intros Ht1 Ht2 Hs Hb H. unfold rollout_cycle in H. set (b := cy_job_block c) in *.
  assert (counted_once b s s) as Hc0 by (left; done).
  apply redis_bind in H as [(w1 & win1 & H1 & H)|(e & H1 & ->)];
    destruct (observe_or_spec _ _ _ _ _ _ _ _ _ Ht1 Hs Hc0 Hb H1) as (s1 & win1' & Hw1 & Hs1 & Hc1 & _ & Hwin1); simplify_eq.
  apply redis_bind in H as [(w2 & win2 & H2 & H)|(e & H2 & ->)];
    destruct (observe_or_spec _ _ _ _ _ _ _ _ _ Ht2 Hs1 Hc1 Hb H2) as (s2 & win2' & Hw2 & Hs2 & Hc2 & Hsame & Hwin2); simplify_eq.
  apply redis_bind in H as [(w3 & [] & H3 & H)|(e & H3 & ->)];
    destruct (record_withheld_spec _ _ _ _ _ _ _ Hs2 H3) as (Ho & s3 & Hs3 & Hk3); simplify_eq.
  cbn in H. simplify_eq. exists s3, win2'. split_and!; [done|done| |].
  { clear -Hc2 Hk3. clock. }
  intros Hcov. assert (window_for win2' b s2) as (Hop & Hcy & Hgr & Hset).
  { destruct Hwin2 as [Hwin2|Hwin2]; [done|]. cbn in Hwin2. subst win2'. destruct Hwin1 as [(Hop & Hcy & Hgr & Hset)|Hwin1].
    - assert (same_clock s1 s2) as (E1 & E2 & E3).
      { unfold covers in Hcov. destruct (rw_grace_cycles win1' <=? 0); [done|]. rewrite Hop in Hcov.
        destruct (rs_opened_job_block s1) as [ob|] eqn:Eo; [|done]. destruct Hset as [?|Hset]; [congruence|]. apply Hsame; [done|done|lia]. }
      split_and!; [congruence..|]. unfold settled in *. by rewrite E1, E2.
    - exfalso. subst win1'. by cbn in Hcov. }
  unfold covers in Hcov. destruct (rw_grace_cycles win2' <=? 0); [done|]. rewrite Hop in Hcov.
  destruct (rs_opened_job_block s2) as [ob|] eqn:Eo; [|done]. destruct Hk3 as (E1 & E2 & E3). rewrite E1, E2, E3, Eo.
  destruct Hset as [?|Hset]; [congruence|]. split_and!; [done|done|lia|lia].
Qed.

(** Job blocks of a validator's cycles: each after the one before, and after the last one counted. *)
Fixpoint in_order (last : option Z) (cs : list Cycle) : Prop :=
  match cs with
  | [] => True
  | c :: rest => (forall b, last = Some b -> b < cy_job_block c) /\ in_order (Some (cy_job_block c)) rest
  end.
Definition clocks_valid (c : Cycle) : Prop := valid_time (cy_started c) = true /\ valid_time (cy_ended c) = true.

(** The last block counted is not after [last]. *)
Definition not_after (last : option Z) s : Prop :=
  rs_opened_job_block s <> None -> forall x, rs_last_job_block s = Some x -> exists y, last = Some y /\ x <= y.
Lemma not_after_step b last s s' :
  not_after last s -> (forall x, last = Some x -> x < b) -> counted_once b s s' -> not_after (Some b) s'.
Proof.
  intros Hs Hl [(E1 & E2 & E3)|[[? ?]|(? & E & _)]] Hop x Hx; exists b; (split; [done|]); [|done|congruence || (rewrite E in Hx; simplify_eq; lia)].
  rewrite E1 in Hop. rewrite E2 in Hx. destruct (Hs Hop x Hx) as (y & Hy & ?). specialize (Hl y Hy). lia.
Qed.

(** After [k] covered cycles in a row the count has reached [k]. *)
Definition streak (k : Z) s : Prop := k = 0 \/ rs_opened_job_block s <> None /\ k <= rs_cycles_seen s <= grace.
Lemma streak_step b k s s' :
  streak k s -> counted_once b s s' -> (rs_opened_job_block s <> None -> rs_last_job_block s <> Some b) ->
  rs_opened_job_block s' <> None -> rs_last_job_block s' = Some b -> 0 < rs_cycles_seen s' <= grace -> streak (k + 1) s'.
Proof. unfold streak. intros. clock. Qed.

Lemma run_streaks cs w s last k w' bs :
  remembers w s -> streak k s -> 0 <= k -> not_after last s -> in_order last cs -> Forall clocks_valid cs ->
  run_cycles fate_of grace cs w = (w', bs) ->
  forall l1 n l2, bs = l1 ++ replicate n true ++ l2 ->
  (l1 = [] -> k + Z.of_nat n <= Z.max 0 grace) /\ Z.of_nat n <= Z.max 0 grace.
Proof.
  revert w s last k bs. induction cs as [|c cs IH]; intros w s last k bs Hs Hk Hk0 Hlast Hord Hclk Hrun l1 n l2 Hbs.
  { cbn in Hrun. simplify_eq. destruct l1, n; try done. unfold streak in Hk. cbn. lia. }
  cbn [run_cycles] in Hrun. destruct (run (rollout_cycle grace c) w) as [w1 o] eqn:Hc.
  destruct (run_cycles fate_of grace cs w1) as [w2 bs'] eqn:Hr. destruct Hord as [Hb Hord]. apply Forall_cons in Hclk as [[Ht1 Ht2] Hclk].
  assert (rs_opened_job_block s <> None -> rs_last_job_block s <> Some (cy_job_block c)) as Hfresh.
  { intros Hop Hx. destruct (Hlast Hop _ Hx) as (y & Hy & ?). specialize (Hb y Hy). lia. }
  destruct (cycle_spec _ _ _ _ _ Ht1 Ht2 Hs Hfresh Hc) as (s1 & window & -> & Hs1 & Hcount & Hcov).
  set (covered := covers window (cy_job_block c)) in *. injection Hrun as -> <-.
  assert (exists k', 0 <= k' /\ streak k' s1 /\ (covered = true -> k' = k + 1)) as (k' & Hk'0 & Hk' & Hcov').
  { destruct covered; [|exists 0; by split_and!; [|left|]]. destruct (Hcov eq_refl) as (H1 & H2 & H3).
    exists (k + 1). split_and!; [lia| |done]. by eapply streak_step. }
  specialize (IH _ _ _ _ _ Hs1 Hk' Hk'0 (not_after_step _ _ _ _ Hlast Hb Hcount) Hord Hclk Hr).
  destruct l1 as [|x l1]; [destruct n as [|n]|]; cbn in Hbs.
  - unfold streak in Hk. lia.
  - injection Hbs as Hc1 Hbs. destruct (IH [] n l2 Hbs) as [H1 H2]. specialize (H1 eq_refl). rewrite (Hcov' Hc1) in H1. lia.
  - injection Hbs as _ Hbs. destruct (IH l1 n l2 Hbs). split; [done|lia].
Qed.

(** C16. Grace windows never chain.  Whatever digests the registry shows at the starts and ends of the
    cycles and whichever calls Redis loses, a validator whose job blocks grow never withholds
    verdicts in more cycles in a row than the grace allows, which is at most two. *)
Theorem grace_windows_never_chain configured cs w s last w' bs l1 n l2 :
  grace = grace_cycles_of configured -> remembers w s -> not_after last s -> in_order last cs -> Forall clocks_valid cs ->
  run_cycles fate_of grace cs w = (w', bs) -> bs = l1 ++ replicate n true ++ l2 ->
  Z.of_nat n <= Z.max 0 configured /\ (n <= 2)%nat.
Proof.
  intros Hg Hs Hl Ho Hc Hr Hbs. destruct (run_streaks _ _ _ _ 0 _ _ Hs (or_introl eq_refl) ltac:(lia) Hl Ho Hc Hr _ _ _ Hbs) as [_ H].
  rewrite Hg in H. unfold grace_cycles_of, MAX_ROLLOUT_GRACE_CYCLES in H. rewrite pyminZ_min in H. lia.
Qed.
End Facts.

(** The remembered state of a rollout survives being written to Redis and read back. *)
Theorem rollout_state_round_trip s : well_formed s -> from_json (Some (to_json s)) = Ok s.
Proof. intros [Ht _]. by apply from_to_json. Qed.
