(* ===== verification/RentedData.v ===== *)
(** * What the backend says of the rentals

    [protocol/vc_protocol/compute_requests.py]: the reply with the rented executors that every
    cycle starts from, and the questions the validator asks it.  Only the fields those questions
    read are modelled; the lenient parsing of the reply is left out. *)

From Stdlib Require Import Ascii String.
From S2P Require Import Prelude Float64 PyValue JobResult IncentiveConfig.

Local Open Scope string_scope.
Local Open Scope list_scope.
Local Open Scope Z_scope.

Record RentedPod := mkPod { rp_pod_id : string; rp_container_name : string; rp_created_at : option Z; rp_gpu_count : option Z }.
Record RentedExecutor := mkRented {
  re_miner_hotkey : string; re_executor_ip_address : string; re_executor_ip_port : string; re_pods : list RentedPod
}.
Record FillerRevenueByGpuConfig := mkFillerRevenue {
  fr_base_model : string; fr_gpu_count : Z; fr_usd_per_gpu_hour : num; fr_gpu_hours : num
}.
Record RentedExecutorsResponse := mkRentals {
  rd_executors : list (string * RentedExecutor);
  rd_filler_containers_by_executor : list (string * string);
  rd_all_filler_containers_by_executor : list (string * list string);
  rd_banned_hotkeys : list string;
  rd_banned_coldkeys : list string;
  rd_banned_provider_guids : list string;
  rd_banned_executor_ids : list string;
  rd_spot_executor_ids : list string;
  rd_provider_spot_executor_ids : list string;
  rd_new_rentals_paused_executor_ids : list string;
  rd_provider_discord_connected_executor_ids : option (list string);
  rd_provider_email_held_executor_ids : list string;
  rd_maintenance_executor_ids : list string;
  rd_default_job_owner_by_executor : list (string * string);
  rd_filler_revenue_by_gpu_config : list FillerRevenueByGpuConfig;
  rd_retained_container_names : list string
}.

Definition FILLER_REVENUE_WINDOW_HOURS : Q := 24.
Definition executor_key (executor_id : string) : string := Text.lower (Text.strip executor_id).

Section Queries.
Context `{R : Rounding} (d : RentedExecutorsResponse).

Definition positive_finite (x : num) : option Q :=
  match x with Fin q => if Qltb 0 q then Some q else None | _ => None end.
Definition same_model (base_model : string) (e : FillerRevenueByGpuConfig) : bool := String.eqb (fr_base_model e) base_model.
(** [get_filler_revenue_per_gpu_hour]: the first entry of the configuration decides. *)
Fixpoint first_filler_revenue (base_model : string) (gpu_count : Z) (min_gpu_hours : Q) (l : list FillerRevenueByGpuConfig) : option Q :=
  match l with
  | [] => None
  | e :: rest =>
      if negb (same_model base_model e) || negb (fr_gpu_count e =? gpu_count)
      then first_filler_revenue base_model gpu_count min_gpu_hours rest
      else if negb (num_le (Fin min_gpu_hours) (fr_gpu_hours e)) then None
      else positive_finite (fr_usd_per_gpu_hour e)
  end.
Definition get_filler_revenue_per_gpu_hour (base_model : option string) (gpu_count : Z) (min_gpu_hours : Q) : option Q :=
  match base_model with
  | None => None
  | Some m => if String.eqb m "" then None else first_filler_revenue m gpu_count min_gpu_hours (rd_filler_revenue_by_gpu_config d)
  end.
(** [get_filler_revenue_usd_per_hour] *)
Definition filler_total (base_model : string) (min_gpu_hours : Q) (e : FillerRevenueByGpuConfig) : option Q :=
  if same_model base_model e && num_le (Fin min_gpu_hours) (fr_gpu_hours e)
  then match positive_finite (fr_usd_per_gpu_hour e), fr_gpu_hours e with
       | Some usd, Fin hours => Some (fdiv (fmul usd hours) FILLER_REVENUE_WINDOW_HOURS)
       | _, _ => None
       end
  else None.
Definition get_filler_revenue_usd_per_hour (base_model : option string) (min_gpu_hours : Q) : option Q :=
  match base_model with
  | None => None
  | Some m =>
      if String.eqb m "" then None
      else match omap (filler_total m min_gpu_hours) (rd_filler_revenue_by_gpu_config d) with
           | [] => None
           | totals => Some (fsum totals)
           end
  end.
(** [is_provider_banned] *)
Definition is_provider_banned (miner_hotkey : string) (miner_coldkey : option string) (gpu_uuids : list string) (executor_uuid : string) : bool :=
  in_list miner_hotkey (rd_banned_hotkeys d)
  || (negb (String.eqb executor_uuid "") && in_list (executor_key executor_uuid) (map executor_key (rd_banned_executor_ids d)))
  || match miner_coldkey with
     | Some c => negb (String.eqb c "") && in_list c (rd_banned_coldkeys d)
     | None => false
     end
  || existsb (fun u => in_list u (rd_banned_provider_guids d)) gpu_uuids.
(** [get_filler_containers] *)
Definition get_filler_containers (executor_uuid : string) : list string :=
  match dget executor_uuid (rd_all_filler_containers_by_executor d) with
  | Some (c :: cs) => c :: cs
  | _ => match dget executor_uuid (rd_filler_containers_by_executor d) with
         | Some c => if String.eqb c "" then [] else [c]
         | None => []
         end
  end.
End Queries.

(** [result_handler.pods_rented_gpu_count] *)
Definition pods_rented_gpu_count (rented_data : option RentedExecutorsResponse) (executor_uuid : string) : option Z :=
  d ← rented_data; e ← dget executor_uuid (rd_executors d);
  match re_pods e with
  | [] => None
  | pods =>
      if existsb (fun p => match rp_gpu_count p with Some n => n <=? 0 | None => true end) pods then None
      else Some (foldl Z.add 0 (omap rp_gpu_count pods))
  end.
