(* ===== verification/RolloutVerdicts.v ===== *)
(** * Verdicts a cycle does not give

    [services/executor_rollout.py], the results taken out of a cycle: failures a rollout of the
    executor image explains, scrapes held for the renter's own GPU reset, runs ended by the
    validator's own Redis; and the last scored result that stands in for a held one.  The results
    of a cycle are a dict from hotkey to list; log lines are left out. *)

From Stdlib Require Import Ascii String.
From stdpp Require Import gmap strings.
From S2P Require Import Prelude Float64 PyValue Effects JobResult IncentiveConfig IncentiveBase DefaultIncentive IsoTime RolloutTracker RentedData.

Local Open Scope string_scope.
Local Open Scope list_scope.
Local Open Scope Z_scope.

Definition results_of_cycle : Type := list (string * list JobResult).

(** ** The image a node runs *)

(** [(?:^|-)executor-\d+$], searched; [$] also matches before a last newline. *)
Definition executor_name_chars (l : list ascii) : bool :=
  let r := rev l in
  let r := match r with c :: r' => if Ascii.eqb c "010" then r' else r | [] => [] end in
  let '(digits, rest) := Text.span_digits r in
  match digits, rest with
  | _ :: _, a :: b :: c :: d :: e :: f :: g :: h :: i :: rest' =>
      String.eqb (Text.of_chars [a; b; c; d; e; f; g; h; i]) "-rotucexe"
      && match rest' with [] => true | x :: _ => Ascii.eqb x "-" end
  | _, _ => false
  end.
Definition is_executor_name (v : json) : bool := match v with JStr s => executor_name_chars (Text.chars s) | _ => false end.
(** [_single_digest] *)
Definition single_digest (containers : list json) (matches : list (string * json) -> bool) : option string :=
  match omap (fun c => match c with JObj o => if matches o then Some o else None | _ => None end) containers with
  | [o] => normalize_sha256_digest (dget_or JNull "digest" o)
  | _ => None
  end.
(** [observed_executor_digest] *)
Definition observed_executor_digest (specs : list (string * json)) : option string :=
  match dget_or JNull "docker" specs with
  | JObj docker =>
      match dget_or JNull "containers" docker with
      | JList containers =>
          let by_id := match dget_or JNull "container_id" docker with
                       | JStr i => if String.eqb i "" then None
                                   else single_digest containers (fun o => json_eqb (dget_or JNull "container_id" o) (JStr i))
                       | _ => None
                       end in
          match by_id with
          | Some digest => Some digest
          | None => single_digest containers (fun o => is_executor_name (dget_or JNull "name" o))
          end
      | _ => None
      end
  | _ => None
  end.

(** ** Withholding *)

Definition EXECUTOR_IMAGE_OUTDATED : string := "EXECUTOR_IMAGE_OUTDATED".
Definition ROLLOUT_FAILURE_REASONS : list string :=
  ["EXECUTOR_SSH_UNREACHABLE"; "RENTED_EXECUTOR_NOT_LISTED"; "EXECUTOR_UNREACHABLE_BY_MINER"; "UPLOAD_FAILED";
   "EXECUTOR_TRANSPORT_UNREACHABLE"; "FILLER_TRANSPORT_UNREACHABLE"; "SCRAPE_FAILED";
   "SCRAPE_FAILED_NO_GPU"; "SCRAPE_FAILED_DRIVER"; "SCRAPE_FAILED_ON_HOST"; "SCRAPE_TIMEOUT"; "SCRAPE_TRANSPORT_FAILED";
   "INSUFFICIENT_PORTS"; EXECUTOR_IMAGE_OUTDATED].
Definition SCRAPE_GPU_RESET_IN_PROGRESS : string := "SCRAPE_GPU_RESET_IN_PROGRESS".
Definition VALIDATOR_REDIS_UNAVAILABLE : string := "VALIDATOR_REDIS_UNAVAILABLE".

Record WithheldVerdict := mkWithheld { wv_miner_hotkey : string; wv_result : JobResult }.

Definition reason_in (r : JobResult) (l : list string) : bool :=
  match jr_failure_reason_code r with Some c => in_list c l | None => false end.
Definition reason_is (r : JobResult) (c : string) : bool := bool_decide (jr_failure_reason_code r = Some c).

Section Withholding.
Context (str_of_other : json -> string) (st : Settings).

(** [_observed_digest] *)
Definition observed_digest (r : JobResult) : option string :=
  match dget_or JNull "observed_digest" (default [] (jr_executor_image_report r)) with
  | JStr s => if String.eqb s "" then observed_executor_digest (default [] (jr_spec r)) else Some s
  | v => if truthy v then Some (str_of_other v) else observed_executor_digest (default [] (jr_spec r))
  end.
Definition runs_digest (r : JobResult) (digest : json) : bool :=
  json_eqb (match observed_digest r with Some s => JStr s | None => JNull end) digest.

(** [rollout_grace_reason] *)
Definition grace_reason_code (r : JobResult) : option string :=
  if reason_in r ROLLOUT_FAILURE_REASONS then jr_failure_reason_code r
  else if reason_in r RUN_ENDED_WITHOUT_FAILING && (EXECUTOR_IMAGE_CHECK_ENFORCE st && image_is_outdated r)
  then Some EXECUTOR_IMAGE_OUTDATED else None.
Definition rollout_grace_reason (r : JobResult) (window : RolloutWindow) (job_block : Z) : option string :=
  if negb (covers window job_block) || Qltb 0 (jr_score r) then None
  else reason ← grace_reason_code r;
       if negb (String.eqb reason EXECUTOR_IMAGE_OUTDATED) && runs_digest r (rw_digest window) then None else Some reason.

(** Split the results of each miner by [held], in order. *)
Definition split_results (held : JobResult -> bool) (job_results : results_of_cycle) : results_of_cycle * list WithheldVerdict :=
  (map (fun mr => (mr.1, List.filter (fun r => negb (held r)) mr.2)) job_results,
   flat_map (fun mr => map (mkWithheld mr.1) (List.filter held mr.2)) job_results).
(** [withhold_rollout_verdicts] *)
Definition withhold_rollout_verdicts (job_results : results_of_cycle) (window : RolloutWindow) (job_block : Z)
    : results_of_cycle * list WithheldVerdict :=
  if negb (covers window job_block) then (job_results, [])
  else split_results (fun r => bool_decide (rollout_grace_reason r window job_block <> None)) job_results.

(** [_held_for_renter_gpu_reset], [has_renter_gpu_reset_holds], [withhold_renter_gpu_reset_verdicts] *)
Definition held_for_renter_gpu_reset (r : JobResult) : bool := reason_is r SCRAPE_GPU_RESET_IN_PROGRESS.
Definition has_renter_gpu_reset_holds (job_results : results_of_cycle) : bool :=
  existsb (fun mr => existsb held_for_renter_gpu_reset mr.2) job_results.
Definition withhold_renter_gpu_reset_verdicts (job_results : results_of_cycle) : results_of_cycle * list WithheldVerdict :=
  split_results (fun r => reason_is r VALIDATOR_REDIS_UNAVAILABLE || held_for_renter_gpu_reset r) job_results.

(** [Validator.withhold_verdicts_for_rollout], once the window is known. *)
Definition withhold_verdicts (job_results : results_of_cycle) (window : RolloutWindow) (job_block : Z)
    : results_of_cycle * list WithheldVerdict :=
  let '(standing, withheld_results) := withhold_rollout_verdicts job_results window job_block in
  let '(standing, held_for_gpu_reset) := withhold_renter_gpu_reset_verdicts standing in
  (standing, withheld_results ++ held_for_gpu_reset).
End Withholding.

(** ** Carrying the last scored result *)

Definition last_scored_result_key (miner_hotkey executor_id : string) : string :=
  "last_scored_result:" ++ miner_hotkey ++ ":" ++ executor_id.
Definition LAST_SCORED_RESULT_TTL_SECONDS : Z := 60 * 60.
(** What [model_dump_json] keeps: every field but the excluded ones. *)
Definition dumped (r : JobResult) : JobResult :=
  set_zero_incentive_reasons [] (set_incentive_logs [] (set_carried_for_renter_gpu_reset false
    (set_duplicate_shares_kept_row false (set_duplicate_kept_by None r)))).

Inductive kept_call : Type -> Type :=
| GetKept (key : string) : kept_call (res (option (option JobResult)))
| WriteKept (ops : list (string * option JobResult)) : kept_call (res unit).

Section Carrying.
Context `{R : Rounding} (min_gpu_hours secure_min_gpu_hours : Q).
Notation K := (prog kept_call).

(** [settings.get_filler_revenue_min_gpu_hours] *)
Definition get_filler_revenue_min_gpu_hours (is_spot : bool) : Q := if is_spot then min_gpu_hours else secure_min_gpu_hours.
Definition base_of (r : JobResult) : option string := dget (default "" (jr_gpu_model r)) BASE_GPU_MAP.

(** The GPU uuids a spec lists: [(spec.get("gpu") or {}).get("details") or []]. *)
Definition listed_uuid (detail : json) : res (option string) :=
  v ← jget "uuid" detail; Ok (match v with JStr s => if String.eqb s "" then None else Some s | _ => None end).
Definition listed_uuids (spec : list (string * json)) : res (list string) :=
  details ← jget "details" (py_or (dget_or JNull "gpu" spec) (JObj []));
  l ← jiter (py_or details (JList []));
  us ← mapM listed_uuid l; Ok (omap id us).
(** [_banned_now]; a uuid that is no string bans nobody. *)
Definition banned_now (rented_data : option RentedExecutorsResponse) (miner_hotkey : string) (miner_coldkey : option string)
    (previous held : JobResult) : res bool :=
  match rented_data with
  | None => Ok (jr_is_provider_banned held || jr_is_provider_banned previous)
  | Some d =>
      uuids ← listed_uuids (default [] (jr_spec previous));
      Ok (jr_is_provider_banned held || is_provider_banned d miner_hotkey miner_coldkey uuids (ex_uuid (jr_executor_info held)))
  end.
(** [_filler_revenue_now] *)
Definition filler_revenue_now (rented_data : option RentedExecutorsResponse) (previous : JobResult) : option Q :=
  match rented_data with
  | None => jr_filler_revenue_per_gpu_hour previous
  | Some d => get_filler_revenue_per_gpu_hour d (base_of previous) (jr_gpu_count previous)
                (get_filler_revenue_min_gpu_hours (jr_is_spot previous))
  end.
Definition usd_per_hour_now (rented_data : option RentedExecutorsResponse) (previous : JobResult) : option Q :=
  match rented_data with
  | None => jr_filler_revenue_usd_per_hour previous
  | Some d => get_filler_revenue_usd_per_hour d (base_of previous) min_gpu_hours
  end.
(** [_FRESH_PAY_FIELDS] *)
Definition fresh_pay_fields (held r : JobResult) : JobResult :=
  set_is_spot (jr_is_spot held) (set_is_on_spot_pay_list (jr_is_on_spot_pay_list held)
    (set_is_provider_email_held (jr_is_provider_email_held held) (set_provider_discord_connected (jr_provider_discord_connected held)
      (set_is_new_rentals_paused (jr_is_new_rentals_paused held) (set_default_job_owner (jr_default_job_owner held)
        (set_has_lium_filler (jr_has_lium_filler held) r)))))).
Definition carried_result (rented_data : option RentedExecutorsResponse) (banned : bool) (previous held : JobResult) : JobResult :=
  let count := match pods_rented_gpu_count rented_data (ex_uuid (jr_executor_info held)) with
               | Some n => if n =? 0 then jr_rented_gpu_count previous else Some n
               | None => jr_rented_gpu_count previous
               end in
  set_rented_gpu_count count (set_filler_revenue_usd_per_hour (usd_per_hour_now rented_data previous)
    (set_filler_revenue_per_gpu_hour (filler_revenue_now rented_data previous) (set_is_provider_banned banned
      (fresh_pay_fields held (set_carried_for_renter_gpu_reset true (set_job_batch_id (jr_job_batch_id held)
        (set_executor_info (jr_executor_info held) previous))))))).

(** [_last_scored_result]: any failure reads as none. *)
Definition last_scored_result (miner_hotkey : string) (held : JobResult) : K (option JobResult) :=
  raw ← call (GetKept (last_scored_result_key miner_hotkey (ex_uuid (jr_executor_info held))));
  Ret (match raw with Ok (Some o) => o | _ => None end).
(** [carry_renter_gpu_reset_results] on one result, one miner, all. *)
Definition carry_one (rented_executor_ids : list string) (rented_data : option RentedExecutorsResponse) (miner_hotkey : string)
    (coldkey : option string) (held : JobResult) : K JobResult :=
  if negb (held_for_renter_gpu_reset held) then Ret held
  else if negb (in_list (Text.lower (ex_uuid (jr_executor_info held))) rented_executor_ids) then Ret held
  else previous ← last_scored_result miner_hotkey held;
       match previous with
       | None => Ret held
       | Some p => banned ← of_res (banned_now rented_data miner_hotkey coldkey p held); Ret (carried_result rented_data banned p held)
       end.
Fixpoint pmap {A B} (f : A -> K B) (l : list A) : K (list B) :=
  match l with
  | [] => Ret []
  | x :: rest => y ← f x; ys ← pmap f rest; Ret (y :: ys)
  end.
Definition carry_renter_gpu_reset_results (job_results : results_of_cycle) (rented_executor_ids : list string)
    (rented_data : option RentedExecutorsResponse) (miner_coldkeys : list (string * option string)) : K results_of_cycle :=
  pmap (fun mr => rs ← pmap (carry_one rented_executor_ids rented_data mr.1 (mjoin (dget mr.1 miner_coldkeys))) mr.2; Ret (mr.1, rs)) job_results.
(** [Validator.carry_scores_over_renter_gpu_resets]; [now] is what the backend answers right then. *)
Definition carry_scores_over_renter_gpu_resets (job_results : results_of_cycle) (now rented_executors : option RentedExecutorsResponse)
    (miner_coldkeys : list (string * option string)) : K results_of_cycle :=
  if negb (has_renter_gpu_reset_holds job_results) then Ret job_results
  else
    let rented := match now with Some d => Some d | None => rented_executors end in
    let ids := match rented with Some d => map (fun ed => Text.lower ed.1) (rd_executors d) | None => [] end in
    carry_renter_gpu_reset_results job_results ids rented_executors miner_coldkeys.

(** [remember_rented_scored_results] *)
Definition keep_op (miner_hotkey : string) (r : JobResult) : list (string * option JobResult) :=
  if jr_carried_for_renter_gpu_reset r then []
  else [(last_scored_result_key miner_hotkey (ex_uuid (jr_executor_info r)),
         if jr_is_rented r && is_successful r then Some (dumped r) else None)].
Definition remember_rented_scored_results (job_results : results_of_cycle) : K unit :=
  let ops := flat_map (fun mr => flat_map (keep_op mr.1) mr.2) job_results in
  match ops with [] => Ret tt | _ => _ ← call (WriteKept ops); Ret tt end.
End Carrying.

(** ** Redis *)
Section Kept.
Context (fate_of : nat -> fate) (clock : nat -> Z).

(** A key holds a value (what its text validates to) until it expires. *)
Record KeptStore := mkKept { kept : gmap string (option JobResult * Z); kept_calls : nat }.
Definition apply_op (expires : Z) (m : gmap string (option JobResult * Z)) (op : string * option JobResult)
    : gmap string (option JobResult * Z) :=
  match op.2 with Some r => <[op.1 := (Some r, expires)]> m | None => delete op.1 m end.
Definition kept_at (now : Z) (o : option (option JobResult * Z)) : option (option JobResult) :=
  match o with Some (v, expires) => if expires <=? now then None else Some v | None => None end.
Definition handle_kept (X : Type) (c : kept_call X) : KeptStore -> KeptStore * X :=
  match c in kept_call X return KeptStore -> KeptStore * X with
  | GetKept k => fun w =>
      (mkKept (kept w) (S (kept_calls w)), answered (fate_of (kept_calls w)) (kept_at (clock (kept_calls w)) (kept w !! k)))
  | WriteKept ops => fun w =>
      (mkKept match fate_of (kept_calls w) with
              | Lost => kept w
              | _ => fold_left (apply_op (clock (kept_calls w) + LAST_SCORED_RESULT_TTL_SECONDS)) ops (kept w)
              end (S (kept_calls w)),
       answered (fate_of (kept_calls w)) tt)
  end.

Context `{R : Rounding} (min_gpu_hours secure_min_gpu_hours : Q).
Notation run p w := (perform handle_kept p w).

(** The stores a validator reaches, with the results its cycles remembered; time passes in between. *)
Inductive reaches : list results_of_cycle -> KeptStore -> Prop :=
| reach_empty n : reaches [] (mkKept ∅ n)
| reach_remember past w jobs w' o :
    reaches past w -> run (remember_rented_scored_results jobs) w = (w', o) -> reaches (past ++ [jobs]) w'
| reach_carry past w jobs now rented coldkeys w' o :
    reaches past w -> run (carry_scores_over_renter_gpu_resets min_gpu_hours secure_min_gpu_hours jobs now rented coldkeys) w = (w', o) ->
    reaches past w'
| reach_later past w n : reaches past w -> (kept_calls w <= n)%nat -> reaches past (mkKept (kept w) n).

(** [r0] stood scored in a remembered cycle, under this key: rented, successful, its own. *)
Definition scored_before (past : list results_of_cycle) (key : string) (r0 : JobResult) : Prop :=
  exists jobs mr, jobs ∈ past /\ mr ∈ jobs /\ r0 ∈ mr.2 /\ key = last_scored_result_key mr.1 (ex_uuid (jr_executor_info r0))
    /\ jr_carried_for_renter_gpu_reset r0 = false /\ jr_is_rented r0 = true /\ is_successful r0 = true.
Definition entries_scored (past : list results_of_cycle) (w : KeptStore) : Prop :=
  forall k v expires, kept w !! k = Some (v, expires) ->
  exists r0 n, v = Some (dumped r0) /\ scored_before past k r0 /\ (n < kept_calls w)%nat /\ expires = clock n + LAST_SCORED_RESULT_TTL_SECONDS.

Lemma scored_before_mono past jobs k r0 : scored_before past k r0 -> scored_before (past ++ [jobs]) k r0.
Proof. intros (j & mr & Hj & H). exists j, mr. split; [|done]. apply elem_of_app. by left. Qed.

Lemma keep_op_spec h r k v : (k, Some v) ∈ keep_op h r ->
  k = last_scored_result_key h (ex_uuid (jr_executor_info r)) /\ v = dumped r
  /\ jr_carried_for_renter_gpu_reset r = false /\ jr_is_rented r = true /\ is_successful r = true.
Proof.
  unfold keep_op. destruct (jr_carried_for_renter_gpu_reset r) eqn:Hc; [by intros ?%not_elem_of_nil|].
  intros H%list_elem_of_singleton. injection H as -> H. destruct (jr_is_rented r && is_successful r) eqn:E; [|done].
  apply andb_true_iff in E as [? ?]. injection H as ->. by split_and!.
Qed.
Lemma apply_ops_lookup expires ops m k v e :
  fold_left (apply_op expires) ops m !! k = Some (v, e) ->
  m !! k = Some (v, e) \/ exists r, v = Some r /\ e = expires /\ (k, Some r) ∈ ops.
Proof.
  revert m. induction ops as [|[k' [r|]] ops IH]; intros m H; [by left|..]; cbn in H.
  - destruct (IH _ H) as [Hm|(r' & ? & ? & ?)]; [|right; exists r'; split_and!; [done..|by right]].
    apply lookup_insert_Some in Hm as [[? ?]|[_ Hm]]; [simplify_eq; right; exists r; split_and!; [done..|left]|by left].
  - destruct (IH _ H) as [Hm|(r' & ? & ? & ?)]; [|right; exists r'; split_and!; [done..|by right]].
    apply lookup_delete_Some in Hm as [_ Hm]. by left.
Qed.

Lemma remember_entries past jobs w w' o :
  entries_scored past w -> run (remember_rented_scored_results jobs) w = (w', o) -> entries_scored (past ++ [jobs]) w'.
Proof.
  intros Hw Hr. assert (forall n m, (kept_calls w <= n)%nat -> m = kept w -> entries_scored (past ++ [jobs]) (mkKept m n)) as Hold.
  { intros n m Hn -> k v e He. destruct (Hw k v e He) as (r0 & i & ? & ? & ? & ?). exists r0, i. cbn.
    split_and!; [done|by apply scored_before_mono|lia|done]. }
  unfold remember_rented_scored_results in Hr. set (ops := flat_map _ jobs) in Hr.
  assert (run (_ ← call (WriteKept ops); Ret tt) w = (w', o) -> entries_scored (past ++ [jobs]) w') as Hcall.
  { intros H. cbn in H. simplify_eq. destruct (fate_of (kept_calls w)); try (apply Hold; [lia|done]).
    all: intros k v e He; cbn in He; apply apply_ops_lookup in He as [He|(r & -> & -> & Hin)];
      [destruct (Hold (S (kept_calls w)) _ ltac:(lia) eq_refl k v e He) as (r0 & i & H); by exists r0, i|].
    all: apply list_elem_of_In, in_flat_map in Hin as (mr & Hmr & Hin); apply in_flat_map in Hin as (r0 & Hr0 & Hin);
      apply list_elem_of_In, keep_op_spec in Hin as (-> & -> & ? & ? & ?); exists r0, (kept_calls w);
      (split_and!; [done| |cbn; lia|done]); exists jobs, mr; (split_and!; [set_solver|by apply list_elem_of_In|by apply list_elem_of_In|done..]). }
  destruct ops; [|auto]. cbn in Hr. simplify_eq. by destruct w'; apply Hold.
Qed.

(** Reading changes nothing but the time. *)
Definition only_reads (w w' : KeptStore) : Prop := kept w' = kept w /\ (kept_calls w <= kept_calls w')%nat.
#[local] Instance only_reads_preorder : PreOrder only_reads.
Proof. split; [by split|]. intros w1 w2 w3 [? ?] [? ?]. split; [congruence|lia]. Qed.
Lemma only_reads_entries past w w' : only_reads w w' -> entries_scored past w -> entries_scored past w'.
Proof. intros [Hk Hn] Hw k v e He. rewrite Hk in He. destruct (Hw k v e He) as (r0 & n & ? & ? & ? & ?). exists r0, n. by split_and!; [| |lia|]. Qed.

Lemma perform_ok_bind {A B} (p : prog kept_call A) (f : A -> prog kept_call B) w w' o :
  run (p ≫= f) w = (w', o) ->
  (exists w1 a, run p w = (w1, Ok a) /\ run (f a) w1 = (w', o)) \/ (exists e, run p w = (w', Raise e) /\ o = Raise e).
Proof.
  rewrite perform_bind. unfold mbind, act_bind. destruct (run p w) as [w1 [a|e]]; [left; eauto|intros; simplify_eq; right; eauto].
Qed.

(** The loop over a list, when each turn only reads. *)
Lemma pmap_spec {A B} (Q : A -> B -> Prop) (f : A -> prog kept_call B) l w0 w w' o :
  (forall x w1 w1' o1, x ∈ l -> only_reads w0 w1 -> run (f x) w1 = (w1', o1) ->
     only_reads w1 w1' /\ forall y, o1 = Ok y -> Q x y) ->
  only_reads w0 w -> run (pmap f l) w = (w', o) -> only_reads w w' /\ forall ys, o = Ok ys -> Forall2 Q l ys.
Proof.
  revert w w' o. induction l as [|x l IH]; intros w w' o Hf Hw H; cbn in H.
  { simplify_eq. split; [done|]. intros ys [= <-]. constructor. }
  apply perform_ok_bind in H as [(w1 & y & Hx & H)|(e & Hx & ->)]; destruct (Hf x w _ _ ltac:(left) Hw Hx) as [Hr HQ]; [|done].
  apply perform_ok_bind in H as [(w2 & ys & Hl & H)|(e & Hl & ->)];
    (destruct (IH w1 _ _ ltac:(intros; eapply Hf; eauto; by right) ltac:(by etrans) Hl) as [Hr2 HQ2]); [|split; [by etrans|done]].
  cbn in H. simplify_eq. split; [by etrans|]. intros ys' [= <-]. constructor; auto.
Qed.

(** What a carried result is made of. *)
Definition carried_over (past : list results_of_cycle) (w : KeptStore) (ids : list string) (rented : option RentedExecutorsResponse)
    (hotkey : string) (held r : JobResult) : Prop :=
  held_for_renter_gpu_reset held = true /\ in_list (Text.lower (ex_uuid (jr_executor_info held))) ids = true
  /\ exists r0 banned n m, scored_before past (last_scored_result_key hotkey (ex_uuid (jr_executor_info held))) r0
    /\ r = carried_result min_gpu_hours secure_min_gpu_hours rented banned (dumped r0) held
    /\ (n < kept_calls w <= m)%nat /\ clock m < clock n + LAST_SCORED_RESULT_TTL_SECONDS.
Lemma carry_one_spec past ids rented hotkey coldkey held w0 w w' o :
  entries_scored past w0 -> only_reads w0 w ->
  run (carry_one min_gpu_hours secure_min_gpu_hours ids rented hotkey coldkey held) w = (w', o) ->
  only_reads w w' /\ forall r, o = Ok r -> r = held \/ carried_over past w0 ids rented hotkey held r.
Proof.
  intros Hw0 Hr H. unfold carry_one in H. destruct (held_for_renter_gpu_reset held) eqn:Hheld; cbn [negb] in H;
    [|cbn in H; simplify_eq; split; [done|intros r [= <-]; by left]].
  destruct (in_list _ ids) eqn:Hids; cbn [negb] in H; [|cbn in H; simplify_eq; split; [done|intros r [= <-]; by left]].
  unfold last_scored_result in H. cbn in H. set (key := last_scored_result_key _ _) in H.
  assert (only_reads w {| kept := kept w; kept_calls := S (kept_calls w) |}) as Hrd by (split; cbn; [done|lia]).
  destruct (fate_of (kept_calls w)); cbn in H; try (simplify_eq; split; [done|intros r [= <-]; by left]).
  destruct (kept_at _ _) as [[p|]|] eqn:Hk; cbn in H; try (simplify_eq; split; [done|intros r [= <-]; by left]).
  destruct (banned_now rented hotkey coldkey p held) as [banned|e]; cbn in H; simplify_eq; (split; [done|]); [|done].
  intros r [= <-]. right. split_and!; [done|done|]. unfold kept_at in Hk. destruct (kept w !! key) as [[v exp]|] eqn:Hlk; [|done].
  destruct (Z.leb_spec exp (clock (kept_calls w))); simplify_eq. destruct Hr as [Hkept Hn]. rewrite Hkept in Hlk.
  destruct (Hw0 _ _ _ Hlk) as (r0 & n & Hv & Hsc & Hlt & ->). simplify_eq. exists r0, banned, n, (kept_calls w). split_and!; done.
Qed.
Lemma carry_spec past jobs now rented coldkeys w w' o :
  entries_scored past w ->
  run (carry_scores_over_renter_gpu_resets min_gpu_hours secure_min_gpu_hours jobs now rented coldkeys) w = (w', o) ->
  only_reads w w' /\ forall out, o = Ok out ->
    Forall2 (fun mr mr' => mr'.1 = mr.1 /\ Forall2 (fun held r => r = held \/ carried_over past w
      match now with Some d => map (fun ed => Text.lower ed.1) (rd_executors d)
                   | None => match rented with Some d => map (fun ed => Text.lower ed.1) (rd_executors d) | None => [] end end
      rented mr.1 held r) mr.2 mr'.2) jobs out.
Proof.
  intros Hw H. unfold carry_scores_over_renter_gpu_resets in H. destruct (has_renter_gpu_reset_holds jobs); cbn [negb] in H.
  2: { cbn in H. simplify_eq. split; [done|]. intros out [= <-]. apply Forall_Forall2_diag, Forall_true. intros [h rs]. split; [done|].
       apply Forall_Forall2_diag, Forall_true. by left. }
  set (ids := match match now with Some d => Some d | None => rented end with Some d => _ | None => _ end) in H.
  replace (match now with Some d => _ | None => _ end) with ids by (by destruct now).
  unfold carry_renter_gpu_reset_results in H. eapply (pmap_spec _ _ _ w) in H; [exact H| |done]. intros [h rs] w1 w1' o1 _ Hr1 H1. cbn [fst snd] in *.
  apply perform_ok_bind in H1 as [(w2 & ys & Hl & H1)|(e & Hl & ->)].
  - eapply (pmap_spec (fun held r => r = held \/ carried_over past w ids rented h held r) _ _ w) in Hl as [Hr2 HQ]; [| |done].
    + cbn in H1. simplify_eq. split; [done|]. intros mr' [= <-]. split; [done|]. by apply HQ.
    + intros held w3 w3' o3 _ Hr3 H3. by eapply carry_one_spec.
  - eapply (pmap_spec (fun held r => r = held \/ carried_over past w ids rented h held r) _ _ w) in Hl as [Hr2 _]; [done| |done].
    intros held w3 w3' o3 _ Hr3 H3. by eapply carry_one_spec.
Qed.
Lemma reaches_entries past w : reaches past w -> entries_scored past w.
Proof.
  induction 1 as [n|past w jobs w' o _ IH Hr|past w jobs now rented coldkeys w' o _ IH Hr|past w n _ IH Hn].
  - intros k v e He. cbn [kept] in He. by rewrite lookup_empty in He.
  - by eapply remember_entries.
  - eapply only_reads_entries; [|exact IH]. by eapply carry_spec.
  - eapply only_reads_entries; [|exact IH]. by split.
Qed.

End Kept.

(** ** What is withheld *)
Section Verdicts.
Context (str_of_other : json -> string) (st : Settings).

Lemma split_results_spec held jobs :
  let '(standing, withheld) := split_results held jobs in
  map fst standing = map fst jobs
  /\ (forall h rs, (h, rs) ∈ standing <-> exists rs0, (h, rs0) ∈ jobs /\ rs = List.filter (fun r => negb (held r)) rs0)
  /\ (forall v, v ∈ withheld <-> exists rs, (wv_miner_hotkey v, rs) ∈ jobs /\ wv_result v ∈ rs /\ held (wv_result v) = true).
Proof.
  cbn. split_and!.
  - by rewrite map_map.
  - intros h rs. rewrite list_elem_of_In, in_map_iff. split.
    + intros ([h0 rs0] & [= <- <-] & Hin). exists rs0. by rewrite list_elem_of_In.
    + intros (rs0 & Hin & ->). exists (h, rs0). by rewrite <- list_elem_of_In.
  - intros [h r]. cbn. rewrite list_elem_of_In, in_flat_map. split.
    + intros ([h0 rs0] & Hin & Hv). apply in_map_iff in Hv as (r0 & [= <- <-] & Hr%filter_In). exists rs0.
      rewrite !list_elem_of_In. intuition.
    + intros (rs & Hin & Hr & Hh). exists (h, rs). rewrite <- list_elem_of_In. split; [done|]. apply in_map_iff. exists r.
      split; [done|]. apply filter_In. by rewrite <- list_elem_of_In.
Qed.

(** The verdicts a rollout explains. *)
Definition explained (window : RolloutWindow) (r : JobResult) : Prop :=
  (jr_score r <= 0)%Q
  /\ ((exists c, jr_failure_reason_code r = Some c /\ c ∈ ROLLOUT_FAILURE_REASONS
          /\ (c <> EXECUTOR_IMAGE_OUTDATED -> runs_digest str_of_other r (rw_digest window) = false))
      \/ (reason_in r ROLLOUT_FAILURE_REASONS = false /\ reason_in r RUN_ENDED_WITHOUT_FAILING = true
          /\ EXECUTOR_IMAGE_CHECK_ENFORCE st = true /\ image_is_outdated r = true)).
Lemma grace_reason_spec r window b :
  covers window b = true -> rollout_grace_reason str_of_other st r window b <> None <-> explained window r.
Proof.
  intros Hc. unfold rollout_grace_reason, explained. rewrite Hc. cbn [negb orb].
  assert (Qltb 0 (jr_score r) = false <-> (jr_score r <= 0)%Q) as Hq by (unfold Qltb; rewrite negb_false_iff; apply Qle_bool_iff).
  destruct (Qltb 0 (jr_score r)); [split; [done|intros [Hs _]; by apply Hq in Hs]|].
  unfold grace_reason_code. destruct (reason_in r ROLLOUT_FAILURE_REASONS) eqn:Hin.
  - pose proof Hin as Hin0. unfold reason_in in Hin. destruct (jr_failure_reason_code r) as [c|] eqn:Hr; [|done]. apply bool_decide_eq_true in Hin. cbn.
    destruct (String.eqb_spec c EXECUTOR_IMAGE_OUTDATED) as [ ->|Hne]; cbn [negb andb].
    + split; [|done]. intros _. split; [by apply Hq|]. left. eexists. split_and!; [done|done|done].
    + destruct (runs_digest _ _ _) eqn:Hd.
      * split; [done|]. intros [_ [(c' & Hc' & _ & H)|(? & _)]]; [|congruence]. injection Hc' as <-. specialize (H Hne). congruence.
      * split; [|done]. intros _. split; [by apply Hq|]. left. exists c. by split_and!.
  - destruct (reason_in r RUN_ENDED_WITHOUT_FAILING) eqn:He; cbn [andb];
      [destruct (EXECUTOR_IMAGE_CHECK_ENFORCE st) eqn:Hf; cbn [andb]; [destruct (image_is_outdated r) eqn:Ho|]|].
    1: split; [|done]; intros _; split; [by apply Hq|right; by split_and!].
    all: split; [done|]; intros [_ [(c & Hr & Hc' & _)|(_ & ? & ? & ?)]]; [|congruence].
    all: unfold reason_in in Hin; rewrite Hr in Hin; by apply bool_decide_eq_false in Hin.
Qed.
Lemma filter_sublist (P : JobResult -> bool) l : List.filter P l `sublist_of` l.
Proof. induction l as [|x l IH]; cbn; [done|]. destruct (P x); by constructor. Qed.
Lemma elem_of_list_filter_bool (P : JobResult -> bool) l r : r ∈ List.filter (fun r => negb (P r)) l <-> r ∈ l /\ ~ P r = true.
Proof. rewrite !list_elem_of_In, filter_In, negb_true_iff, not_true_iff_false. done. Qed.
(** Withheld by the first pass, or left by it and withheld by the second. *)
Lemma withheld_both (held1 held2 : JobResult -> bool) (P1 P2 : JobResult -> Prop) (jobs mid : results_of_cycle) (w1 w2 : list WithheldVerdict) :
  (forall r, held1 r = true <-> P1 r) -> (forall r, held2 r = true <-> P2 r) ->
  (forall v, v ∈ w1 <-> exists rs, (wv_miner_hotkey v, rs) ∈ jobs /\ wv_result v ∈ rs /\ held1 (wv_result v) = true) ->
  (forall h rs, (h, rs) ∈ mid <-> exists rs0, (h, rs0) ∈ jobs /\ rs = List.filter (fun r => negb (held1 r)) rs0) ->
  (forall v, v ∈ w2 <-> exists rs, (wv_miner_hotkey v, rs) ∈ mid /\ wv_result v ∈ rs /\ held2 (wv_result v) = true) ->
  forall v, v ∈ w1 ++ w2 <-> exists rs, (wv_miner_hotkey v, rs) ∈ jobs /\ wv_result v ∈ rs /\ (true = true /\ P1 (wv_result v) \/ P2 (wv_result v)).
Proof.
  intros H1 H2 W1 Hmid W2 v. rewrite elem_of_app, W1, W2. split.
  - intros [(rs & ? & ? & ?%H1)|(rs & Hin & Hr & ?%H2)]; [exists rs; auto|]. apply Hmid in Hin as (rs0 & ? & ->).
    apply elem_of_list_filter_bool in Hr as [? _]. exists rs0. auto.
  - intros (rs & Hin & Hr & HP). destruct (held1 (wv_result v)) eqn:E; [left; eauto|]. right.
    destruct HP as [[_ HP%H1]|HP%H2]; [congruence|]. exists (List.filter (fun r => negb (held1 r)) rs). split_and!; [|apply elem_of_list_filter_bool; split; [done|congruence]|done].
    apply Hmid. eauto.
Qed.

(** C38. Only what a rollout explains is withheld.  In a cycle the window covers a result loses its
    verdict exactly when it has no score and failed in a way a rollout produces on a node not yet on
    the new image, or read as outdated, or is held for the renter's GPU reset or by the validator's
    own Redis; in any other cycle exactly the last two; every other result stands, in its place,
    under its miner, and no result is dropped. *)
Theorem withheld_exactly_explained jobs window b :
  let '(standing, withheld) := withhold_verdicts str_of_other st jobs window b in
  let own r := jr_failure_reason_code r = Some VALIDATOR_REDIS_UNAVAILABLE \/ jr_failure_reason_code r = Some SCRAPE_GPU_RESET_IN_PROGRESS in
  let taken r := covers window b = true /\ explained window r \/ own r in
  map fst standing = map fst jobs
  /\ (forall v, v ∈ withheld <-> exists rs, (wv_miner_hotkey v, rs) ∈ jobs /\ wv_result v ∈ rs /\ taken (wv_result v))
  /\ (forall h rs, (h, rs) ∈ standing -> exists rs0, (h, rs0) ∈ jobs /\ rs `sublist_of` rs0 /\ forall r, r ∈ rs <-> r ∈ rs0 /\ ~ taken r).
Proof.
  unfold withhold_verdicts, withhold_rollout_verdicts, withhold_renter_gpu_reset_verdicts.
  set (held1 := fun r => bool_decide (rollout_grace_reason str_of_other st r window b <> None)).
  set (held2 := fun r => reason_is r VALIDATOR_REDIS_UNAVAILABLE || held_for_renter_gpu_reset r).
  assert (forall r, held2 r = true <-> jr_failure_reason_code r = Some VALIDATOR_REDIS_UNAVAILABLE
                                       \/ jr_failure_reason_code r = Some SCRAPE_GPU_RESET_IN_PROGRESS) as H2.
  { intros r. unfold held2, held_for_renter_gpu_reset, reason_is. by rewrite orb_true_iff, !bool_decide_eq_true. }
  destruct (covers window b) eqn:Hc; cbn [negb].
  - assert (forall r, held1 r = true <-> explained window r) as H1.
    { intros r. unfold held1. rewrite bool_decide_eq_true. by apply grace_reason_spec. }
    pose proof (split_results_spec held1 jobs) as S1. destruct (split_results held1 jobs) as [mid w1]. destruct S1 as (K1 & St1 & W1).
    pose proof (split_results_spec held2 mid) as S2. destruct (split_results held2 mid) as [standing w2]. destruct S2 as (K2 & St2 & W2).
    split_and!; [congruence|exact (withheld_both held1 held2 _ _ jobs mid w1 w2 H1 H2 W1 St1 W2)|].
    intros h rs Hin. apply St2 in Hin as (rs1 & Hin & ->). apply St1 in Hin as (rs0 & Hin & ->). exists rs0. split_and!; [done| |].
    + etrans; apply filter_sublist.
    + intros r. rewrite !elem_of_list_filter_bool, H1, H2. tauto.
  - pose proof (split_results_spec held2 jobs) as S2. destruct (split_results held2 jobs) as [standing w2]. destruct S2 as (K2 & St2 & W2).
    split_and!; [done| |].
    + intros v. rewrite W2. setoid_rewrite H2. split; [intros (rs & ? & ? & ?); exists rs; by auto|intros (rs & ? & ? & [[? _]|?]); [done|eauto]].
    + intros h rs Hin. apply St2 in Hin as (rs0 & Hin & ->). exists rs0. split_and!; [done|apply filter_sublist|].
      intros r. rewrite elem_of_list_filter_bool, H2. split; [intros [? Hn]; split; [done|]; intros [[? _]|?]; done|tauto].
Qed.
End Verdicts.
