(* ===== verification/DelayedSettlement.v ===== *)
(** * Delayed settlement

    [core/settlement.py] and its use in [core/validator.py]: a cycle's scores are reported to the
    backend, which a day later serves the settled vector of each tempo; the validator submits that
    vector and reports the block it went in at.  Reports the backend did not take are kept in Redis
    and replayed.  All of it runs in the one coroutine of [Validator.sync]: a program over the calls
    it makes.  Redis keeps what it was given but each call may be lost, or done with its answer lost;
    the backend, the chain and where a time limit cuts a program off are inputs.  A kept report is
    modelled by what its JSON text loads to; log lines are left out. *)

From Stdlib Require Import Ascii String Qabs.
From stdpp Require Import strings.
From S2P Require Import Prelude Float64 PyValue Effects IsoTime JobResult.
Import Text.

Local Open Scope string_scope.
Local Open Scope list_scope.
Local Open Scope Z_scope.

(** ** [core/settlement.py] *)

Definition tempo_index (block tempo : Z) : Z := block / tempo.

Record NodeShare := mkShare { ns_executor_id : string; ns_hotkey : string; ns_rented : Q; ns_idle : Q; ns_spot : bool }.
#[export] Instance NodeShare_eq_dec : EqDecision NodeShare.
Proof. solve_decision. Defined.
Definition or_zero (o : option Q) : Q := default 0%Q o.
Definition node_share (miner_hotkey : string) (r : JobResult) : option NodeShare :=
  let rented := or_zero (jr_incentive_rented r) in
  let idle := or_zero (jr_incentive_idle r) in
  if Qleb rented 0 && Qleb idle 0 then None
  else Some (mkShare (ex_uuid (jr_executor_info r)) miner_hotkey rented idle (jr_is_spot r)).
Definition cycle_node_shares (job_results : list (string * list JobResult)) : list NodeShare :=
  flat_map (fun mr => omap (node_share mr.1) mr.2) job_results.

Section Moved.
Context `{R : Rounding}.
Definition total_or_one (d : list (string * Q)) : Q := let t := fsum (dvalues d) in if Qeq_bool t 0 then 1%Q else t.
(** The sum runs over a set of hotkeys: [order] is the order it is iterated in. *)
Definition share_moved (order : list string -> list string) (live settled : list (string * Q)) : Q :=
  let live_total := total_or_one live in
  let settled_total := total_or_one settled in
  let hotkeys := order (remove_dups (dkeys live ++ dkeys settled)) in
  fdiv (fsum (map (fun h => Qabs (fsub (fdiv (dget_or 0%Q h live) live_total) (fdiv (dget_or 0%Q h settled) settled_total))) hotkeys)) 2.
End Moved.

(** ** Reports *)

Record CycleReport := mkReport {
  cr_cycle_id : string;
  cr_cycle_started_at : string;
  cr_scored_at : string;
  cr_block : Z;
  cr_burn_hotkey : string;
  cr_hotkey_scores : list (string * Q);
  cr_mode : string;
  cr_node_shares : list NodeShare
}.
#[export] Instance CycleReport_eq_dec : EqDecision CycleReport.
Proof. solve_decision. Defined.
Record LiveReport := mkLive { lr_inclusion_block : Z; lr_cycle_ids : list string }.
#[export] Instance LiveReport_eq_dec : EqDecision LiveReport.
Proof. solve_decision. Defined.

Definition UNACKED_CYCLE_REPORTS_MAX : nat := 200.

(** [datetime.strptime(job_batch_id, "%Y-%m-%d %H:%M:%S")], on the two-digit form the chain client writes. *)
Definition parse_batch_id (s : string) : option datetime :=
  '(c, l) ← read_two (chars s); '(y, l) ← read_two l; l ← expect "-" l; '(mo, l) ← read_two l; l ← expect "-" l; '(d, l) ← read_two l;
  l ← expect " " l; '(h, l) ← read_two l; l ← expect ":" l; '(mi, l) ← read_two l; l ← expect ":" l; '(sec, l) ← read_two l;
  match l with
  | [] => let t := mkTime (100 * c + y) mo d h mi sec 0 in if valid_time t then Some t else None
  | _ => None
  end.
Definition build_report (cycle_scores : list (string * Q)) (node_shares : list NodeShare) (burner_hotkey job_batch_id : string)
    (job_block : Z) (scored_at : datetime) (mode : string) : CycleReport :=
  mkReport job_batch_id (isoformat (default scored_at (parse_batch_id job_batch_id))) (isoformat scored_at) job_block burner_hotkey
    cycle_scores mode node_shares.

(** The settled vector the backend serves for a tempo. *)
Record SettledWeights := mkSettled { sw_cycle_ids : list string; sw_hotkey_scores : list (string * Q) }.

(** ** Calls *)

Inductive queue : Type -> Type :=
| CycleReports : queue CycleReport
| LiveWeights : queue LiveReport.
(** What the backend answers to a report: a receipt, nothing, that the request is wrong, or an error. *)
Inductive reply := Receipt | NoReply | Rejected | Broke.
(** What the process holds in memory. *)
Record Mem := mkMem {
  settled_tempo_done : option Z;
  unacknowledged_inclusions : list (Z * Z);
  miner_scores : list (string * Q);
  live_cycle_ids : list string;
  completed_cycles_since_start : nat
}.
Definition fresh_mem : Mem := mkMem None [] [] [] 0.

(** The dict of pending inclusions has [str(index)] for its keys: here the index. [SetWeights] carries
    the tempo whose window is submitted, [None] for live weights, only for the record of the chain. *)
Inductive s_call : Type -> Type :=
| LPush {T} (q : queue T) (x : T) : s_call (res unit)
| LRange {T} (q : queue T) : s_call (res (list T))
| LRem {T} (q : queue T) (x : T) : s_call (res unit)
| LLen {T} (q : queue T) : s_call (res nat)
| LTrim {T} (q : queue T) (max_length : nat) : s_call (res unit)
| GetPending : s_call (res (option (list (Z * Z))))
| SetPending (d : list (Z * Z)) : s_call (res unit)
| PostCycle (r : CycleReport) : s_call reply
| PostLive (r : LiveReport) : s_call reply
| PostInclusion (index block : Z) : s_call reply
| GetWindow (index tempo : Z) : s_call (res (option SettledWeights))
| GetTempo : s_call (res Z)
| GetBlock : s_call (res Z)
| SetWeights (index : option Z) (vector : list (string * Q)) : s_call (res bool)
| ReadMem : s_call Mem
| WriteMem (m : Mem) : s_call unit.
Notation P := (prog s_call).

Definition answered_ok {A} (r : res A) : bool := match r with Ok _ => true | Raise _ => false end.

(** ** Cycle reports *)

(** [_deliver_cycle_report] *)
Definition deliver_cycle_report (payload : CycleReport) : P bool :=
  answer ← call (PostCycle payload); Ret (match answer with Receipt | Rejected => true | NoReply | Broke => false end).
(** [_keep_cycle_report] *)
Definition keep_cycle_report (payload : CycleReport) : P bool :=
  pushed ← call (LPush CycleReports payload); Ret (answered_ok pushed).
(** [_cap_kept_cycle_reports] *)
Definition cap_kept_cycle_reports : P unit :=
  kept_count ← call (LLen CycleReports);
  match kept_count with
  | Ok n => if (n <=? UNACKED_CYCLE_REPORTS_MAX)%nat then Ret tt
            else _ ← call (LTrim CycleReports UNACKED_CYCLE_REPORTS_MAX); Ret tt
  | Raise _ => Ret tt
  end.
(** [_replay_unacked_cycle_reports]: oldest first, until one is not taken. *)
Fixpoint replay (l : list CycleReport) : P unit :=
  match l with
  | [] => Ret tt
  | raw :: rest =>
      delivered ← deliver_cycle_report raw;
      if (delivered : bool) then _ ← call (LRem CycleReports raw); replay rest else Ret tt
  end.
Definition replay_unacked_cycle_reports : P unit :=
  kept ← call (LRange CycleReports);
  match kept with Ok l => replay (rev l) | Raise _ => Ret tt end.

(** ** Inclusions of settled windows *)

Definition merge_dict (d d' : list (Z * Z)) : list (Z * Z) := fold_left (fun acc ib => dset ib.1 ib.2 acc) d' d.
(** [_pending_inclusions] *)
Definition pending_inclusions : P (option (list (Z * Z))) :=
  kept ← call GetPending;
  match kept with
  | Raise _ => Ret None
  | Ok o => m ← call ReadMem; Ret (Some (merge_dict (default [] o) (unacknowledged_inclusions m)))
  end.
Definition put (index : Z) (block : option Z) (d : list (Z * Z)) : list (Z * Z) :=
  match block with Some b => dset index b d | None => ddel index d end.
Definition with_unacknowledged (d : list (Z * Z)) (m : Mem) : Mem :=
  mkMem (settled_tempo_done m) d (miner_scores m) (live_cycle_ids m) (completed_cycles_since_start m).
(** [_keep_pending_inclusion] *)
Definition keep_pending_inclusion (index : Z) (block : option Z) : P unit :=
  m ← call ReadMem;
  _ ← call (WriteMem (with_unacknowledged (put index block (unacknowledged_inclusions m)) m));
  pending ← pending_inclusions;
  match pending with
  | None => Ret tt
  | Some p => _ ← call (SetPending (put index block p)); Ret tt
  end.
(** [_confirm_inclusion] *)
Definition confirm_inclusion (index block : Z) : P bool :=
  _ ← keep_pending_inclusion index (Some block);
  answer ← call (PostInclusion index block);
  let confirmed := match answer with Receipt => true | _ => false end in
  _ ← keep_pending_inclusion index (if confirmed then None else Some block);
  Ret confirmed.
Fixpoint confirm_all (l : list (Z * Z)) : P bool :=
  match l with
  | [] => Ret true
  | (index, block) :: rest => taken ← confirm_inclusion index block; if (taken : bool) then confirm_all rest else Ret false
  end.
(** [sorted(pending.items())]: by the text of the index. *)
Definition by_text (a b : Z * Z) : bool := String.leb (str_of_Z a.1) (str_of_Z b.1).
(** [_retry_pending_inclusion] *)
Definition retry_pending_inclusion : P bool :=
  pending ← pending_inclusions;
  match pending with None => Ret false | Some p => confirm_all (psort by_text p) end.

(** [report_cycle_scores]; the budgets say after how many calls the time limits end the two deliveries. *)
Definition deliver_kept_settlement_reports : P unit := _ ← retry_pending_inclusion; replay_unacked_cycle_reports.
Definition report_cycle_scores (burner_hotkey : option string) (payload : string -> CycleReport) (send_budget budget : nat) : P unit :=
  match burner_hotkey with
  | None => Ret tt
  | Some burner =>
      kept ← keep_cycle_report (payload burner);
      _ ← (if (kept : bool) then Ret tt else _ ← cut send_budget (deliver_cycle_report (payload burner)); Ret tt);
      _ ← cut budget deliver_kept_settlement_reports;
      cap_kept_cycle_reports
  end.

(** ** Live weights *)

(** [_send_live_weights], under its time limit. *)
Definition send_live_weights (report : LiveReport) : P bool :=
  answer ← call (PostLive report); Ret (match answer with Receipt | Rejected => true | NoReply | Broke => false end).
(** [drain_live_weights] *)
Fixpoint drain (l : list LiveReport) : P unit :=
  match l with
  | [] => Ret tt
  | raw :: rest => sent ← send_live_weights raw; if (sent : bool) then _ ← call (LRem LiveWeights raw); drain rest else Ret tt
  end.
Definition drain_live_weights : P unit :=
  kept ← call (LRange LiveWeights);
  match kept with Ok l => drain (rev l) | Raise _ => Ret tt end.
(** [report_live_weights] *)
Definition report_live_weights (inclusion_block : Z) (cycle_ids : list string) : P unit :=
  let report := mkLive inclusion_block cycle_ids in
  pushed ← call (LPush LiveWeights report);
  match pushed with
  | Raise _ => _ ← send_live_weights report; Ret tt
  | Ok _ => _ ← drain_live_weights; _ ← call (LTrim LiveWeights UNACKED_CYCLE_REPORTS_MAX); Ret tt
  end.

(** ** Submitting *)

Definition with_tempo_done (index : Z) (m : Mem) : Mem :=
  mkMem (Some index) (unacknowledged_inclusions m) (miner_scores m) (live_cycle_ids m) (completed_cycles_since_start m).
Definition mark_tempo_done (index : Z) : P unit := m ← call ReadMem; call (WriteMem (with_tempo_done index m)).
(** [_current_block_or_none], [_fetch_settled_window], [_submit_vector] *)
Definition current_block_or_none : P (option Z) :=
  block ← call GetBlock; Ret (match block with Ok b => Some b | Raise _ => None end).
Definition fetch_settled_window (index tempo : Z) : P (option SettledWeights) :=
  window ← call (GetWindow index tempo); Ret (match window with Ok o => o | Raise _ => None end).
Definition submit_vector (index : Z) (vector : list (string * Q)) : P bool :=
  accepted ← call (SetWeights (Some index) vector); Ret (match accepted with Ok b => b | Raise _ => false end).
Definition any_weight (d : list (string * Q)) : bool := existsb (fun hs => negb (Qeq_bool hs.2 0)) d.
(** [submit_settled_window] *)
Definition submit_settled_window : P bool :=
  tempo ← call GetTempo; tempo ← of_res tempo;
  block ← call GetBlock; block_before ← of_res block;
  if tempo =? 0 then Exc ZeroDivisionError
  else
    let index := tempo_index block_before tempo in
    m ← call ReadMem;
    if bool_decide (settled_tempo_done m = Some index) then Ret true
    else
      reported ← retry_pending_inclusion;
      if negb reported then Ret false
      else
        window ← fetch_settled_window index tempo;
        match window with
        | None => Ret false
        | Some s =>
            if negb (any_weight (sw_hotkey_scores s)) then _ ← mark_tempo_done index; Ret false
            else
              accepted ← submit_vector index (sw_hotkey_scores s);
              if (accepted : bool)
              then _ ← mark_tempo_done index;
                   block ← current_block_or_none;
                   _ ← confirm_inclusion index (default block_before block); Ret true
              else Ret false
        end.

(** [shadow_settled_window], the part that is not the log line. *)
Definition log_settled_window_against_live : P unit :=
  tempo ← call GetTempo; tempo ← of_res tempo;
  block ← call GetBlock; block ← of_res block;
  if tempo =? 0 then Exc ZeroDivisionError
  else
    let index := tempo_index block tempo in
    m ← call ReadMem;
    if bool_decide (settled_tempo_done m = Some index) then Ret tt
    else window ← fetch_settled_window index tempo;
         match window with None => Ret tt | Some _ => mark_tempo_done index end.
Definition shadow_settled_window (budget : nat) : P unit :=
  try_except (_ ← cut budget log_settled_window_against_live; Ret tt) (fun _ => Some (Ret tt)).

(** ** A tick's weights ([Validator.sync]) *)

Inductive settlement_mode := SETTLEMENT_OFF | SETTLEMENT_SHADOW | SETTLEMENT_ENFORCE.
Definition reset_scores : P unit :=
  m ← call ReadMem;
  call (WriteMem (mkMem (settled_tempo_done m) (unacknowledged_inclusions m) [] [] (completed_cycles_since_start m))).
(** When [should_set_weights] says so; any exception is logged and the tick goes on. *)
Definition set_weights_now (mode : settlement_mode) (dry_run : bool) (shadow_budget : nat) : P unit :=
  m ← call ReadMem;
  if (completed_cycles_since_start m <? 1)%nat then Ret tt
  else if dry_run then reset_scores
  else match mode with
       | SETTLEMENT_ENFORCE => _ ← submit_settled_window; _ ← reset_scores; drain_live_weights
       | _ =>
           block_before ← current_block_or_none;
           accepted ← call (SetWeights None (miner_scores m)); accepted ← of_res accepted;
           _ ← reset_scores;
           _ ← (if (accepted : bool)
                then block ← current_block_or_none;
                     match (match block with Some b => Some b | None => block_before end) with
                     | Some b => report_live_weights b (live_cycle_ids m)
                     | None => Ret tt
                     end
                else Ret tt);
           match mode with SETTLEMENT_SHADOW => shadow_settled_window shadow_budget | _ => Ret tt end
       end.
Definition sync_weights (mode : settlement_mode) (dry_run : bool) (shadow_budget : nat) : P unit :=
  try_except (set_weights_now mode dry_run shadow_budget) (fun _ => Some (Ret tt)).

(** A cycle's scores join the accumulator; its end counts it ([jobs] says whether it had miners). *)
Section Accumulate.
Context `{R : Rounding}.
Definition add_scores (cycle_scores acc : list (string * Q)) : list (string * Q) :=
  fold_left (fun d hs => dset hs.1 (fadd (dget_or 0%Q hs.1 d) hs.2) d) cycle_scores acc.
Definition accumulate (cycle_scores : list (string * Q)) (job_batch_id : string) : P unit :=
  m ← call ReadMem;
  call (WriteMem (mkMem (settled_tempo_done m) (unacknowledged_inclusions m) (add_scores cycle_scores (miner_scores m))
                    (live_cycle_ids m ++ [job_batch_id]) (completed_cycles_since_start m))).
Definition count_cycle (jobs : bool) : P unit :=
  if jobs then
    m ← call ReadMem;
    call (WriteMem (mkMem (settled_tempo_done m) (unacknowledged_inclusions m) (miner_scores m) (live_cycle_ids m)
                      (S (completed_cycles_since_start m))))
  else Ret tt.
End Accumulate.
