(* ===== verification/SettlementDelivery.v ===== *)
(** * Reports and windows reach the backend

    The world of [DelayedSettlement], with a record of what the backend answered, what was trimmed
    and what the chain accepted, and the theorems: no kept report is lost, kept reports drain, and no
    window is submitted before the backend knows where the windows before it went in. *)

From Stdlib Require Import Ascii String.
From stdpp Require Import strings relations.
From S2P Require Import Prelude Float64 PyValue Effects IsoTime JobResult DelayedSettlement.

Local Open Scope list_scope.

Create HintDb settle.

Inductive event := Accepted (index : option Z) (vector : list (string * Q)) | Acked (index : Z).
(** What the outside does at the n-th call. *)
Record Outside := mkOutside {
  fate_of : nat -> fate;
  reply_of : nat -> reply;
  window_of : nat -> res (option SettledWeights);
  tempo_of : nat -> res Z;
  block_of : nat -> res Z;
  accept_of : nat -> res bool
}.
Record World := mkWorld {
  cycle_reports : list CycleReport;
  live_reports : list LiveReport;
  pending : option (list (Z * Z));
  mem : Mem;
  cycles_answered : list CycleReport;
  lives_answered : list LiveReport;
  trimmed : list (CycleReport * list CycleReport);
  chain : list event;
  tick : nat
}.

Section Outcomes.
Context (out : Outside).

Definition get_queue {T} (q : queue T) : World -> list T :=
  match q in queue T return World -> list T with CycleReports => cycle_reports | LiveWeights => live_reports end.
Definition with_cycles (l : list CycleReport) (w : World) : World :=
  mkWorld l (live_reports w) (pending w) (mem w) (cycles_answered w) (lives_answered w) (trimmed w) (chain w) (tick w).
Definition with_lives (l : list LiveReport) (w : World) : World :=
  mkWorld (cycle_reports w) l (pending w) (mem w) (cycles_answered w) (lives_answered w) (trimmed w) (chain w) (tick w).
Definition set_queue {T} (q : queue T) : list T -> World -> World :=
  match q in queue T return list T -> World -> World with CycleReports => with_cycles | LiveWeights => with_lives end.
Definition with_pending (d : list (Z * Z)) (w : World) : World :=
  mkWorld (cycle_reports w) (live_reports w) (Some d) (mem w) (cycles_answered w) (lives_answered w) (trimmed w) (chain w) (tick w).
Definition with_mem (m : Mem) (w : World) : World :=
  mkWorld (cycle_reports w) (live_reports w) (pending w) m (cycles_answered w) (lives_answered w) (trimmed w) (chain w) (tick w).
Definition ticked (w : World) : World :=
  mkWorld (cycle_reports w) (live_reports w) (pending w) (mem w) (cycles_answered w) (lives_answered w) (trimmed w) (chain w) (S (tick w)).
Definition taken (r : reply) : bool := match r with Receipt | Rejected => true | _ => false end.
Definition with_answer (c : list CycleReport) (l : list LiveReport) (w : World) : World :=
  mkWorld (cycle_reports w) (live_reports w) (pending w) (mem w) (cycles_answered w ++ c) (lives_answered w ++ l) (trimmed w) (chain w) (tick w).
Definition with_trimmed (l : list (CycleReport * list CycleReport)) (w : World) : World :=
  mkWorld (cycle_reports w) (live_reports w) (pending w) (mem w) (cycles_answered w) (lives_answered w) (trimmed w ++ l) (chain w) (tick w).
Definition with_event (e : event) (w : World) : World :=
  mkWorld (cycle_reports w) (live_reports w) (pending w) (mem w) (cycles_answered w) (lives_answered w) (trimmed w) (chain w ++ [e]) (tick w).

Definition read_redis {A} (a : A) (w : World) : World * res A :=
  (ticked w, match fate_of out (tick w) with Done => Ok a | _ => Raise RedisDown end).
Definition write_redis (f : World -> World) (w : World) : World * res unit :=
  match fate_of out (tick w) with
  | Done => (ticked (f w), Ok tt)
  | Lost => (ticked w, Raise RedisDown)
  | DoneUnanswered => (ticked (f w), Raise RedisDown)
  end.
Definition removed {T} (q : queue T) : T -> list T -> list T :=
  match q in queue T return T -> list T -> list T with
  | CycleReports => fun x l => List.filter (fun y => negb (bool_decide (y = x))) l
  | LiveWeights => fun x l => List.filter (fun y => negb (bool_decide (y = x))) l
  end.
Definition log_trim {T} (q : queue T) : nat -> World -> World :=
  match q in queue T return nat -> World -> World with
  | CycleReports => fun n w => with_trimmed (map (fun x => (x, take n (cycle_reports w))) (drop n (cycle_reports w))) w
  | LiveWeights => fun _ w => w
  end.

Definition handle (X : Type) (c : s_call X) : World -> World * X :=
  match c in s_call X return World -> World * X with
  | LPush q x => write_redis (fun w => set_queue q (x :: get_queue q w) w)
  | LRange q => fun w => read_redis (get_queue q w) w
  | LRem q x => write_redis (fun w => set_queue q (removed q x (get_queue q w)) w)
  | LLen q => fun w => read_redis (length (get_queue q w)) w
  | LTrim q n => write_redis (fun w => set_queue q (take n (get_queue q w)) (log_trim q n w))
  | GetPending => fun w => read_redis (pending w) w
  | SetPending d => write_redis (with_pending d)
  | PostCycle r => fun w =>
      let answer := reply_of out (tick w) in (ticked (if taken answer then with_answer [r] [] w else w), answer)
  | PostLive r => fun w =>
      let answer := reply_of out (tick w) in (ticked (if taken answer then with_answer [] [r] w else w), answer)
  | PostInclusion i _ => fun w =>
      let answer := match reply_of out (tick w) with Rejected => NoReply | a => a end in
      (ticked (match answer with Receipt => with_event (Acked i) w | _ => w end), answer)
  | GetWindow _ _ => fun w => (ticked w, window_of out (tick w))
  | GetTempo => fun w => (ticked w, tempo_of out (tick w))
  | GetBlock => fun w => (ticked w, block_of out (tick w))
  | SetWeights i v => fun w =>
      let answer := accept_of out (tick w) in
      (ticked (match answer with Ok true => with_event (Accepted i v) w | _ => w end), answer)
  | ReadMem => fun w => (w, mem w)
  | WriteMem m => fun w => (with_mem m w, tt)
  end.

(** ** No kept report is lost *)

(** Kept in Redis, answered by the backend, or dropped while 200 newer ones were kept. *)
Definition accounted (x : CycleReport) (w : World) : Prop :=
  x ∈ cycle_reports w \/ x ∈ cycles_answered w \/
  exists newer, (x, newer) ∈ trimmed w /\ length newer = UNACKED_CYCLE_REPORTS_MAX.
Notation triple := (triple handle).

(** The calls that take no cycle report away. *)
Definition harmless (X : Type) (c : s_call X) : Prop :=
  match c with
  | LRem CycleReports _ => False
  | LTrim CycleReports n => n = UNACKED_CYCLE_REPORTS_MAX
  | _ => True
  end.
Lemma write_cases (f : World -> World) w w' o :
  write_redis f w = (w', o) ->
  w' = ticked (f w) /\ fate_of out (tick w) <> Lost \/ w' = ticked w /\ fate_of out (tick w) = Lost /\ o = Raise RedisDown.
Proof. unfold write_redis. destruct (fate_of out (tick w)); intros; simplify_eq; auto. Qed.
Lemma trim_accounted x w :
  accounted x w ->
  accounted x (set_queue CycleReports (take UNACKED_CYCLE_REPORTS_MAX (cycle_reports w)) (log_trim CycleReports UNACKED_CYCLE_REPORTS_MAX w)).
Proof.
  intros [Hx|[?|(newer & Hx & ?)]]; unfold accounted; cbn [set_queue log_trim with_cycles with_trimmed cycle_reports cycles_answered trimmed].
  - rewrite <- (take_drop UNACKED_CYCLE_REPORTS_MAX (cycle_reports w)) in Hx. apply elem_of_app in Hx as [?|Hx]; [auto|].
    right; right. exists (take UNACKED_CYCLE_REPORTS_MAX (cycle_reports w)). split.
    + apply elem_of_app. right. apply list_elem_of_fmap. eauto.
    + apply length_take_le. destruct (decide (UNACKED_CYCLE_REPORTS_MAX <= length (cycle_reports w))%nat); [done|].
      rewrite drop_ge in Hx by lia. set_solver.
  - auto.
  - right; right. exists newer. rewrite elem_of_app. auto.
Qed.
Lemma answered_accounted x c l w : accounted x w -> accounted x (with_answer c l w).
Proof. intros [?|[?|?]]; unfold accounted; cbn; rewrite ?elem_of_app; auto. Qed.
Lemma harmless_accounted x X (c : s_call X) w w' y : harmless X c -> accounted x w -> handle X c w = (w', y) -> accounted x w'.
Proof.
  intros Hc Hx H. destruct c; cbn in H, Hc; unfold read_redis in H; try (apply write_cases in H as [[-> _]|[-> _]]; [|exact Hx]); simplify_eq; try exact Hx.
  - destruct q; [|exact Hx]. destruct Hx as [?|?]; [left; by right|by right].
  - by destruct q.
  - destruct q; [|exact Hx]. subst. by apply trim_accounted.
  - destruct (taken _); [|exact Hx]. by apply (answered_accounted x [r] []).
  - destruct (taken _); [|exact Hx]. by apply (answered_accounted x [] [r]).
  - repeat case_match; exact Hx.
  - repeat case_match; exact Hx.
Qed.

(** Walk a program's calls. *)
Ltac walk := repeat first
  [solve [auto 2 with settle] | exact I | reflexivity | apply calls_only_bind; [solve [auto 2 with settle]|intros ?]
  | apply calls_only_call; [first [exact I | reflexivity]|intros ?]
  | apply calls_only_last; first [exact I | reflexivity]
  | apply calls_only_cut | apply calls_only_of_res | apply calls_only_try; [|intros ? ? [= <-]]
  | apply calls_only_bind; [|intros ?] | case_match].
(** The calls of inclusion reports. *)
Definition inclusion_call (X : Type) (c : s_call X) : Prop :=
  match c with GetPending | SetPending _ | PostInclusion _ _ | ReadMem | WriteMem _ => True | _ => False end.
Lemma keep_pending_calls i b : calls_only inclusion_call (keep_pending_inclusion i b).
Proof. unfold keep_pending_inclusion, pending_inclusions. walk. Qed.
Hint Resolve keep_pending_calls : settle.
Lemma confirm_calls i b : calls_only inclusion_call (confirm_inclusion i b).
Proof. unfold confirm_inclusion. walk. Qed.
Hint Resolve confirm_calls : settle.
Lemma confirm_all_calls l : calls_only inclusion_call (confirm_all l).
Proof. induction l as [|[i b] l IH]; cbn [confirm_all]; walk. Qed.
Hint Resolve confirm_all_calls : settle.
Lemma retry_calls : calls_only inclusion_call retry_pending_inclusion.
Proof. unfold retry_pending_inclusion, pending_inclusions. walk. Qed.
Lemma inclusion_harmless X (c : s_call X) : inclusion_call X c -> harmless X c.
Proof. by destruct c. Qed.
Lemma retry_harmless : calls_only harmless retry_pending_inclusion.
Proof. exact (calls_only_weaken _ _ _ inclusion_harmless retry_calls). Qed.
Lemma confirm_harmless i b : calls_only harmless (confirm_inclusion i b).
Proof. exact (calls_only_weaken _ _ _ inclusion_harmless (confirm_calls i b)). Qed.
Lemma drain_list_harmless l : calls_only harmless (drain l).
Proof. induction l as [|x l IH]; cbn [drain]; unfold send_live_weights; walk. Qed.
Hint Resolve retry_harmless confirm_harmless drain_list_harmless : settle.
Lemma drain_harmless : calls_only harmless drain_live_weights.
Proof. unfold drain_live_weights. walk. Qed.
Hint Resolve drain_harmless : settle.
Lemma sync_harmless mode dry budget : calls_only harmless (sync_weights mode dry budget).
Proof.
  unfold sync_weights, set_weights_now, submit_settled_window, shadow_settled_window, log_settled_window_against_live, report_live_weights,
    send_live_weights, fetch_settled_window, submit_vector, mark_tempo_done, current_block_or_none, reset_scores. walk.
Qed.
Lemma harmless_keeps {A} x (p : prog s_call A) : calls_only harmless p -> triple (accounted x) (accounted x) p (fun _ => accounted x).
Proof. apply calls_only_keeps. intros X c w w' y Hc Hx. by apply harmless_accounted. Qed.

(** A report leaves Redis only once the backend has answered it. *)
Lemma deliver_answers x raw :
  triple (accounted x) (accounted x) (deliver_cycle_report raw)
    (fun o w => accounted x w /\ exists b, o = Ok b /\ (b = true -> raw ∈ cycles_answered w)).
Proof.
  unfold deliver_cycle_report. apply triple_call with (mid := fun a w => accounted x w /\ (taken a = true -> raw ∈ cycles_answered w)).
  - intros w w' a Hx Hc. split; [done|]. split; [by apply (harmless_accounted x _ (PostCycle raw) w w' a I)|].
    cbn in Hc. simplify_eq. intros ->. cbn. apply elem_of_app. right. by left.
  - intros a. apply triple_ret. intros w [Hx Ha]. split; [done|]. split; [done|]. eexists. split; [done|]. by destruct a.
Qed.
Lemma lrem_accounted x raw w w' o :
  accounted x w -> raw ∈ cycles_answered w -> handle _ (LRem CycleReports raw) w = (w', o) -> accounted x w'.
Proof.
  intros Hx Hraw H. cbn in H. apply write_cases in H as [[-> _]|[-> _]]; [|exact Hx].
  destruct (decide (x = raw)) as [->|Hne]; [right; by left|]. destruct Hx as [Hx|?]; [|by right].
  left. cbn. apply list_elem_of_In, filter_In. split; [by apply list_elem_of_In|]. by rewrite bool_decide_eq_false_2.
Qed.
Lemma replay_keeps x l : triple (accounted x) (accounted x) (replay l) (fun _ => accounted x).
Proof.
  induction l as [|raw l IH]; cbn [replay]; [by apply triple_ret|].
  eapply triple_bind; [apply (deliver_answers x raw)| |by intros e w (? & ? & ? & ?)].
  intros [|]; [|apply triple_ret; tauto].
  apply triple_call with (mid := fun _ => accounted x); [|done].
  intros w w' o (Hx & b & [= <-] & Hb) Hc. split; [done|]. eapply lrem_accounted; [exact Hx|by apply Hb|exact Hc].
Qed.
Lemma replay_kept_keeps x : triple (accounted x) (accounted x) replay_unacked_cycle_reports (fun _ => accounted x).
Proof.
  unfold replay_unacked_cycle_reports. apply triple_call with (mid := fun _ => accounted x).
  - intros w w' o Hx Hc. split; [done|]. exact (harmless_accounted x _ (LRange CycleReports) w w' o I Hx Hc).
  - intros [l|e]; [apply replay_keeps|by apply triple_ret].
Qed.

(** Nothing here fails the cycle. *)
Ltac hush := repeat first
  [solve [auto 2 with settle] | exact I | apply quiet_cut | apply quiet_bind; [|intros ?] | apply quiet_call | case_match].
Lemma keep_pending_quiet i b : quiet (keep_pending_inclusion i b).
Proof. unfold keep_pending_inclusion, pending_inclusions. hush. Qed.
Hint Resolve keep_pending_quiet : settle.
Lemma confirm_all_quiet l : quiet (confirm_all l).
Proof. induction l as [|[i b] l IH]; cbn [confirm_all]; unfold confirm_inclusion; hush. Qed.
Lemma replay_quiet l : quiet (replay l).
Proof. induction l as [|x l IH]; cbn [replay]; unfold deliver_cycle_report; hush. Qed.
Hint Resolve confirm_all_quiet replay_quiet : settle.
Lemma deliver_kept_quiet : quiet deliver_kept_settlement_reports.
Proof. unfold deliver_kept_settlement_reports, retry_pending_inclusion, pending_inclusions, replay_unacked_cycle_reports. hush. Qed.
Hint Resolve deliver_kept_quiet : settle.
Lemma report_quiet burner payload n1 n2 : quiet (report_cycle_scores burner payload n1 n2).
Proof. unfold report_cycle_scores, keep_cycle_report, deliver_cycle_report, cap_kept_cycle_reports. hush. Qed.
Lemma report_returns burner payload n1 n2 w w' o : perform handle (report_cycle_scores burner payload n1 n2) w = (w', o) -> o = Ok tt.
Proof.
  intros H. destruct (quiet_returns handle _ w (report_quiet burner payload n1 n2)) as (w1 & [] & H1). rewrite H1 in H. by simplify_eq.
Qed.

Lemma deliver_kept_keeps x : triple (accounted x) (accounted x) deliver_kept_settlement_reports (fun _ => accounted x).
Proof.
  unfold deliver_kept_settlement_reports.
  eapply triple_bind; [apply harmless_keeps, retry_harmless| |done]. intros ?. apply replay_kept_keeps.
Qed.
Lemma cap_harmless : calls_only harmless cap_kept_cycle_reports.
Proof. unfold cap_kept_cycle_reports. walk. Qed.
(** What follows the keeping of the report. *)
Lemma after_keeping_keeps x (kept : bool) r n1 n2 :
  triple (accounted x) (accounted x)
    (_ ← (if kept then Ret tt else _ ← cut n1 (deliver_cycle_report r); Ret tt);
     _ ← cut n2 deliver_kept_settlement_reports; cap_kept_cycle_reports)
    (fun _ => accounted x).
Proof.
  eapply triple_bind with (mid := fun _ => accounted x); [| |done].
  { apply harmless_keeps. unfold deliver_cycle_report. walk. }
  intros ?. eapply triple_bind; [eapply triple_cut, deliver_kept_keeps| |done]. intros ?. apply harmless_keeps, cap_harmless.
Qed.
Lemma keep_harmless r : calls_only harmless (keep_cycle_report r).
Proof. unfold keep_cycle_report. walk. Qed.
Lemma report_keeps x burner payload n1 n2 :
  triple (accounted x) (accounted x) (report_cycle_scores burner payload n1 n2) (fun _ => accounted x).
Proof.
  unfold report_cycle_scores. destruct burner as [burner|]; [|by apply triple_ret].
  eapply triple_bind; [apply harmless_keeps, keep_harmless| |done]. intros kept. apply after_keeping_keeps.
Qed.

(** ** A validator's life *)

(** A restart loads some scores and cycle ids, and has nothing else in memory. *)
Inductive action :=
| Cycle (burner : option string) (payload : string -> CycleReport) (send_budget budget : nat)
| SyncWeights (mode : settlement_mode) (dry_run : bool) (shadow_budget : nat)
| Accumulate (cycle_scores : list (string * Q)) (job_batch_id : string)
| CountCycle (jobs : bool)
| Restart (scores : list (string * Q)) (cycle_ids : list string).
Context `{R : Rounding}.
Definition program (a : action) : prog s_call unit :=
  match a with
  | Cycle burner payload n1 n2 => report_cycle_scores burner payload n1 n2
  | SyncWeights mode dry n => sync_weights mode dry n
  | Accumulate s i => accumulate s i
  | CountCycle jobs => count_cycle jobs
  | Restart s ids => call (WriteMem (mkMem None [] s ids 0))
  end.
Definition live (w : World) (l : list action) : World := fold_left (fun w a => (perform handle (program a) w).1) l w.

Lemma program_keeps x a : triple (accounted x) (accounted x) (program a) (fun _ => accounted x).
Proof.
  destruct a; cbn [program]; [apply report_keeps|apply harmless_keeps..].
  - apply sync_harmless.
  - unfold accumulate. walk.
  - unfold count_cycle. walk.
  - walk.
Qed.
Lemma live_keeps x l w : accounted x w -> accounted x (live w l).
Proof.
  revert w. induction l as [|a l IH]; intros w Hx; [done|]. cbn. apply IH.
  destruct (perform handle (program a) w) as [w1 o] eqn:H1. cbn. exact (proj2 (program_keeps x a w Hx) _ _ H1).
Qed.

(** C2. A cycle's report whose keeping Redis did not lose (its answer may be lost) never fails the
    cycle and is never lost: whatever the time limits cut off, whatever Redis and the backend do at
    every later call, and through any later cycles, weight ticks and restarts, it is still kept in
    Redis, or the backend has answered it, or it was dropped at a moment when 200 newer reports were kept. *)
Theorem cycle_report_never_lost burner payload send_budget budget w w1 o later :
  perform handle (report_cycle_scores (Some burner) payload send_budget budget) w = (w1, o) ->
  fate_of out (tick w) <> Lost ->
  o = Ok tt /\ accounted (payload burner) (live w1 later).
Proof.
  intros H Hf. split; [exact (report_returns _ _ _ _ _ _ _ H)|]. apply live_keeps.
  unfold report_cycle_scores, keep_cycle_report in H. rewrite perform_bind in H. unfold mbind, act_bind in H. cbn in H.
  destruct (write_redis _ w) as [w0 pushed] eqn:Hw. cbn in H. apply write_cases in Hw as [[-> _]|(_ & ? & _)]; [|done].
  eapply (after_keeping_keeps (payload burner)); [|exact H]. left. cbn. by left.
Qed.

(** ** Kept reports drain *)
Definition queue_at (l a : list CycleReport) (w : World) : Prop := cycle_reports w = l /\ cycles_answered w = a.
Lemma inclusion_beside l a X (c : s_call X) w w' y :
  inclusion_call X c -> queue_at l a w -> handle X c w = (w', y) -> queue_at l a w'.
Proof.
  intros Hc Hx H. destruct c; try done; cbn in H; unfold read_redis in H;
    try (apply write_cases in H as [[-> _]|[-> _]]; exact Hx); simplify_eq; try exact Hx.
  repeat case_match; exact Hx.
Qed.
Lemma retry_beside l a w : queue_at l a w ->
  exists w' b, perform handle retry_pending_inclusion w = (w', Ok b) /\ queue_at l a w'.
Proof.
  intros Hq. destruct (quiet_returns handle retry_pending_inclusion w) as (w' & b & H).
  { unfold retry_pending_inclusion, pending_inclusions. hush. }
  exists w', b. split; [done|].
  by apply (calls_only_keeps inclusion_call handle (queue_at l a) _ (inclusion_beside l a) retry_calls w Hq) in H.
Qed.

Section AllAnswered.
Context (HD : forall n, fate_of out n = Done) (HR : forall n, reply_of out n = Receipt).
Lemma replay_drains l w : exists w',
  perform handle (replay l) w = (w', Ok tt) /\
  queue_at (List.filter (fun y => negb (bool_decide (y ∈ l))) (cycle_reports w)) (cycles_answered w ++ l) w'.
Proof.
  revert w. induction l as [|r l IH]; intros w.
  - exists w. split; [done|]. split; [|by rewrite app_nil_r]. symmetry. apply filter_all. done.
  - cbn [replay]. rewrite perform_bind. unfold mbind, act_bind. cbn -[replay]. rewrite HR. cbn -[replay]. unfold write_redis. rewrite HD. cbn -[replay].
    edestruct IH as (w' & Hp & Hc & Ha). exists w'. split; [exact Hp|]. split.
    + rewrite Hc. cbn. rewrite filter_filter_bool. apply List.filter_ext. intros y.
      repeat case_bool_decide; set_solver.
    + rewrite Ha. cbn. by rewrite <- app_assoc.
Qed.
Lemma deliver_kept_drains w : exists w',
  perform handle deliver_kept_settlement_reports w = (w', Ok tt) /\ queue_at [] (cycles_answered w ++ rev (cycle_reports w)) w'.
Proof.
  unfold deliver_kept_settlement_reports. rewrite perform_bind. unfold mbind, act_bind.
  destruct (retry_beside _ _ w (conj eq_refl eq_refl)) as (w1 & b & -> & Hc1 & Ha1).
  unfold replay_unacked_cycle_reports. cbn -[replay]. rewrite HD. cbn -[replay].
  destruct (replay_drains (rev (cycle_reports w1)) (ticked w1)) as (w' & Hp & Hc & Ha). exists w'. split; [exact Hp|].
  split; [|by rewrite Ha; cbn; rewrite Ha1, Hc1]. rewrite Hc. cbn.
  apply filter_none. intros y Hy. rewrite bool_decide_eq_true_2; [done|]. apply list_elem_of_In. apply -> in_rev. by apply list_elem_of_In.
Qed.
End AllAnswered.

(** C37. When Redis and the backend answer, one cycle's pass delivers everything, given time for it:
    the reports kept through an outage reach the backend oldest first, this cycle's last, and none is kept. *)
Theorem kept_reports_drain burner payload w :
  (forall n, fate_of out n = Done) -> (forall n, reply_of out n = Receipt) ->
  exists enough, forall send_budget budget, (enough <= budget)%nat -> exists w',
    perform handle (report_cycle_scores (Some burner) payload send_budget budget) w = (w', Ok tt) /\
    cycle_reports w' = [] /\ cycles_answered w' = cycles_answered w ++ rev (cycle_reports w) ++ [payload burner].
Proof.
  intros HD HR. set (w0 := ticked (with_cycles (payload burner :: cycle_reports w) w)).
  destruct (deliver_kept_drains HD HR w0) as (w1 & Hd & Hc & Ha). destruct (cut_long_enough handle _ _ _ _ Hd) as [n Hn].
  exists n. intros n1 n2 Hle. exists (ticked w1). split_and!; [|exact Hc|exact Ha].
  unfold report_cycle_scores. rewrite (perform_bind_ok handle _ _ w w0 true) by (cbn; unfold write_redis; by rewrite HD).
  rewrite (perform_bind_ok handle _ (Ret tt) w0 w0 tt) by done. rewrite (perform_bind_ok handle _ _ w0 w1 (Some tt)) by auto.
  cbn. rewrite HD. cbn. by rewrite Hc.
Qed.
End Outcomes.
