(* ===== verification/SettlementWindows.v ===== *)
(** * Windows wait for their reports

    Under settlement the deposits of a window are owed back once the backend knows the block it went in
    at.  Across any run of the validator no settled window is submitted before the backend has
    acknowledged every window the chain accepted before it. *)

From Stdlib Require Import Ascii String.
From stdpp Require Import strings.
From S2P Require Import Prelude Float64 PyValue Effects IsoTime JobResult DelayedSettlement SettlementDelivery.

Local Open Scope list_scope.

Create HintDb steady.

(** The record of the chain: each settled window comes after the acknowledgement of all before it. *)
Definition all_acked (c : list event) : Prop := forall i v, Accepted (Some i) v ∈ c -> Acked i ∈ c.
Definition in_order (c : list event) : Prop := forall c1 j v c2, c = c1 ++ Accepted (Some j) v :: c2 -> all_acked c1.
Definition fits (c : list event) (e : event) : Prop := match e with Accepted (Some _) _ => all_acked c | _ => True end.
Lemma in_order_snoc c e : in_order c -> fits c e -> in_order (c ++ [e]).
Proof.
  intros Hc He c1 j v c2 H. destruct c2 as [|e' c2 _] using rev_ind.
  - apply app_inj_tail in H as [-> ->]. exact He.
  - rewrite app_comm_cons, app_assoc in H. apply app_inj_tail in H as [-> _]. by eapply Hc.
Qed.

(** What memory and Redis still know of an accepted window. *)
Definition held (w : World) (i : Z) : Prop :=
  i ∈ dkeys (unacknowledged_inclusions (mem w)) \/ i ∈ dkeys (default [] (pending w)).
(** Every accepted window, [i] apart, is acknowledged or held. *)
Definition tracked_but (but : Z -> Prop) (w : World) : Prop :=
  in_order (chain w) /\ forall i v, ~ but i -> Accepted (Some i) v ∈ chain w -> Acked i ∈ chain w \/ held w i.
Definition tracked : World -> Prop := tracked_but (fun _ => False).

Lemma tracked_weaken but w : tracked w -> tracked_but but w.
Proof. intros [Ho Hh]. split; [done|]. intros i v _. exact (Hh i v (fun f => f)). Qed.
Lemma keys_dset (k : Z) (v : Z) d j : j ∈ dkeys (dset k v d) <-> j = k \/ j ∈ dkeys d.
Proof. rewrite dkeys_dset. destruct (din k d) eqn:E; [apply din_keys in E|]; set_solver. Qed.
Lemma keys_ddel (k : Z) (d : list (Z * Z)) j : j ∈ dkeys (ddel k d) <-> j <> k /\ j ∈ dkeys d.
Proof.
  unfold dkeys, ddel. rewrite !list_elem_of_fmap. setoid_rewrite elem_of_bfilter. split.
  - intros (x & -> & ? & Hx). apply negb_true_iff, bool_decide_eq_false in Hx. eauto.
  - intros (? & x & -> & ?). exists x. split_and!; [done..|]. by rewrite bool_decide_eq_false_2.
Qed.
Lemma keys_merge d d' j : j ∈ dkeys (merge_dict d d') <-> j ∈ dkeys d \/ j ∈ dkeys d'.
Proof.
  unfold merge_dict. revert d. induction d' as [|[k v] d' IH]; intros d; cbn; [unfold dkeys; set_solver|].
  rewrite IH, keys_dset. unfold dkeys. cbn. set_solver.
Qed.
Lemma keys_put k b d j : j <> k -> j ∈ dkeys (put k b d) <-> j ∈ dkeys d.
Proof. intros. destruct b; cbn; [rewrite keys_dset|rewrite keys_ddel]; tauto. Qed.

Section Windows.
Context (out : Outside) `{R : Rounding}.
Notation triple := (triple (handle out)).

(** The calls that neither submit a window nor write what is held. *)
Definition steady (X : Type) (c : s_call X) : Prop :=
  match c with SetPending _ | WriteMem _ | SetWeights (Some _) _ => False | _ => True end.
(** What a steady call may do to the chain's record and to what is held. *)
Definition calmer (w w' : World) : Prop :=
  mem w' = mem w /\ pending w' = pending w /\ (chain w' = chain w \/ exists e, chain w' = chain w ++ [e] /\ forall i v, e <> Accepted (Some i) v).
Lemma steady_calmer X (c : s_call X) w w' y : steady X c -> handle out X c w = (w', y) -> calmer w w'.
Proof.
  intros Hc H. destruct c; try done; cbn in H; unfold read_redis in H;
    try (apply write_cases in H as [[-> _]|[-> _]]); simplify_eq; try (destruct q); try (by split_and!; auto).
  - destruct (taken _); by split_and!; auto.
  - destruct (taken _); by split_and!; auto.
  - destruct (reply_of out (tick w)); cbn; split_and!; eauto.
  - destruct index; [done|]. destruct (accept_of out (tick w)) as [[]|]; cbn; split_and!; eauto.
Qed.
Lemma calmer_tracked but w w' : calmer w w' -> tracked_but but w -> tracked_but but w'.
Proof.
  intros (Hm & Hp & Hc) [Ho Hh]. unfold tracked_but, held in *. rewrite Hm, Hp. destruct Hc as [->|(e & -> & He)]; [done|]. split.
  - apply in_order_snoc; [done|]. destruct e as [[i|] v|]; cbn; [by destruct (He i v)|done..].
  - intros i v Hi Hv. apply elem_of_app in Hv as [Hv|Hv%list_elem_of_singleton]; [|by destruct (He i v)].
    rewrite elem_of_app. destruct (Hh i v Hi Hv); tauto.
Qed.
Lemma calmer_acked i w w' : calmer w w' -> Acked i ∈ chain w -> Acked i ∈ chain w'.
Proof. intros (_ & _ & [->|(e & -> & _)]); rewrite ?elem_of_app; auto. Qed.
Lemma calmer_all_acked w w' : calmer w w' -> all_acked (chain w) -> all_acked (chain w').
Proof.
  intros (_ & _ & [->|(e & -> & He)]) H; [done|]. intros i v Hv. apply elem_of_app in Hv as [Hv|Hv%list_elem_of_singleton]; [|by destruct (He i v)].
  apply elem_of_app. eauto.
Qed.

(** ** Keeping and confirming an inclusion *)

(** Every inclusion that is held is in the map that was read. *)
Definition covered (r : option (list (Z * Z))) (w : World) : Prop := forall p j, r = Some p -> held w j -> j ∈ dkeys p.
Lemma pending_reads (Inv Q : World -> Prop) :
  (forall w, Q w -> Inv w) -> (forall w, Q w -> Q (ticked w)) ->
  triple Inv Q pending_inclusions (fun o w => Q w /\ exists r, o = Ok r /\ covered r w).
Proof.
  intros HQ Ht. unfold pending_inclusions.
  apply triple_call with (mid := fun r w => Q w /\ forall d, r = Ok d -> d = pending w).
  { intros w w' r Hw Hc. split; [auto|]. cbn in Hc. unfold read_redis in Hc. simplify_eq. split; [auto|]. by destruct (fate_of _ _); intros d [= <-]. }
  intros [d|e]; [|apply triple_ret; intros w [Hw _]; split; [auto|]; split; [done|]; by exists None].
  apply triple_call with (mid := fun m w => Q w /\ d = pending w /\ m = mem w).
  { intros w w' m [Hw Hd] Hc. cbn in Hc. simplify_eq. split_and!; auto. }
  intros m. apply triple_ret. intros w (Hw & -> & ->). split; [auto|]. split; [done|]. eexists. split; [done|].
  intros p j [= <-] [?|?]; apply keys_merge; auto.
Qed.

Section Keep.
Context (Inv : World -> Prop) (but : Z -> Prop) (i : Z) (F : list event -> Prop).
Context (Hbut : forall j, but j -> j = i) (HInv : forall w, tracked_but but w -> Inv w).
Definition before (w : World) : Prop := tracked_but but w /\ F (chain w).
Definition after (w : World) : Prop := tracked w /\ F (chain w).

Lemma rewritten_tracked (b : option Z) w w' :
  before w -> (b = None -> Acked i ∈ chain w) -> chain w' = chain w -> (forall j, j <> i -> held w j -> held w' j) -> (b <> None -> held w' i) -> after w'.
Proof.
  intros [[Ho Hh] HFw] Hb Hc Hj Hi. unfold after, tracked, tracked_but. rewrite Hc. split; [|done]. split; [done|]. intros j v _ Hv.
  destruct (decide (j = i)) as [->|Hne].
  - destruct b; [right; by apply Hi|left; by apply Hb].
  - destruct (Hh j v (fun H => Hne (Hbut j H)) Hv); auto.
Qed.
Lemma after_before w : after w -> before w.
Proof. intros [Ht ?]. split; [by apply tracked_weaken|done]. Qed.
Lemma before_ticked w : before w -> before (ticked w).
Proof. done. Qed.
Lemma keep_tracked b :
  (b = None -> forall c, F c -> Acked i ∈ c) -> triple Inv before (keep_pending_inclusion i b) (fun o w => o = Ok tt /\ after w).
Proof.
  intros Hb. unfold keep_pending_inclusion.
  apply triple_call with (mid := fun m w => before w /\ m = mem w).
  { intros w w' m Hw Hc. cbn in Hc. simplify_eq. split; [by apply HInv, Hw|done]. }
  intros m. apply triple_call with (mid := fun _ => after).
  { intros w w' [] [Hw ->] Hc. split; [by apply HInv, Hw|]. cbn in Hc. simplify_eq. apply (rewritten_tracked b w); [done| |done|..].
    - intros Hn. exact (Hb Hn _ (proj2 Hw)).
    - intros j Hne [?|?]; [left; cbn; by rewrite keys_put|by right].
    - destruct b; [|done]. intros _. left. cbn. apply keys_dset. auto. }
  intros _. eapply triple_bind; [apply (pending_reads _ after); [|done]| |].
  { intros w Hw. by apply HInv, after_before. }
  2: { by intros e w (_ & r & ? & _). }
  intros r. destruct r as [p|].
  - apply triple_call with (mid := fun _ => after).
    + intros w w' o (Hw & r & [= <-] & Hr) Hc. split; [by apply HInv, after_before|].
      cbn in Hc. apply write_cases in Hc as [[-> _]|[-> _]]; [|exact Hw]. apply (rewritten_tracked b w); [by apply after_before| |done|..].
      * intros Hn. exact (Hb Hn _ (proj2 Hw)).
      * intros j Hne Hj. right. cbn. apply keys_put; [done|]. by apply Hr.
      * destruct b; [|done]. intros _. right. cbn. apply keys_dset. auto.
    + intros o. apply triple_ret. intros w Hw. split; [by apply HInv, after_before|done].
  - apply triple_ret. intros w [Hw _]. split; [by apply HInv, after_before|done].
Qed.
End Keep.

Section Confirm.
Context (Inv : World -> Prop) (but : Z -> Prop) (i : Z) (F : list event -> Prop).
Context (Hbut : forall j, but j -> j = i) (HInv : forall w, tracked_but but w -> Inv w) (HF : forall c k, F c -> F (c ++ [Acked k])).
Lemma tracked_inv w : tracked w -> Inv w.
Proof. intros. by apply HInv, tracked_weaken. Qed.
Lemma confirm_tracked b :
  triple Inv (before but F) (confirm_inclusion i b)
    (fun o w => exists c, o = Ok c /\ after F w /\ (c = true -> Acked i ∈ chain w)).
Proof.
  unfold confirm_inclusion. eapply triple_bind; [by apply (keep_tracked Inv but i F)| |by intros e w [? _]].
  intros []. set (G (a : reply) (c : list event) := F c /\ (a = Receipt -> Acked i ∈ c)).
  apply triple_call with (mid := fun a => after (G a)).
  { intros w w' a [_ Hw] Hc. split; [by apply tracked_inv, Hw|]. pose proof (steady_calmer _ (PostInclusion i b) w w' a I Hc) as Hcalm.
    destruct Hw as [Ht HFw]. split; [by apply (calmer_tracked _ w)|]. cbn in Hc. simplify_eq.
    destruct (reply_of out (tick w)); cbn; (split; [auto|done||idtac]). intros _. apply elem_of_app. right. by left. }
  intros a. eapply triple_bind; [apply (keep_tracked Inv (fun _ => False) i (G a))| |by intros e w [? _]].
  - done.
  - apply tracked_inv.
  - intros Hn c [_ Hc]. apply Hc. by destruct a.
  - intros []. apply triple_ret. intros w [_ [Ht [HFw Ha]]]. split; [by apply tracked_inv|]. eexists. split; [done|]. split; [done|]. destruct a; intros; simplify_eq; auto.
Qed.
End Confirm.

(** Every accepted window is acknowledged or one of [l]. *)
Definition remaining (l : list (Z * Z)) (c : list event) : Prop := forall j v, Accepted (Some j) v ∈ c -> Acked j ∈ c \/ j ∈ l.*1.
Lemma remaining_ack l c k : remaining l c -> remaining l (c ++ [Acked k]).
Proof. intros H j v Hv. apply elem_of_app in Hv as [Hv|Hv]; [|set_solver]. rewrite elem_of_app. destruct (H j v Hv); auto. Qed.
Lemma confirm_all_tracked l :
  triple tracked (fun w => tracked w /\ remaining l (chain w)) (confirm_all l)
    (fun o w => exists c, o = Ok c /\ tracked w /\ (c = true -> all_acked (chain w))).
Proof.
  induction l as [|[i b] l IH]; cbn [confirm_all].
  - apply triple_ret. intros w [Ht Hr]. split; [done|]. eexists. split; [done|]. split; [done|]. intros _ j v Hv. destruct (Hr j v Hv); set_solver.
  - eapply triple_bind; [apply (confirm_tracked tracked (fun _ => False) i (remaining ((i, b) :: l))); [done|done|]| |by intros e w (c & ? & _)].
    + intros c k. apply remaining_ack.
    + intros [|].
      * eapply triple_weaken; [apply IH| |done]. intros w (c & [= <-] & [Ht Hr] & Ha). split; [done|]. intros j v Hv.
        destruct (Hr j v Hv) as [?|Hj]; [auto|]. cbn in Hj. apply elem_of_cons in Hj as [->|?]; [left; by apply Ha|auto].
      * apply triple_ret. intros w (c & [= <-] & [Ht _] & _). split; [done|]. by exists false.
Qed.
Lemma retry_tracked :
  triple tracked tracked retry_pending_inclusion (fun o w => exists c, o = Ok c /\ tracked w /\ (c = true -> all_acked (chain w))).
Proof.
  unfold retry_pending_inclusion. eapply triple_bind; [apply (pending_reads tracked tracked); done| |by intros e w (_ & r & ? & _)].
  intros [p|].
  - eapply triple_weaken; [apply confirm_all_tracked| |done]. intros w (Ht & r & [= <-] & Hr). split; [done|]. intros j v Hv.
    destruct (proj2 Ht j v (fun f => f) Hv) as [?|Hh]; [auto|]. right. rewrite (psort_perm by_text p). exact (Hr p j eq_refl Hh).
  - apply triple_ret. intros w [Ht _]. split; [done|]. by exists false.
Qed.

(** ** The validator's programs *)
Lemma steady_keeps {A} but (p : prog s_call A) : calls_only steady p -> triple (tracked_but but) (tracked_but but) p (fun _ => tracked_but but).
Proof. apply calls_only_keeps. intros X c w w' y Hc Ht H. eapply calmer_tracked; [by eapply steady_calmer|done]. Qed.
Lemma update_keeps but (f : Mem -> Mem) :
  (forall m, unacknowledged_inclusions (f m) = unacknowledged_inclusions m) ->
  triple (tracked_but but) (tracked_but but) (m ← call ReadMem; call (WriteMem (f m))) (fun _ => tracked_but but).
Proof.
  intros Hf. apply triple_call with (mid := fun m w => tracked_but but w /\ m = mem w).
  { intros w w' m Hw Hc. cbn in Hc. by simplify_eq. }
  intros m. apply triple_last. intros w w' [] [Hw ->] Hc. cbn in Hc. simplify_eq.
  assert (tracked_but but (with_mem (f (mem w)) w)) as H; [|by split_and!].
  destruct Hw as [Ho Hh]. split; [done|]. intros i v Hi Hv. unfold held. cbn. rewrite Hf. exact (Hh i v Hi Hv).
Qed.
Lemma mark_keeps but index : triple (tracked_but but) (tracked_but but) (mark_tempo_done index) (fun _ => tracked_but but).
Proof. by apply update_keeps. Qed.
Lemma reset_keeps : triple tracked tracked reset_scores (fun _ => tracked).
Proof. by apply update_keeps. Qed.

Notation alone := (triple (fun _ => True)).
Lemma alone_of {A} Inv pre (p : prog s_call A) post : triple Inv pre p post -> alone pre p post.
Proof. by apply triple_looser. Qed.
(** The next call, or the next part, is one that keeps what is tracked. *)
Lemma alone_step {X B} but (c : s_call X) (f : X -> prog s_call B) post :
  steady X c -> (forall x, alone (tracked_but but) (f x) post) -> alone (tracked_but but) (call c ≫= f) post.
Proof.
  intros Hc Hf. apply triple_call with (mid := fun _ => tracked_but but); [|done]. intros w w' x Hw H. split; [done|].
  eapply calmer_tracked; [by eapply steady_calmer|done].
Qed.
Lemma alone_part {A B} but but' Inv (p : prog s_call A) (f : A -> prog s_call B) post :
  triple Inv (tracked_but but) p (fun _ => tracked_but but') -> (forall a, alone (tracked_but but') (f a) post) ->
  (forall e w, tracked_but but' w -> post (Raise e) w) -> alone (tracked_but but) (p ≫= f) post.
Proof. intros Hp Hf He. eapply triple_bind; [by eapply alone_of| |]; [intros a; apply Hf|apply He]. Qed.
Lemma alone_res {A B} but (r : res A) (f : A -> prog s_call B) post :
  (forall a, alone (tracked_but but) (f a) post) -> (forall e w, tracked_but but w -> post (Raise e) w) ->
  alone (tracked_but but) (of_res r ≫= f) post.
Proof. intros Hf He. destruct r as [a|e]; [apply Hf|]. apply triple_exc. auto. Qed.
Lemma alone_end {A} (a : A) : alone tracked (Ret a) (fun _ => tracked).
Proof. by apply triple_ret. Qed.

Lemma submit_vector_tracked index v :
  alone (fun w => tracked w /\ all_acked (chain w)) (submit_vector index v)
    (fun o w => exists b, o = Ok b /\ if (b : bool) then tracked_but (eq index) w else tracked w).
Proof.
  unfold submit_vector.
  apply triple_call with (mid := fun r w => match r with Ok true => tracked_but (eq index) w | _ => tracked w end).
  - intros w w' r [[Ho Hh] Ha] Hc. split; [done|]. cbn in Hc. simplify_eq. destruct (accept_of out (tick w)) as [[]|]; [|done..].
    split; [by apply in_order_snoc|]. intros i u Hi Hu. cbn in *. rewrite elem_of_app in Hu |- *. destruct Hu as [Hu|Hu]; [|set_solver].
    destruct (Hh i u (fun f => f) Hu); auto.
  - intros [[]|]; apply triple_ret; intros w Hw; (split; [done|]); eauto.
Qed.
(** The chain has accepted the window of tempo [i]. *)
Lemma landed_tracked i block_before :
  alone (tracked_but (eq i))
    (_ ← mark_tempo_done i; block ← current_block_or_none; _ ← confirm_inclusion i (default block_before block); Ret true) (fun _ => tracked).
Proof.
  eapply triple_quiet_bind; [done|eapply alone_of, mark_keeps|intros []]. unfold current_block_or_none.
  eapply triple_quiet_bind; [done|eapply alone_of, (steady_keeps (eq i)); done|intros block].
  eapply triple_bind; [eapply triple_weaken; [apply (confirm_tracked (fun _ => True) (eq i) i (fun _ => True)); done| |exact (fun _ _ H => H)]| |].
  - done.
  - intros c. apply triple_ret. intros w (c' & _ & [? _] & _). done.
  - by intros e w (c & ? & _).
Qed.
Lemma submit_tracked : alone tracked submit_settled_window (fun _ => tracked).
Proof.
  unfold submit_settled_window.
  apply alone_step; [done|]. intros tempo. apply alone_res; [|done]. intros t. apply alone_step; [done|]. intros block. apply alone_res; [|done]. intros b.
  destruct (Z.eqb t 0); [by apply triple_exc|]. apply alone_step; [done|]. intros m. case_match; [apply alone_end|].
  eapply triple_bind; [eapply alone_of, retry_tracked| |by intros e w (c & ? & _)].
  intros reported. destruct reported; cbn [negb]; [|apply triple_ret; intros w (c & _ & ? & _); done].
  apply triple_weaken with (pre := fun w => tracked w /\ all_acked (chain w)) (post := fun _ => tracked); [|intros w (c & [= <-] & ? & ?); auto|done].
  unfold fetch_settled_window.
  eapply triple_bind with (mid := fun _ w => tracked w /\ all_acked (chain w)); [|intros window|tauto].
  { apply triple_call with (mid := fun _ w => tracked w /\ all_acked (chain w)); [|intros x; by apply triple_ret].
    intros w w' x [Ht Ha] Hc. apply (steady_calmer _ (GetWindow _ _) _ _ _ I) in Hc. split; [done|].
    split; [by eapply calmer_tracked|by eapply calmer_all_acked]. }
  destruct window as [s|]; [|apply triple_ret; tauto]. destruct (any_weight _); cbn [negb].
  2: { apply triple_weaken with (pre := tracked) (post := fun _ => tracked); [|tauto|done].
       eapply alone_part; [apply (mark_keeps (fun _ => False))|intros; apply alone_end|done]. }
  eapply triple_bind; [apply submit_vector_tracked| |by intros e w (b' & ? & _)].
  intros accepted. destruct accepted.
  2: { apply triple_ret. intros w (b' & [= <-] & ?). done. }
  apply triple_weaken with (pre := tracked_but (eq (tempo_index b t))) (post := fun _ => tracked); [|intros w (b' & [= <-] & ?); done|done].
  apply landed_tracked.
Qed.
Ltac stay := repeat first
  [exact I | solve [auto 2 with steady] | apply calls_only_call; [exact I|intros ?] | apply calls_only_last; exact I
  | apply calls_only_of_res | apply calls_only_bind; [|intros ?] | case_match].
Lemma drain_list_steady l : calls_only steady (drain l).
Proof. induction l as [|x l IH]; cbn [drain]; unfold send_live_weights; stay. Qed.
Hint Resolve drain_list_steady : steady.
Lemma drain_steady : calls_only steady drain_live_weights.
Proof. unfold drain_live_weights. stay. Qed.
Lemma report_live_steady b ids : calls_only steady (report_live_weights b ids).
Proof. unfold report_live_weights, send_live_weights. stay. Qed.
Hint Resolve report_live_steady : steady.
Lemma shadow_tracked n : alone tracked (shadow_settled_window n) (fun _ => tracked).
Proof.
  apply triple_looser with (inv := tracked); [done|]. unfold shadow_settled_window. apply triple_try with (mid := fun _ => tracked); [|done|].
  2: { intros e. by apply triple_ret. }
  eapply triple_bind with (mid := fun _ => tracked); [|intros; by apply triple_ret|done]. eapply triple_cut with (post := fun _ => tracked).
  unfold log_settled_window_against_live, fetch_settled_window.
  repeat first [apply triple_ret; by auto | apply triple_exc; by auto | apply mark_keeps
    | eapply triple_bind with (mid := fun _ => tracked); [apply steady_keeps; by stay|intros ?|by auto] | case_match].
Qed.
Lemma sync_tracked mode dry n : alone tracked (sync_weights mode dry n) (fun _ => tracked).
Proof.
  unfold sync_weights. apply triple_try with (mid := fun _ => tracked); [|done|intros e; apply alone_end].
  unfold set_weights_now. apply alone_step; [done|]. intros m. case_match; [apply alone_end|]. destruct dry; [eapply alone_of, reset_keeps|].
  assert (Hlive : alone tracked
    (block_before ← current_block_or_none; accepted ← call (SetWeights None (miner_scores m)); accepted ← of_res accepted; _ ← reset_scores;
     _ ← (if (accepted : bool)
          then block ← current_block_or_none;
               match (match block with Some b => Some b | None => block_before end) with
               | Some b => report_live_weights b (live_cycle_ids m)
               | None => Ret tt
               end
          else Ret tt);
     match mode with SETTLEMENT_SHADOW => shadow_settled_window n | _ => Ret tt end) (fun _ => tracked)).
  { unfold current_block_or_none.
    eapply alone_part; [apply (steady_keeps (fun _ => False)); by stay|intros before|done]. apply alone_step; [done|]. intros acc.
    apply alone_res; [|done]. intros accepted. eapply alone_part; [apply reset_keeps|intros []|done].
    eapply alone_part; [apply (steady_keeps (fun _ => False)); by stay|intros []|done].
    destruct mode; [apply alone_end|apply shadow_tracked|apply alone_end]. }
  destruct mode; [exact Hlive|exact Hlive|].
  eapply alone_part; [apply submit_tracked|intros ?|done]. eapply alone_part; [apply reset_keeps|intros []|done].
  eapply alone_of, (steady_keeps (fun _ => False)), drain_steady.
Qed.

Lemma deliver_cycle_steady r : calls_only steady (deliver_cycle_report r).
Proof. unfold deliver_cycle_report. stay. Qed.
Hint Resolve deliver_cycle_steady : steady.
Lemma replay_steady l : calls_only steady (replay l).
Proof. induction l as [|x l IH]; cbn [replay]; unfold deliver_cycle_report; stay. Qed.
Hint Resolve replay_steady : steady.
Lemma report_tracked burner payload n1 n2 : alone tracked (report_cycle_scores burner payload n1 n2) (fun _ => tracked).
Proof.
  apply triple_looser with (inv := tracked); [done|]. unfold report_cycle_scores. destruct burner as [b|]; [|by apply triple_ret].
  unfold keep_cycle_report, cap_kept_cycle_reports.
  eapply triple_bind; [apply (steady_keeps (fun _ => False)); by stay|intros kept|done].
  eapply triple_bind; [apply (steady_keeps (fun _ => False))|intros []|done].
  { destruct kept; [done|]. apply calls_only_bind; [|done]. apply calls_only_cut, deliver_cycle_steady. }
  eapply triple_bind with (mid := fun _ => tracked); [|intros ?; apply (steady_keeps (fun _ => False)); by stay|done].
  eapply triple_cut with (post := fun _ => tracked). unfold deliver_kept_settlement_reports.
  eapply triple_bind; [apply retry_tracked| |by intros e w (c & ? & _)]. intros ?.
  eapply triple_weaken; [apply (steady_keeps (fun _ => False))| |done]; [unfold replay_unacked_cycle_reports; stay|by intros w (c & _ & ? & _)].
Qed.

(** What memory holds of inclusions is in Redis too: Redis was not down at both keeps of one. *)
Definition redis_has_memory (w : World) : Prop :=
  forall i, i ∈ dkeys (unacknowledged_inclusions (mem w)) -> i ∈ dkeys (default [] (pending w)).
Lemma action_tracked a w :
  (forall s ids, a = Restart s ids -> redis_has_memory w) -> tracked w -> tracked (perform (handle out) (program a) w).1.
Proof.
  intros Hr Ht. destruct (perform (handle out) (program a) w) as [w' o] eqn:H. cbn.
  destruct a as [burner payload n1 n2|mode dry n|s i|jobs|s ids]; cbn [program] in H.
  - exact (proj2 (report_tracked burner payload n1 n2 w Ht) _ _ H).
  - exact (proj2 (sync_tracked mode dry n w Ht) _ _ H).
  - refine (proj2 (update_keeps (fun _ => False) _ _ w Ht) _ _ H). done.
  - destruct jobs; [|cbn in H; by simplify_eq]. refine (proj2 (update_keeps (fun _ => False) _ _ w Ht) _ _ H). done.
  - cbn in H. simplify_eq. destruct Ht as [Ho Hh]. split; [done|]. intros i v Hi Hv.
    destruct (Hh i v Hi Hv) as [?|[Hm|?]]; [by left|right; right..]; [by apply (Hr s ids)|done].
Qed.
Lemma live_tracked l w :
  (forall l1 s ids l2, l = l1 ++ Restart s ids :: l2 -> redis_has_memory (live out w l1)) -> tracked w -> tracked (live out w l).
Proof.
  revert w. induction l as [|a l IH]; intros w Hr Ht; [done|]. cbn. apply IH.
  - intros l1 s ids l2 ->. by apply (Hr (a :: l1) s ids l2).
  - apply action_tracked; [|done]. intros s ids ->. by apply (Hr [] s ids l).
Qed.

(** C3. A settled window is never submitted while the backend does not know where an earlier one went
    in: in the record of the chain, over any cycles and weight ticks in any order and mode, whatever
    Redis, the backend and the chain answer and wherever time limits cut, every window accepted before
    a settled window has been acknowledged before it.  Restarts are allowed whenever Redis holds the
    inclusions that memory holds. *)
Theorem windows_wait_for_reports w l :
  chain w = [] ->
  (forall l1 s ids l2, l = l1 ++ Restart s ids :: l2 -> redis_has_memory (live out w l1)) ->
  forall before j v after i v', chain (live out w l) = before ++ Accepted (Some j) v :: after ->
  Accepted (Some i) v' ∈ before -> Acked i ∈ before.
Proof.
  intros Hc Hr before j v after i v' H Hi.
  assert (tracked (live out w l)) as [Ho _]; [|by apply (Ho before j v after H i v')].
  apply live_tracked; [done|]. split; rewrite Hc; [|set_solver]. intros c1 j' u c2 Hn. by destruct c1.
Qed.
End Windows.
