(* ===== verification/GpuReset.v ===== *)
(** * A renter's GPU reset

    [services/gpu_reset.py]: a renter resets the GPUs of their own running pod.  The validator checks
    what it would reset, stops the container, resets, and starts the container again, all over its SSH
    session to the executor.  The commands are data ([command]); the host's answers, and where a command
    raises, are inputs.  The texts of the report's details and the shell script of the host unit are left out. *)

From Stdlib Require Import Ascii String.
From stdpp Require Import strings.
From S2P Require Import Prelude Float64 PyValue HostText Effects.
Import Text.

Local Open Scope string_scope.
Local Open Scope list_scope.
Local Open Scope Z_scope.

(** ** Refusals *)

Inductive GpuResetErrorCode :=
| MigEnabled | NvlinkPeersOutsidePod | GpuInUseOutsidePod | ResetNotSupported | GpuNotInContainer
| ContainerNotFound | OperationInProgress | ExecutorUnreachable | ClockLockNotSupported.
#[export] Instance GpuResetErrorCode_eq_dec : EqDecision GpuResetErrorCode.
Proof. solve_decision. Defined.
Definition refusal_name (c : GpuResetErrorCode) : string :=
  match c with
  | MigEnabled => "MigEnabled" | NvlinkPeersOutsidePod => "NvlinkPeersOutsidePod" | GpuInUseOutsidePod => "GpuInUseOutsidePod"
  | ResetNotSupported => "ResetNotSupported" | GpuNotInContainer => "GpuNotInContainer" | ContainerNotFound => "ContainerNotFound"
  | OperationInProgress => "OperationInProgress" | ExecutorUnreachable => "ExecutorUnreachable"
  | ClockLockNotSupported => "ClockLockNotSupported"
  end.
(** The exceptions [GpuResetRefused(code)] and its subclass [ContainerNotRunning]. *)
Definition GpuResetRefused (c : GpuResetErrorCode) : exc := OtherError ("GpuResetRefused." +:+ refusal_name c).
Definition ContainerNotRunning : exc := OtherError "ContainerNotRunning".
Definition all_codes : list GpuResetErrorCode :=
  [MigEnabled; NvlinkPeersOutsidePod; GpuInUseOutsidePod; ResetNotSupported; GpuNotInContainer; ContainerNotFound;
   OperationInProgress; ExecutorUnreachable; ClockLockNotSupported].
(** [except GpuResetRefused as refused: refused.code] *)
Definition refused_code (e : exc) : option GpuResetErrorCode :=
  if bool_decide (e = ContainerNotRunning) then Some ResetNotSupported
  else List.find (fun c => bool_decide (e = GpuResetRefused c)) all_codes.
Lemma refused_code_of c : refused_code (GpuResetRefused c) = Some c.
Proof. by destruct c. Qed.

(** ** The host's GPUs *)

Record HostGpu := mkHostGpu { hg_index : Z; hg_uuid : string; hg_bus_id : string; hg_mig_enabled : bool }.
Definition parse_host_gpu (line : string) : option HostGpu :=
  match map strip (split "," line) with
  | [index; uuid; bus_id; mig] =>
      if startswith "GPU-" uuid
      then i ← py_int index; Some (mkHostGpu i uuid (lower bus_id) (String.eqb (lower mig) "enabled"))
      else None
  | _ => None
  end.
Definition parse_host_gpus (csv : string) : list HostGpu := omap parse_host_gpu (splitlines (strip csv)).

(** [list(dict.fromkeys(l))] *)
Fixpoint fromkeys_from (seen l : list string) : list string :=
  match l with
  | [] => []
  | x :: l' => if bool_decide (x ∈ seen) then fromkeys_from seen l' else x :: fromkeys_from (x :: seen) l'
  end.
Definition fromkeys (l : list string) : list string := fromkeys_from [] l.

Section Numbering.
(** [str(v)] of a JSON value that is no string or int. *)
Context (repr : json -> string).
Definition str_of (v : json) : string := match v with JStr s => s | JInt z => str_of_Z z | _ => repr v end.

(** [container_gpu_uuids] *)
Definition capabilities_of (request : json) : res (list json) :=
  caps ← jget "Capabilities" request;
  groups ← jiter (py_or caps (JList []));
  foldM (fun acc group => l ← jiter group; Ok (acc ++ l)) [] groups.
Definition request_uuids (host_gpus : list HostGpu) (uuids : list string) (request : json) : res (list string) :=
  capabilities ← capabilities_of request;
  if negb (existsb (json_eqb (JStr "gpu")) capabilities) then Ok uuids
  else
    ids ← jget "DeviceIDs" request;
    if truthy ids then l ← jiter ids; Ok (uuids ++ map str_of l)
    else count ← jget "Count" request;
         Ok (if json_eqb count (JInt (-1)) then uuids ++ map hg_uuid host_gpus else uuids).
Definition container_gpu_uuids (device_requests : json) (host_gpus : list HostGpu) : res (list string) :=
  requests ← jiter (py_or device_requests (JList []));
  uuids ← foldM (request_uuids host_gpus) [] requests;
  Ok (fromkeys uuids).

Record PodGpus := mkPodGpus { pg_ordered : list string; pg_requested : list string; pg_index_by_uuid : list (string * Z) }.
Definition host_by_uuid (host_gpus : list HostGpu) : list (string * HostGpu) :=
  fold_left (fun d g => dset (hg_uuid g) g d) host_gpus [].
Definition bus_id_of (host_gpus : list HostGpu) (uuid : string) : string :=
  match dget uuid (host_by_uuid host_gpus) with Some g => hg_bus_id g | None => "" end.
Definition by_bus_id (host_gpus : list HostGpu) (a b : string) : bool := String.leb (bus_id_of host_gpus a) (bus_id_of host_gpus b).
Definition enumerate (l : list string) : list (string * Z) := imap (fun i u => (u, Z.of_nat i)) l.
(** [sorted(set(l))] *)
Definition sorted_indices (l : list Z) : list Z := psort Z.leb (remove_dups l).
(** [pod_gpus] *)
Definition pod_gpus (device_requests : json) (host_gpus : list HostGpu) (pod_gpu_uuids : list string) (gpu_indices : option (list Z))
    : res PodGpus :=
  given ← container_gpu_uuids device_requests host_gpus;
  let container_uuids := List.filter (fun u => din u (host_by_uuid host_gpus)) given in
  let missing := List.filter (fun u => negb (bool_decide (u ∈ container_uuids))) pod_gpu_uuids in
  if match container_uuids, pod_gpu_uuids, missing with [], _, _ | _, [], _ | _, _, _ :: _ => true | _, _, [] => false end
  then Raise (GpuResetRefused GpuNotInContainer)
  else
    let ordered := psort (by_bus_id host_gpus) container_uuids in
    match gpu_indices with
    | None => Ok (mkPodGpus ordered (List.filter (fun u => bool_decide (u ∈ pod_gpu_uuids)) ordered) (enumerate ordered))
    | Some indices =>
        if existsb (fun i => (i <? 0) || (Z.of_nat (length ordered) <=? i)) indices then Raise (GpuResetRefused GpuNotInContainer)
        else Ok (mkPodGpus ordered (omap (fun i => ordered !! Z.to_nat i) (sorted_indices indices)) (enumerate ordered))
    end.
End Numbering.

(** ** NVLink peers *)

Definition is_gpu_label (token : string) : bool :=
  startswith "GPU" token && isdigit (of_chars (drop 3 (chars token))).
Definition label_index (token : string) : res Z :=
  match py_int (of_chars (drop 3 (chars token))) with Some z => Ok z | None => Raise ValueError end.
(** A dict of sets, a set as the list of its elements. *)
Notation peer_map := (list (string * list string)).
Definition add_peer (row column : string) (peers : peer_map) : peer_map :=
  let s := dget_or [] row peers in dset row (if bool_decide (column ∈ s) then s else s ++ [column]) peers.
Definition uuid_by_index (host_gpus : list HostGpu) : list (Z * string) :=
  fold_left (fun d g => dset (hg_index g) (hg_uuid g) d) host_gpus [].
Definition link_cell (by_index : list (Z * string)) (row : Z) (peers : peer_map) (cc : Z * string) : peer_map :=
  if startswith "NV" cc.2
  then match dget row by_index, dget cc.1 by_index with Some r, Some c => add_peer r c peers | _, _ => peers end
  else peers.
Definition topology_line (by_index : list (Z * string)) (st : list Z * peer_map) (line : string) : res (list Z * peer_map) :=
  let '(columns, peers) := st in
  match words line with
  | [] => Ok st
  | first :: rest =>
      if negb (is_gpu_label first) then Ok st
      else match columns with
           | [] => columns' ← mapM label_index (List.filter is_gpu_label (first :: rest)); Ok (columns', peers)
           | _ => row ← label_index first; Ok (columns, fold_left (link_cell by_index row) (combine columns rest) peers)
           end
  end.
Definition parse_nvlink_peers (topology : string) (host_gpus : list HostGpu) : res peer_map :=
  st ← foldM (topology_line (uuid_by_index host_gpus)) ([], []) (map strip_ansi (splitlines topology));
  Ok st.2.

(** The loop of [_widen_targets_to_nvlink_peers]: the top of [frontier] is its last element; [None] is out of fuel. *)
Definition visit_peer (ordered : list string) (st : list string * list string) (peer : string) : res (list string * list string) :=
  if negb (bool_decide (peer ∈ ordered)) then Raise (GpuResetRefused NvlinkPeersOutsidePod)
  else if bool_decide (peer ∈ st.2) then Ok st else Ok (peer :: st.1, peer :: st.2).
Fixpoint widen (ordered : list string) (peers : peer_map) (fuel : nat) (frontier targets : list string) : option (res (list string)) :=
  match frontier with
  | [] => Some (Ok targets)
  | uuid :: frontier' =>
      match fuel with
      | O => None
      | S fuel' =>
          match foldM (visit_peer ordered) (frontier', targets) (dget_or [] uuid peers) with
          | Ok (f, t) => widen ordered peers fuel' f t
          | Raise e => Some (Raise e)
          end
      end
  end.
Definition widen_fuel (requested ordered : list string) : nat := length requested + length ordered.
Definition out_of_fuel : exc := OtherError "out of fuel".
Definition widened_targets (requested ordered : list string) (peers : peer_map) : res (list string) :=
  match widen ordered peers (widen_fuel requested ordered) (rev requested) (rev requested) with
  | Some (Ok targets) => Ok (List.filter (fun u => bool_decide (u ∈ targets)) ordered)
  | Some (Raise e) => Raise e
  | None => Raise out_of_fuel
  end.

Definition parse_compute_app (line : string) : option (Z * string) :=
  match map strip (split "," line) with [pid; uuid] => p ← py_int pid; Some (p, uuid) | _ => None end.
Definition parse_compute_apps (csv : string) : list (Z * string) := omap parse_compute_app (splitlines (strip csv)).

(** [build_reset_command] *)
Definition subset (l m : list string) : bool := forallb (fun x => bool_decide (x ∈ m)) l.
Definition reset_text (uuids : list string) : string := "nvidia-smi -r -i " +:+ quote (join "," uuids).
Definition build_reset_command (uuids container_uuids pod_gpu_uuids : list string) : res string :=
  match uuids with
  | [] => Raise ValueError
  | _ => if subset uuids container_uuids && subset uuids pod_gpu_uuids then Ok (reset_text uuids) else Raise ValueError
  end.

(** ** Commands *)

Record SSHResult := mkResult { exit_code : Z; stdout : string; stderr : string; json_out : res json }.
Inductive command :=
| DockerInspect (container_name : string)
| CgroupsOf (pids : list Z)
| OwnCgroup
| HostGpus
| ComputeApps
| Nvswitch
| Topology
| IsActive (unit_ : string)
| DockerPs
| SystemdProbe
| ResetUnitProcs
| DockerStop (container_name : string)
| ResetGpus (text : string)
| FabricReset (units : list string) (text : string) (containers : list string)
| DockerStart (container : string)
| ContainerState (container : string)
| StartUnit (unit_ : string)
| CureGpu (uuid : string)
| DockerWait (container_name : string).

Inductive outcome := reset | latch_cleared | failed.
Record GpuResetOutcome := mkOutcome { go_index : Z; go_uuid : string; go_result : outcome }.
Record GpuResetReport := mkGpuReport {
  rr_ok : bool;
  rr_error_code : option GpuResetErrorCode;
  rr_container_restarted : bool;
  rr_gpus : list GpuResetOutcome;
  rr_pod_stopped : bool
}.
(** The variables of [reset_pod_gpus] its handlers read: what was set before an exception stays. *)
Record Locals := mkLocals {
  report : GpuResetReport;
  stop_failed : bool;
  fabric_manager_problem : bool;
  reset_still_running : bool
}.
Definition fresh_report : GpuResetReport := mkGpuReport false None false [] false.
Definition fresh_locals : Locals := mkLocals fresh_report false false false.
Definition with_report (f : GpuResetReport -> GpuResetReport) (l : Locals) : Locals :=
  mkLocals (f (report l)) (stop_failed l) (fabric_manager_problem l) (reset_still_running l).
Definition set_ok b r := mkGpuReport b (rr_error_code r) (rr_container_restarted r) (rr_gpus r) (rr_pod_stopped r).
Definition set_code c r := mkGpuReport (rr_ok r) (Some c) (rr_container_restarted r) (rr_gpus r) (rr_pod_stopped r).
Definition set_restarted b r := mkGpuReport (rr_ok r) (rr_error_code r) b (rr_gpus r) (rr_pod_stopped r).
Definition set_gpus g r := mkGpuReport (rr_ok r) (rr_error_code r) (rr_container_restarted r) g (rr_pod_stopped r).
Definition set_pod_stopped r := mkGpuReport (rr_ok r) (rr_error_code r) (rr_container_restarted r) (rr_gpus r) true.

Inductive g_call : Type -> Type :=
| Run (c : command) : g_call (res SSHResult)
| StartContainer : g_call (res unit)
| Sleep : g_call unit
| GetLocals : g_call Locals
| PutLocals (l : Locals) : g_call unit.
Notation P := (prog g_call).
Definition run (c : command) : P SSHResult := r ← call (Run c); of_res r.
Definition modify (f : Locals -> Locals) : P unit := l ← call GetLocals; call (PutLocals (f l)).
(** [try: p], its exception as a value. *)
Definition caught {A} (p : P A) : P (res A) := try_except (a ← p; Ret (Ok a)) (fun e => Some (Ret (Raise e))).

Definition FABRIC_SERVICES : list string := ["nvidia-fabricmanager"; "nvidia-nvlsm"].
Definition HOST_GPU_SERVICES : list string :=
  ["nvidia-dcgm-exporter"; "dcgm-exporter"; "nvidia-dcgm"; "dcgm"; "nvidia-imex"] ++ FABRIC_SERVICES ++ ["nvidia-persistenced"].
Definition FABRIC_RESET_UNIT : string := "lium-gpu-reset-fabric".
Definition FABRIC_STOP_FAILED_EXIT : Z := 97.
Definition FABRIC_START_FAILED_EXIT : Z := 98.

(** [_cgroups] *)
Definition cgroup_line (cgroups : list (Z * string)) (line : string) : res (list (Z * string)) :=
  let '(pid, cgroup) := partition " " (strip line) in
  if isdigit pid && negb (String.eqb (strip cgroup) "")
  then match py_int pid with Some p => Ok (dset p cgroup cgroups) | None => Raise ValueError end
  else Ok cgroups.
Definition cgroups_of (pids : list Z) : P (list (Z * string)) :=
  match pids with
  | [] => Ret []
  | _ => result ← run (CgroupsOf pids); of_res (foldM cgroup_line [] (splitlines (stdout result)))
  end.
(** [_service_active] *)
Definition service_active (unit_ : string) : P bool :=
  result ← run (IsActive unit_); Ret (String.eqb (strip (stdout result)) "active").
Fixpoint filter_active (units : list string) : P (list string) :=
  match units with
  | [] => Ret []
  | u :: rest => active ← service_active u; l ← filter_active rest; Ret (if (active : bool) then u :: l else l)
  end.
(** [_own_cgroup] *)
Definition own_cgroup : P (option string) :=
  result ← run OwnCgroup;
  let cgroup := if exit_code result =? 0 then strip (stdout result) else "" in
  Ret (if String.eqb cgroup "" || String.eqb cgroup "0::/" then None else Some cgroup).
(** [_processes_outside] *)
Definition processes_outside (targets : list string) (container_id ignore_cgroup : option string) : P (list Z) :=
  apps ← run ComputeApps;
  if negb (exit_code apps =? 0) then Exc (GpuResetRefused ResetNotSupported)
  else
    let pids := sorted_indices (map fst (List.filter (fun a => bool_decide (a.2 ∈ targets)) (parse_compute_apps (stdout apps)))) in
    match container_id, ignore_cgroup with
    | None, None => Ret pids
    | _, _ =>
        cgroups ← cgroups_of pids;
        Ret (List.filter (fun pid =>
               let cgroup := dget_or "" pid cgroups in
               match container_id with Some c => negb (within c cgroup) | None => true end
               && match ignore_cgroup with Some g => negb (String.eqb (strip cgroup) g) | None => true end) pids)
    end.
(** [_widen_targets_to_nvlink_peers] *)
Definition same_set (l m : list string) : bool := subset l m && subset m l.
Definition widen_targets_to_nvlink_peers (requested ordered : list string) (host_gpus : list HostGpu) : P (list string * list string) :=
  nvswitch ← run Nvswitch;
  fabric_services ← filter_active FABRIC_SERVICES;
  if negb (String.eqb (strip (stdout nvswitch)) "") || match fabric_services with [] => false | _ => true end
  then if same_set ordered (map hg_uuid host_gpus) then Ret (ordered, fabric_services)
       else Exc (GpuResetRefused NvlinkPeersOutsidePod)
  else
    topology ← run Topology;
    if negb (exit_code topology =? 0) then Exc (GpuResetRefused ResetNotSupported)
    else peers ← of_res (parse_nvlink_peers (stdout topology) host_gpus);
         targets ← of_res (widened_targets requested ordered peers);
         Ret (targets, []).
(** [plan_host_holders] *)
Fixpoint holder_services (fabric_services units : list string) : P (list string) :=
  match units with
  | [] => Ret []
  | u :: rest =>
      holds ← (if bool_decide (u ∈ fabric_services) then Ret true
               else if bool_decide (u ∈ FABRIC_SERVICES) then Ret false else service_active u);
      l ← holder_services fabric_services rest; Ret (if (holds : bool) then u :: l else l)
  end.
Definition is_container_id (cid : string) : bool :=
  let l := chars cid in
  (12 <=? length l)%nat && (length l <=? 64)%nat
  && forallb (fun c => is_digit c || ((97 <=? code c) && (code c <=? 102))) l.
Definition holder_container (container_id : option string) (line : string) : option string :=
  let '(cid, rest) := partition " " (strip line) in
  let '(auto_remove, image) := partition " " rest in
  if within "dcgm-exporter" image && String.eqb auto_remove "false" && negb (bool_decide (Some cid = container_id)) && is_container_id cid
  then Some cid else None.
Record HostHolders := mkHolders { hh_host_services : list string; hh_holder_containers : list string; hh_owns_host : bool }.
Definition plan_host_holders (fabric_services : list string) (container_id : option string) : P HostHolders :=
  host_services ← holder_services fabric_services HOST_GPU_SERVICES;
  listed ← run DockerPs;
  let holder_containers := if exit_code listed =? 0 then omap (holder_container container_id) (splitlines (stdout listed)) else [] in
  match host_services, holder_containers with
  | [], [] => probe ← run SystemdProbe;
              Ret (mkHolders [] [] (negb ((exit_code probe =? 0) && String.eqb (strip (stdout probe)) "no-systemd")))
  | _, _ => Ret (mkHolders host_services holder_containers true)
  end.

(** ** Prechecks *)

Record Plan := mkPlan {
  pl_container_id : string;
  pl_container_uuids : list string;
  pl_targets : list string;
  pl_index_by_uuid : list (string * Z);
  pl_widened : bool;
  pl_host_services : list string;
  pl_holder_containers : list string;
  pl_owns_host : bool
}.
(** The arguments of [reset_pod_gpus]. *)
Record Request := mkRequest {
  rq_container_name : string;
  rq_pod_gpu_uuids : list string;
  rq_gpu_indices : option (list Z);
  rq_in_tee : bool;
  rq_encrypted_volume_mount : option string;
  rq_local_volume_path : option string
}.
Definition set_text (o : option string) : option string := match o with Some s => if String.eqb s "" then None else Some s | None => None end.
(** What the precheck reads of [docker inspect]; the exceptions its [except] catches become [ContainerNotFound]. *)
Definition item (k : string) (v : json) : res json :=
  match v with JObj d => match dget k d with Some x => Ok x | None => Raise KeyError end | _ => Raise TypeError end.
Record Inspected := mkInspected { in_id : json; in_pid : Z; in_device_requests : json; in_mounts : json }.
Definition read_inspected (loaded : res json) : res Inspected :=
  container ← loaded;
  container_id ← item "Id" container;
  state ← jget "State" container; pid ← jget "Pid" (py_or state (JObj [])); container_pid ← int_of_json (py_or pid (JInt 0));
  host_config ← jget "HostConfig" container; device_requests ← jget "DeviceRequests" (py_or host_config (JObj []));
  mounts ← jget "Mounts" container;
  Ok (mkInspected container_id container_pid device_requests (py_or mounts (JList []))).
Definition unreadable (e : exc) : bool := bool_decide (e = ValueError \/ e = KeyError \/ e = TypeError).
Fixpoint mounted_at (destination : string) (mounts : list json) : res bool :=
  match mounts with
  | [] => Ok false
  | m :: rest => d ← jget "Destination" m; if json_eqb d (JStr destination) then Ok true else mounted_at destination rest
  end.
Definition remount_unknown (rq : Request) (mounts : json) : res bool :=
  match set_text (rq_encrypted_volume_mount rq), set_text (rq_local_volume_path rq) with
  | Some destination, None => l ← jiter mounts; mounted_at destination l
  | _, _ => Ok false
  end.

Section Reset.
Context (repr : json -> string).
(** [_precheck] *)
Definition mig_among (host_gpus : list HostGpu) (targets : list string) : bool :=
  existsb (fun u => match dget u (host_by_uuid host_gpus) with Some g => hg_mig_enabled g | None => false end) targets.
Definition container_view (rq : Request) : P (string * json) :=
  inspected ← run (DockerInspect (rq_container_name rq));
  if negb (exit_code inspected =? 0) then Exc (GpuResetRefused ContainerNotFound)
  else
    container ← (match read_inspected (json_out inspected) with
                 | Ok c => Ret c
                 | Raise e => Exc (if unreadable e then GpuResetRefused ContainerNotFound else e)
                 end);
    unknown ← of_res (remount_unknown rq (in_mounts container));
    if (unknown : bool) then Exc (GpuResetRefused ResetNotSupported)
    else if in_pid container <=? 0 then Exc ContainerNotRunning
    else
      own ← cgroups_of [in_pid container];
      match in_id container with
      | JStr container_id =>
          if within container_id (dget_or "" (in_pid container) own) then Ret (container_id, in_device_requests container)
          else Exc (GpuResetRefused ResetNotSupported)
      | _ => Exc TypeError
      end.
Definition precheck (rq : Request) : P Plan :=
  if rq_in_tee rq then Exc (GpuResetRefused ResetNotSupported)
  else
    '(container_id, device_requests) ← container_view rq;
    host_gpus_result ← run HostGpus;
    let host_gpus := parse_host_gpus (stdout host_gpus_result) in
    if negb (exit_code host_gpus_result =? 0) || match host_gpus with [] => true | _ => false end
    then Exc (GpuResetRefused ResetNotSupported)
    else
      gpus ← of_res (pod_gpus repr device_requests host_gpus (rq_pod_gpu_uuids rq) (rq_gpu_indices rq));
      '(targets, fabric_services) ← widen_targets_to_nvlink_peers (pg_requested gpus) (pg_ordered gpus) host_gpus;
      if mig_among host_gpus targets then Exc (GpuResetRefused MigEnabled)
      else if negb (subset targets (rq_pod_gpu_uuids rq)) then Exc (GpuResetRefused GpuNotInContainer)
      else
        own ← own_cgroup;
        outside ← processes_outside targets (Some container_id) own;
        match outside with
        | _ :: _ => Exc (GpuResetRefused GpuInUseOutsidePod)
        | [] =>
            let widened := negb (same_set targets (pg_requested gpus)) in
            let hosts := dkeys (host_by_uuid host_gpus) in
            if same_set (pg_ordered gpus) hosts && same_set hosts (rq_pod_gpu_uuids rq)
            then holders ← plan_host_holders fabric_services (Some container_id);
                 Ret (mkPlan container_id (pg_ordered gpus) targets (pg_index_by_uuid gpus) widened
                        (hh_host_services holders) (hh_holder_containers holders) (hh_owns_host holders))
            else Ret (mkPlan container_id (pg_ordered gpus) targets (pg_index_by_uuid gpus) widened fabric_services [] false)
        end.

(** ** The reset *)

(** [_reset_unit_pending] *)
Definition reset_unit_pending : P bool :=
  procs ← caught (run ResetUnitProcs);
  Ret (match procs with
       | Raise _ => true
       | Ok r => if exit_code r =? 127 then false
                 else negb ((exit_code r =? 0) && String.eqb (strip (stdout r)) "0")
       end).
(** [_reset_unit_gone] *)
Definition says_inactive (r : SSHResult) : bool :=
  let s := strip (stdout r) in String.eqb s "inactive" || String.eqb s "failed".
Definition says_empty (r : SSHResult) : bool := (exit_code r =? 0) && String.eqb (strip (stdout r)) "0".
Definition reset_unit_gone : P bool :=
  try_except (state ← run (IsActive FABRIC_RESET_UNIT); procs ← run ResetUnitProcs; Ret (says_inactive state && says_empty procs))
    (fun _ => Some (Ret false)).
(** [_restore_fabric_services]: whether a problem is left. *)
Definition container_problem (cid : string) : P bool :=
  try_except
    (started ← run (DockerStart cid);
     if negb (exit_code started =? 0) then Ret true
     else _ ← call Sleep; state ← run (ContainerState cid);
          Ret (negb ((exit_code state =? 0) && String.eqb (strip (stdout state)) "true false")))
    (fun _ => Some (Ret true)).
Definition unit_problem (unit_ : string) : P bool :=
  try_except
    (active ← service_active unit_;
     if (active : bool) then Ret false
     else started ← run (StartUnit unit_);
          if negb (exit_code started =? 0) then Ret true else active ← service_active unit_; Ret (negb active))
    (fun _ => Some (Ret true)).
Fixpoint any_problem (of_one : string -> P bool) (l : list string) : P bool :=
  match l with
  | [] => Ret false
  | x :: rest => p ← of_one x; q ← any_problem of_one rest; Ret (p || q)
  end.
Definition restore_fabric_services (units containers : list string) : P bool :=
  p ← any_problem container_problem (rev containers); q ← any_problem unit_problem (rev units); Ret (p || q).

(** [cure_wedged_gpus] ([services/gpu_wedge.py]) *)
Definition cured (r : SSHResult) : bool :=
  let output := if String.eqb (stdout r) "" then stderr r else stdout r in
  (exit_code r =? 0) && within "ctx open/close OK" (tail_of 300 output).
Fixpoint cure_wedged_gpus (uuids : list string) : P (list (string * bool)) :=
  match uuids with
  | [] => Ret []
  | u :: rest => r ← run (CureGpu u); l ← cure_wedged_gpus rest; Ret ((u, cured r) :: l)
  end.

(** The three looks for processes left on the targets. *)
Fixpoint pids_still_on_targets (targets : list string) (own : option string) (attempts : nat) : P (list Z) :=
  match attempts with
  | O => Ret []
  | S n => pids ← processes_outside targets None own;
           match pids, n with
           | [], _ | _, O => Ret pids
           | _, S _ => _ ← call Sleep; pids_still_on_targets targets own n
           end
  end.
(** The host unit and the [finally] that follows it. *)
Definition returned (r : res SSHResult) : bool := match r with Ok r => 0 <=? exit_code r | Raise _ => false end.
Definition set_running l := mkLocals (report l) (stop_failed l) true true.
Definition set_problem p l := mkLocals (report l) (stop_failed l) p (reset_still_running l).
Definition reset_in_host_unit (plan : Plan) (text : string) : P SSHResult :=
  reset ← call (Run (FabricReset (pl_host_services plan) text (pl_holder_containers plan)));
  gone ← (if returned reset then Ret true else reset_unit_gone);
  problem ← (if (gone : bool)
             then p ← restore_fabric_services (pl_host_services plan) (pl_holder_containers plan); _ ← modify (set_problem p); Ret p
             else _ ← modify set_running; Ret true);
  reset ← of_res reset;
  if (problem : bool) then Exc (GpuResetRefused ResetNotSupported)
  else if (exit_code reset =? FABRIC_STOP_FAILED_EXIT) || (exit_code reset =? FABRIC_START_FAILED_EXIT)
  then Exc (GpuResetRefused ResetNotSupported)
  else Ret reset.
Definition index_of (plan : Plan) (uuid : string) : Z := dget_or 0 uuid (pl_index_by_uuid plan).
Definition set_stop_failed l := mkLocals (report l) true (fabric_manager_problem l) (reset_still_running l).
(** The body of the [try] of [reset_pod_gpus]. *)
Definition stop_and_reset (rq : Request) (plan : Plan) : P unit :=
  stopped ← run (DockerStop (rq_container_name rq));
  if negb (exit_code stopped =? 0) then _ ← modify set_stop_failed; Exc (GpuResetRefused ResetNotSupported)
  else
    _ ← modify (with_report set_pod_stopped);
    own ← own_cgroup;
    left ← pids_still_on_targets (pl_targets plan) own 3;
    match left with
    | _ :: _ => Exc (GpuResetRefused GpuInUseOutsidePod)
    | [] =>
        text ← of_res (build_reset_command (pl_targets plan) (pl_container_uuids plan) (rq_pod_gpu_uuids rq));
        reset_result ← (if pl_owns_host plan then reset_in_host_unit plan text else run (ResetGpus text));
        if exit_code reset_result =? 0
        then modify (with_report (fun r => set_gpus (map (fun u => mkOutcome (index_of plan u) u reset) (pl_targets plan)) (set_ok true r)))
        else
          _ ← modify (with_report (set_code ResetNotSupported));
          cures ← cure_wedged_gpus (pl_targets plan);
          modify (with_report (fun r =>
            set_gpus (rr_gpus r ++ map (fun uc => mkOutcome (index_of plan uc.1) uc.1 (if uc.2 : bool then latch_cleared else failed)) cures) r))
    end.
(** [_wait_exited] *)
Definition wait_exited (container_name : string) : P unit :=
  try_except (_ ← run (DockerWait container_name); Ret tt) (fun _ => Some (Ret tt)).
(** The [finally]: the container is started again, in at most two attempts. *)
Definition start_again (container_name : string) : P unit :=
  l ← call GetLocals;
  if reset_still_running l then Ret tt
  else
    _ ← (if stop_failed l then wait_exited container_name else Ret tt);
    first ← call StartContainer;
    match first with
    | Ok _ => modify (with_report (set_restarted true))
    | Raise _ =>
        _ ← wait_exited container_name;
        second ← call StartContainer;
        match second with
        | Ok _ => modify (with_report (set_restarted true))
        | Raise _ => modify (with_report (fun r => set_restarted false (set_ok false r)))
        end
    end.
Definition keep_code (c : GpuResetErrorCode) (r : GpuResetReport) : GpuResetReport :=
  match rr_error_code r with Some _ => r | None => set_code c r end.
Definition carry_out (rq : Request) (plan : Plan) : P GpuResetReport :=
  _ ← try_except (stop_and_reset rq plan)
        (fun e => Some (modify (with_report (set_code (default ExecutorUnreachable (refused_code e))))));
  _ ← start_again (rq_container_name rq);
  l ← call GetLocals;
  Ret (if fabric_manager_problem l then keep_code ResetNotSupported (set_ok false (report l)) else report l).
(** [reset_pod_gpus] *)
Definition refused (c : GpuResetErrorCode) : GpuResetReport := set_code c fresh_report.
Definition reset_pod_gpus (rq : Request) : P GpuResetReport :=
  _ ← call (PutLocals fresh_locals);
  pending ← reset_unit_pending;
  if (pending : bool) then Ret (refused OperationInProgress)
  else
    plan ← caught (precheck rq);
    match plan with
    | Ok plan => carry_out rq plan
    | Raise e =>
        if bool_decide (e = ContainerNotRunning)
        then
          started ← call StartContainer;
          match started with
          | Raise _ => Ret (refused ResetNotSupported)
          | Ok _ =>
              _ ← modify (with_report (set_restarted true));
              plan ← caught (precheck rq);
              match plan with
              | Ok plan => carry_out rq plan
              | Raise e' => match refused_code e' with
                            | Some c => l ← call GetLocals; Ret (set_code c (report l))
                            | None => Exc e'
                            end
              end
          end
        else match refused_code e with Some c => Ret (refused c) | None => Exc e end
    end.
End Reset.
