(* ===== verification/GpuResetSafety.v ===== *)
(** * What a GPU reset may touch, and that the pod comes back

    The loop over NVLink peers ends with exactly the GPUs that must reset together; a reset names only
    GPUs of the pod; the container is never started while a reset may still run on the host; a stopped
    container is started again; a report is [ok] only for a reset that ran. *)

From Stdlib Require Import Ascii String.
From stdpp Require Import strings relations.
From S2P Require Import Prelude Float64 PyValue HostText Effects GpuReset.

Local Open Scope list_scope.

Create HintDb reset.

(** ** The loop over NVLink peers *)
Section Widen.
Context (ordered : list string) (peers : list (string * list string)).
Notation link := (fun u v => v ∈ dget_or [] u peers).
Notation refused_peer := (GpuResetRefused NvlinkPeersOutsidePod).

Definition unseen (targets : list string) : nat := length (List.filter (fun u => negb (bool_decide (u ∈ targets))) ordered).
Lemma unseen_add u targets : u ∈ ordered -> u ∉ targets -> (unseen (u :: targets) < unseen targets)%nat.
Proof.
  intros Hu Hn. unfold unseen. induction ordered as [|v l IH]; [set_solver|]. cbn.
  assert (Hle : (length (List.filter (fun x => negb (bool_decide (x ∈ u :: targets))) l) <= length (List.filter (fun x => negb (bool_decide (x ∈ targets))) l))%nat).
  { clear. induction l as [|x l IH]; [done|]. cbn. repeat case_bool_decide; cbn; try lia. set_solver. }
  destruct (decide (v = u)) as [->|Hne].
  - rewrite (bool_decide_eq_true_2 (u ∈ u :: targets)), (bool_decide_eq_false_2 (u ∈ targets)) by set_solver. cbn. lia.
  - assert (u ∈ l) as Hl by set_solver. specialize (IH Hl). repeat case_bool_decide; cbn; try lia; set_solver.
Qed.

(** What one pass over the peers of a GPU adds to the frontier and the targets. *)
Lemma visit_one st x r : visit_peer ordered st x = r ->
  x ∉ ordered /\ r = Raise refused_peer \/ x ∈ ordered /\ x ∈ st.2 /\ r = Ok st \/ x ∈ ordered /\ x ∉ st.2 /\ r = Ok (x :: st.1, x :: st.2).
Proof. unfold visit_peer. repeat case_bool_decide; cbn; intros <-; tauto. Qed.
Lemma visit_all l f t f' t' :
  foldM (visit_peer ordered) (f, t) l = Ok (f', t') ->
  exists added, f' = added ++ f /\ t' = added ++ t /\ (forall x, x ∈ added -> x ∈ l /\ x ∈ ordered) /\
    (forall x, x ∈ l -> x ∈ t') /\ (length f' + unseen t' <= length f + unseen t)%nat.
Proof.
  revert f t. induction l as [|x l IH]; intros f t H; cbn [foldM] in H.
  - simplify_eq. exists []. split_and!; [done|done|set_solver|set_solver|lia].
  - destruct (visit_peer ordered (f, t) x) as [[f1 t1]|e] eqn:Hv; [|done]. cbn in H.
    destruct (IH _ _ H) as (added & -> & -> & Ha & Hl & Hm).
    apply visit_one in Hv as [[_ ?]|[(Hx & Ht & [= -> ->])|(Hx & Ht & [= -> ->])]]; [done|..]; cbn in *.
    + exists added. split_and!; [done|done|set_solver| |lia]. intros y [->|?]%elem_of_cons; [set_solver|auto].
    + exists (added ++ [x]). rewrite <- !app_assoc. split_and!; [done|done| | |].
      * intros y [?|?]%elem_of_app; set_solver.
      * intros y [->|?]%elem_of_cons; [set_solver|]. by apply Hl.
      * pose proof (unseen_add x t Hx Ht). cbn [length app] in *. lia.
Qed.
Lemma visit_refused l st e : foldM (visit_peer ordered) st l = Raise e -> e = refused_peer /\ exists x, x ∈ l /\ x ∉ ordered.
Proof.
  revert st. induction l as [|x l IH]; intros st H; cbn [foldM] in H; [done|].
  destruct (visit_peer ordered st x) as [st1|e1] eqn:Hv; cbn in H.
  - destruct (IH _ H) as (? & y & ? & ?). split; [done|]. exists y. set_solver.
  - apply visit_one in Hv as [[? ?]|[(_ & _ & ?)|(_ & _ & ?)]]; simplify_eq. set_solver.
Qed.

Context (requested : list string).
Definition reached (u : string) : Prop := exists r, r ∈ requested /\ rtc link r u.
Record loop_inv (frontier targets : list string) : Prop := {
  li_frontier : forall u, u ∈ frontier -> u ∈ targets;
  li_reached : forall u, u ∈ targets -> reached u;
  li_requested : forall u, u ∈ requested -> u ∈ targets;
  li_closed : forall u v, u ∈ targets -> u ∉ frontier -> link u v -> v ∈ targets;
  li_ordered : forall u, u ∈ targets -> u ∈ requested \/ u ∈ ordered
}.
Lemma loop_step u frontier targets f t :
  loop_inv (u :: frontier) targets -> foldM (visit_peer ordered) (frontier, targets) (dget_or [] u peers) = Ok (f, t) -> loop_inv f t.
Proof.
  intros [Hf Hr Hq Hc Ho] H. destruct (visit_all _ _ _ _ _ H) as (added & -> & -> & Ha & Hl & _).
  assert (Hu : reached u) by (apply Hr, Hf; set_solver).
  split.
  - intros x. rewrite !elem_of_app. intros [?|?]; [auto|]. right. apply Hf. set_solver.
  - intros x [Hx|?]%elem_of_app; [|auto]. destruct Hu as (r & ? & ?). exists r. split; [done|]. eapply rtc_r; [done|]. by apply Ha.
  - intros x ?. apply elem_of_app. auto.
  - intros x v Hx Hn Hv. rewrite elem_of_app in Hn. apply elem_of_app in Hx as [?|Hx]; [tauto|].
    destruct (decide (x = u)) as [->|Hne]; [by apply Hl|]. apply elem_of_app. right. eapply Hc; [done| |done]. set_solver.
  - intros x [?|?]%elem_of_app; [right; by apply Ha|auto].
Qed.
Definition widen_ok (r : res (list string)) : Prop :=
  match r with
  | Ok targets => (forall u, u ∈ targets <-> reached u) /\ (forall u, u ∈ targets -> u ∈ requested \/ u ∈ ordered)
  | Raise e => e = refused_peer /\ exists u v, reached u /\ link u v /\ v ∉ ordered
  end.
Lemma loop_done targets : loop_inv [] targets -> widen_ok (Ok targets).
Proof.
  intros [_ Hr Hq Hc Ho]. split; [|done]. intros u. split; [auto|]. intros (r & Hrq & Hru). apply Hq in Hrq.
  induction Hru as [x|x y z Hxy _ IH]; [done|]. apply IH. eapply Hc; [exact Hrq|set_solver|exact Hxy].
Qed.
Lemma widen_spec fuel frontier targets :
  loop_inv frontier targets -> (length frontier + unseen targets <= fuel)%nat ->
  exists r, widen ordered peers fuel frontier targets = Some r /\ widen_ok r.
Proof.
  revert frontier targets. induction fuel as [|fuel IH]; intros [|u frontier] targets Hi Hf; cbn [length] in Hf.
  1, 3: exists (Ok targets); split; [done|by apply loop_done].
  { lia. }
  cbn [widen]. destruct (foldM _ _ _) as [[f t]|e] eqn:Hv.
  - apply IH; [by eapply loop_step|]. destruct (visit_all _ _ _ _ _ Hv) as (? & _ & _ & _ & _ & ?). lia.
  - eexists. split; [done|]. destruct (visit_refused _ _ _ Hv) as [-> (v & ? & ?)]. split; [done|]. exists u, v.
    split; [|done]. apply (li_reached _ _ Hi), (li_frontier _ _ Hi). by left.
Qed.
Lemma loop_start : loop_inv (rev requested) (rev requested).
Proof.
  split; intros u; rewrite ?elem_of_rev; try tauto.
  - intros ?. exists u. split; [done|]. apply rtc_refl.
Qed.
End Widen.

Lemma widening_fuel requested ordered peers fuel : (widen_fuel requested ordered <= fuel)%nat ->
  exists r, widen ordered peers fuel (rev requested) (rev requested) = Some r /\ widen_ok ordered peers requested r.
Proof.
  intros Hf. apply widen_spec; [apply loop_start|]. unfold widen_fuel in Hf. rewrite length_rev. unfold unseen.
  pose proof (filter_length_le (fun u => negb (bool_decide (u ∈ rev requested))) ordered). lia.
Qed.
Definition widening_ok (requested ordered : list string) (peers : list (string * list string)) (r : res (list string)) : Prop :=
  match r with
  | Ok targets => targets `sublist_of` ordered /\ forall u, u ∈ targets <-> reached peers requested u
  | Raise e => e = GpuResetRefused NvlinkPeersOutsidePod /\
               exists u v, reached peers requested u /\ v ∈ dget_or [] u peers /\ v ∉ ordered
  end.
Lemma widening_spec requested ordered peers :
  (forall u, u ∈ requested -> u ∈ ordered) -> widening_ok requested ordered peers (widened_targets requested ordered peers).
Proof.
  intros Hin. unfold widened_targets. destruct (widening_fuel requested ordered peers _ (Nat.le_refl _)) as (r & -> & Hr).
  destruct r as [targets|e]; [|exact Hr]. destruct Hr as [Hr Ho]. split; [apply bfilter_sublist|].
  intros u. rewrite elem_of_bfilter, bool_decide_eq_true, <- Hr. split; [tauto|]. intros Hu. split; [|done]. destruct (Ho u Hu); auto.
Qed.

(** C39. The loop over the NVLink peers ends, within one step for each requested GPU and each GPU of the
    pod, on every table of peers; it ends with exactly the pod's GPUs that the requested ones reach over
    NVLink, in pod order, and refuses exactly when a GPU they reach has a peer outside the pod. *)
Theorem nvlink_widening_ends requested ordered peers :
  (forall u, u ∈ requested -> u ∈ ordered) ->
  (forall fuel, (widen_fuel requested ordered <= fuel)%nat -> widen ordered peers fuel (rev requested) (rev requested) <> None) /\
  widening_ok requested ordered peers (widened_targets requested ordered peers).
Proof.
  intros Hin. split; [|by apply widening_spec]. intros fuel Hf. by destruct (widening_fuel requested ordered peers fuel Hf) as (r & -> & _).
Qed.

(** ** Runs *)

Inductive event := Ran (c : command) (r : res SSHResult) | Started (r : res unit).
(** What the host answers, and how a start of the container ends, at the n-th call. *)
Record Outside := mkOutside { run_of : nat -> command -> res SSHResult; start_of : nat -> res unit }.
Record World := mkWorld { log : list event; locals : Locals; now : nat }.

Section Runs.
Context (out : Outside) (repr : json -> string).
Definition logged (e : event) (w : World) : World := mkWorld (log w ++ [e]) (locals w) (S (now w)).
Definition handle (X : Type) (c : g_call X) : World -> World * X :=
  match c in g_call X return World -> World * X with
  | Run c => fun w => let r := run_of out (now w) c in (logged (Ran c r) w, r)
  | StartContainer => fun w => let r := start_of out (now w) in (logged (Started r) w, r)
  | Sleep => fun w => (w, tt)
  | GetLocals => fun w => (w, locals w)
  | PutLocals l => fun w => (mkWorld (log w) l (now w), tt)
  end.
Notation alone := (triple handle (fun _ => True)).

(** *** The host unit, watched from its events: may a reset still run? *)
Record Watch := mkWatch { running : bool; inactive : bool }.
Definition on_result (f : SSHResult -> bool) (r : res SSHResult) : bool := match r with Ok r => f r | Raise _ => false end.
Definition watch_step (m : Watch) (e : event) : Watch :=
  match e with
  | Ran (FabricReset _ _ _) r => mkWatch (negb (returned r)) false
  | Ran (IsActive u) r => if String.eqb u FABRIC_RESET_UNIT then mkWatch (running m) (on_result says_inactive r) else m
  | Ran ResetUnitProcs r => if inactive m && on_result says_empty r then mkWatch false (inactive m) else m
  | _ => m
  end.
Definition watch (l : list event) : Watch := fold_left watch_step l (mkWatch false false).
(** No reset may still run when the container is started. *)
Definition started_safely (l : list event) : Prop := forall l1 r l2, l = l1 ++ Started r :: l2 -> running (watch l1) = false.
Lemma watch_snoc l e : watch (l ++ [e]) = watch_step (watch l) e.
Proof. unfold watch. by rewrite fold_left_app. Qed.
Lemma started_safely_snoc l e : started_safely l -> (forall r, e = Started r -> running (watch l) = false) -> started_safely (l ++ [e]).
Proof.
  intros Hl He l1 r l2 H. destruct l2 as [|e' l2 _] using rev_ind.
  - apply app_inj_tail in H as [-> ->]. by eapply He.
  - rewrite app_comm_cons, app_assoc in H. apply app_inj_tail in H as [-> _]. by eapply Hl.
Qed.

(** What starts of the container ended in, since it was stopped. *)
Definition since_step (s : option (list (res unit))) (e : event) : option (list (res unit)) :=
  match e with Ran (DockerStop _) _ => Some [] | Started r => (fun l => l ++ [r]) <$> s | _ => s end.
Definition since_stop (l : list event) : option (list (res unit)) := fold_left since_step l None.
Lemma since_snoc l e : since_stop (l ++ [e]) = since_step (since_stop l) e.
Proof. unfold since_stop. by rewrite fold_left_app. Qed.
(** A reset command ran and the driver took it. *)
Definition is_reset (c : command) : bool := match c with ResetGpus _ | FabricReset _ _ _ => true | _ => false end.
Definition did_reset (l : list event) : Prop := exists c r, is_reset c = true /\ exit_code r = 0%Z /\ Ran c (Ok r) ∈ l.

(** *** Calls that neither stop, start, reset nor set a variable *)
Definition aside (X : Type) (c : g_call X) : Prop :=
  match c with
  | Run (DockerStop _ | ResetGpus _ | FabricReset _ _ _) | StartContainer | PutLocals _ => False
  | _ => True
  end.
(** The calls of the prechecks: they only read. *)
Definition reading (X : Type) (c : g_call X) : Prop :=
  match c with
  | Run (DockerInspect _ | CgroupsOf _ | OwnCgroup | HostGpus | ComputeApps | Nvswitch | Topology | IsActive _ | DockerPs | SystemdProbe | ResetUnitProcs) => True
  | _ => False
  end.
Lemma reading_aside X (c : g_call X) : reading X c -> aside X c.
Proof. destruct c as [[] | | | |]; done. Qed.
Ltac walk := repeat first
  [exact I | solve [auto 2 with reset] | apply calls_only_call; [exact I|intros ?] | apply calls_only_last; exact I
  | apply calls_only_of_res | apply calls_only_try; [|intros ? ? [= <-]] | apply calls_only_bind; [|intros ?] | case_match].
Lemma run_reads c : reading _ (Run c) -> calls_only reading (run c).
Proof. intros H. unfold run. apply calls_only_call; [done|]. intros r. apply calls_only_of_res. Qed.
Lemma cgroups_reads pids : calls_only reading (cgroups_of pids).
Proof. unfold cgroups_of, run. walk. Qed.
Lemma filter_active_reads l : calls_only reading (filter_active l).
Proof. induction l as [|u l IH]; cbn [filter_active]; unfold service_active, run; walk. Qed.
Lemma own_cgroup_reads : calls_only reading own_cgroup.
Proof. unfold own_cgroup, run. walk. Qed.
Hint Resolve cgroups_reads filter_active_reads own_cgroup_reads : reset.
Lemma processes_reads t c g : calls_only reading (processes_outside t c g).
Proof. unfold processes_outside, run. walk. Qed.
Lemma widen_reads r o h : calls_only reading (widen_targets_to_nvlink_peers r o h).
Proof. unfold widen_targets_to_nvlink_peers, run. walk. Qed.
Lemma holders_reads f l : calls_only reading (holder_services f l).
Proof. induction l as [|u l IH]; cbn [holder_services]; unfold service_active, run; walk. Qed.
Hint Resolve processes_reads widen_reads holders_reads : reset.
Lemma plan_holders_reads f c : calls_only reading (plan_host_holders f c).
Proof. unfold plan_host_holders, run. walk. Qed.
Lemma container_view_reads rq : calls_only reading (container_view rq).
Proof. unfold container_view, run. walk. Qed.
Hint Resolve plan_holders_reads container_view_reads : reset.
Lemma precheck_reads rq : calls_only reading (precheck repr rq).
Proof. unfold precheck, run. walk. Qed.
Hint Resolve precheck_reads : reset.
Lemma pids_reads t own n : calls_only aside (pids_still_on_targets t own n).
Proof. induction n as [|n IH]; cbn [pids_still_on_targets]; [walk|]. apply calls_only_bind; [|intros pids; walk]. exact (calls_only_weaken _ _ _ reading_aside (processes_reads _ _ _)). Qed.
Lemma any_problem_aside f l : (forall x, calls_only aside (f x)) -> calls_only aside (any_problem f l).
Proof. intros Hf. induction l as [|x l IH]; cbn [any_problem]; walk. Qed.
Lemma restore_aside u c : calls_only aside (restore_fabric_services u c).
Proof.
  unfold restore_fabric_services. apply calls_only_bind; [|intros p; apply calls_only_bind; [|by intros q]]; apply any_problem_aside; intros x.
  - unfold container_problem, run. walk.
  - unfold unit_problem, service_active, run. walk.
Qed.
Lemma cure_aside l : calls_only aside (cure_wedged_gpus l).
Proof. induction l as [|x l IH]; cbn [cure_wedged_gpus]; unfold run; walk. Qed.
Lemma wait_aside n : calls_only aside (wait_exited n).
Proof. unfold wait_exited, run. walk. Qed.

(** *** The phases of a reset *)

(** Nothing done yet that a report tells, and whether a reset is known to run still. *)
Definition untouched (still : bool) (l : Locals) : Prop :=
  rr_ok (report l) = false /\ rr_gpus (report l) = [] /\ rr_error_code (report l) = None /\ reset_still_running l = still.
(** [since] is what the starts came to since the stop; [still] whether a reset may still run. *)
Record phase (since : option (list (res unit))) (still : bool) (l : list event) : Prop := {
  ph_safely : started_safely l;
  ph_since : since_stop l = since;
  ph_running : running (watch l) = still
}.
Definition at_phase since still (w : World) : Prop := phase since still (log w) /\ untouched still (locals w).
(** Events that show nothing of the unit's end. *)
Definition unit_event (e : event) : bool :=
  match e with Ran (FabricReset _ _ _) _ | Ran ResetUnitProcs _ => true | _ => false end.
Lemma phase_aside since (still : bool) l c r :
  aside _ (Run c) -> (still = true -> unit_event (Ran c r) = false) -> phase since still l -> phase since still (l ++ [Ran c r]).
Proof.
  intros Hc Hu [Hs Hsi Hr]. split.
  - by apply started_safely_snoc.
  - rewrite since_snoc, Hsi. by destruct c.
  - rewrite watch_snoc. destruct c; try done; cbn [watch_step] in *; [by case_match|]. case_match; [|done]. cbn. destruct still; [|done]. by specialize (Hu eq_refl).
Qed.
(** What stays true as the log grows. *)
Definition stable (K : list event -> Prop) : Prop := forall l e, K l -> K (l ++ [e]).
Lemma stable_in e : stable (fun l => e ∈ l).
Proof. intros l e' H. set_solver. Qed.
Lemma stable_true : stable (fun _ => True).
Proof. done. Qed.
Hint Resolve stable_in stable_true : reset.
Lemma aside_keeps {A} K F since (p : prog g_call A) : stable K -> calls_only aside p ->
  alone (fun w => phase since false (log w) /\ F (locals w) /\ K (log w)) p (fun _ w => phase since false (log w) /\ F (locals w) /\ K (log w)).
Proof.
  intros HK Hp. eapply triple_looser with (inv := fun w => phase since false (log w) /\ F (locals w) /\ K (log w)); [done|].
  apply (calls_only_keeps aside); [|done]. intros X c w w' x Hc (Hph & HF & Hk) H. destruct c; cbn in H, Hc; simplify_eq; try done.
  split_and!; [by apply phase_aside|done|by apply HK].
Qed.
Lemma modify_keeps (f : Locals -> Locals) (F G : list event -> Locals -> Prop) :
  (forall l loc, F l loc -> G l (f loc)) -> alone (fun w => F (log w) (locals w)) (modify f) (fun o w => o = Ok tt /\ G (log w) (locals w)).
Proof.
  intros Hf. unfold modify. apply triple_call with (mid := fun l w => F (log w) (locals w) /\ l = locals w).
  { intros w w' l Hw H. cbn in H. simplify_eq. done. }
  intros l. apply triple_last. intros w w' [] [Hw ->] H. cbn in H. simplify_eq. split_and!; [done..|]. by apply Hf.
Qed.
(** The call that resets, and what is known of its answer. *)
Lemma run_direct text :
  alone (at_phase (Some []) false) (run (ResetGpus text))
    (fun o w => at_phase (Some []) false w /\ forall r, o = Ok r -> exit_code r = 0%Z -> did_reset (log w)).
Proof.
  unfold run. apply triple_call with (mid := fun r w => at_phase (Some []) false w /\ Ran (ResetGpus text) r ∈ log w).
  - intros w w' r [[Hs Hsi Hr] Hu] H. cbn in H. simplify_eq. split; [done|]. split; [|cbn; set_solver].
    split; [|done]. cbn [log logged]. split; [by apply started_safely_snoc|by rewrite since_snoc, Hsi|by rewrite watch_snoc].
  - intros [r|e]; cbn; [apply triple_ret|apply triple_exc]; intros w [Hw Hin]; (split; [done|split; [done|]]); [|done].
    intros r' [= <-] He. exists (ResetGpus text), r. done.
Qed.
Lemma gone_spec K since : stable K ->
  alone (fun w => phase since true (log w) /\ inactive (watch (log w)) = false /\ untouched false (locals w) /\ K (log w)) reset_unit_gone
    (fun o w => exists b, o = Ok b /\ phase since (negb b) (log w) /\ untouched false (locals w) /\ K (log w)).
Proof.
  intros HK. unfold reset_unit_gone.
  apply triple_try with (mid := fun o w => match o with Ok b => phase since (negb b) (log w) | Raise _ => phase since true (log w) end
                                           /\ untouched false (locals w) /\ K (log w)).
  2: { intros b w (? & ? & ?). eauto. }
  2: { intros e. apply triple_ret. intros w (? & ? & ?). split; [done|]. by exists false. }
  unfold run.
  eapply triple_bind with (mid := fun o w => phase since true (log w) /\ inactive (watch (log w)) = on_result says_inactive o /\ untouched false (locals w) /\ K (log w)).
  { apply triple_call with (mid := fun r w => phase since true (log w) /\ inactive (watch (log w)) = on_result says_inactive r /\ untouched false (locals w) /\ K (log w)).
    - intros w w' r (Hp & Hi & Hu & Hk) H. cbn in H. simplify_eq. split; [done|]. split_and!; [by apply phase_aside| |done|by apply HK].
      cbn [log logged]. by rewrite watch_snoc.
    - intros [r|e]; cbn; [apply triple_ret|apply triple_exc]; done. }
  2: { tauto. }
  intros state.
  eapply triple_bind with (mid := fun o w => phase since (negb (says_inactive state && on_result says_empty o)) (log w) /\ untouched false (locals w) /\ K (log w)).
  { apply triple_call with (mid := fun r w => phase since (negb (says_inactive state && on_result says_empty r)) (log w) /\ untouched false (locals w) /\ K (log w)).
    - intros w w' r ([Hs Hsi Hr] & Hi & Hu & Hk) H. cbn in H. simplify_eq. split; [done|]. split_and!; [|done|by apply HK]. cbn [log logged].
      split; [by apply started_safely_snoc|by rewrite since_snoc|]. rewrite watch_snoc. cbn. rewrite Hi. cbn. case_match; cbn; by rewrite ?Hr.
    - intros [r|e]; cbn; [apply triple_ret|apply triple_exc]; done. }
  - intros procs. apply triple_ret. tauto.
  - intros e w [Hp ?]. cbn in Hp. rewrite andb_false_r in Hp. done.
Qed.

(** *** The host unit *)
Lemma any_problem_quiet f l : (forall x, quiet (f x)) -> quiet (any_problem f l).
Proof.
  intros Hf. induction l as [|x l IH]; cbn [any_problem]; [done|]. apply quiet_bind; [apply Hf|]. intros p. apply quiet_bind; [done|]. by intros q.
Qed.
Lemma restore_quiet u c : quiet (restore_fabric_services u c).
Proof.
  unfold restore_fabric_services. apply quiet_bind; [|intros p; apply quiet_bind; [|by intros q]]; apply any_problem_quiet; intros x.
  - by apply (quiet_try _ (fun _ => Ret true)).
  - by apply (quiet_try _ (fun _ => Ret true)).
Qed.
(** The unit's reset answered [r]; [b] says whether it may still run. *)
Definition unit_state (c : command) (r : res SSHResult) (still known : bool) (l : list event) (loc : Locals) : Prop :=
  phase (Some []) still l /\ untouched known loc /\ Ran c r ∈ l.
Definition unit_ended (c : command) (r : res SSHResult) (problem : bool) (w : World) : Prop :=
  exists b, unit_state c r b b (log w) (locals w) /\ (problem = false -> b = false).
Lemma unit_restored c r u k :
  alone (fun w => unit_state c r false false (log w) (locals w))
    (p ← restore_fabric_services u k; _ ← modify (set_problem p); Ret p) (fun o w => exists p, o = Ok p /\ unit_ended c r p w).
Proof.
  eapply triple_quiet_bind; [apply restore_quiet|apply (aside_keeps (fun l => Ran c r ∈ l)); [apply stable_in|apply restore_aside]|].
  intros p. eapply triple_bind; [apply (modify_keeps (set_problem p) (unit_state c r false false) (unit_state c r false false)); done| |by intros e w [? _]].
  intros []. apply triple_ret. intros w [_ Hu]. split; [done|]. exists p. split; [done|]. by exists false.
Qed.
Lemma unit_left c r :
  alone (fun w => unit_state c r true false (log w) (locals w)) (_ ← modify set_running; Ret true) (fun o w => exists p, o = Ok p /\ unit_ended c r p w).
Proof.
  eapply triple_bind; [apply (modify_keeps set_running (unit_state c r true false) (unit_state c r true true))| |by intros e w [? _]].
  - intros l loc (? & (? & ? & ? & ?) & ?). done.
  - intros []. apply triple_ret. intros w [_ Hu]. split; [done|]. exists true. split; [done|]. by exists true.
Qed.
Definition unit_called c r (w : World) : Prop := unit_state c r (negb (returned r)) false (log w) (locals w) /\ inactive (watch (log w)) = false.
Lemma unit_call (c := FabricReset) u t k w w' r :
  at_phase (Some []) false w -> handle _ (Run (c u t k)) w = (w', r) -> unit_called (c u t k) r w'.
Proof.
  intros [[Hs Hsi Hr] Hu] H. cbn in H. simplify_eq. unfold unit_called, unit_state. cbn [log logged]. rewrite watch_snoc. split; [split_and!|done].
  - split; [by apply started_safely_snoc|by rewrite since_snoc|by rewrite watch_snoc].
  - done.
  - set_solver.
Qed.
Lemma unit_checked c r :
  alone (unit_called c r) (if returned r then Ret true else reset_unit_gone)
    (fun o w => exists b, o = Ok b /\ unit_state c r (negb b) false (log w) (locals w)).
Proof.
  unfold unit_called, unit_state. destruct (returned r) eqn:Hr.
  - apply triple_ret. intros w [? _]. split; [done|]. by exists true.
  - eapply triple_weaken; [apply (gone_spec (fun l => Ran c r ∈ l)), stable_in| |exact (fun _ _ H => H)]. cbn. tauto.
Qed.
(** The unit returned or is proven gone, and then the fabric is restored; or its reset may still run. *)
Definition after_reset (o : res SSHResult) (w : World) : Prop :=
  match o with
  | Ok r => at_phase (Some []) false w /\ (exit_code r = 0%Z -> did_reset (log w))
  | Raise _ => exists b, at_phase (Some []) b w
  end.
Lemma host_unit_spec plan text : alone (at_phase (Some []) false) (reset_in_host_unit plan text) after_reset.
Proof.
  unfold reset_in_host_unit. set (c := FabricReset _ _ _).
  apply triple_call with (mid := unit_called c). { intros w w' r Hw H. split; [done|]. by eapply unit_call. }
  intros r. eapply triple_bind; [apply unit_checked| |by intros e w (b & ? & _)].
  intros gone. eapply triple_bind with (mid := fun o w => exists p, o = Ok p /\ unit_ended c r p w); [| |by intros e w (b & ? & _)].
  { destruct gone; (eapply triple_weaken; [apply unit_restored || apply unit_left| |exact (fun _ _ H => H)]); intros w (b & [= <-] & ?); done. }
  intros problem. apply triple_weaken with (pre := unit_ended c r problem) (post := after_reset); [|intros w (p & [= <-] & ?); done|done].
  assert (Hexc : forall e, alone (unit_ended c r problem) (Exc e) after_reset).
  { intros e. apply triple_exc. intros w (b & (? & ? & _) & _). split; [done|]. by exists b. }
  destruct r as [r|e]; [change (of_res (Ok r) ≫= ?f) with (f r)|apply Hexc].
  cbv beta. destruct problem; [apply Hexc|]. case_match; [apply Hexc|].
  apply triple_ret. intros w (b & (Hp & Hu & Hin) & Hf). rewrite (Hf eq_refl) in Hp, Hu. split; [done|]. split; [done|]. intros He. by exists c, r.
Qed.

(** *** From the stop to the report *)

(** A report of a reset: only one that ran is reported. *)
Definition honest (l : list event) (r : GpuResetReport) : Prop :=
  (rr_ok r = true -> did_reset l /\ rr_error_code r = None /\ forall g, g ∈ rr_gpus r -> go_result g = reset) /\
  (forall g, g ∈ rr_gpus r -> go_result g = reset -> did_reset l).
Lemma untouched_honest b l loc : untouched b loc -> honest l (report loc).
Proof. intros (Hok & Hg & _). split; rewrite ?Hok, ?Hg; [done|set_solver]. Qed.
(** The stop ran, the container is not started yet. *)
Definition tried (w : World) : Prop := exists b,
  phase (Some []) b (log w) /\ reset_still_running (locals w) = b /\ honest (log w) (report (locals w)) /\ (b = true -> rr_ok (report (locals w)) = false).
Definition body_post (o : res unit) (w : World) : Prop :=
  tried w /\ match o with Ok _ => True | Raise _ => rr_ok (report (locals w)) = false end.
Lemma phase_tried b w : at_phase (Some []) b w -> tried w /\ rr_ok (report (locals w)) = false.
Proof. intros [Hp Hu]. pose proof (untouched_honest b (log w) _ Hu). destruct Hu as (? & _ & _ & ?). split; [|done]. by exists b. Qed.
Lemma body_exc e : alone (at_phase (Some []) false) (Exc e) body_post.
Proof. apply triple_exc. intros w Hw. split; [done|]. by eapply phase_tried. Qed.
Lemma body_aside {A} (p : prog g_call A) (f : A -> prog g_call unit) :
  calls_only aside p -> (forall a, alone (at_phase (Some []) false) (f a) body_post) -> alone (at_phase (Some []) false) (p ≫= f) body_post.
Proof.
  intros Hp Hf. eapply triple_bind with (mid := fun _ => at_phase (Some []) false); [|done|intros e w Hw; by eapply phase_tried].
  eapply triple_weaken; [apply (aside_keeps (fun _ => True) (untouched false)); [done|exact Hp]|by intros w [? ?]|by intros o w (? & ? & _)].
Qed.
Lemma body_modify (f : Locals -> Locals) (g : unit -> prog g_call unit) :
  (forall loc, untouched false loc -> untouched false (f loc)) -> alone (at_phase (Some []) false) (g tt) body_post ->
  alone (at_phase (Some []) false) (modify f ≫= g) body_post.
Proof.
  intros Hf Hg. eapply triple_bind; [apply (modify_keeps f (fun l loc => phase (Some []) false l /\ untouched false loc) (fun l loc => phase (Some []) false l /\ untouched false loc))| |by intros e w [? _]].
  - intros l loc [? ?]. auto.
  - intros []. eapply triple_weaken; [exact Hg| |done]. by intros w (_ & ? & ?).
Qed.
(** The report of a reset that ran, and of a driver that refused it. *)
Lemma reset_reported plan :
  alone (fun w => at_phase (Some []) false w /\ did_reset (log w))
    (modify (with_report (fun r => set_gpus (map (fun u => mkOutcome (index_of plan u) u reset) (pl_targets plan)) (set_ok true r)))) body_post.
Proof.
  eapply triple_weaken; [apply (modify_keeps _ (fun l loc => (phase (Some []) false l /\ untouched false loc) /\ did_reset l)
    (fun l loc => phase (Some []) false l /\ reset_still_running loc = false /\ honest l (report loc)))|done|].
  - intros l loc [[Hp (Hok & Hg & Hc & Hst)] Hd]. split_and!; [done|done|]. split; [|done]. intros _. split_and!; [done|done|].
    intros g (u & -> & _)%list_elem_of_fmap. done.
  - intros o w (-> & ? & ? & ?). split; [|done]. by exists false.
Qed.
Lemma refusal_reported plan :
  alone (at_phase (Some []) false)
    (_ ← modify (with_report (set_code ResetNotSupported));
     cures ← cure_wedged_gpus (pl_targets plan);
     modify (with_report (fun r =>
       set_gpus (rr_gpus r ++ map (fun uc => mkOutcome (index_of plan uc.1) uc.1 (if uc.2 : bool then latch_cleared else failed)) cures) r)))
    body_post.
Proof.
  set (F := fun (loc : Locals) => rr_ok (report loc) = false /\ rr_gpus (report loc) = [] /\ reset_still_running loc = false).
  assert (Hh : forall l loc, F loc -> honest l (report loc)) by (intros l loc (Hok & Hg & _); split; rewrite ?Hok, ?Hg; [done|set_solver]).
  eapply triple_bind; [apply (modify_keeps _ (fun l loc => phase (Some []) false l /\ untouched false loc) (fun l loc => phase (Some []) false l /\ F loc))| |by intros e w [? _]].
  { by intros l loc [? (? & ? & ? & ?)]. }
  intros []. eapply triple_bind with (mid := fun _ w => phase (Some []) false (log w) /\ F (locals w)).
  - eapply triple_weaken; [apply (aside_keeps (fun _ => True) F); [done|apply cure_aside]|by intros w (_ & ? & ?)|by intros o w (? & ? & _)].
  - intros cures. eapply triple_weaken; [apply (modify_keeps _ (fun l loc => phase (Some []) false l /\ F loc)
      (fun l loc => phase (Some []) false l /\ reset_still_running loc = false /\ honest l (report loc)))|done|].
    + intros l loc [? (Hok & Hg & Hs)]. split_and!; [done|done|]. split; cbn; [by rewrite Hok|]. rewrite Hg. cbn.
      intros g (uc & -> & _)%list_elem_of_fmap. cbn. by destruct (uc.2).
    + intros o w (-> & ? & ? & ?). split; [|done]. by exists false.
  - intros e w [? HF]. pose proof (Hh (log w) _ HF). destruct HF as (? & _ & ?). split; [|done]. by exists false.
Qed.
Lemma stop_and_reset_spec rq plan : alone (at_phase None false) (stop_and_reset rq plan) body_post.
Proof.
  unfold stop_and_reset.
  eapply triple_bind with (mid := fun _ => at_phase (Some []) false); [|intros stopped|intros e w Hw; by eapply phase_tried].
  { unfold run. apply triple_call with (mid := fun _ => at_phase (Some []) false).
    - intros w w' r [[Hs Hsi Hr] Hu] H. cbn in H. simplify_eq. split; [done|]. split; [|done]. cbn [log logged].
      split; [by apply started_safely_snoc|by rewrite since_snoc|by rewrite watch_snoc].
    - intros [r|e]; [apply triple_ret|apply triple_exc]; done. }
  case_match; [apply body_modify; [done|apply body_exc]|]. apply body_modify; [done|].
  apply body_aside; [exact (calls_only_weaken _ _ _ reading_aside own_cgroup_reads)|]. intros own.
  apply body_aside; [apply pids_reads|]. intros [|pid rest]; [|apply body_exc].
  destruct (build_reset_command _ _ _) as [text|e]; [change (of_res (Ok text) ≫= ?f) with (f text)|apply body_exc]. cbv beta.
  eapply triple_bind with (mid := after_reset).
  - destruct (pl_owns_host plan); [apply host_unit_spec|]. eapply triple_weaken; [apply run_direct|done|].
    intros [r|e] w [Hw Hd]; cbn; [split; [done|]; by apply Hd|by exists false].
  - intros r. destruct (exit_code r =? 0)%Z eqn:He.
    + apply Z.eqb_eq in He. eapply triple_weaken; [apply reset_reported| |done]. intros w [? Hd]. auto.
    + eapply triple_weaken; [apply refusal_reported| |done]. by intros w [? _].
  - intros e w [b Hb]. by eapply phase_tried.
Qed.

(** The container came back, a start was tried twice, or a reset may still run. *)
Definition back (l : list event) (r : GpuResetReport) : Prop :=
  since_stop l = Some [] /\ running (watch l) = true /\ rr_ok r = false \/
  (since_stop l = Some [Ok tt] \/ exists e, since_stop l = Some [Raise e; Ok tt]) /\ running (watch l) = false /\ rr_container_restarted r = true \/
  (exists e e', since_stop l = Some [Raise e; Raise e']) /\ running (watch l) = false /\ rr_container_restarted r = false /\ rr_ok r = false.
Definition reported (w : World) : Prop := started_safely (log w) /\ honest (log w) (report (locals w)) /\ back (log w) (report (locals w)).
Lemma start_phase s r l : phase (Some s) false l -> phase (Some (s ++ [r])) false (l ++ [Started r]).
Proof. intros [Hs Hsi Hr]. split; [by apply started_safely_snoc|by rewrite since_snoc, Hsi|by rewrite watch_snoc]. Qed.
Lemma did_reset_snoc l e : did_reset l -> did_reset (l ++ [e]).
Proof. intros (c & r & ? & ? & ?). exists c, r. set_solver. Qed.
Lemma honest_snoc l e r : honest l r -> honest (l ++ [e]) r.
Proof. intros [H1 H2]. split; [intros Hok; destruct (H1 Hok) as (? & ? & ?); auto using did_reset_snoc|eauto using did_reset_snoc]. Qed.
Definition starting s (w : World) : Prop := phase (Some s) false (log w) /\ honest (log w) (report (locals w)).
Lemma start_call s w w' r : starting s w -> handle _ StartContainer w = (w', r) -> starting (s ++ [r]) w'.
Proof. intros [Hp Hh] H. cbn in H. simplify_eq. split; [by apply start_phase|by apply honest_snoc]. Qed.
Lemma starting_wait s n : alone (starting s) (wait_exited n) (fun _ => starting s).
Proof.
  eapply triple_looser with (inv := starting s); [done|]. apply (calls_only_keeps aside); [|apply wait_aside].
  intros X c w w' x Hc [Hp Hh] H. destruct c; cbn in H, Hc; simplify_eq; try done. split; [by apply phase_aside|by apply honest_snoc].
Qed.
Lemma report_start s (f : GpuResetReport -> GpuResetReport) :
  (forall l r, honest l r -> honest l (f r)) -> (forall l r, phase (Some s) false l -> back l (f r)) ->
  alone (starting s) (modify (with_report f)) (fun o w => o = Ok tt /\ reported w).
Proof.
  intros Hf Hb. eapply triple_weaken; [apply (modify_keeps (with_report f) (fun l loc => phase (Some s) false l /\ honest l (report loc))
    (fun l loc => phase (Some s) false l /\ honest l (report loc) /\ back l (report loc)))|done|].
  - intros l loc [? ?]. split_and!; [done|by apply Hf|by apply Hb].
  - intros o w (-> & Hp & ? & ?). split; [done|]. split_and!; [by apply Hp|done..].
Qed.
Lemma start_again_spec n : alone tried (start_again n) (fun o w => o = Ok tt /\ reported w).
Proof.
  unfold start_again. apply triple_call with (mid := fun l w => tried w /\ l = locals w).
  { intros w w' l Hw H. cbn in H. by simplify_eq. }
  intros l. destruct (reset_still_running l) eqn:Hst.
  { apply triple_ret. intros w ([b (Hp & Hb & Hh & Hok)] & ->). split; [done|]. split; [done|]. split_and!; [apply Hp|done|].
    left. split_and!; [apply Hp|rewrite (ph_running _ _ _ Hp); congruence|apply Hok; congruence]. }
  apply triple_weaken with (pre := starting []) (post := fun o w => o = Ok tt /\ reported w); [| |done].
  2: { intros w ([b (Hp & Hb & Hh & Hok)] & ->). split; [|done]. by replace false with b by congruence. }
  eapply triple_quiet_bind with (mid := starting []); [|destruct (stop_failed l); [apply starting_wait|by apply triple_ret]|intros _].
  { destruct (stop_failed l); [by apply (quiet_try _ (fun _ => Ret tt))|done]. }
  apply triple_call with (mid := fun r => starting [r]). { intros w w' r Hw H. split; [done|]. by apply (start_call [] w). }
  intros [[]|e].
  { apply report_start; [done|]. intros l' r' Hp. right; left. split_and!; [left; apply Hp|apply Hp|done]. }
  eapply triple_quiet_bind; [by apply (quiet_try _ (fun _ => Ret tt))|apply starting_wait|intros _].
  apply triple_call with (mid := fun r => starting [Raise e; r]). { intros w w' r Hw H. split; [done|]. by apply (start_call [Raise e] w). }
  intros [[]|e'].
  - apply report_start; [done|]. intros l' r' Hp. right; left. split_and!; [right; exists e; apply Hp|apply Hp|done].
  - apply report_start; [intros l' r' [_ H2]; by split|]. intros l' r' Hp. right; right. split_and!; [exists e, e'; apply Hp|apply Hp|done|done].
Qed.

(** *** The whole run *)

(** How a run may end: nothing was stopped, or it reports and the container came back. *)
Definition run_post (o : res GpuResetReport) (w : World) : Prop :=
  started_safely (log w) /\ (forall rep, o = Ok rep -> honest (log w) rep) /\
  (since_stop (log w) = None /\ (forall rep, o = Ok rep -> rr_ok rep = false) \/ exists rep, o = Ok rep /\ back (log w) rep).
Lemma handled e :
  alone (body_post (Raise e)) (modify (with_report (set_code (default ExecutorUnreachable (refused_code e))))) (fun o w => o = Ok tt /\ tried w).
Proof.
  set (F := fun l loc => exists b, phase (Some []) b l /\ reset_still_running loc = b /\ honest l (report loc) /\ rr_ok (report loc) = false).
  eapply triple_weaken; [apply (modify_keeps _ F F)| |].
  - intros l loc (b & ? & ? & [_ Hg] & Hok). exists b. split_and!; [done|done| |done]. split; [cbn; by rewrite Hok|done].
  - intros w [(b & ? & ? & ? & _) ?]. by exists b.
  - intros o w (-> & b & ? & ? & ? & ?). split; [done|]. by exists b.
Qed.
Lemma carry_out_spec rq plan : alone (at_phase None false) (carry_out rq plan) run_post.
Proof.
  unfold carry_out. eapply triple_bind with (mid := fun o w => o = Ok tt /\ tried w).
  - apply triple_try with (mid := body_post); [apply stop_and_reset_spec|by intros [] w [? _]|apply handled].
  - intros []. eapply triple_bind; [eapply triple_weaken; [apply start_again_spec|by intros w [_ ?]|exact (fun _ _ H => H)]| |by intros e w [? _]]. intros [].
    apply triple_call with (mid := fun l w => reported w /\ l = locals w).
    { intros w w' l [_ Hw] H. cbn in H. by simplify_eq. }
    intros l. apply triple_ret. intros w [(Hs & Hh & Hb) ->]. split; [done|]. split_and!; [done| |right; eexists; split; [done|]].
    + intros rep [= <-]. case_match; [|done]. destruct Hh as [_ Hg]. unfold keep_code. case_match; (split; [done|exact Hg]).
    + case_match; [|done]. unfold keep_code. case_match; destruct Hb as [(? & ? & ?)|[(? & ? & ?)|(? & ? & ? & ?)]]; [left|right; left|right; right| left|right; left|right; right]; done.
  - by intros e w [? _].
Qed.
Lemma read_phase {A} (p : prog g_call A) :
  calls_only aside p -> alone (at_phase None false) p (fun _ => at_phase None false).
Proof.
  intros Hp. eapply triple_weaken; [apply (aside_keeps (fun _ => True) (untouched false)); [done|exact Hp]|by intros w [? ?]|by intros o w (? & ? & _)].
Qed.
Lemma caught_aside {A} (p : prog g_call A) : calls_only aside p -> calls_only aside (caught p).
Proof. intros Hp. unfold caught. apply calls_only_try; [by apply calls_only_bind|by intros e q [= <-]]. Qed.
Lemma caught_quiet {A} (p : prog g_call A) : quiet (caught p).
Proof. unfold caught. by apply (quiet_try _ (fun e => Ret (Raise e))). Qed.
Lemma pending_aside : calls_only aside reset_unit_pending.
Proof. unfold reset_unit_pending. apply calls_only_bind; [apply caught_aside; unfold run; walk|done]. Qed.
Lemma read_exc e : alone (at_phase None false) (Exc e) run_post.
Proof. apply triple_exc. intros w [Hp _]. split; [done|]. split_and!; [apply Hp|done|]. left. split; [apply Hp|done]. Qed.
Lemma read_ret c : alone (at_phase None false) (Ret (refused c)) run_post.
Proof.
  apply triple_ret. intros w [Hp _]. split; [done|]. split_and!; [apply Hp| |].
  - intros rep [= <-]. split; [done|]. cbn. set_solver.
  - left. split; [apply Hp|]. by intros rep [= <-].
Qed.
Lemma refused_again e :
  alone (at_phase None false)
    (match refused_code e with Some c => l ← call GetLocals; Ret (set_code c (report l)) | None => Exc e end) run_post.
Proof.
  destruct (refused_code e) as [c|]; [|apply read_exc].
  apply triple_call with (mid := fun l w => at_phase None false w /\ l = locals w). { intros w w' l Hw H. cbn in H. by simplify_eq. }
  intros l. apply triple_ret. intros w [[Hp (Hok & Hg & _)] ->]. split; [done|]. split_and!; [apply Hp| |left; split; [apply Hp|by intros rep [= <-]]].
  intros rep [= <-]. split; cbn; [by rewrite Hok|rewrite Hg; set_solver].
Qed.
Lemma start_first w w' r : at_phase None false w -> handle _ StartContainer w = (w', r) -> at_phase None false w'.
Proof.
  intros [[Hs Hsi Hr] Hu] H. cbn in H. simplify_eq. split; [|done]. cbn [log logged].
  split; [by apply started_safely_snoc|by rewrite since_snoc, Hsi|by rewrite watch_snoc].
Qed.
Lemma reset_spec rq : alone (fun w => log w = []) (reset_pod_gpus repr rq) run_post.
Proof.
  unfold reset_pod_gpus. apply triple_call with (mid := fun _ => at_phase None false).
  { intros w w' [] Hw H. cbn in H. simplify_eq. split; [done|]. split; [|done]. cbn [log]. rewrite Hw. split; [|done|done]. intros [|e l1] r l2 H; done. }
  intros _. eapply triple_quiet_bind with (mid := at_phase None false); [|apply read_phase, pending_aside|].
  { unfold reset_unit_pending. apply quiet_bind; [apply caught_quiet|done]. }
  intros [|]; [apply read_ret|].
  assert (Hpre : alone (at_phase None false) (caught (precheck repr rq)) (fun _ => at_phase None false)).
  { apply read_phase, caught_aside. exact (calls_only_weaken _ _ _ reading_aside (precheck_reads rq)). }
  eapply triple_quiet_bind; [apply caught_quiet|exact Hpre|]. intros [plan|e]; [apply carry_out_spec|].
  case_match; [|destruct (refused_code e); [apply read_ret|apply read_exc]].
  apply triple_call with (mid := fun _ => at_phase None false). { intros w w' r Hw Hc. split; [done|]. by eapply start_first. }
  intros [[]|e']; [|apply read_ret].
  eapply triple_bind with (mid := fun o w => o = Ok tt /\ at_phase None false w); [|intros []|by intros ? w [? _]].
  { apply (modify_keeps _ (fun l loc => phase None false l /\ untouched false loc) (fun l loc => phase None false l /\ untouched false loc)). done. }
  eapply triple_weaken; [|by intros w [_ ?]|exact (fun _ _ H => H)].
  eapply triple_quiet_bind; [apply caught_quiet|exact Hpre|]. intros [plan|e']; [apply carry_out_spec|apply refused_again].
Qed.


(** C21. A container that was stopped is started again.  Once [docker stop] ran the function returns a
    report, whatever the host answers: the container was started, at the first or the second attempt, and
    the report says so; or both attempts failed, and the report says it is not restarted and not ok; or no
    start was tried because a reset may still run on the host, and the report is not ok. *)
Theorem stopped_pod_comes_back rq w w' o starts :
  log w = [] -> perform handle (reset_pod_gpus repr rq) w = (w', o) -> since_stop (log w') = Some starts ->
  exists rep, o = Ok rep /\
    ((starts = [Ok tt] \/ exists e, starts = [Raise e; Ok tt]) /\ rr_container_restarted rep = true \/
     (exists e e', starts = [Raise e; Raise e']) /\ rr_container_restarted rep = false /\ rr_ok rep = false \/
     starts = [] /\ running (watch (log w')) = true /\ rr_ok rep = false).
Proof.
  intros Hw H Hst. apply (reset_spec rq w Hw) in H as (_ & _ & [[Hn _]|(rep & -> & Hb)]); [congruence|].
  exists rep. split; [done|]. unfold back in Hb. rewrite Hst in Hb. naive_solver.
Qed.

(** C22. A report is ok only for a reset: a reset command ran and the driver took it, the container was
    started again, there is no error code and every GPU of the report reads [reset]; and no GPU ever reads
    [reset] without one, so the latch cure alone never does. *)
Theorem ok_only_for_a_reset rq w w' rep :
  log w = [] -> perform handle (reset_pod_gpus repr rq) w = (w', Ok rep) ->
  (rr_ok rep = true ->
     did_reset (log w') /\ rr_container_restarted rep = true /\ rr_error_code rep = None /\ forall g, g ∈ rr_gpus rep -> go_result g = reset) /\
  (forall g, g ∈ rr_gpus rep -> go_result g = reset -> did_reset (log w')).
Proof.
  intros Hw H. apply (reset_spec rq w Hw) in H as (_ & Hh & Hb). destruct (Hh rep eq_refl) as [H1 H2]. split; [|exact H2].
  intros Hok. destruct (H1 Hok) as (? & ? & ?). split_and!; [done| |done..].
  destruct Hb as [[_ Hb]|(rep' & [= <-] & [(_ & _ & ?)|[(_ & _ & ?)|(_ & _ & _ & ?)]])]; [|congruence|done|congruence].
  specialize (Hb rep eq_refl). congruence.
Qed.

(** *** Only the pod's own GPUs, whole NVLink groups of them *)
Section Targets.
Context (rq : Request).
(** Whole groups: with each GPU its NVLink peers in the listed topology, or every GPU of the host. *)
Definition whole_groups (l : list event) (host_gpus : list HostGpu) (uuids : list string) : Prop :=
  (forall g, g ∈ host_gpus -> hg_uuid g ∈ uuids) \/
  exists topo peers, Ran Topology (Ok topo) ∈ l /\ parse_nvlink_peers (stdout topo) host_gpus = Ok peers /\
    forall u v, u ∈ uuids -> v ∈ dget_or [] u peers -> v ∈ uuids.
(** The host listed each GPU, without MIG, and Docker gave it to the container. *)
Definition given (l : list event) (host_gpus : list HostGpu) (u : string) : Prop :=
  exists inspected c uuids g, Ran (DockerInspect (rq_container_name rq)) (Ok inspected) ∈ l /\ read_inspected (json_out inspected) = Ok c /\
    container_gpu_uuids repr (in_device_requests c) host_gpus = Ok uuids /\ u ∈ uuids /\
    dget u (host_by_uuid host_gpus) = Some g /\ hg_mig_enabled g = false.
Definition may_reset (l : list event) (uuids : list string) : Prop :=
  (forall u, u ∈ uuids -> u ∈ rq_pod_gpu_uuids rq) /\
  exists host, Ran HostGpus (Ok host) ∈ l /\ whole_groups l (parse_host_gpus (stdout host)) uuids /\
    forall u, u ∈ uuids -> given l (parse_host_gpus (stdout host)) u.
Lemma may_reset_stable uuids : stable (fun l => may_reset l uuids).
Proof.
  intros l e (Hp & host & Hh & Hw & Hg). split; [done|]. exists host. split_and!; [set_solver| |].
  - destruct Hw as [?|(topo & peers & ? & ? & ?)]; [by left|right]. exists topo, peers. split; [set_solver|done].
  - intros u Hu. destruct (Hg u Hu) as (i & c & us & g & ? & ?). exists i, c, us, g. split; [set_solver|done].
Qed.
Lemma stable_keeps {A} K (p : prog g_call A) : stable K -> alone (fun w => K (log w)) p (fun _ w => K (log w)).
Proof.
  intros HK. eapply triple_looser with (inv := fun w => K (log w)); [done|]. apply (calls_only_keeps (fun _ _ => True)).
  - intros X c w w' x _ Hw H. destruct c; cbn in H; simplify_eq; try done; by apply HK.
  - induction p as [| |X c k IH]; cbn; auto.
Qed.
Lemma stable_and K K' : stable K -> stable K' -> stable (fun l => K l /\ K' l).
Proof. intros H H' l e [? ?]. split; [by apply H|by apply H']. Qed.
(** What holds of the value a program returns, if it returns one. *)
Definition gives {A} (pre : list event -> Prop) (p : prog g_call A) (Q : A -> list event -> Prop) : Prop :=
  alone (fun w => pre (log w)) p (fun o w => forall a, o = Ok a -> Q a (log w)).
Lemma run_logs K c : stable K -> gives K (run c) (fun r l => K l /\ Ran c (Ok r) ∈ l).
Proof.
  intros HK. unfold run, gives. apply triple_call with (mid := fun r w => K (log w) /\ Ran c r ∈ log w).
  - intros w w' r Hw H. cbn in H. simplify_eq. split; [done|]. cbn. split; [by apply HK|set_solver].
  - intros [r|e]; cbn; [apply triple_ret|apply triple_exc]; intros w [? ?]; (split; [done|]); intros r' Hr; by simplify_eq.
Qed.
Lemma gives_bind {A B} K (Q : A -> list event -> Prop) (Q' : B -> list event -> Prop) p (f : A -> prog g_call B) :
  gives K p Q -> (forall a, gives (Q a) (f a) Q') -> gives K (p ≫= f) Q'.
Proof.
  intros Hp Hf. eapply triple_bind; [exact Hp| |by intros e w _ a ?]. intros a. eapply triple_weaken; [apply Hf| |done]. intros w H. by apply H.
Qed.
Lemma gives_exc {A} K e (Q : A -> list event -> Prop) : gives K (Exc e) Q.
Proof. apply triple_exc. intros w _. split; [done|]. by intros a ?. Qed.
Lemma gives_ret {A} (K : list event -> Prop) a (Q : A -> list event -> Prop) : (forall l, K l -> Q a l) -> gives K (Ret a) Q.
Proof. intros H. apply triple_ret. intros w Hw. split; [done|]. intros a' [= <-]. auto. Qed.
Lemma gives_res {A} (K : list event -> Prop) r (Q : A -> list event -> Prop) : (forall a l, r = Ok a -> K l -> Q a l) -> gives K (of_res r) Q.
Proof. intros H. destruct r; [apply gives_ret; auto|apply gives_exc]. Qed.
Lemma gives_weaken {A} (K K' : list event -> Prop) (p : prog g_call A) Q : gives K p Q -> (forall l, K' l -> K l) -> gives K' p Q.
Proof. intros Hp HK. eapply triple_weaken; [exact Hp| |done]. intros w. apply HK. Qed.
Lemma gives_any {A} K (p : prog g_call A) : stable K -> gives K p (fun _ => K).
Proof. intros HK. eapply triple_weaken; [by apply stable_keeps|done|]. by intros o w ? a _. Qed.

Definition docker_gave (device_requests : json) (l : list event) : Prop :=
  exists inspected c, Ran (DockerInspect (rq_container_name rq)) (Ok inspected) ∈ l /\ read_inspected (json_out inspected) = Ok c /\
    device_requests = in_device_requests c.
Lemma docker_gave_stable d : stable (docker_gave d).
Proof. intros l e (i & c & ? & ?). exists i, c. split; [set_solver|done]. Qed.
Lemma container_view_gives : gives (fun _ => True) (container_view rq) (fun cd => docker_gave cd.2).
Proof.
  unfold container_view. eapply (gives_bind (fun _ => True)); [apply (run_logs (fun _ => True)), stable_true|]. intros inspected.
  case_match; [apply gives_exc|].
  eapply gives_bind with (Q := fun c => docker_gave (in_device_requests c)).
  { destruct (read_inspected _) as [c|e] eqn:Hc; [|apply gives_exc]. apply gives_ret. intros l [_ ?]. by exists inspected, c. }
  intros c. eapply gives_bind; [apply gives_any, docker_gave_stable|]. intros u. destruct u; [apply gives_exc|]. case_match; [apply gives_exc|].
  eapply gives_bind; [apply gives_any, docker_gave_stable|]. intros own.
  repeat case_match; try apply gives_exc. by apply gives_ret.
Qed.
Lemma pod_gpus_from d host_gpus pod indices g :
  pod_gpus repr d host_gpus pod indices = Ok g ->
  exists uuids, container_gpu_uuids repr d host_gpus = Ok uuids /\
    (forall u, u ∈ pg_ordered g -> u ∈ uuids /\ din u (host_by_uuid host_gpus) = true) /\ (forall u, u ∈ pg_requested g -> u ∈ pg_ordered g).
Proof.
  unfold pod_gpus. destruct (container_gpu_uuids repr d host_gpus) as [uuids|e]; [|done]. cbn -[List.filter psort]. intros H. exists uuids. split; [done|].
  set (ordered := psort _ _) in H. assert (Ho : forall u, u ∈ ordered -> u ∈ uuids /\ din u (host_by_uuid host_gpus) = true).
  { intros u Hu. apply elem_of_psort, elem_of_bfilter in Hu. done. }
  case_match; [done|]. destruct indices as [indices|].
  - case_match; [done|]. simplify_eq. split; [done|]. cbn [pg_requested pg_ordered]. intros u (i & _ & Hi)%list_elem_of_omap. by eapply list_elem_of_lookup_2.
  - simplify_eq. split; [done|]. cbn [pg_requested pg_ordered]. intros u Hu. by apply elem_of_bfilter in Hu as [? _].
Qed.
Lemma reached_closed peers requested u v : reached peers requested u -> v ∈ dget_or [] u peers -> reached peers requested v.
Proof. intros (r & ? & ?) ?. exists r. split; [done|]. by eapply rtc_r. Qed.
Lemma subset_elem l m u : subset l m = true -> u ∈ l -> u ∈ m.
Proof. unfold subset. rewrite forallb_forall. intros H Hu. apply list_elem_of_In, H in Hu. by apply bool_decide_eq_true in Hu. Qed.
Definition wide (ordered : list string) (host_gpus : list HostGpu) (tf : list string * list string) (l : list event) : Prop :=
  (forall u, u ∈ tf.1 -> u ∈ ordered) /\ whole_groups l host_gpus tf.1.
Lemma widen_gives K requested ordered host_gpus : stable K -> (forall u, u ∈ requested -> u ∈ ordered) ->
  gives K (widen_targets_to_nvlink_peers requested ordered host_gpus) (fun tf l => K l /\ wide ordered host_gpus tf l).
Proof.
  intros HK Hin. unfold widen_targets_to_nvlink_peers.
  eapply gives_bind; [by apply gives_any|]. intros nvswitch. eapply gives_bind; [by apply gives_any|]. intros fabric.
  destruct (negb _ || _).
  - destruct (same_set _ _) eqn:Hs; [|apply gives_exc]. apply gives_ret. intros l Hl. split; [done|]. split; [done|]. left. cbn. intros g Hg.
    apply andb_true_iff in Hs as [_ Hs]. eapply subset_elem; [exact Hs|]. apply list_elem_of_fmap. eauto.
  - eapply gives_bind; [by apply run_logs|]. intros topo. case_match; [apply gives_exc|].
    destruct (parse_nvlink_peers _ _) as [peers|e] eqn:Hp; [change (of_res (Ok peers) ≫= ?f) with (f peers)|apply gives_exc]. cbv beta.
    pose proof (widening_spec requested ordered peers Hin) as Hw.
    destruct (widened_targets _ _ _) as [targets|e]; [change (of_res (Ok targets) ≫= ?f) with (f targets)|apply gives_exc]. cbv beta.
    apply gives_ret. intros l [Hl Ht]. destruct Hw as [Hsub Hw]. split; [done|]. split; cbn.
    + intros u. intros Hu. by eapply elem_of_sublist.
    + right. exists topo, peers. split_and!; [done..|]. intros u v. rewrite !Hw. apply reached_closed.
Qed.
Lemma precheck_gives : gives (fun _ => True) (precheck repr rq) (fun plan l => may_reset l (pl_targets plan)).
Proof.
  unfold precheck. destruct (rq_in_tee rq); [apply (gives_exc (fun _ => True))|].
  eapply (gives_bind (fun _ => True)); [apply container_view_gives|]. intros [cid d]. cbn [snd].
  eapply gives_bind; [apply run_logs, docker_gave_stable|]. intros host. set (gpus := parse_host_gpus _). destruct (negb _ || _); [apply gives_exc|].
  destruct (pod_gpus _ _ _ _ _) as [g|e] eqn:Hg; [change (of_res (Ok g) ≫= ?f) with (f g)|apply gives_exc]. cbv beta.
  destruct (pod_gpus_from _ _ _ _ _ Hg) as (uuids & Hu & Ho & Hr).
  eapply gives_bind; [apply (widen_gives (fun l => docker_gave d l /\ Ran HostGpus (Ok host) ∈ l))|].
  { apply stable_and; [apply docker_gave_stable|apply stable_in]. } { exact Hr. }
  intros [targets fabric]. destruct (mig_among gpus targets) eqn:Hm; [apply gives_exc|].
  destruct (negb (subset _ _)) eqn:Hs; [apply gives_exc|].
  apply (gives_weaken (fun l => may_reset l targets)).
  - eapply gives_bind; [apply gives_any, may_reset_stable|]. intros own. eapply gives_bind; [apply gives_any, may_reset_stable|].
    intros [|pid rest]; [|apply gives_exc]. case_match; [|by apply gives_ret].
    eapply gives_bind; [apply gives_any, may_reset_stable|]. intros holders. by apply gives_ret.
  - intros l [[(i & c & Hi & Hc & ->) Hh] [Hsub Hwg]]. apply negb_false_iff in Hs. split; [intros u; by apply subset_elem|].
    exists host. split_and!; [done|done|]. intros u Hut. destruct (Ho u (Hsub u Hut)) as [Hin Hdin].
    unfold din in Hdin. destruct (dget u (host_by_uuid gpus)) as [hg|] eqn:Hd; [|done]. exists i, c, uuids, hg. split_and!; [done..|].
    destruct (hg_mig_enabled hg) eqn:Hmig; [|done]. exfalso. apply not_true_iff_false in Hm. apply Hm. unfold mig_among. apply existsb_exists.
    exists u. split; [by apply list_elem_of_In|]. by rewrite Hd.
Qed.

Definition reset_command (c : command) : option string :=
  match c with ResetGpus text | FabricReset _ text _ => Some text | _ => None end.
(** Every reset in the log names GPUs that may be reset, by what was read before it. *)
Definition only_pod_resets (l : list event) : Prop := forall l1 c r l2 text,
  l = l1 ++ Ran c r :: l2 -> reset_command c = Some text -> exists uuids, uuids <> [] /\ text = reset_text uuids /\ may_reset l1 uuids.
Lemma only_pod_snoc l e :
  only_pod_resets l ->
  (forall c r text, e = Ran c r -> reset_command c = Some text -> exists uuids, uuids <> [] /\ text = reset_text uuids /\ may_reset l uuids) ->
  only_pod_resets (l ++ [e]).
Proof.
  intros Hl He l1 c r l2 text H Ht. destruct l2 as [|e' l2 _] using rev_ind.
  - apply app_inj_tail in H as [-> ->]. by eapply He.
  - rewrite app_comm_cons, app_assoc in H. apply app_inj_tail in H as [-> _]. by eapply Hl.
Qed.
Definition no_reset (X : Type) (c : g_call X) : Prop := match c with Run c => reset_command c = None | _ => True end.
Lemma aside_no_reset X (c : g_call X) : aside X c -> no_reset X c.
Proof. destruct c as [[] | | | |]; done. Qed.
Definition resets_ok (K : list event -> Prop) (w : World) : Prop := only_pod_resets (log w) /\ K (log w).
Lemma no_reset_ok K {A} (p : prog g_call A) : stable K -> calls_only no_reset p -> alone (resets_ok K) p (fun _ => resets_ok K).
Proof.
  intros HK Hp. eapply triple_looser with (inv := resets_ok K); [done|]. apply (calls_only_keeps no_reset); [|done].
  intros X c w w' x Hc [Hl Hk] H. destruct c; cbn in H, Hc; simplify_eq; try done; (split; [apply only_pod_snoc; [done|]|by apply HK]); [|done].
  intros c' r' text [= <- <-]. congruence.
Qed.
Lemma ok_part K {A B} (p : prog g_call A) (f : A -> prog g_call B) :
  stable K -> calls_only no_reset p -> (forall a, alone (resets_ok K) (f a) (fun _ => resets_ok K)) -> alone (resets_ok K) (p ≫= f) (fun _ => resets_ok K).
Proof. intros HK Hp Hf. eapply triple_bind; [by apply (no_reset_ok K)|apply Hf|done]. Qed.
Ltac silent := repeat first
  [exact I | reflexivity | apply calls_only_call; [first [exact I | reflexivity]|intros ?] | apply calls_only_last; first [exact I | reflexivity]
  | apply calls_only_of_res | apply calls_only_try; [|intros ? ? [= <-]] | apply calls_only_bind; [|intros ?]].
Lemma modify_silent f : calls_only no_reset (modify f).
Proof. unfold modify. silent. Qed.
Lemma aside_silent {A} (p : prog g_call A) : calls_only aside p -> calls_only no_reset p.
Proof. apply calls_only_weaken, aside_no_reset. Qed.
Lemma reads_silent {A} (p : prog g_call A) : calls_only reading p -> calls_only no_reset p.
Proof. intros H. apply aside_silent. exact (calls_only_weaken _ _ _ reading_aside H). Qed.
Lemma gone_aside : calls_only aside reset_unit_gone.
Proof. unfold reset_unit_gone, run. walk. Qed.
Lemma run_silent c : reset_command c = None -> calls_only no_reset (run c).
Proof. intros H. unfold run. apply calls_only_call; [done|]. intros r. apply calls_only_of_res. Qed.
Hint Resolve modify_silent : reset.

Section Planned.
Context (plan : Plan).
Notation K := (fun l => may_reset l (pl_targets plan)).
Lemma reset_call_ok c uuids {A} (f : res SSHResult -> prog g_call A) :
  uuids <> [] -> reset_command c = Some (reset_text uuids) -> pl_targets plan = uuids ->
  (forall r, alone (resets_ok K) (f r) (fun _ => resets_ok K)) -> alone (resets_ok K) (call (Run c) ≫= f) (fun _ => resets_ok K).
Proof.
  intros Hne Hc Hu Hf. apply triple_call with (mid := fun _ => resets_ok K); [|done]. intros w w' r [Hl Hk] H. cbn in H. simplify_eq.
  split; [done|]. split; [|by apply may_reset_stable]. apply only_pod_snoc; [done|]. intros c' r' text [= <- <-] Ht. exists (pl_targets plan).
  split_and!; [done|congruence|done].
Qed.
Lemma stop_and_reset_ok : alone (resets_ok K) (stop_and_reset rq plan) (fun _ => resets_ok K).
Proof.
  pose proof (may_reset_stable (pl_targets plan)) as HK. unfold stop_and_reset.
  apply ok_part; [done|by apply run_silent|]. intros stopped. case_match.
  { apply ok_part; [done|apply modify_silent|]. intros _. by apply triple_exc. }
  apply ok_part; [done|apply modify_silent|]. intros _. apply ok_part; [done|apply reads_silent, own_cgroup_reads|]. intros own.
  apply ok_part; [done|apply aside_silent, pids_reads|]. intros [|pid rest]; [|by apply triple_exc].
  destruct (build_reset_command _ _ _) as [text|e] eqn:Hb; [change (of_res (Ok text) ≫= ?f) with (f text)|by apply triple_exc]. cbv beta.
  assert (pl_targets plan <> [] /\ text = reset_text (pl_targets plan)) as [Hne ->].
  { unfold build_reset_command in Hb. destruct (pl_targets plan); [done|]. case_match; [|done]. by simplify_eq. }
  eapply triple_bind with (mid := fun _ => resets_ok K); [|intros r|done].
  - destruct (pl_owns_host plan).
    + unfold reset_in_host_unit. eapply reset_call_ok; [exact Hne|done|done|]. intros r.
      apply ok_part; [done|destruct (returned r); [done|apply aside_silent, gone_aside]|]. intros gone.
      apply ok_part; [done| |].
      { destruct gone; [apply calls_only_bind; [apply aside_silent, restore_aside|intros p]|]; (apply calls_only_bind; [apply modify_silent|done]). }
      intros problem. apply ok_part; [done|apply calls_only_of_res|]. intros rr. repeat case_match; by apply triple_exc || apply triple_ret.
    + unfold run. eapply reset_call_ok; [exact Hne|done|done|]. intros r. by destruct r; [apply triple_ret|apply triple_exc].
  - case_match; [apply no_reset_ok; [done|apply modify_silent]|]. apply no_reset_ok; [done|].
    apply calls_only_bind; [apply modify_silent|intros _]. apply calls_only_bind; [apply aside_silent, cure_aside|intros c]. apply modify_silent.
Qed.
Lemma carry_out_ok : alone (resets_ok K) (carry_out rq plan) (fun _ => resets_ok K).
Proof.
  pose proof (may_reset_stable (pl_targets plan)) as HK. unfold carry_out.
  eapply triple_bind with (mid := fun _ => resets_ok K); [|intros _|done].
  - apply triple_try with (mid := fun _ => resets_ok K); [apply stop_and_reset_ok|done|]. intros e. apply no_reset_ok; [done|apply modify_silent].
  - apply no_reset_ok; [done|]. apply calls_only_bind; [|intros _; silent].
    unfold start_again. apply calls_only_call; [done|intros l]. case_match; [done|].
    apply calls_only_bind; [destruct (stop_failed l); [apply aside_silent, wait_aside|done]|intros _]. apply calls_only_call; [done|intros [a|e]]; [apply modify_silent|].
    apply calls_only_bind; [apply aside_silent, wait_aside|intros _]. apply calls_only_call; [done|intros [a|e']]; apply modify_silent.
Qed.
End Planned.

Lemma alone_and {A} pre (p : prog g_call A) post post' : alone pre p post -> alone pre p post' -> alone pre p (fun o w => post o w /\ post' o w).
Proof. intros H H' w Hw. destruct (H w Hw) as [? Hp], (H' w Hw) as [_ Hp']. split; [done|]. intros w' o Hr. eauto. Qed.
Lemma caught_gives {A} K (p : prog g_call A) Q : gives K p Q ->
  alone (fun w => K (log w)) (caught p) (fun o w => forall a, o = Ok (Ok a) -> Q a (log w)).
Proof.
  intros Hp. unfold caught. apply triple_try with (mid := fun o w => forall a, o = Ok (Ok a) -> Q a (log w)).
  - eapply triple_bind; [exact Hp|intros a; apply triple_ret; intros w H; split; [done|]; intros a' [= <-]; by apply H|]. by intros e w _ a ?.
  - done.
  - intros e. apply triple_ret. intros w _. split; [done|]. by intros a ?.
Qed.
Notation any := (fun _ : list event => True).
Lemma precheck_ok {B} (f : res Plan -> prog g_call B) :
  (forall plan, alone (resets_ok (fun l => may_reset l (pl_targets plan))) (f (Ok plan)) (fun _ => resets_ok any)) ->
  (forall e, alone (resets_ok any) (f (Raise e)) (fun _ => resets_ok any)) ->
  alone (resets_ok any) (caught (precheck repr rq) ≫= f) (fun _ => resets_ok any).
Proof.
  intros Hok He. eapply triple_bind with (mid := fun o w => resets_ok any w /\ forall plan, o = Ok (Ok plan) -> may_reset (log w) (pl_targets plan)); [| |tauto].
  - apply alone_and.
    + apply no_reset_ok; [done|]. apply aside_silent, caught_aside. exact (calls_only_weaken _ _ _ reading_aside (precheck_reads rq)).
    + eapply triple_weaken; [apply (caught_gives any), precheck_gives|done|done].
  - intros [plan|e].
    + eapply triple_weaken; [apply Hok| |done]. intros w [[Hl _] Hp]. split; [done|by apply Hp].
    + eapply triple_weaken; [apply He| |done]. tauto.
Qed.
Lemma carry_out_any plan :
  alone (resets_ok (fun l => may_reset l (pl_targets plan))) (carry_out rq plan) (fun _ => resets_ok any).
Proof. eapply triple_weaken; [apply carry_out_ok|done|]. by intros o w [? _]. Qed.
Lemma reset_pod_ok : alone (resets_ok any) (reset_pod_gpus repr rq) (fun _ => resets_ok any).
Proof.
  unfold reset_pod_gpus. apply ok_part; [done|silent|]. intros _. apply ok_part; [done|apply aside_silent, pending_aside|].
  intros [|]; [by apply triple_ret|]. apply precheck_ok; [apply carry_out_any|]. intros e.
  case_match; [|destruct (refused_code e); [by apply triple_ret|by apply triple_exc]].
  apply ok_part; [done|silent|]. intros [a|e']; [|by apply triple_ret]. apply ok_part; [done|apply modify_silent|]. intros _.
  apply precheck_ok; [apply carry_out_any|]. intros e'. destruct (refused_code e'); [|by apply triple_exc].
  apply no_reset_ok; [done|silent].
Qed.
End Targets.

(** C6. A GPU reset touches only the renter's own GPUs.  Every reset command that runs, directly or in the
    host unit, names at least one GPU, and of every GPU it names the host's list and Docker's device
    requests read before it said that it is the container's and not in MIG mode, and the backend holds it
    for the pod; and it names whole NVLink groups: with each GPU its peers in the topology read, or every
    GPU of the host. *)
Theorem only_pod_gpus_are_reset rq w w' o l1 c r l2 text :
  log w = [] -> perform handle (reset_pod_gpus repr rq) w = (w', o) ->
  log w' = l1 ++ Ran c r :: l2 -> reset_command c = Some text ->
  exists uuids, uuids <> [] /\ text = reset_text uuids /\ may_reset rq l1 uuids.
Proof.
  intros Hw H Hl Hc. apply (reset_pod_ok rq w) in H as [Ho _]; [by eapply Ho|]. split; [|done]. rewrite Hw. intros [|e l] ? ? ? ? ?; done.
Qed.
End Runs.
