(* ===== verification/GpuModels.v ===== *)
(** * GPU models, their memory, and the score gates

    [services/gpu_spec_table.py], [services/gpu_reference_table.py] and [services/gpu_precheck.py]: the
    canonical name of a card, the VRAM windows a reading of it must fall in, the reference model an
    unknown card is scored by and the size of its work proof; the names published of them
    ([services/task/result_handler.py]); and [services/task/score_calculator.py], the gates that zero an
    executor's score.  A card's capacity is a number or absent.  Prices only rank the reference models:
    they are the decimals of the table.  A warning's text is its constructor. *)

From Stdlib Require Import Ascii String.
From stdpp Require Import strings.
From S2P Require Import Prelude Float64 PyValue HostText JobResult IncentiveConfig Readings.
Import Text.

Local Open Scope string_scope.
Local Open Scope list_scope.
Local Open Scope Z_scope.

(** ** Tables *)

Definition GPU_VRAM_SIZES_LITERAL : list (string * list Z) := [
  ("NVIDIA B300 SXM6 AC", [294912]);
  ("NVIDIA B200", [196608]);
  ("NVIDIA H200", [144384]);
  ("NVIDIA H200 NVL", [144384]);
  ("NVIDIA H100 80GB HBM3", [81920]);
  ("NVIDIA H100 NVL", [96256]);
  ("NVIDIA H100 PCIe", [81920]);
  ("NVIDIA H800 80GB HBM3", [81920]);
  ("NVIDIA H800 NVL", [96256]);
  ("NVIDIA H800 PCIe", [81920]);
  ("NVIDIA GeForce RTX 5090", [32768]);
  ("NVIDIA GeForce RTX 5090 D", [32768]);
  ("NVIDIA GeForce RTX 5080", [16384]);
  ("NVIDIA GeForce RTX 5070 Ti", [16384]);
  ("NVIDIA GeForce RTX 5070", [12288]);
  ("NVIDIA GeForce RTX 5060 Ti", [8192; 16384]);
  ("NVIDIA GeForce RTX 5060", [8192]);
  ("NVIDIA GeForce RTX 4090", [24576]);
  ("NVIDIA GeForce RTX 4090 D", [24576]);
  ("NVIDIA GeForce RTX 4090 48GB", [49152]);
  ("NVIDIA GeForce RTX 4080 SUPER", [16384]);
  ("NVIDIA GeForce RTX 4080", [16384]);
  ("NVIDIA GeForce RTX 4070 Ti SUPER", [16384]);
  ("NVIDIA GeForce RTX 4070 Ti", [12288]);
  ("NVIDIA GeForce RTX 4070 SUPER", [12288]);
  ("NVIDIA GeForce RTX 4070", [12288]);
  ("NVIDIA GeForce RTX 4060 Ti", [8192; 16384]);
  ("NVIDIA GeForce RTX 4060", [8192]);
  ("NVIDIA RTX PRO 2000 Blackwell", [16384]);
  ("NVIDIA RTX PRO 4000 Blackwell", [24576]);
  ("NVIDIA RTX PRO 4500 Blackwell", [32768]);
  ("NVIDIA RTX PRO 4500 Blackwell Server Edition", [32768]);
  ("NVIDIA RTX PRO 5000 Blackwell", [49152; 73728]);
  ("NVIDIA RTX PRO 6000 Blackwell Server Edition", [98304]);
  ("NVIDIA RTX PRO 6000 Blackwell Workstation Edition", [98304]);
  ("NVIDIA RTX PRO 6000 Blackwell Max-Q Workstation Edition", [98304]);
  ("NVIDIA RTX PRO 6000D Blackwell Workstation Edition", [86016]);
  ("NVIDIA RTX 6000D", [86016]);
  ("NVIDIA RTX 4500 Ada Generation", [24576]);
  ("NVIDIA RTX 5000 Ada Generation", [32768]);
  ("NVIDIA RTX 5880 Ada Generation", [49152]);
  ("NVIDIA RTX 6000 Ada Generation", [49152]);
  ("NVIDIA L4", [24576]);
  ("NVIDIA L40S", [49152]);
  ("NVIDIA L40", [49152]);
  ("NVIDIA A100 80GB PCIe", [81920]);
  ("NVIDIA A100-SXM4-80GB", [81920]);
  ("NVIDIA A100-PCIE-40GB", [40960]);
  ("NVIDIA A100-SXM4-40GB", [40960]);
  ("NVIDIA A800 80GB PCIe", [81920]);
  ("NVIDIA A10 Tensor Core GPU", [24576]);
  ("NVIDIA CMP 170HX", [8192; 40960; 65536]);
  ("NVIDIA RTX A6000", [49152]);
  ("NVIDIA RTX A5000", [24576]);
  ("NVIDIA RTX A4500", [20480]);
  ("NVIDIA RTX A4000", [16384]);
  ("NVIDIA RTX A2000", [6144; 12288]);
  ("NVIDIA T4 Tensor Core GPU", [16384]);
  ("NVIDIA Tesla V100 Tensor Core GPU", [16384; 32768]);
  ("NVIDIA Quadro RTX 8000", [49152]);
  ("NVIDIA Quadro RTX 6000", [24576]);
  ("NVIDIA Quadro RTX 5000", [16384]);
  ("NVIDIA TITAN V", [12288]);
  ("NVIDIA TITAN RTX", [24576]);
  ("NVIDIA GeForce RTX 3090 Ti", [24576]);
  ("NVIDIA GeForce RTX 3090", [24576]);
  ("NVIDIA GeForce RTX 3080 Ti", [12288]);
  ("NVIDIA GeForce RTX 3080", [10240; 12288]);
  ("NVIDIA GeForce RTX 3070 Ti", [8192]);
  ("NVIDIA GeForce RTX 3070", [8192]);
  ("NVIDIA GeForce RTX 3060 Ti", [8192]);
  ("NVIDIA GeForce RTX 3060", [8192; 12288]);
  ("NVIDIA GeForce RTX 3060 Laptop GPU", [6144]);
  ("NVIDIA GeForce RTX 3050", [6144; 8192]);
  ("NVIDIA GeForce RTX 2080 Ti", [11264]);
  ("NVIDIA GeForce RTX 2080 SUPER", [8192]);
  ("NVIDIA GeForce RTX 2070 SUPER", [8192]);
  ("NVIDIA GeForce RTX 2060 SUPER", [8192]);
  ("NVIDIA GeForce RTX 2060", [6144; 12288]);
  ("NVIDIA GeForce GTX 1660 Ti", [6144]);
  ("NVIDIA GeForce GTX 1660 SUPER", [6144]);
  ("NVIDIA GeForce GTX 1660", [6144]);
  ("NVIDIA Tesla P100", [12288; 16384]);
  ("NVIDIA Tesla P40", [24576]);
  ("NVIDIA Quadro P4000", [8192]);
  ("NVIDIA TITAN Xp", [12288]);
  ("NVIDIA GeForce GTX 1080 Ti", [11264]);
  ("NVIDIA GeForce GTX 1080", [8192]);
  ("NVIDIA GeForce GTX 1070 Ti", [8192]);
  ("NVIDIA GeForce GTX 1070", [8192]);
  ("NVIDIA GeForce GTX 1060", [3072; 6144]);
  ("NVIDIA Tesla M40", [12288; 24576])
].
(** The two names that take the B300's sizes. *)
Definition GPU_VRAM_SIZES_MB : list (string * list Z) :=
  let b300 := dget_or [] "NVIDIA B300 SXM6 AC" GPU_VRAM_SIZES_LITERAL in
  dset "NVIDIA GB300" b300 (dset "NVIDIA B300 SXM6 PC" b300 GPU_VRAM_SIZES_LITERAL).
Definition KNOWN_UNRANGED : list string := [].
Definition NORMALIZATION_MAP : list (string * string) := [
  ("Tesla V100-SXM2-16GB", "NVIDIA Tesla V100 Tensor Core GPU");
  ("Tesla V100-SXM2-32GB", "NVIDIA Tesla V100 Tensor Core GPU");
  ("Tesla V100-PCIE-16GB", "NVIDIA Tesla V100 Tensor Core GPU");
  ("Tesla V100-PCIE-32GB", "NVIDIA Tesla V100 Tensor Core GPU");
  ("Tesla H100 80GB HBM3", "NVIDIA H100 80GB HBM3");
  ("Tesla T4", "NVIDIA T4 Tensor Core GPU");
  ("NVIDIA T4", "NVIDIA T4 Tensor Core GPU");
  ("NVIDIA A10", "NVIDIA A10 Tensor Core GPU");
  ("NVIDIA A10G", "NVIDIA A10 Tensor Core GPU")
].
(** Candidates: price and sizes in GB. *)
Definition GPU_REFERENCE_TABLE : list (string * (Q * list Z)) := [
  ("NVIDIA A10 Tensor Core GPU", ((1 # 5)%Q, [24]));
  ("NVIDIA A100 80GB PCIe", ((9 # 20)%Q, [80]));
  ("NVIDIA A100-SXM4-80GB", ((7 # 10)%Q, [80]));
  ("NVIDIA A100-PCIE-40GB", ((37 # 100)%Q, [40]));
  ("NVIDIA A100-SXM4-40GB", ((12 # 25)%Q, [40]));
  ("NVIDIA A800 80GB PCIe", ((31 # 100)%Q, [80]));
  ("NVIDIA B200", ((28 # 5)%Q, [192]));
  ("NVIDIA B300 SXM6 AC", ((8 # 1)%Q, [288]));
  ("NVIDIA B300 SXM6 PC", ((8 # 1)%Q, [288]));
  ("NVIDIA CMP 170HX", ((3 # 10)%Q, [8; 40; 64]));
  ("NVIDIA GB300", ((8 # 1)%Q, [288]));
  ("NVIDIA GeForce GTX 1060", ((9 # 100)%Q, [3; 6]));
  ("NVIDIA GeForce GTX 1070", ((37 # 100)%Q, [8]));
  ("NVIDIA GeForce GTX 1070 Ti", ((1 # 25)%Q, [8]));
  ("NVIDIA GeForce GTX 1080", ((3 # 100)%Q, [8]));
  ("NVIDIA GeForce GTX 1080 Ti", ((1 # 25)%Q, [11]));
  ("NVIDIA GeForce GTX 1660", ((7 # 100)%Q, [6]));
  ("NVIDIA GeForce GTX 1660 SUPER", ((1 # 20)%Q, [6]));
  ("NVIDIA GeForce GTX 1660 Ti", ((7 # 100)%Q, [6]));
  ("NVIDIA GeForce RTX 2060", ((1 # 25)%Q, [6; 12]));
  ("NVIDIA GeForce RTX 2060 SUPER", ((3 # 50)%Q, [8]));
  ("NVIDIA GeForce RTX 2070 SUPER", ((7 # 100)%Q, [8]));
  ("NVIDIA GeForce RTX 2080 SUPER", ((37 # 50)%Q, [8]));
  ("NVIDIA GeForce RTX 2080 Ti", ((2 # 25)%Q, [11]));
  ("NVIDIA GeForce RTX 3050", ((1 # 20)%Q, [6; 8]));
  ("NVIDIA GeForce RTX 3060", ((3 # 50)%Q, [8; 12]));
  ("NVIDIA GeForce RTX 3060 Laptop GPU", ((2 # 25)%Q, [6]));
  ("NVIDIA GeForce RTX 3060 Ti", ((3 # 50)%Q, [8]));
  ("NVIDIA GeForce RTX 3070", ((7 # 100)%Q, [8]));
  ("NVIDIA GeForce RTX 3070 Ti", ((9 # 100)%Q, [8]));
  ("NVIDIA GeForce RTX 3080", ((9 # 100)%Q, [10; 12]));
  ("NVIDIA GeForce RTX 3080 Ti", ((1 # 10)%Q, [12]));
  ("NVIDIA GeForce RTX 3090", ((4 # 25)%Q, [24]));
  ("NVIDIA GeForce RTX 3090 Ti", ((4 # 25)%Q, [24]));
  ("NVIDIA GeForce RTX 4060", ((3 # 50)%Q, [8]));
  ("NVIDIA GeForce RTX 4060 Ti", ((11 # 100)%Q, [8; 16]));
  ("NVIDIA GeForce RTX 4070", ((2 # 25)%Q, [12]));
  ("NVIDIA GeForce RTX 4070 SUPER", ((9 # 100)%Q, [12]));
  ("NVIDIA GeForce RTX 4070 Ti", ((11 # 100)%Q, [12]));
  ("NVIDIA GeForce RTX 4070 Ti SUPER", ((9 # 50)%Q, [16]));
  ("NVIDIA GeForce RTX 4080", ((4 # 25)%Q, [16]));
  ("NVIDIA GeForce RTX 4080 SUPER", ((4 # 25)%Q, [16]));
  ("NVIDIA GeForce RTX 4090", ((3 # 10)%Q, [24]));
  ("NVIDIA GeForce RTX 4090 48GB", ((12 # 25)%Q, [48]));
  ("NVIDIA GeForce RTX 4090 D", ((11 # 100)%Q, [24]));
  ("NVIDIA GeForce RTX 5060", ((11 # 100)%Q, [8]));
  ("NVIDIA GeForce RTX 5060 Ti", ((3 # 25)%Q, [8; 16]));
  ("NVIDIA GeForce RTX 5070", ((9 # 100)%Q, [12]));
  ("NVIDIA GeForce RTX 5070 Ti", ((3 # 25)%Q, [16]));
  ("NVIDIA GeForce RTX 5080", ((3 # 20)%Q, [16]));
  ("NVIDIA GeForce RTX 5090", ((2 # 5)%Q, [32]));
  ("NVIDIA GeForce RTX 5090 D", ((3 # 20)%Q, [32]));
  ("NVIDIA H100 80GB HBM3", ((139 # 100)%Q, [80]));
  ("NVIDIA H100 NVL", ((111 # 100)%Q, [94]));
  ("NVIDIA H100 PCIe", ((13 # 10)%Q, [80]));
  ("NVIDIA H200", ((73 # 20)%Q, [141]));
  ("NVIDIA H200 NVL", ((29 # 10)%Q, [141]));
  ("NVIDIA H800 80GB HBM3", ((22 # 25)%Q, [80]));
  ("NVIDIA H800 NVL", ((4 # 5)%Q, [94]));
  ("NVIDIA H800 PCIe", ((4 # 5)%Q, [80]));
  ("NVIDIA L4", ((11 # 100)%Q, [24]));
  ("NVIDIA L40", ((33 # 100)%Q, [48]));
  ("NVIDIA L40S", ((19 # 50)%Q, [48]));
  ("NVIDIA Quadro P4000", ((1 # 20)%Q, [8]));
  ("NVIDIA Quadro RTX 5000", ((7 # 100)%Q, [16]));
  ("NVIDIA Quadro RTX 6000", ((13 # 100)%Q, [24]));
  ("NVIDIA Quadro RTX 8000", ((21 # 100)%Q, [48]));
  ("NVIDIA RTX 4500 Ada Generation", ((1 # 5)%Q, [24]));
  ("NVIDIA RTX 5000 Ada Generation", ((27 # 100)%Q, [32]));
  ("NVIDIA RTX 5880 Ada Generation", ((17 # 50)%Q, [48]));
  ("NVIDIA RTX 6000 Ada Generation", ((3 # 4)%Q, [48]));
  ("NVIDIA RTX 6000D", ((41 # 50)%Q, [84]));
  ("NVIDIA RTX A2000", ((3 # 50)%Q, [6; 12]));
  ("NVIDIA RTX A4000", ((3 # 25)%Q, [16]));
  ("NVIDIA RTX A4500", ((13 # 100)%Q, [20]));
  ("NVIDIA RTX A5000", ((4 # 25)%Q, [24]));
  ("NVIDIA RTX A6000", ((21 # 50)%Q, [48]));
  ("NVIDIA RTX PRO 2000 Blackwell", ((17 # 100)%Q, [16]));
  ("NVIDIA RTX PRO 4000 Blackwell", ((1 # 5)%Q, [24]));
  ("NVIDIA RTX PRO 4500 Blackwell", ((2 # 5)%Q, [32]));
  ("NVIDIA RTX PRO 4500 Blackwell Server Edition", ((2 # 5)%Q, [32]));
  ("NVIDIA RTX PRO 5000 Blackwell", ((67 # 100)%Q, [48; 72]));
  ("NVIDIA RTX PRO 6000 Blackwell Max-Q Workstation Edition", ((119 # 100)%Q, [96]));
  ("NVIDIA RTX PRO 6000 Blackwell Server Edition", ((119 # 100)%Q, [96]));
  ("NVIDIA RTX PRO 6000 Blackwell Workstation Edition", ((119 # 100)%Q, [96]));
  ("NVIDIA RTX PRO 6000D Blackwell Workstation Edition", ((41 # 50)%Q, [84]));
  ("NVIDIA T4 Tensor Core GPU", ((3 # 20)%Q, [16]));
  ("NVIDIA TITAN RTX", ((3 # 25)%Q, [24]));
  ("NVIDIA TITAN V", ((1 # 10)%Q, [12]));
  ("NVIDIA TITAN Xp", ((1 # 25)%Q, [12]));
  ("NVIDIA Tesla M40", ((2 # 25)%Q, [12; 24]));
  ("NVIDIA Tesla P100", ((2 # 25)%Q, [12; 16]));
  ("NVIDIA Tesla P40", ((7 # 100)%Q, [24]));
  ("NVIDIA Tesla V100 Tensor Core GPU", ((17 # 100)%Q, [16; 32]))
].

(** ** Names *)

Definition normalize_gpu_model (name : option string) : string :=
  match name with
  | None => ""
  | Some n => if String.eqb n "" then "" else let stripped := strip n in dget_or stripped stripped NORMALIZATION_MAP
  end.

Section Sizes.
Context `{R : Rounding}.
Definition VRAM_FLOOR_RATIO : Q := rnd (9 # 10).
Definition VRAM_CEIL_RATIO : Q := rnd (21 # 20).
(** [round(n * ratio)] *)
Definition scaled (n : Z) (ratio : Q) : Z := Binary64.rhe (fmul (fint n) ratio).
Definition vram_window_for_size (nominal_mb : Z) : Z * Z := (scaled nominal_mb VRAM_FLOOR_RATIO, scaled nominal_mb VRAM_CEIL_RATIO).
Definition get_expected_vram_windows (canonical_model : string) : option (list (Z * Z)) :=
  map vram_window_for_size <$> dget canonical_model GPU_VRAM_SIZES_MB.

Definition RTX_4090 : string := "NVIDIA GeForce RTX 4090".
Definition RTX_4090_48GB : string := "NVIDIA GeForce RTX 4090 48GB".
Definition in_window (window : Z * Z) (capacity : Q) : bool := Qleb (inject_Z window.1) capacity && Qleb capacity (inject_Z window.2).
Definition classify_gpu_model (name : option string) (capacity_mb : option Q) (rtx_4090_48gb_enabled : bool) : string :=
  let canonical := normalize_gpu_model name in
  let canonical := if String.eqb canonical RTX_4090_48GB then RTX_4090 else canonical in
  match capacity_mb with
  | Some capacity =>
      if rtx_4090_48gb_enabled && String.eqb canonical RTX_4090
         && in_window (vram_window_for_size (hd 0 (dget_or [] RTX_4090_48GB GPU_VRAM_SIZES_MB))) capacity
      then RTX_4090_48GB else canonical
  | None => canonical
  end.

(** ** The reference model *)

Record Candidate := mkCandidate { ca_size : Z; ca_price : Q; ca_model : string }.
Definition candidates : list Candidate :=
  flat_map (fun mp => map (fun size_gb => mkCandidate (size_gb * 1024) mp.2.1 mp.1) mp.2.2) GPU_REFERENCE_TABLE.
(** [min] of tuples: the first of the least. *)
Definition least {A} (leb : A -> A -> bool) (l : list A) : option A :=
  match l with [] => None | x :: l' => Some (fold_left (fun m y => if leb m y then m else y) l' x) end.
Definition by_price (a b : Candidate) : bool :=
  if Qeq_bool (ca_price a) (ca_price b) then String.leb (ca_model a) (ca_model b) else Qleb (ca_price a) (ca_price b).
Definition by_size (a b : Candidate) : bool := if ca_size a =? ca_size b then by_price a b else ca_size b <? ca_size a.
Definition in_band (vram_mib : Q) (c : Candidate) : bool :=
  let ratio := fdiv (inject_Z (ca_size c)) vram_mib in Qleb (rnd (9 # 10)) ratio && Qleb ratio (rnd (11 # 10)).
Definition below (vram_mib : Q) (c : Candidate) : bool := negb (Qleb vram_mib (inject_Z (ca_size c))).
Definition pick_reference (vram_mib : option Q) : option string :=
  match vram_mib with
  | None => None
  | Some v =>
      if Qleb v 0 then None
      else match least by_price (List.filter (in_band v) candidates) with
           | Some c => Some (ca_model c)
           | None => ca_model <$> least by_size (List.filter (below v) candidates)
           end
  end.
Definition reference_gpu_model (name : option string) (vram_mb : option Q) : option string :=
  let canonical := normalize_gpu_model name in
  if din canonical GPU_MODEL_RATES then Some canonical
  else if negb (startswith "NVIDIA " canonical) then None
  else pick_reference vram_mb.

(** ** The work proof and the precheck *)

Definition some_name (o : option string) : bool := match o with Some s => negb (String.eqb s "") | None => false end.
Definition matmul_probe_vram_mb (model : option string) (reported_vram_mb : option Z) : option Z :=
  let canonical := normalize_gpu_model model in
  match dget_or [] canonical GPU_VRAM_SIZES_MB with
  | [] => match reported_vram_mb with
          | Some r => if r =? 0 then None
                      else if some_name (reference_gpu_model (Some canonical) (Some (inject_Z r))) then Some (scaled r VRAM_FLOOR_RATIO)
                      else None
          | None => None
          end
  | size :: sizes => Some (scaled (fold_left Z.min sizes size) VRAM_FLOOR_RATIO)
  end.
Definition MissingGpuFieldError : exc := OtherError "MissingGpuFieldError".
Definition UnsupportedGpuModelError : exc := OtherError "UnsupportedGpuModelError".
Definition VramRangeMismatchError : exc := OtherError "VramRangeMismatchError".
Definition precheck_gpu_spec (gpu_model : option string) (gpu_capacity_mb : Z) : res unit :=
  let raw := default "" gpu_model in
  let normalized := normalize_gpu_model (Some raw) in
  if String.eqb raw "" || (gpu_capacity_mb <=? 0) then Raise MissingGpuFieldError
  else if bool_decide (normalized ∈ KNOWN_UNRANGED) then Ok tt
  else match get_expected_vram_windows normalized with
       | None => if some_name (reference_gpu_model (Some normalized) (Some (inject_Z gpu_capacity_mb))) then Ok tt
                 else Raise UnsupportedGpuModelError
       | Some windows =>
           if existsb (fun w => (fst w <=? gpu_capacity_mb) && (gpu_capacity_mb <=? snd w)) windows then Ok tt
           else Raise VramRangeMismatchError
       end.

(** ** Published names ([_canonicalize_published_gpu_names]) *)

Definition H100_SXM : string := "NVIDIA H100 80GB HBM3".
Definition H100_PCIE : string := "NVIDIA H100 PCIe".
(** A name read from the scrape: [name.strip()] needs a string. *)
Definition name_of (v : json) : res (option string) :=
  if truthy v then match v with JStr s => Ok (Some s) | _ => Raise AttributeError end else Ok None.
Fixpoint names_in (details : list json) : res (list string) :=
  match details with
  | [] => Ok []
  | JObj d :: rest => n ← name_of (dget_or JNull "name" d); l ← names_in rest; Ok (normalize_gpu_model n :: l)
  | _ :: rest => names_in rest
  end.
Definition is_false (v : json) : bool := match v with JBool false => true | _ => false end.
Definition is_sxm_on_pcie_adapter (specs : list (string * json)) : res bool :=
  match dget_or JNull "interconnect" specs with
  | JObj interconnect =>
      if is_false (dget_or JNull "nvlink" interconnect) && json_eqb (dget_or JNull "nvlink_pairs" interconnect) (JInt 0)
      then gpu ← jget "details" (py_or (dget_or JNull "gpu" specs) (JObj []));
           details ← jiter (py_or gpu (JList []));
           names ← names_in details;
           Ok (match names with [] => false | _ => forallb (String.eqb H100_SXM) names end)
      else Ok false
  | _ => Ok false
  end.
Definition renamed (name : string) (detail : json) : json :=
  match detail with
  | JObj d => if truthy (dget_or JNull "name" d) then JObj (dset "name" (JStr name) d) else detail
  | _ => detail
  end.
Definition list_sxm_on_pcie_adapter_as_pcie (specs : list (string * json)) (gpu_details : list json) : res (list json) :=
  adapter ← is_sxm_on_pcie_adapter specs;
  Ok (if (adapter : bool) then map (renamed H100_PCIE) gpu_details else gpu_details).
(** [classify_gpu_model] on a detail: only a finite number can be in the window. *)
Definition canonical_detail (rtx_4090_48gb_enabled : bool) (detail : json) : res json :=
  match detail with
  | JObj d =>
      let name := dget_or JNull "name" d in
      if truthy name
      then n ← name_of name;
           Ok (JObj (dset "name" (JStr (classify_gpu_model n (scalar_num (dget_or JNull "capacity" d)) rtx_4090_48gb_enabled)) d))
      else Ok detail
  | _ => Ok detail
  end.
Definition canonicalize_published_gpu_names (rtx_4090_48gb_enabled : bool) (specs : list (string * json)) : res (list (string * json)) :=
  match dget_or JNull "gpu" specs with
  | JObj gpu =>
      match dget_or JNull "details" gpu with
      | JList details =>
          canonical_details ← mapM (canonical_detail rtx_4090_48gb_enabled) details;
          canonical_details ← list_sxm_on_pcie_adapter_as_pcie specs canonical_details;
          Ok (if json_eqb (JList canonical_details) (JList details) then specs
              else dset "gpu" (JObj (dset "details" (JList canonical_details) gpu)) specs)
      | _ => Ok specs
      end
  | _ => Ok specs
  end.

(** ** Score gates ([calculate_scores]) *)

Inductive Warning :=
| ImageOutdated | PriceAboveLimit (limit actual : Q) | CvmAttestationNotPassed | CpuTruthFailed | ProviderSideLoad | RentalSensorBlind
| RentedPodResources | RentedThroughput (not_run : bool) | GpuIdentityChanged | CcVbiosTooOld | HardwareIdentityChanged | HostWroteIntoPod
| KernelGpuViewOverlaid | KernelGpuCountShort | VerifyxSpeedUnavailable.
(** What the gates read of the context, the settings and the shared configuration. *)
Record GateInputs := mkGates {
  gi_gpu_model : option string;
  gi_capacity_mb : option Q;
  gi_price_per_gpu : option Q;
  gi_machine_prices : list (string * Q);
  gi_machine_max_price_rate : Q;
  gi_image_enforced : bool;
  gi_image_outdated : bool;
  gi_tcb_enforced : bool;
  gi_has_tdx_quote : bool;
  gi_tdx_attestation_passed : bool;
  gi_cpu_truth_passed : bool;
  gi_provider_side_load_passed : bool;
  gi_inspector_blind_streak_passed : bool;
  gi_rented_pod_resources_passed : bool;
  gi_rented_throughput_passed : bool;
  gi_rented_throughput_not_run : bool;
  gi_gpu_attestation_identity_passed : bool;
  gi_cc_vbios_passed : bool;
  gi_hardware_identity_passed : bool;
  gi_inspector_host_write_passed : bool;
  gi_kernel_gpu_view_passed : bool;
  gi_gpu_kernel_count_passed : bool;
  gi_specs : json
}.
Record Scores := mkScores { actual_score : Q; job_score : Q; warnings : list Warning }.
Definition or_0 (o : option Q) : Q := default 0%Q o.
Definition zero_both (failed : bool) (w : Warning) (s : Scores) : Scores :=
  if failed then mkScores 0 0 (warnings s ++ [w]) else s.
Definition zero_actual (failed : bool) (w : Warning) (s : Scores) : Scores :=
  if failed then mkScores 0 (job_score s) (warnings s ++ [w]) else s.
Definition referenced (g : GateInputs) : bool :=
  let gpu_model := default "" (gi_gpu_model g) in
  match reference_gpu_model (Some gpu_model) (gi_capacity_mb g) with
  | None => false
  | Some m => negb (String.eqb m (normalize_gpu_model (Some gpu_model)))
  end.
Definition price_limit (g : GateInputs) : Q :=
  fmul (dget_or 0%Q (default "" (gi_gpu_model g)) (gi_machine_prices g)) (gi_machine_max_price_rate g).
Definition price_exceeds (g : GateInputs) : bool :=
  match gi_price_per_gpu g with
  | Some price => negb (Qeq_bool price 0) && negb (referenced g) && negb (Qleb price (price_limit g))
  | None => false
  end.
Definition calculate_scores (g : GateInputs) (rented : bool) : res Scores :=
  let s := mkScores 1 1 [] in
  let s := zero_both (gi_image_enforced g && gi_image_outdated g) ImageOutdated s in
  let s := zero_actual (price_exceeds g) (PriceAboveLimit (price_limit g) (or_0 (gi_price_per_gpu g))) s in
  let s := zero_both (gi_tcb_enforced g && gi_has_tdx_quote g && negb (gi_tdx_attestation_passed g)) CvmAttestationNotPassed s in
  let s := zero_both (negb (gi_cpu_truth_passed g)) CpuTruthFailed s in
  let s := zero_both (negb (gi_provider_side_load_passed g)) ProviderSideLoad s in
  let s := zero_both (negb (gi_inspector_blind_streak_passed g)) RentalSensorBlind s in
  let s := zero_both (negb (gi_rented_pod_resources_passed g)) RentedPodResources s in
  let s := zero_both (negb (gi_rented_throughput_passed g)) (RentedThroughput (gi_rented_throughput_not_run g)) s in
  let s := zero_both (negb (gi_gpu_attestation_identity_passed g)) GpuIdentityChanged s in
  let s := zero_both (negb (gi_cc_vbios_passed g)) CcVbiosTooOld s in
  let s := zero_both (negb (gi_hardware_identity_passed g)) HardwareIdentityChanged s in
  let s := zero_both (negb (gi_inspector_host_write_passed g)) HostWroteIntoPod s in
  let s := zero_both (negb (gi_kernel_gpu_view_passed g)) KernelGpuViewOverlaid s in
  let s := zero_both (negb (gi_gpu_kernel_count_passed g)) KernelGpuCountShort s in
  network ← jget "network" (py_or (gi_specs g) (JObj []));
  ema ← jget "ema_verifyx_download_speed" (py_or network (JObj []));
  let s := zero_both (negb rented && match ema with JNull => true | _ => false end) VerifyxSpeedUnavailable s in
  Ok (mkScores (actual_score s) (if rented then 1%Q else job_score s) (warnings s)).
End Sizes.

(** ** The work proof fits the card *)
Section Facts.
Context `{R : Rounding}.
Lemma floor_ratio : (0 <= VRAM_FLOOR_RATIO)%Q /\ (VRAM_FLOOR_RATIO <= 1)%Q.
Proof. split; [apply rnd_nonneg; done|]. apply rnd_le_1. done. Qed.
Lemma scaled_mono a b q : 0 <= a -> a <= b -> (0 <= q)%Q -> scaled a q <= scaled b q.
Proof.
  intros Ha Hab Hq. unfold scaled. apply Binary64.rhe_mono. apply fmul_mono; [by apply fint_nonneg|done| |apply Qle_refl].
  apply rnd_mono. rewrite <- Zle_Qle. lia.
Qed.
Lemma scaled_nonneg a q : 0 <= a -> (0 <= q)%Q -> 0 <= scaled a q.
Proof.
  intros Ha Hq. unfold scaled. rewrite <- (Binary64.rhe_Z 0). apply Binary64.rhe_mono. apply fmul_nonneg; [by apply fint_nonneg|done].
Qed.
Lemma scaled_floor n : 0 <= n <= 2 ^ 53 -> scaled n VRAM_FLOOR_RATIO <= n.
Proof.
  intros [H0 H1]. destruct floor_ratio as [Hr0 Hr1]. unfold scaled. rewrite <- (Binary64.rhe_Z n) at 2. apply Binary64.rhe_mono.
  unfold fint. apply Qle_trans with (rnd (inject_Z n)); [|apply Qle_lteq; right; apply rnd_int; lia].
  apply fmul_le_l; [|done|done]. apply rnd_nonneg. rewrite <- (Zle_Qle 0). lia.
Qed.
Lemma sizes_positive model sizes : dget model GPU_VRAM_SIZES_MB = Some sizes -> Forall (fun s => 0 <= s) sizes.
Proof.
  intros H. apply dget_In in H. assert (Hall : forallb (fun ms => forallb (fun s => 0 <=? s) ms.2) GPU_VRAM_SIZES_MB = true) by (vm_compute; done).
  rewrite forallb_forall in Hall. apply list_elem_of_In in H; specialize (Hall _ H). rewrite forallb_forall in Hall. apply Forall_forall. intros s Hs.
  apply Z.leb_le, Hall. by apply list_elem_of_In.
Qed.
Lemma fold_min_spec l a : fold_left Z.min l a <= a /\ (forall x, x ∈ l -> fold_left Z.min l a <= x) /\ (0 <= a -> Forall (fun s => 0 <= s) l -> 0 <= fold_left Z.min l a).
Proof.
  revert a. induction l as [|y l IH]; intros a; cbn; [split_and!; [lia|set_solver|done]|].
  destruct (IH (Z.min a y)) as (H1 & H2 & H3). split_and!; [lia| |].
  - intros x [->|?]%elem_of_cons; [lia|auto].
  - intros Ha Hl. apply Forall_cons in Hl as [? ?]. apply H3; [lia|done].
Qed.

(** The work proof never asks a card for more memory than it reported: a model and capacity that
    passed the VRAM precheck always get a probe size, and it is at most that capacity, for the smallest
    variant of a known model and for an unknown model sized from its own report alike. *)
Theorem probe_fits_the_card model capacity :
  capacity <= 2 ^ 53 -> precheck_gpu_spec (Some model) capacity = Ok tt ->
  exists size, matmul_probe_vram_mb (Some model) (Some capacity) = Some size /\ 0 <= size <= capacity.
Proof.
  intros Hmax H. unfold precheck_gpu_spec in H. cbv zeta in H; change (default "" (Some model)) with model in H. destruct (String.eqb model "" || (capacity <=? 0)) eqn:Hc; [discriminate H|].
  apply orb_false_iff in Hc as [_ Hc]. rewrite bool_decide_eq_false_2 in H by set_solver.
  unfold matmul_probe_vram_mb, get_expected_vram_windows in *. unfold dget_or. destruct floor_ratio as [Hr0 _].
  destruct (dget (normalize_gpu_model (Some model)) GPU_VRAM_SIZES_MB) as [sizes|] eqn:Hd.
  - cbn in H. destruct (existsb _ _) eqn:Hw; [|done]. apply existsb_exists in Hw as (w & Hin & Hw). apply in_map_iff in Hin as (s & <- & Hs).
    apply andb_true_iff in Hw as [Hw _]. cbn in Hw. pose proof (sizes_positive _ _ Hd) as Hpos. destruct sizes as [|a l]; [done|].
    apply Forall_cons in Hpos as [Ha Hl]. destruct (fold_min_spec l a) as (H1 & H2 & H3). specialize (H3 Ha Hl).
    eexists. split; [done|]. split; [by apply scaled_nonneg|]. transitivity (scaled s VRAM_FLOOR_RATIO); [|lia]. apply scaled_mono; [done| |done].
    destruct Hs as [<-|Hs]; [done|]. apply H2. by apply list_elem_of_In.
  - cbn in H. destruct (some_name _) eqn:Hn; [|done]. replace (capacity =? 0) with false by lia.
    eexists. split; [done|]. split; [apply scaled_nonneg; [lia|done]|]. apply scaled_floor. lia.
Qed.

(** ** The reference is the cheapest *)
Lemma least_spec {A} (leb : A -> A -> bool) (below_ : A -> A -> Prop) l m :
  (forall x, below_ x x) -> (forall x y z, below_ x y -> below_ y z -> below_ x z) -> (forall x y, leb x y = true -> below_ x y) -> (forall x y, leb x y = false -> below_ y x) ->
  least leb l = Some m -> m ∈ l /\ forall y, y ∈ l -> below_ m y.
Proof.
  intros Hrefl Htr Ht Hf. destruct l as [|x l]; [done|]. cbn. intros [= <-]. revert x.
  induction l as [|y l IH]; intros x; cbn; [split; [set_solver|intros z ->%list_elem_of_singleton; done]|].
  destruct (leb x y) eqn:E; destruct (IH (if leb x y then x else y)) as [Hin Hle]; rewrite E in Hin, Hle.
  - split; [set_solver|]. intros z Hz. apply elem_of_cons in Hz as [->|Hz]; [apply Hle; by left|]. apply elem_of_cons in Hz as [->|Hz]; [|apply Hle; by right].
    eapply Htr; [apply Hle; by left|by apply Ht].
  - split; [set_solver|]. intros z Hz. apply elem_of_cons in Hz as [->|Hz]; [|by apply Hle]. eapply Htr; [apply Hle; by left|by apply Hf].
Qed.
Lemma least_none {A} (leb : A -> A -> bool) l : least leb l = None -> l = [].
Proof. by destruct l. Qed.
Definition cheaper (a b : Candidate) : Prop := (ca_price a <= ca_price b)%Q.
Definition larger (a b : Candidate) : Prop := ca_size b < ca_size a \/ ca_size a = ca_size b /\ cheaper a b.
Lemma by_price_true a b : by_price a b = true -> cheaper a b.
Proof. unfold by_price, cheaper. destruct (Qeq_bool _ _) eqn:E; intros H; [apply Qeq_bool_eq in E; lra|by apply Qle_bool_iff]. Qed.
Lemma by_price_false a b : by_price a b = false -> cheaper b a.
Proof. unfold by_price, cheaper. destruct (Qeq_bool _ _) eqn:E; intros H; [apply Qeq_bool_eq in E; lra|]. destruct (Qlt_le_dec (ca_price b) (ca_price a)); [lra|]. apply Qle_bool_iff in q. unfold Qleb in H. congruence. Qed.
Lemma cheaper_refl a : cheaper a a.
Proof. apply Qle_refl. Qed.
Lemma cheaper_trans a b c : cheaper a b -> cheaper b c -> cheaper a c.
Proof. apply Qle_trans. Qed.
Lemma by_size_true a b : by_size a b = true -> larger a b.
Proof. unfold by_size, larger. destruct (ca_size a =? ca_size b) eqn:E; intros H; [right; split; [lia|by apply by_price_true]|lia]. Qed.
Lemma by_size_false a b : by_size a b = false -> larger b a.
Proof. unfold by_size, larger. destruct (ca_size a =? ca_size b) eqn:E; intros H; [right; split; [lia|by apply by_price_false]|lia]. Qed.
Lemma larger_trans a b c : larger a b -> larger b c -> larger a c.
Proof. intros [?|[? ?]] [?|[? ?]]; [left; lia|left; lia|left; lia|right; split; [lia|by eapply cheaper_trans]]. Qed.
Lemma larger_refl a : larger a a.
Proof. right. split; [done|apply cheaper_refl]. Qed.

(** An unknown NVIDIA card is scored as the cheapest known card of its memory.  The model it gets is
    one the validator has a rate for, and no candidate with a size in the band around the reported VRAM
    is cheaper; with none in the band it is a cheapest one of the largest size below; and it gets none
    only when no candidate is in the band or below. *)
Theorem unknown_card_scored_as_cheapest name v :
  (0 < v)%Q -> din (normalize_gpu_model (Some name)) GPU_MODEL_RATES = false -> startswith "NVIDIA " (normalize_gpu_model (Some name)) = true ->
  match reference_gpu_model (Some name) (Some v) with
  | Some m => din m GPU_MODEL_RATES = true /\ exists c, c ∈ candidates /\ ca_model c = m /\
      ((in_band v c = true /\ forall c', c' ∈ candidates -> in_band v c' = true -> cheaper c c') \/
       (below v c = true /\ forall c', c' ∈ candidates -> in_band v c' = false /\ (below v c' = true -> larger c c')))
  | None => forall c, c ∈ candidates -> in_band v c = false /\ below v c = false
  end.
Proof.
  intros Hv Hk Hs. unfold reference_gpu_model. rewrite Hk, Hs. cbn [negb]. unfold pick_reference.
  replace (Qleb v 0) with false by (symmetry; apply not_true_iff_false; intros H%Qle_bool_iff; lra).
  assert (Hrated : forall c, c ∈ candidates -> din (ca_model c) GPU_MODEL_RATES = true).
  { intros c Hc. assert (Hall : forallb (fun c => din (ca_model c) GPU_MODEL_RATES) candidates = true) by (vm_compute; done).
    rewrite forallb_forall in Hall. by apply Hall, list_elem_of_In. }
  destruct (least by_price _) as [c|] eqn:Hb.
  - destruct (least_spec by_price cheaper _ c cheaper_refl cheaper_trans by_price_true by_price_false Hb) as [[Hin Hband]%elem_of_bfilter Hle].
    split; [by apply Hrated|]. exists c. split_and!; [done|done|]. left. split; [done|]. intros c' Hc' Hb'. apply Hle, elem_of_bfilter. done.
  - apply least_none in Hb. assert (Hno : forall c', c' ∈ candidates -> in_band v c' = false).
    { intros c' Hc'. apply not_true_iff_false. intros Ht. assert (c' ∈ List.filter (in_band v) candidates) as Hf by (apply elem_of_bfilter; done). rewrite Hb in Hf. by apply not_elem_of_nil in Hf. }
    destruct (least by_size _) as [c|] eqn:Hl; cbn [fmap option_fmap option_map].
    + destruct (least_spec by_size larger _ c larger_refl larger_trans by_size_true by_size_false Hl) as [[Hin Hbel]%elem_of_bfilter Hle].
      split; [by apply Hrated|]. exists c. split_and!; [done|done|]. right. split; [done|]. intros c' Hc'. split; [by apply Hno|]. intros Hb'. apply Hle, elem_of_bfilter. done.
    + apply least_none in Hl. intros c Hc. split; [by apply Hno|]. apply not_true_iff_false. intros Ht.
      assert (c ∈ List.filter (below v) candidates) as Hf by (apply elem_of_bfilter; done). rewrite Hl in Hf. by apply not_elem_of_nil in Hf.
Qed.

(** ** What the gates come to *)
Definition only_price (w : Warning) : bool := match w with PriceAboveLimit _ _ => true | _ => false end.
(** A score is one with no warning; the job's score is lost to every warning but the price. *)
Definition consistent (s : Scores) : Prop :=
  actual_score s = (match warnings s with [] => 1 | _ => 0 end)%Q /\ job_score s = (if forallb only_price (warnings s) then 1 else 0)%Q.
Definition raised_by (ws : list (bool * Warning)) : list Warning := omap (fun fw : bool * Warning => if fw.1 then Some fw.2 else None) ws.
Lemma zero_both_consistent failed w s : only_price w = false -> consistent s ->
  consistent (zero_both failed w s) /\ warnings (zero_both failed w s) = warnings s ++ raised_by [(failed, w)].
Proof.
  intros Hw [Ha Hj]. destruct failed; cbn; [|by rewrite app_nil_r]. split; [|done]. split; cbn.
  - by destruct (warnings s).
  - by rewrite forallb_app, (andb_comm (forallb _ _)); cbn; rewrite Hw.
Qed.
Lemma zero_actual_consistent failed w s : only_price w = true -> consistent s ->
  consistent (zero_actual failed w s) /\ warnings (zero_actual failed w s) = warnings s ++ raised_by [(failed, w)].
Proof.
  intros Hw [Ha Hj]. destruct failed; cbn; [|by rewrite app_nil_r]. split; [|done]. split; cbn.
  - by destruct (warnings s).
  - rewrite Hj, forallb_app. cbn. rewrite Hw. by destruct (forallb _ _).
Qed.
(** The gates in order, each with whether it fails. *)
Definition gates (g : GateInputs) (speed_missing : bool) : list (bool * Warning) :=
  [(gi_image_enforced g && gi_image_outdated g, ImageOutdated);
   (price_exceeds g, PriceAboveLimit (price_limit g) (or_0 (gi_price_per_gpu g)));
   (gi_tcb_enforced g && gi_has_tdx_quote g && negb (gi_tdx_attestation_passed g), CvmAttestationNotPassed);
   (negb (gi_cpu_truth_passed g), CpuTruthFailed); (negb (gi_provider_side_load_passed g), ProviderSideLoad);
   (negb (gi_inspector_blind_streak_passed g), RentalSensorBlind); (negb (gi_rented_pod_resources_passed g), RentedPodResources);
   (negb (gi_rented_throughput_passed g), RentedThroughput (gi_rented_throughput_not_run g));
   (negb (gi_gpu_attestation_identity_passed g), GpuIdentityChanged); (negb (gi_cc_vbios_passed g), CcVbiosTooOld);
   (negb (gi_hardware_identity_passed g), HardwareIdentityChanged); (negb (gi_inspector_host_write_passed g), HostWroteIntoPod);
   (negb (gi_kernel_gpu_view_passed g), KernelGpuViewOverlaid); (negb (gi_gpu_kernel_count_passed g), KernelGpuCountShort);
   (speed_missing, VerifyxSpeedUnavailable)].
Definition speed_missing (g : GateInputs) : res bool :=
  network ← jget "network" (py_or (gi_specs g) (JObj []));
  ema ← jget "ema_verifyx_download_speed" (py_or network (JObj []));
  Ok (match ema with JNull => true | _ => false end).
Lemma raised_app l m : raised_by (l ++ m) = raised_by l ++ raised_by m.
Proof. unfold raised_by. apply omap_app. Qed.
Definition gate_applied (s : Scores) (fw : bool * Warning) : Scores :=
  if only_price fw.2 then zero_actual fw.1 fw.2 s else zero_both fw.1 fw.2 s.
Lemma apply_gates_consistent l s : consistent s ->
  consistent (fold_left gate_applied l s) /\ warnings (fold_left gate_applied l s) = warnings s ++ raised_by l.
Proof.
  revert s. induction l as [|[f w] l IH]; intros s Hs; cbn [fold_left]; [by rewrite app_nil_r|].
  change (raised_by ((f, w) :: l)) with (raised_by ([(f, w)] ++ l)). rewrite raised_app, app_assoc. unfold gate_applied at 2 4. cbn [fst snd].
  destruct (only_price w) eqn:Hw; [destruct (zero_actual_consistent f w s Hw Hs) as [Hc <-]|destruct (zero_both_consistent f w s Hw Hs) as [Hc <-]]; by apply IH.
Qed.

End Facts.
