(* ===== verification/ContainerCleanup.v ===== *)
(** * Removing what rentals leave on a node

    [services/container_cleanup.py]: stale containers of pods and fillers that are over, orphan and
    anonymous volumes, filler caches when the disk is tight.  The commands run on the node are
    values; what the node answers is arbitrary, and so are the texts it prints. *)

From Stdlib Require Import Ascii String.
From stdpp Require Import strings.
From S2P Require Import Prelude Float64 PyValue HostText IncentiveConfig RentedData Effects IsoTime.
Import Text.

Local Open Scope string_scope.
Local Open Scope list_scope.
Local Open Scope Z_scope.

(** ** Names ([services/const.py]) *)

Definition POD_CONTAINER_PREFIX : string := "pod_".
Definition FILLER_CONTAINER_PREFIX : string := "filler_".
Definition EDIT_PARKED_SUFFIX : string := "__prev".
Definition FILLER_CACHE_VOLUME_PREFIXES : list string := ["dphn_cache_"; "engy_cache_"].
Definition DPHN_CACHE_RECLAIM_FREE_FLOOR_GB : Q := 100.
Definition VOLUME_RM_MAX_PER_PASS : nat := 200.
Definition ORPHAN_VOLUME_LOOKUPS_PER_PASS : nat := 50.

Definition is_lower_hex (c : ascii) : bool := is_digit c || ((97 <=? code c) && (code c <=? 102)).
(** [n] characters of a class, and then [rest]. *)
Fixpoint exactly (n : nat) (ok : ascii -> bool) (rest : list ascii -> bool) (l : list ascii) : bool :=
  match n with
  | O => rest l
  | S n' => match l with c :: l' => ok c && exactly n' ok rest l' | [] => false end
  end.
Definition literal (p : string) (rest : list ascii -> bool) (l : list ascii) : bool :=
  chars_prefix (chars p) l && rest (drop (length (chars p)) l).
Definition nothing_left (l : list ascii) : bool := match l with [] => true | _ => false end.
Definition hex_dash (n : nat) (rest : list ascii -> bool) : list ascii -> bool := exactly n is_lower_hex (literal "-" rest).
(** 8-4-4-4-12 lower-case hexadecimal digits, and then [rest]. *)
Definition uuid_then (rest : list ascii -> bool) : list ascii -> bool :=
  hex_dash 8 (hex_dash 4 (hex_dash 4 (hex_dash 4 (exactly 12 is_lower_hex rest)))).
(** [LEGACY_LIUM_CONTAINER_NAME] *)
Definition legacy_tail (l : list ascii) : bool := nothing_left l || literal EDIT_PARKED_SUFFIX nothing_left l.
Definition legacy_chars (l : list ascii) : bool :=
  literal POD_CONTAINER_PREFIX (uuid_then legacy_tail) l || literal FILLER_CONTAINER_PREFIX (uuid_then legacy_tail) l.
Definition LEGACY_LIUM_CONTAINER_NAME (name : string) : bool := dollar legacy_chars name.
(** [LIUM_HEALTH_CHECK_CONTAINER_NAME] *)
Definition health_check_chars : list ascii -> bool :=
  literal "health_check_" (fun l => exactly 32 is_lower_hex nothing_left l || exactly 10 is_digit nothing_left l).
Definition LIUM_HEALTH_CHECK_CONTAINER_NAME (name : string) : bool := dollar health_check_chars name.
(** [ANON_VOLUME_NAME_PATTERN], [POD_VOLUME_NAME_PATTERN], [CAPABILITY_CHECK_NAME] *)
Definition ANON_VOLUME_NAME_PATTERN (name : string) : bool := dollar (exactly 64 is_lower_hex nothing_left) name.
Definition POD_VOLUME_NAME_PATTERN (name : string) : option string :=
  if dollar (literal "volume_" (uuid_then nothing_left)) name then Some (of_chars (take 36 (drop 7 (chars name)))) else None.
Fixpoint digits_then (rest : list ascii -> bool) (l : list ascii) : bool :=
  match l with c :: l' => is_digit c && (rest l' || digits_then rest l') | [] => false end.
Definition CAPABILITY_CHECK_NAME (name : string) : bool :=
  dollar (literal "lium_capability_check_" (digits_then (literal "_" (exactly 6 is_lower_hex nothing_left)))) name.

(** ** What the fleet snapshot protects *)

(** [RentedPod.docker_container_name] *)
Definition docker_container_name (p : RentedPod) : string :=
  if String.eqb (strip (rp_container_name p)) "" then POD_CONTAINER_PREFIX +:+ rp_pod_id p else strip (rp_container_name p).
Definition pods_of (d : RentedExecutorsResponse) : list RentedPod := flat_map (fun ke => re_pods ke.2) (rd_executors d).
(** [listed_container_names] *)
Definition listed_container_names (rented_data : option RentedExecutorsResponse) : list string :=
  match rented_data with
  | None => []
  | Some d =>
      flat_map (fun p => [docker_container_name p; docker_container_name p +:+ EDIT_PARKED_SUFFIX]) (pods_of d)
      ++ flat_map snd (rd_all_filler_containers_by_executor d)
      ++ List.filter (fun n => negb (String.eqb n "")) (map snd (rd_filler_containers_by_executor d))
      ++ rd_retained_container_names d
  end.
(** [live_pod_ids] *)
Definition live_pod_ids (rented_data : option RentedExecutorsResponse) : list string :=
  match rented_data with
  | None => []
  | Some d =>
      map rp_pod_id (pods_of d)
      ++ map (removeprefix FILLER_CONTAINER_PREFIX) (List.filter (startswith FILLER_CONTAINER_PREFIX) (listed_container_names rented_data))
  end.
(** [rented_list_unknown_reason] *)
Inductive unknown_reason := RENTED_LIST_UNAVAILABLE | RENTED_LIST_EMPTY.
Definition rented_list_unknown_reason (rented_data : option RentedExecutorsResponse) : option unknown_reason :=
  match rented_data with
  | None => Some RENTED_LIST_UNAVAILABLE
  | Some _ => match listed_container_names rented_data with [] => Some RENTED_LIST_EMPTY | _ => None end
  end.
(** [_bound_pod_id_label] *)
Definition bound_pod_id_label (container_name label : string) : string :=
  let base := removesuffix EDIT_PARKED_SUFFIX container_name in
  if startswith POD_CONTAINER_PREFIX base || startswith FILLER_CONTAINER_PREFIX base
  then if String.eqb label (partition "_" base).2 then label else ""
  else if String.eqb label container_name then label else "".
(** [never_started_check_containers] *)
Definition never_started_check_containers (listing : string) : list string :=
  omap (fun line => match words line with [id; name] => if CAPABILITY_CHECK_NAME name then Some id else None | _ => None end)
    (splitlines listing).

(** ** Calls *)

Record HostResult := mkHost { hr_exit_status : Z; hr_stdout : string; hr_stderr : string }.
Inductive host_command :=
| PsRental                                  (** [docker ps -a] with the rental name filters, a JSON pair a line *)
| InspectCreated (name : string)
| HostClock                                 (** [date +%s] *)
| RmContainer (name : string)               (** [docker rm -fv] *)
| KillProcesses (name : string)
| VolumeRmStrict (name : string)
| VolumeRm (names : list string)            (** [docker volume rm ... || true] *)
| VolumeLsDangling
| VolumeLs
| ListCreated
| RmCreated (ids : list string)
| RunningFillerOrPod
| DockerRootDir
| DfAvailable (path : string)
| VolumesCreated (names : list string)      (** [docker volume inspect], the name and time of each *)
| ClockAndVolumesCreated (names : list string)
| RemoveIdleFillerImages
| EvictVolume (name : string)               (** the sweep helper removed, then [docker volume rm] *)
| SweepTemporaries (names : list string)
| RmHealthChecks.

(** The record of a rental and of a filler run at the backend; a time is microseconds since the epoch,
    a naive one read as UTC. *)
Record PodRentalActive := mkPodRental {
  pa_active : bool; pa_status : option string; pa_executor_id : option string; pa_rental_closed_at : option Z
}.
Record FillerRunActive := mkFillerRun { fa_active : bool; fa_executor_id : option string; fa_status : option string }.

(** One entry of the queue of reaped containers, and its stored text: a JSON object, or any other text. *)
Record QueuedReap := mkReap { qr_observed_at : datetime; qr_sent_at : option datetime }.
Inductive stored := Object (fields : list (string * json)) | OtherText (s : string).
Inductive redis_hash := ReapedStates | GpuExempt.

(** The variables that survive an exception: those of a run of the check, and those of the process. *)
Record CleanState := mkClean {
  removed_names : list string;
  unremovable_names : list string;
  orphans_found : list string;
  lookups_made : nat;
  lookups_skipped : nat;
  reserved : list string;
  confirmed : list string;
  this_cycle : list (string * QueuedReap);
  orphan_volume_cursor : list (string * string);
  last_sweep_at : list (string * Q)
}.

Inductive c_call : Type -> Type :=
| Ssh (c : host_command) : c_call (res HostResult)
| Draw : c_call (list nat)                  (** the choices of [random.shuffle] *)
| UtcNow : c_call datetime
| Monotonic : c_call Q
| PodRental (id : string) : c_call (res (option PodRentalActive))
| FillerRun (id : string) : c_call (res (option FillerRunActive))
| SAddSeen : c_call (res Z)
| HSet (h : redis_hash) (field : string) (v : stored) : c_call (res unit)
| HDel (h : redis_hash) (fields : list string) : c_call (res unit)
| HGetAll (h : redis_hash) : c_call (res (list (string * stored)))
| Expire (h : redis_hash) : c_call (res unit)
| GetClean : c_call CleanState
| PutClean (s : CleanState) : c_call unit.
Notation P := (prog c_call).
Definition ssh (c : host_command) : P HostResult := r ← call (Ssh c); of_res r.
Definition update (f : CleanState -> CleanState) : P unit := s ← call GetClean; call (PutClean (f s)).
Definition swallow {A} (p : P A) (a : A) : P A := try_except p (fun _ => Some (Ret a)).

Definition set_removed (r u : list string) s :=
  mkClean r u (orphans_found s) (lookups_made s) (lookups_skipped s) (reserved s) (confirmed s) (this_cycle s) (orphan_volume_cursor s) (last_sweep_at s).
Definition set_orphans (o : list string) s :=
  mkClean (removed_names s) (unremovable_names s) o (lookups_made s) (lookups_skipped s) (reserved s) (confirmed s) (this_cycle s) (orphan_volume_cursor s) (last_sweep_at s).
Definition set_cursor (uuid name : string) s :=
  mkClean (removed_names s) (unremovable_names s) (orphans_found s) (lookups_made s) (lookups_skipped s) (reserved s) (confirmed s) (this_cycle s)
    (dset uuid name (orphan_volume_cursor s)) (last_sweep_at s).

(** Any order of a list: each number picks one of the elements left. *)
Fixpoint shuffled {A} (draws : list nat) (l : list A) : list A :=
  match draws with
  | [] => l
  | n :: draws' =>
      match l with
      | [] => []
      | x :: _ => let i := (n mod length l)%nat in default x (l !! i) :: shuffled draws' (take i l ++ drop (S i) l)
      end
  end.
Fixpoint for_each {A} (f : A -> P unit) (l : list A) : P unit :=
  match l with [] => Ret tt | x :: l' => _ ← f x; for_each f l' end.

(** ** The service *)

(** [ContainerCleanup.__init__], with Python's readers of JSON and of times: an instant with a zone
    (microseconds since the epoch), one without ([None]), or [ValueError]. *)
Record Cleaner := mkCleaner {
  stale_threshold_minutes : Z;
  dry_run : bool;
  json_loads : string -> res json;
  read_instant : string -> res (option Z)
}.

Section Service.
Context `{R : Rounding} (cl : Cleaner).

(** [_get_all_rental_containers]: the containers and their pod id labels. *)
Definition listed_pair (line : string) : option (string * string) :=
  match json_loads cl line ≫= jiter with
  | Ok [JStr name; JStr pod_id] => if String.eqb name "" then None else Some (name, strip pod_id)
  | _ => None
  end.
Definition line_error (line : string) : option exc :=
  match json_loads cl line with Ok _ | Raise ValueError | Raise TypeError => None | Raise e => Some e end.
Fixpoint listed_pairs (lines : list string) : res (list (string * string)) :=
  match lines with
  | [] => Ok []
  | line :: rest =>
      match line_error line with
      | Some e => Raise e
      | None => pairs ← listed_pairs rest; Ok (match listed_pair line with Some p => p :: pairs | None => pairs end)
      end
  end.
Definition get_all_rental_containers : P (list (string * string)) :=
  swallow (r ← ssh PsRental; of_res (listed_pairs (splitlines (hr_stdout r)))) [].

(** [_get_container_age_minutes] *)
Definition age_in_minutes (created current : Z) : res Q :=
  match num_of (inject_Z (current - created) / 60)%Q with Fin q => Ok q | _ => Raise OverflowError end.
Definition timestamp_of (r : HostResult) : res Z :=
  match py_int (strip (hr_stdout r)) with Some z => Ok z | None => Raise ValueError end.
Definition get_container_age_minutes (container_name : string) : P (option Q) :=
  swallow
    (created_result ← ssh (InspectCreated container_name);
     if negb (hr_exit_status created_result =? 0) then Ret None
     else
       created ← of_res (timestamp_of created_result);
       current_result ← ssh HostClock;
       if negb (hr_exit_status current_result =? 0) then Ret None
       else
         current ← of_res (timestamp_of current_result);
         age ← of_res (age_in_minutes created current); Ret (Some age))
    None.

(** [_remove_container] *)
Definition remove_own_volume (container_name prefix : string) : P unit :=
  if startswith prefix container_name
  then swallow (_ ← ssh (VolumeRmStrict ("volume_" +:+ removeprefix prefix container_name)); Ret tt) tt
  else Ret tt.
Definition remove_container (container_name : string) : P bool :=
  gone ← swallow
    (result ← ssh (RmContainer container_name);
     if hr_exit_status result =? 0 then Ret true
     else
       _ ← ssh (KillProcesses container_name);
       result ← ssh (RmContainer container_name);
       Ret (hr_exit_status result =? 0))
    false;
  if (gone : bool)
  then _ ← for_each (remove_own_volume container_name) [POD_CONTAINER_PREFIX; FILLER_CONTAINER_PREFIX]; Ret true
  else Ret false.

(** [_legacy_ended] *)
Definition legacy_ended (lium_workload_ended : option (string -> P bool)) (container_name : string) : P bool :=
  match lium_workload_ended with None => Ret false | Some f => swallow (f container_name) false end.

(** [_get_dangling_volumes], [get_dangling_anonymous_volumes], [prune_dangling_anonymous_volumes] *)
Definition stripped_lines (s : string) : list string := List.filter (fun l => negb (String.eqb l "")) (map strip (splitlines s)).
Definition get_dangling_volumes : P (option (list string)) :=
  r ← ssh VolumeLsDangling; Ret (if hr_exit_status r =? 0 then Some (stripped_lines (hr_stdout r)) else None).
Definition get_dangling_anonymous_volumes : P (option (list string)) :=
  names ← get_dangling_volumes; Ret (option_map (List.filter ANON_VOLUME_NAME_PATTERN) names).
Definition prune_dangling_anonymous_volumes : P nat :=
  swallow
    (names ← get_dangling_anonymous_volumes;
     match names with
     | None => Ret O
     | Some l =>
         let volumes_to_remove := take VOLUME_RM_MAX_PER_PASS l in
         match volumes_to_remove with
         | [] => Ret O
         | _ => if dry_run cl then Ret O else _ ← ssh (VolumeRm volumes_to_remove); Ret (length volumes_to_remove)
         end
     end)
    O.

(** [remove_never_started_check_containers] *)
Definition remove_never_started_check_containers : P nat :=
  swallow
    (listed ← ssh ListCreated;
     if negb (hr_exit_status listed =? 0) then Ret O
     else
       let ids := never_started_check_containers (hr_stdout listed) in
       match ids with
       | [] => Ret O
       | _ => if dry_run cl then Ret O else _ ← ssh (RmCreated ids); Ret (length ids)
       end)
    O.

(** [cleanup]: one container of the listing, and the pass over all of them; the names removed and those
    that could not be. *)
Section Pass.
Context (on_before_remove : option (string -> P unit)) (lium_workload_ended : option (string -> P bool)) (reserve_removal : option (string -> P bool)).

Definition goes_ahead (legacy : bool) (name : string) : P bool :=
  if legacy then legacy_ended lium_workload_ended name
  else match reserve_removal with
       | Some f => if startswith POD_CONTAINER_PREFIX name || startswith FILLER_CONTAINER_PREFIX name then f name else Ret true
       | None => Ret true
       end.
Definition is_stale (age : option Q) : bool :=
  match age with Some a => negb (Qeq_bool a 0) && Qltb (inject_Z (stale_threshold_minutes cl)) a | None => false end.
Definition remove_stale (name : string) : P unit :=
  _ ← match on_before_remove with Some f => f name | None => Ret tt end;
  gone ← remove_container name;
  update (fun s => if (gone : bool) then set_removed (removed_names s ++ [name]) (unremovable_names s) s
                   else set_removed (removed_names s) (unremovable_names s ++ [name]) s).
Definition look_at (rented_containers live_ids : list string) (name_label : string * string) : P unit :=
  let '(name, label) := name_label in
  let pod_id := bound_pod_id_label name label in
  let labelled := negb (String.eqb pod_id "") in
  if in_list name rented_containers || (labelled && in_list pod_id live_ids) then Ret tt
  else
    let legacy := negb labelled && LEGACY_LIUM_CONTAINER_NAME name in
    if negb labelled && negb legacy && negb (LIUM_HEALTH_CHECK_CONTAINER_NAME name) then Ret tt
    else
      age ← get_container_age_minutes name;
      if negb (is_stale age) then Ret tt
      else
        ahead ← goes_ahead legacy name;
        if negb ahead then Ret tt
        else if dry_run cl then Ret tt
        else remove_stale name.
Definition cleanup (rented_data : option RentedExecutorsResponse) : P (list string * list string) :=
  _ ← update (set_removed [] []);
  match rented_list_unknown_reason rented_data with
  | Some _ => _ ← prune_dangling_anonymous_volumes; Ret ([], [])
  | None =>
      _ ← swallow
        (all_containers ← get_all_rental_containers;
         draws ← call Draw;
         for_each (look_at (listed_container_names rented_data) (live_pod_ids rented_data)) (shuffled draws all_containers))
        tt;
      _ ← prune_dangling_anonymous_volumes;
      _ ← remove_never_started_check_containers;
      s ← call GetClean; Ret (removed_names s, unremovable_names s)
  end.
End Pass.

(** *** Caches *)

(** [_get_cache_volumes], [_has_running_filler_or_pod] *)
Definition get_cache_volumes (name_prefixes : list string) : P (list string) :=
  r ← ssh VolumeLs;
  Ret (if hr_exit_status r =? 0
       then psort String.leb (List.filter (fun n => existsb (fun p => startswith p n) name_prefixes) (map strip (splitlines (hr_stdout r))))
       else []).
Definition has_running_filler_or_pod : P bool :=
  r ← ssh RunningFillerOrPod; Ret (if hr_exit_status r =? 0 then negb (String.eqb (strip (hr_stdout r)) "") else true).
(** [parse_df_available_bytes] and [df_available_bytes] of [core/docker_utils.py] *)
Definition parse_df_available_bytes (out : string) : res Z :=
  match splitlines (strip out) with
  | _ :: line :: _ =>
      match words line with
      | _ :: _ :: _ :: available :: _ =>
          if isdigit available then match py_int available with Some n => Ok n | None => Raise ValueError end
          else Raise (OtherError "Exception")
      | _ => Raise (OtherError "Exception")
      end
  | _ => Raise (OtherError "Exception")
  end.
Definition df_available_bytes (host_path : string) : P Z :=
  r ← ssh (DfAvailable host_path);
  if hr_exit_status r =? 0 then of_res (parse_df_available_bytes (hr_stdout r)) else Exc (OtherError "Exception").
(** [_get_free_disk_gb] *)
Definition in_gb (bytes : Z) : res Q := match num_of (inject_Z bytes / inject_Z (1024 ^ 3))%Q with Fin q => Ok q | _ => Raise OverflowError end.
Definition get_free_disk_gb : P (option Q) :=
  info ← ssh DockerRootDir;
  if negb (hr_exit_status info =? 0) then Ret None
  else
    let named := strip (hr_stdout info) in
    let docker_root := if String.eqb named "" then "/var/lib/docker" else named in
    swallow (bytes ← df_available_bytes docker_root; gb ← of_res (in_gb bytes); Ret (Some gb)) None.

(** [evict_cache_volumes_oldest_first] *)
Definition created_line (created_at : list (string * string)) (line : string) : list (string * string) :=
  let '(name, created) := partition " " (strip line) in dset name created created_at.
Definition sort_key_leb (evict_first_prefix : option string) (created_at : list (string * string)) (a b : string) : bool :=
  let late n := negb (match evict_first_prefix with Some p => negb (String.eqb p "") && startswith p n | None => false end) in
  let created n := dget_or "~" n created_at in
  if Bool.eqb (late a) (late b)
  then if String.eqb (created a) (created b) then String.leb a b else String.leb (created a) (created b)
  else late b.
Fixpoint evict (run_removal : host_command -> P unit) (has_room : P bool) (ordered : list string) : P unit :=
  match ordered with
  | [] => Ret tt
  | name :: rest =>
      _ ← run_removal (EvictVolume name);
      match rest with
      | [] => Ret tt
      | _ => room ← has_room; if (room : bool) then Ret tt else evict run_removal has_room rest
      end
  end.
Definition evict_cache_volumes_oldest_first (volume_names : list string) (run_removal : host_command -> P unit) (has_room : P bool)
  (evict_first_prefix : option string) : P unit :=
  created_at ← swallow (r ← ssh (VolumesCreated volume_names); Ret (foldl created_line [] (splitlines (hr_stdout r)))) [];
  _ ← run_removal RemoveIdleFillerImages;
  room ← has_room;
  if (room : bool) then Ret tt else evict run_removal has_room (psort (sort_key_leb evict_first_prefix created_at) volume_names).

(** [reclaim_dphn_cache_when_disk_is_tight] *)
Definition under_floor (free_gb : option Q) : bool :=
  match free_gb with Some f => negb (Qleb DPHN_CACHE_RECLAIM_FREE_FLOOR_GB f) | None => false end.
Definition above_floor : P bool :=
  free_now ← get_free_disk_gb; Ret (match free_now with Some f => Qleb DPHN_CACHE_RECLAIM_FREE_FLOOR_GB f | None => false end).
Definition reclaim_dphn_cache_when_disk_is_tight : P nat :=
  swallow
    (cache_volumes ← get_cache_volumes FILLER_CACHE_VOLUME_PREFIXES;
     match cache_volumes with
     | [] => Ret O
     | _ =>
         busy ← has_running_filler_or_pod;
         if (busy : bool) then Ret O
         else
           free_gb ← get_free_disk_gb;
           if negb (under_floor free_gb) then Ret O
           else if dry_run cl then Ret O
           else
             _ ← evict_cache_volumes_oldest_first cache_volumes (fun c => _ ← ssh c; Ret tt) above_floor None;
             surviving ← get_cache_volumes FILLER_CACHE_VOLUME_PREFIXES;
             Ret (length (List.filter (fun n => negb (in_list n surviving)) cache_volumes))
     end)
    O.

(** [sweep_abandoned_download_temporaries] *)
Definition sweep_abandoned_download_temporaries : P nat :=
  swallow
    (cache_volumes ← get_cache_volumes FILLER_CACHE_VOLUME_PREFIXES;
     match cache_volumes with
     | [] => Ret O
     | _ => if dry_run cl then Ret O
            else r ← ssh (SweepTemporaries cache_volumes); Ret (length (stripped_lines (hr_stdout r)))
     end)
    O.

(** *** Orphan volumes *)

(** [_volume_ages], in microseconds; [LAST_SECOND] is the last one of a [datetime]. *)
Definition LAST_SECOND : Z := 253402300799.
Definition age_line (now : Z) (ages : list (string * Z)) (line : string) : res (list (string * Z)) :=
  let '(name, created) := partition " " (strip line) in
  match read_instant cl (strip created) with
  | Ok (Some t) => Ok (dset name (now - t) ages)
  | Ok None => Raise TypeError
  | Raise ValueError => Ok ages
  | Raise e => Raise e
  end.
Definition ages_of (r : HostResult) : res (list (string * Z)) :=
  match splitlines (hr_stdout r) with
  | [] => Ok []
  | first :: rest =>
      if isdigit (strip first)
      then match py_int (strip first) with
           | Some s => if s <=? LAST_SECOND then foldM (age_line (s * 1000000)) [] rest else Raise ValueError
           | None => Raise ValueError
           end
      else Ok []
  end.
Definition volume_ages (names : list string) : P (list (string * Z)) := r ← ssh (ClockAndVolumesCreated names); of_res (ages_of r).
(** [remove_orphan_rental_volumes]: the volumes that may be orphans, the batch of a pass, the lookups. *)
Definition may_be_orphan (rented_data : option RentedExecutorsResponse) (name : string) : bool :=
  match POD_VOLUME_NAME_PATTERN name, rented_data with
  | Some id, Some d =>
      negb (in_list id (map rp_pod_id (pods_of d)))
      && negb (in_list (POD_CONTAINER_PREFIX +:+ id) (listed_container_names rented_data))
      && negb (in_list (FILLER_CONTAINER_PREFIX +:+ id) (listed_container_names rented_data))
  | _, _ => false
  end.
Definition after_cursor (after name : string) : bool := negb (String.leb name after).
Definition rotated (after : string) (candidates : list string) : list string :=
  List.filter (after_cursor after) candidates ++ List.filter (fun n => String.leb n after) candidates.
Definition batch (after : string) (candidates : list string) : list string :=
  take ORPHAN_VOLUME_LOOKUPS_PER_PASS (rotated after candidates).
Definition look_up (executor_uuid : string) (is_orphan : string -> Z -> P bool) (ages : list (string * Z)) (name : string) : P unit :=
  orphan ← match dget name ages with Some age => is_orphan (removeprefix "volume_" name) age | None => Ret false end;
  _ ← (if (orphan : bool) then update (fun s => set_orphans (orphans_found s ++ [name]) s) else Ret tt);
  update (set_cursor executor_uuid name).
Definition last_name (l : list string) : string := List.last l "".
Definition remove_orphan_rental_volumes (rented_data : option RentedExecutorsResponse) (executor_uuid : string)
  (is_orphan : string -> Z -> P bool) (budget : nat) : P nat :=
  _ ← update (set_orphans []);
  swallow
    (match rented_list_unknown_reason rented_data with
     | Some _ => Ret O
     | None =>
         dangling ← get_dangling_volumes;
         s ← call GetClean;
         let all := psort String.leb (List.filter (may_be_orphan rented_data) (default [] dangling)) in
         let candidates := batch (dget_or "" executor_uuid (orphan_volume_cursor s)) all in
         match candidates with
         | [] => Ret O
         | first :: _ =>
             _ ← update (set_cursor executor_uuid (last_name candidates));
             ages ← volume_ages candidates;
             _ ← update (set_cursor executor_uuid first);
             _ ← cut budget (for_each (look_up executor_uuid is_orphan ages) candidates);
             s ← call GetClean;
             match orphans_found s with
             | [] => Ret O
             | orphans =>
                 if dry_run cl then Ret O
                 else
                   _ ← ssh (VolumeRm orphans);
                   surviving ← get_cache_volumes ["volume_"];
                   Ret (length (List.filter (fun n => negb (in_list n surviving)) orphans))
             end
         end
     end)
    O.

(** [force_remove_health_checks] *)
Definition force_remove_health_checks : P nat :=
  swallow (r ← ssh RmHealthChecks; Ret (length (List.filter (fun l => negb (String.eqb (strip l) "")) (split "010" (strip (hr_stdout r)))))) O.
End Service.
