(* ===== verification/StaleContainers.v ===== *)
(** * The check that reaps stale containers

    [services/task/checks/stale_container_cleanup.py]: what the check lets the cleanup service
    remove, the backend lookups it may make for that, the queue of reaped pods it reports, and the
    GPU processes it no longer counts. *)

From Stdlib Require Import Ascii String.
From stdpp Require Import strings.
From S2P Require Import Prelude Float64 PyValue HostText IncentiveConfig RentedData Effects IsoTime ContainerCleanup.
Import Text.

Local Open Scope string_scope.
Local Open Scope list_scope.
Local Open Scope Z_scope.

Definition LIUM_WORKLOAD_LOOKUPS_PER_CYCLE : nat := 10.
Definition DOWNLOAD_TEMPORARY_SWEEP_INTERVAL_SECONDS : Q := 3600.
Definition REAPED_POD_STATE_RETENTION_SECONDS : Z := 24 * 60 * 60.
Definition ENDED_RENTAL_VOLUME_GRACE : Z := 60 * 60 * 1000000.
Definition UNKNOWN_VOLUME_MIN_AGE : Z := 7 * 24 * 60 * 60 * 1000000.
Definition REAPED_POD_STATES_FLOOR : Z := 32.
Definition POD_STATES_MAX_ITEMS : Z := 256.
Definition LIVE_FILLER_RUN_STATUSES : list string := ["STARTING"; "RUNNING"; "STOPPING"].

(** ** Records of the backend *)

(** What of the context the check reads. *)
Inductive ContainerState := RUNNING | EXITED | ABSENT | UNKNOWN | REAPED.
Record PodContainerState := mkPodState { ps_pod_id : string; ps_container_state : ContainerState; ps_observed_at : datetime }.
Record CheckContext := mkCheckContext {
  cc_executor_uuid : string;
  cc_rented_data : option RentedExecutorsResponse;
  cc_gpu_processes : list json;
  cc_pod_states : list PodContainerState;
  cc_has_redis : bool;
  cc_pod_states_report_enabled : bool
}.

Section Records.
Context (ctx : CheckContext).

(** [_lium_workload_ended_here] *)
Definition owned_here (executor_id : option string) : bool := bool_decide (executor_id = Some (cc_executor_uuid ctx)).
Definition run_ended (record : option FillerRunActive) : bool :=
  match record with
  | Some r => negb (fa_active r) && match fa_status r with Some s => negb (in_list s LIVE_FILLER_RUN_STATUSES) | None => false end
              && owned_here (fa_executor_id r)
  | None => false
  end.
Definition rental_ended (record : option PodRentalActive) : bool :=
  match record with
  | Some r => negb (pa_active r) && bool_decide (pa_rental_closed_at r <> None) && owned_here (pa_executor_id r)
  | None => false
  end.
Definition record_id (container_name : string) : string := (partition "_" (removesuffix EDIT_PARKED_SUFFIX container_name)).2.
Definition lium_workload_ended_here (container_name : string) : P bool :=
  if negb (legacy_chars (chars container_name)) then Ret false
  else if startswith FILLER_CONTAINER_PREFIX container_name
  then record ← call (FillerRun (record_id container_name)); record ← of_res record; Ret (run_ended record)
  else record ← call (PodRental (record_id container_name)); record ← of_res record; Ret (rental_ended record).

(** [_is_orphan_volume] *)
Definition is_orphan_volume (volume_id : string) (age : Z) : P bool :=
  pod ← call (PodRental volume_id); pod ← of_res pod;
  match pod with
  | None => Ret false
  | Some p =>
      if pa_active p then Ret false
      else match pa_rental_closed_at p with
           | Some closed_at => now ← call UtcNow; Ret (ENDED_RENTAL_VOLUME_GRACE <=? instant now - closed_at)
           | None =>
               match pa_status p with
               | Some _ => Ret false
               | None =>
                   filler ← call (FillerRun volume_id); filler ← of_res filler;
                   match filler with
                   | None => Ret false
                   | Some f =>
                       if fa_active f then Ret false
                       else match fa_status f with
                            | Some s => Ret (negb (in_list s LIVE_FILLER_RUN_STATUSES))
                            | None => Ret (UNKNOWN_VOLUME_MIN_AGE <=? age)
                            end
                   end
               end
           end
  end.

(** ** The lookups of a run *)

Definition with_lookups (made skipped : nat) (res_ conf : list string) s :=
  mkClean (removed_names s) (unremovable_names s) (orphans_found s) made skipped res_ conf (this_cycle s) (orphan_volume_cursor s) (last_sweep_at s).
Definition add_name (name : string) (l : list string) : list string := if in_list name l then l else l ++ [name].
Definition skip_lookup s := with_lookups (lookups_made s) (S (lookups_skipped s)) (reserved s) (confirmed s) s.
Definition make_lookup s := with_lookups (S (lookups_made s)) (lookups_skipped s) (reserved s) (confirmed s) s.
Definition reserve_name (name : string) s := with_lookups (lookups_made s) (lookups_skipped s) (add_name name (reserved s)) (confirmed s) s.
Definition confirm_name (name : string) s := with_lookups (lookups_made s) (lookups_skipped s) (reserved s) (add_name name (confirmed s)) s.
(** [budget_left] *)
Definition budget_left s : bool := (lookups_made s + length (reserved s) <? LIUM_WORKLOAD_LOOKUPS_PER_CYCLE)%nat.
(** [lium_workload_ended] *)
Definition lium_workload_ended (name : string) : P bool :=
  s ← call GetClean;
  if negb (budget_left s) then _ ← update skip_lookup; Ret false
  else
    _ ← update make_lookup;
    ended ← lium_workload_ended_here name;
    _ ← (if (ended : bool) then update (confirm_name name) else Ret tt);
    Ret ended.
Definition container_of (process : json) : json := match process with JObj d => dget_or JNull "container_name" d | _ => JNull end.
(** The set of the processes' container names: only a dict has [get], and a set holds no list or dict. *)
Definition hashable (v : json) : bool := match v with JList _ | JObj _ => false | _ => true end.
Definition container_name_of (process : json) : res json :=
  match process with
  | JObj _ => if hashable (container_of process) then Ok (container_of process) else Raise TypeError
  | _ => Raise AttributeError
  end.
Definition gpu_container_names : res unit := foldM (fun _ p => _ ← container_name_of p; Ok tt) tt (cc_gpu_processes ctx).
(** [reserve_removal] *)
Definition holds_gpu (name : string) : bool := existsb (fun p => bool_decide (container_of p = JStr name)) (cc_gpu_processes ctx).
Definition reserve_removal (name : string) : P bool :=
  if negb (holds_gpu name) then Ret true
  else
    s ← call GetClean;
    if negb (budget_left s) then _ ← update skip_lookup; Ret false
    else _ ← update (reserve_name name); Ret true.
End Records.

(** ** The queue of reaped pods *)

(** [UUID(s)] succeeds. *)
Definition is_brace (c : ascii) : bool := Ascii.eqb c "{" || Ascii.eqb c "}".
Fixpoint drop_braces (l : list ascii) : list ascii :=
  match l with c :: l' => if is_brace c then drop_braces l' else l | [] => [] end.
Definition is_uuid (s : string) : bool :=
  let l := remove_all (chars "uuid:") 0 (remove_all (chars "urn:") 0 (chars s)) in
  let l := remove_all (chars "-") 0 (rev (drop_braces (rev (drop_braces l)))) in
  (length l =? 32)%nat && bool_decide (py_int16 (of_chars l) <> None).
(** [pod_id_of_container] *)
Definition pod_id_of_container (name : string) : option string :=
  if startswith POD_CONTAINER_PREFIX name
  then let pod_id := removeprefix POD_CONTAINER_PREFIX name in if is_uuid pod_id then Some pod_id else None
  else None.

(** [_QueuedReap] *)
Definition encode (e : QueuedReap) : stored :=
  Object ([("observed_at", JStr (isoformat (qr_observed_at e)))]
          ++ match qr_sent_at e with Some t => [("sent_at", JStr (isoformat t))] | None => [] end).
Definition time_of_json (v : json) : res datetime := match v with JStr s => fromisoformat s | _ => Raise ValueError end.
Definition decode (raw : stored) : res QueuedReap :=
  match raw with
  | OtherText s => t ← fromisoformat s; Ok (mkReap t None)
  | Object fields =>
      match dget_or JNull "observed_at" fields with
      | JNull => Raise ValueError
      | v =>
          observed_at ← time_of_json v;
          let sent := dget_or JNull "sent_at" fields in
          sent_at ← (if truthy sent then t ← time_of_json sent; Ok (Some t) else Ok None);
          Ok (mkReap observed_at sent_at)
      end
  end.
Definition sent_or_seen (e : QueuedReap) : datetime := default (qr_observed_at e) (qr_sent_at e).
Definition was_sent (e : QueuedReap) : bool := match qr_sent_at e with Some _ => true | None => false end.
(** The order of [send_order]. *)
Definition sends_before (a b : string * QueuedReap) : bool :=
  if Bool.eqb (was_sent a.2) (was_sent b.2) then instant (sent_or_seen a.2) <=? instant (sent_or_seen b.2) else was_sent b.2.
Definition observed_before (a b : string * QueuedReap) : bool := instant (qr_observed_at a.2) <=? instant (qr_observed_at b.2).

Section Queue.
Context (ctx : CheckContext).

Definition with_this_cycle (f : list (string * QueuedReap) -> list (string * QueuedReap)) s :=
  mkClean (removed_names s) (unremovable_names s) (orphans_found s) (lookups_made s) (lookups_skipped s) (reserved s) (confirmed s)
    (f (this_cycle s)) (orphan_volume_cursor s) (last_sweep_at s).
(** [if self._redis is not None:] with the redis error swallowed. *)
Definition with_redis (p : P unit) : P unit := if cc_has_redis ctx then swallow p tt else Ret tt.
Definition redis {A} (c : c_call (res A)) : P A := r ← call c; of_res r.
(** [_ReapedPodStateQueue.add], [drop] *)
Definition queue_add (container_name : string) : P unit :=
  match pod_id_of_container container_name with
  | None => Ret tt
  | Some pod_id =>
      s ← call GetClean;
      if din pod_id (this_cycle s) then Ret tt
      else
        now ← call UtcNow;
        let entry := mkReap now None in
        _ ← update (with_this_cycle (dset pod_id entry));
        with_redis (_ ← redis (HSet ReapedStates pod_id (encode entry)); redis (Expire ReapedStates))
  end.
Definition queue_drop (container_name : string) : P unit :=
  match pod_id_of_container container_name with
  | None => Ret tt
  | Some pod_id => _ ← update (with_this_cycle (ddel pod_id)); with_redis (redis (HDel ReapedStates [pod_id]))
  end.
(** [_ReapedPodStateQueue.states]: the entries of the hash that still count, and the fields that do not. *)
Definition setdefault_reap (k : string) (e : QueuedReap) (d : list (string * QueuedReap)) : list (string * QueuedReap) := if din k d then d else d ++ [(k, e)].
Definition read_entry (cutoff : Z) (acc : list (string * QueuedReap) * list string) (raw : string * stored) : list (string * QueuedReap) * list string :=
  match decode raw.2 with
  | Ok e => if instant (qr_observed_at e) <? cutoff then (acc.1, acc.2 ++ [raw.1]) else (setdefault_reap raw.1 e acc.1, acc.2)
  | Raise _ => (acc.1, acc.2 ++ [raw.1])
  end.
Definition sent_at (t : datetime) (pe : string * QueuedReap) : string * QueuedReap := (pe.1, mkReap (qr_observed_at pe.2) (Some t)).
Definition share (limit : option Z) (l : list (string * QueuedReap)) : list (string * QueuedReap) :=
  match limit with None => l | Some n => take (Z.to_nat n) l end.
Definition queued_entries : P (list (string * QueuedReap)) :=
  s ← call GetClean;
  if negb (cc_has_redis ctx) then Ret (this_cycle s)
  else
    hash ← swallow (redis (HGetAll ReapedStates)) [];
    now ← call UtcNow;
    let cutoff := instant now - REAPED_POD_STATE_RETENTION_SECONDS * 1000000 in
    let '(queued, expired) := foldl (read_entry cutoff) (this_cycle s, []) hash in
    _ ← match expired with [] => Ret tt | _ => swallow (redis (HDel ReapedStates expired)) tt end;
    Ret queued.
Definition queue_states (limit : option Z) : P (list PodContainerState) :=
  queued ← queued_entries;
  let sending := share limit (psort sends_before queued) in
  now ← call UtcNow;
  let sending := map (sent_at now) sending in
  _ ← with_redis (for_each (fun pe => redis (HSet ReapedStates pe.1 (encode pe.2))) sending);
  Ret (map (fun pe => mkPodState pe.1 REAPED (qr_observed_at pe.2)) (psort observed_before sending)).
(** [claim_gpu_exemptions]: the names in any order. *)
Definition base_name (name : string) : string := removesuffix EDIT_PARKED_SUFFIX name.
Definition claim_gpu_exemptions (names : list string) : P (list string) :=
  match names with
  | [] => Ret []
  | _ =>
      if negb (cc_has_redis ctx) then Ret names
      else
        swallow
          (seen ← redis (HGetAll GpuExempt);
           now ← call UtcNow;
           let fresh := List.filter (fun n => negb (din (base_name n) seen)) names in
           _ ← for_each (fun n => redis (HSet GpuExempt (base_name n) (OtherText (isoformat now)))) fresh;
           Ret fresh)
          []
  end.

(** ** A run of the check *)

(** [_first_sight]; without redis the attribute is missing and the exception counts as a first sight. *)
Definition first_sight : P bool :=
  if cc_has_redis ctx then swallow (added ← redis SAddSeen; Ret (negb (added =? 0))) true else Ret true.
(** [_reaped_slots_in_spec] *)
Definition reaped_slots_in_spec : option Z :=
  if cc_pod_states_report_enabled ctx then None
  else
    let rented_pod_count :=
      match cc_rented_data ctx with
      | Some d => match dget (cc_executor_uuid ctx) (rd_executors d) with Some e => Z.of_nat (length (re_pods e)) | None => 0 end
      | None => 0
      end in
    Some (pymaxZ REAPED_POD_STATES_FLOOR (POD_STATES_MAX_ITEMS - rented_pod_count)).
Definition fresh_run s := mkClean [] [] [] O O [] [] [] (orphan_volume_cursor s) (last_sweep_at s).
Definition set_swept (uuid : string) (now : Q) s :=
  mkClean (removed_names s) (unremovable_names s) (orphans_found s) (lookups_made s) (lookups_skipped s) (reserved s) (confirmed s) (this_cycle s)
    (orphan_volume_cursor s) (dset uuid now (last_sweep_at s)).
(** The removed containers with a reserved lookup: the backend is asked whether they were Lium's. *)
Definition confirm_removed (name : string) : P unit :=
  s ← call GetClean;
  if in_list name (confirmed s) || negb (in_list name (reserved s)) then Ret tt
  else swallow (ended ← lium_workload_ended_here ctx name; if (ended : bool) then update (confirm_name name) else Ret tt) tt.

(** What the event of the check carries, and the fields of the state it replaces, if any. *)
Record CleanupEvent := mkCleanupEvent {
  ce_removed : list string; ce_unremovable : list string; ce_first_sight : bool; ce_unknown : option unknown_reason;
  ce_reclaimed : nat; ce_orphan_volumes : option nat; ce_swept : option nat
}.
Record StateUpdate := mkStateUpdate {
  su_orphaned_containers : list string; su_gpu_processes : list json; su_pod_states : list PodContainerState
}.

Context `{R : Rounding} (cl : Cleaner).
(** The hourly sweep of download leftovers and orphan volumes. *)
Definition hourly_sweep (budget : nat) : P (option nat * option nat) :=
  now ← call Monotonic;
  s ← call GetClean;
  let due := match dget (cc_executor_uuid ctx) (last_sweep_at s) with
             | Some last => Qleb DOWNLOAD_TEMPORARY_SWEEP_INTERVAL_SECONDS (fsub now last)
             | None => true
             end in
  if negb due then Ret (None, None)
  else
    swept ← sweep_abandoned_download_temporaries cl;
    orphans ← remove_orphan_rental_volumes cl (cc_rented_data ctx) (cc_executor_uuid ctx) is_orphan_volume budget;
    _ ← update (set_swept (cc_executor_uuid ctx) now);
    Ret (Some swept, Some orphans).
Definition without_processes (removed : list string) : list json :=
  List.filter (fun p => negb (existsb (fun n => bool_decide (container_of p = JStr n)) removed)) (cc_gpu_processes ctx).
(** [StaleContainerCleanupCheck.run]; [budget] is where the time limit of the orphan lookups cuts. *)
Definition stale_container_check (budget : nat) : P (CleanupEvent * option StateUpdate) :=
  _ ← update fresh_run;
  first ← first_sight;
  _ ← of_res (gpu_container_names ctx);
  outcome ← (if (first : bool) then Ret ([], [])
             else cleanup cl (Some queue_add) (Some (lium_workload_ended ctx)) (Some (reserve_removal ctx)) (cc_rented_data ctx));
  let '(removed, unremovable) := (outcome : list string * list string) in
  sweeps ← hourly_sweep budget;
  reclaimed ← reclaim_dphn_cache_when_disk_is_tight cl;
  let event := mkCleanupEvent removed unremovable first (rented_list_unknown_reason (cc_rented_data ctx)) reclaimed sweeps.2 sweeps.1 in
  _ ← for_each confirm_removed removed;
  _ ← for_each queue_drop unremovable;
  reaped ← queue_states reaped_slots_in_spec;
  match unremovable, reaped, removed with
  | [], [], [] => Ret (event, None)
  | _, _, _ =>
      s ← call GetClean;
      exempt ← claim_gpu_exemptions (List.filter (fun n => in_list n removed) (confirmed s));
      Ret (event, Some (mkStateUpdate unremovable (without_processes exempt) (cc_pod_states ctx ++ reaped)))
  end.
End Queue.
