(* ===== verification/ContainerSafety.v ===== *)
(** * What the stale container check may remove

    The world a run of the check lives in, and what every destructive command it sends to the node is
    justified by, whatever the node, the backend and Redis answer. *)

From Stdlib Require Import Ascii String.
From stdpp Require Import strings.
From S2P Require Import Prelude Float64 PyValue HostText IncentiveConfig RentedData Effects IsoTime ContainerCleanup StaleContainers.
Import Text.

Local Open Scope list_scope.
Local Open Scope Z_scope.

(** ** The world *)

Inductive happening :=
| Ran (c : host_command) (r : res HostResult)
| PodAsked (id : string) (r : res (option PodRentalActive))
| FillerAsked (id : string) (r : res (option FillerRunActive))
| Seen (r : res Z)
| Queued (pod_id : string)
| Clock (now : datetime).

(** What each party answers at the n-th call. *)
Record Answers := mkAnswers {
  host_of : nat -> host_command -> res HostResult;
  draw_of : nat -> list nat;
  clock_of : nat -> datetime;
  monotonic_of : nat -> Q;
  pod_of : nat -> string -> res (option PodRentalActive);
  filler_of : nat -> string -> res (option FillerRunActive);
  seen_of : nat -> res Z;
  fate_of : nat -> fate
}.
Record Node := mkNode { happened : list happening; vars : CleanState; hashes : redis_hash -> list (string * stored); step : nat }.
Definition hash_eqb (a b : redis_hash) : bool := match a, b with ReapedStates, ReapedStates | GpuExempt, GpuExempt => true | _, _ => false end.
Definition with_hash (h : redis_hash) (f : list (string * stored) -> list (string * stored)) (hs : redis_hash -> list (string * stored)) :
  redis_hash -> list (string * stored) := fun h' => if hash_eqb h' h then f (hs h') else hs h'.

Section World.
Context (out : Answers).

Definition noted (l : list happening) (w : Node) : Node := mkNode (happened w ++ l) (vars w) (hashes w) (S (step w)).
(** A write to Redis: done, lost, or done with its answer lost; what it notes is noted in each case. *)
Definition write_hash (l : list happening) (h : redis_hash) (f : list (string * stored) -> list (string * stored)) (w : Node) : Node * res unit :=
  let done_ := mkNode (happened w ++ l) (vars w) (with_hash h f (hashes w)) (S (step w)) in
  match fate_of out (step w) with
  | Done => (done_, Ok tt)
  | DoneUnanswered => (done_, Raise RedisDown)
  | Lost => (noted l w, Raise RedisDown)
  end.
Definition handle (X : Type) (c : c_call X) : Node -> Node * X :=
  match c in c_call X return Node -> Node * X with
  | Ssh c => fun w => let r := host_of out (step w) c in (noted [Ran c r] w, r)
  | Draw => fun w => (noted [] w, draw_of out (step w))
  | UtcNow => fun w => let t := clock_of out (step w) in (noted [Clock t] w, t)
  | Monotonic => fun w => (noted [] w, monotonic_of out (step w))
  | PodRental id => fun w => let r := pod_of out (step w) id in (noted [PodAsked id r] w, r)
  | FillerRun id => fun w => let r := filler_of out (step w) id in (noted [FillerAsked id r] w, r)
  | SAddSeen => fun w => let r := seen_of out (step w) in (noted [Seen r] w, r)
  | HSet h field v => fun w => write_hash (match h with ReapedStates => [Queued field] | GpuExempt => [] end) h (dset field v) w
  | HDel h fields => fun w => write_hash [] h (fun d => foldl (fun d k => ddel k d) d fields) w
  | HGetAll h => fun w =>
      (noted [] w, match fate_of out (step w) with Done => Ok (hashes w h) | _ => Raise RedisDown end)
  | Expire h => fun w => write_hash [] h (fun d => d) w
  | GetClean => fun w => (w, vars w)
  | PutClean s => fun w => (mkNode (happened w) s (hashes w) (step w), tt)
  end.

(** ** Facts of the past, and what the variables stand for *)

Definition grows (F : list happening -> Prop) : Prop := forall l l', F l -> F (l ++ l').
Lemma grows_in e : grows (fun l => e ∈ l).
Proof. intros l l'. set_solver. Qed.
Lemma grows_and F G : grows F -> grows G -> grows (fun l => F l /\ G l).
Proof. intros HF HG l l' [? ?]. split; [by apply HF|by apply HG]. Qed.
Lemma grows_ex {A} (F : A -> list happening -> Prop) : (forall a, grows (F a)) -> grows (fun l => exists a, F a l).
Proof. intros HF l l' [a ?]. exists a. by apply HF. Qed.
Lemma grows_or F G : grows F -> grows G -> grows (fun l => F l \/ G l).
Proof. intros HF HG l l' [?|?]; [left; by apply HF|right; by apply HG]. Qed.
Lemma grows_const (Q : Prop) : grows (fun _ => Q).
Proof. by intros l l' ?. Qed.
Lemma grows_all {A} (F : A -> list happening -> Prop) : (forall a, grows (F a)) -> grows (fun l => forall a, F a l).
Proof. intros HF l l' H a. by apply HF. Qed.
Lemma grows_imp (Q : Prop) F : grows F -> grows (fun l => Q -> F l).
Proof. intros HF l l' H HQ. apply HF. by apply H. Qed.
End World.

Create HintDb grows.
#[export] Hint Resolve grows_in grows_and grows_or grows_const grows_imp : grows.
#[export] Hint Extern 2 (grows (fun _ => exists _, _)) => apply grows_ex; intros : grows.
#[export] Hint Extern 2 (grows (fun _ => forall _, _)) => apply grows_all; intros : grows.

(** ** Programs that only give justified commands

    [justified l c]: the past [l] justifies the command [c]; [means l s]: what the variables stand for. *)
Section Logic.
Context (out : Answers) (justified : list happening -> host_command -> Prop) (means : list happening -> CleanState -> Prop).
Hypothesis means_grows : forall s, grows (fun l => means l s).
Notation perform := (perform (handle out)).

Definition all_justified (l : list happening) : Prop := forall l1 c r l2, l = l1 ++ Ran c r :: l2 -> justified l1 c.
Definition sound (w : Node) : Prop := all_justified (happened w) /\ means (happened w) (vars w).
(** From a past that justifies every command and says [pre], [p] leads to one that does, and says [Q a] if it returns [a]. *)
Definition leads {A} (pre : list happening -> Prop) (p : prog c_call A) (Q : A -> list happening -> Prop) : Prop :=
  forall w w' o, sound w -> pre (happened w) -> perform p w = (w', o) ->
  sound w' /\ (exists l, happened w' = happened w ++ l) /\ forall a, o = Ok a -> Q a (happened w').

Lemma justified_snoc l c r : all_justified l -> justified l c -> all_justified (l ++ [Ran c r]).
Proof.
  intros Hl Hc l1 c' r' l2 H. destruct l2 as [|e l2] using rev_ind.
  - apply app_inj_tail in H as [-> [= -> ->]]. done.
  - rewrite app_comm_cons, app_assoc in H. apply app_inj_tail in H as [-> _]. by eapply Hl.
Qed.
Lemma justified_other l e : all_justified l -> (forall c r, e <> Ran c r) -> all_justified (l ++ [e]).
Proof.
  intros Hl He l1 c r l2 H. destruct l2 as [|e' l2] using rev_ind.
  - apply app_inj_tail in H as [_ He']. by destruct (He c r).
  - rewrite app_comm_cons, app_assoc in H. apply app_inj_tail in H as [-> _]. by eapply Hl.
Qed.
Lemma sound_noted w l : all_justified (happened w ++ l) -> sound w -> sound (noted l w).
Proof. intros Hj [_ Hm]. split; [done|]. by apply means_grows. Qed.

Lemma grows_nil (w : Node) : exists l, happened w = happened w ++ l.
Proof. exists []. by rewrite app_nil_r. Qed.
Lemma leads_ret {A} (pre : list happening -> Prop) (a : A) (Q : A -> list happening -> Prop) :
  (forall l, pre l -> Q a l) -> leads pre (Ret a) Q.
Proof. intros H w w' o Hw Hp [= <- <-]. split_and!; [done|apply grows_nil|]. intros a' [= <-]. by apply H. Qed.
Lemma leads_exc {A} pre e (Q : A -> list happening -> Prop) : leads pre (Exc e) Q.
Proof. intros w w' o Hw Hp [= <- <-]. split_and!; [done|apply grows_nil|done]. Qed.
Lemma leads_bind {A B} pre (p : prog c_call A) (f : A -> prog c_call B) mid (Q : B -> list happening -> Prop) :
  leads pre p mid -> (forall a, leads (mid a) (f a) Q) -> leads pre (p ≫= f) Q.
Proof.
  intros Hp Hf w w' o Hw Hpre H. rewrite perform_bind in H. unfold mbind, act_bind in H.
  destruct (perform p w) as [w1 [a|e]] eqn:H1; destruct (Hp _ _ _ Hw Hpre H1) as (Hs & [l1 Hl1] & Ha).
  - destruct (Hf a _ _ _ Hs (Ha _ eq_refl) H) as (? & [l2 Hl2] & ?). split_and!; [done|exists (l1 ++ l2); by rewrite Hl2, Hl1, app_assoc|done].
  - injection H as <- <-. split_and!; [done|by exists l1|done].
Qed.
Lemma leads_weaken {A} (pre pre' : list happening -> Prop) (p : prog c_call A) (Q Q' : A -> list happening -> Prop) :
  leads pre p Q -> (forall l, pre' l -> pre l) -> (forall a l, Q a l -> Q' a l) -> leads pre' p Q'.
Proof. intros H H1 H2 w w' o Hw Hp Hr. destruct (H _ _ _ Hw (H1 _ Hp) Hr) as (? & ? & ?). split_and!; [done..|]. eauto. Qed.
(** What the past says it goes on saying. *)
Lemma leads_frame {A} (F pre : list happening -> Prop) (p : prog c_call A) (Q : A -> list happening -> Prop) :
  grows F -> leads pre p Q -> leads (fun l => F l /\ pre l) p (fun a l => F l /\ Q a l).
Proof.
  intros HF H w w' o Hw [Hf Hp] Hr. destruct (H _ _ _ Hw Hp Hr) as (? & [l Hl] & ?).
  split_and!; [done|by exists l|]. intros a Ha. split; [rewrite Hl; by apply HF|auto].
Qed.
Lemma leads_keep {A} (F : list happening -> Prop) (p : prog c_call A) (Q : A -> list happening -> Prop) :
  grows F -> leads F p Q -> leads F p (fun a l => F l /\ Q a l).
Proof. intros HF H. eapply leads_weaken; [apply (leads_frame F F _ _ HF H)|done|done]. Qed.
Lemma leads_then {A B} (F : list happening -> Prop) (p : prog c_call A) (f : A -> prog c_call B) mid (Q : B -> list happening -> Prop) :
  grows F -> leads F p mid -> (forall a, leads (fun l => F l /\ mid a l) (f a) Q) -> leads F (p ≫= f) Q.
Proof. intros HF Hp Hf. eapply leads_bind; [by apply leads_keep|exact Hf]. Qed.
Lemma leads_fact {A} (fact : Prop) (pre : list happening -> Prop) (p : prog c_call A) (Q : A -> list happening -> Prop) :
  (forall l, pre l -> fact) -> (fact -> leads pre p Q) -> leads pre p Q.
Proof. intros H1 H2 w w' o Hw Hp. by apply H2; [apply (H1 _ Hp)|..]. Qed.
Lemma leads_on {A} (F : list happening -> Prop) (p : prog c_call A) (Q Q' : A -> list happening -> Prop) :
  grows F -> leads (fun _ => True) p Q -> (forall a l, F l -> Q a l -> Q' a l) -> leads F p Q'.
Proof. intros HF H HQ. eapply leads_weaken; [apply (leads_frame F _ _ _ HF H)|done|]. intros a l [? ?]. auto. Qed.
Lemma leads_swallow {A} (F : list happening -> Prop) (p : prog c_call A) (a : A) (Q : A -> list happening -> Prop) :
  grows F -> leads F p Q -> (forall l, F l -> Q a l) -> leads F (swallow p a) Q.
Proof.
  intros HF Hp Ha w w' o Hw Hf Hr. unfold swallow in Hr. rewrite perform_try in Hr.
  destruct (perform p w) as [w1 [b|e]] eqn:H1; destruct (Hp _ _ _ Hw Hf H1) as (? & [l Hl] & Hb).
  - injection Hr as <- <-. split_and!; [done|by exists l|done].
  - cbn in Hr. injection Hr as <- <-. split_and!; [done|by exists l|]. intros b [= <-]. apply Ha. rewrite Hl. by apply HF.
Qed.
Lemma leads_of_res {A} (pre : list happening -> Prop) (r : res A) (Q : A -> list happening -> Prop) :
  (forall a l, r = Ok a -> pre l -> Q a l) -> leads pre (of_res r) Q.
Proof. destruct r; intros H; [apply leads_ret; auto|apply leads_exc]. Qed.
Lemma leads_call {X} (pre : list happening -> Prop) (c : c_call X) (Q : X -> list happening -> Prop) :
  (forall w w' x, sound w -> pre (happened w) -> handle out X c w = (w', x) ->
     sound w' /\ (exists l, happened w' = happened w ++ l) /\ Q x (happened w')) -> leads pre (call c) Q.
Proof.
  intros H w w' o Hw Hp Hr. cbn in Hr. destruct (handle out X c w) as [w1 x] eqn:Hc. injection Hr as <- <-.
  destruct (H _ _ _ Hw Hp Hc) as (? & ? & ?). split_and!; [done..|]. by intros a [= <-].
Qed.
Lemma leads_for_each {A} (F : list happening -> Prop) (f : A -> prog c_call unit) (l : list A) :
  grows F -> (forall x, x ∈ l -> leads F (f x) (fun _ _ => True)) -> leads F (for_each f l) (fun _ _ => True).
Proof.
  intros HF. induction l as [|x l IH]; intros H; cbn [for_each]; [by apply leads_ret|].
  eapply leads_then; [done|apply H; set_solver|]. intros []. eapply leads_weaken; [apply IH; set_solver|by intros ? [? _]|done].
Qed.

(** The calls. *)
Lemma sound_ran w c r : sound w -> justified (happened w) c -> sound (noted [Ran c r] w).
Proof. intros [Hj Hm] Hc. apply sound_noted; [by apply justified_snoc|by split]. Qed.
Lemma sound_other w e : sound w -> (forall c r, e <> Ran c r) -> sound (noted [e] w).
Proof. intros [Hj Hm] He. apply sound_noted; [by apply justified_other|by split]. Qed.
Lemma sound_silent w : sound w -> sound (noted [] w).
Proof. intros Hw. apply sound_noted; [|done]. rewrite app_nil_r. apply Hw. Qed.
Lemma leads_ssh (pre : list happening -> Prop) c : (forall l, pre l -> justified l c) -> leads pre (ssh c) (fun r l => Ran c (Ok r) ∈ l).
Proof.
  intros Hc. unfold ssh. eapply leads_bind with (mid := fun r l => Ran c r ∈ l).
  - apply leads_call. intros w w' x Hw Hp H. cbn in H. injection H as <- <-. split_and!; [by apply sound_ran, Hc|cbn; eauto|cbn; set_solver].
  - intros r. apply leads_of_res. by intros a l -> ?.
Qed.
Definition noted_by {X} (c : c_call X) (x : X) : list happening :=
  match c in c_call X return X -> list happening with
  | Ssh c => fun r => [Ran c r]
  | UtcNow => fun t => [Clock t]
  | PodRental id => fun r => [PodAsked id r]
  | FillerRun id => fun r => [FillerAsked id r]
  | SAddSeen => fun r => [Seen r]
  | HSet ReapedStates f _ => fun _ => [Queued f]
  | _ => fun _ => []
  end x.
Definition harmless_call {X} (c : c_call X) : Prop := match c with Ssh _ | PutClean _ => False | _ => True end.
Lemma handle_harmless {X} (c : c_call X) w w' x : harmless_call c -> handle out X c w = (w', x) ->
  happened w' = happened w ++ noted_by c x /\ vars w' = vars w.
Proof.
  destruct c; cbn; try done; intros _ H; unfold write_hash in H; repeat case_match; simplify_eq; cbn; rewrite ?app_nil_r; done.
Qed.
Lemma leads_harmless {X} (pre : list happening -> Prop) (c : c_call X) : harmless_call c -> leads pre (call c) (fun x l => forall e, e ∈ noted_by c x -> e ∈ l).
Proof.
  intros Hc. apply leads_call. intros w w' x [Hj Hm] Hp H. destruct (handle_harmless c w w' x Hc H) as [Hl Hv]. split_and!.
  - split; rewrite Hl, ?Hv; [|by apply means_grows]. destruct c; try done; cbn; rewrite ?app_nil_r; try done; try by apply justified_other.
    destruct h; cbn; rewrite ?app_nil_r; [by apply justified_other|done].
  - rewrite Hl. eauto.
  - intros e He. rewrite Hl. set_solver.
Qed.
Lemma leads_get (pre : list happening -> Prop) : leads pre (call GetClean) (fun s l => means l s).
Proof. apply leads_call. intros w w' x [Hj Hm] Hp H. cbn in H. injection H as <- <-. split_and!; [done|apply grows_nil|done]. Qed.
Lemma leads_update (pre : list happening -> Prop) f :
  (forall l s, pre l -> means l s -> means l (f s)) -> leads pre (update f) (fun _ _ => True).
Proof.
  intros Hf w w' o [Hj Hm] Hp H. cbn in H. injection H as <- <-. split_and!; [|cbn; apply grows_nil|done]. split; cbn; [done|auto].
Qed.

(** Programs under a time limit: sound also where they are cut off. *)
Definition stays {A} (F : list happening -> Prop) (p : prog c_call A) (Q : A -> list happening -> Prop) : Prop :=
  triple (handle out) sound (fun w => sound w /\ F (happened w)) p (fun o w => sound w /\ F (happened w) /\ forall a, o = Ok a -> Q a (happened w)).
Lemma stays_ret {A} (F : list happening -> Prop) (a : A) (Q : A -> list happening -> Prop) : (forall l, F l -> Q a l) -> stays F (Ret a) Q.
Proof. intros H. apply triple_ret. intros w [? ?]. split_and!; [done..|]. intros a' [= <-]. auto. Qed.
Lemma stays_of_res {A} (F : list happening -> Prop) (r : res A) : stays F (of_res r) (fun a _ => r = Ok a).
Proof. destruct r; [by apply stays_ret|]. apply triple_exc. by intros w [? ?]. Qed.
Lemma stays_bind {A B} (F : list happening -> Prop) (p : prog c_call A) (f : A -> prog c_call B) mid (Q : B -> list happening -> Prop) :
  stays F p mid -> (forall a, stays (fun l => F l /\ mid a l) (f a) Q) -> stays F (p ≫= f) Q.
Proof.
  intros Hp Hf. eapply triple_bind; [exact Hp| |].
  - intros a. eapply triple_weaken; [apply (Hf a)| |].
    + intros w (? & ? & H). auto.
    + intros o w (? & [? _] & ?). auto.
  - intros e w (? & ? & _). by split_and!.
Qed.
Lemma stays_weaken {A} (F : list happening -> Prop) (p : prog c_call A) (Q Q' : A -> list happening -> Prop) :
  stays F p Q -> (forall a l, Q a l -> Q' a l) -> stays F p Q'.
Proof. intros H HQ. eapply triple_weaken; [exact H|done|]. intros o w (? & ? & ?). split_and!; eauto. Qed.
Lemma stays_harmless {X} (F : list happening -> Prop) (c : c_call X) :
  grows F -> harmless_call c -> stays F (call c) (fun x l => forall e, e ∈ noted_by c x -> e ∈ l).
Proof.
  intros HF Hc. apply triple_last. intros w w' x [Hw Hf] H. assert (perform (call c) w = (w', Ok x)) as Hr by (cbn; by rewrite H).
  destruct (leads_harmless F c Hc _ _ _ Hw Hf Hr) as (? & [l Hl] & ?). split_and!; [done..|rewrite Hl; by apply HF|]. eauto.
Qed.
Lemma stays_update (F : list happening -> Prop) f : (forall l s, F l -> means l s -> means l (f s)) -> stays F (update f) (fun _ _ => True).
Proof.
  intros Hf w [Hw HF]. cbn. assert (sound (mkNode (happened w) (f (vars w)) (hashes w) (step w))) by (split; [apply Hw|apply Hf; [done|apply Hw]]).
  split; [done|]. intros w' o H'. injection H' as <- <-. by split_and!.
Qed.
Lemma stays_for_each {A} (F : list happening -> Prop) (f : A -> prog c_call unit) (l : list A) :
  (forall x, x ∈ l -> stays F (f x) (fun _ _ => True)) -> stays F (for_each f l) (fun _ _ => True).
Proof.
  induction l as [|x l IH]; intros H; cbn [for_each]; [by apply stays_ret|].
  eapply stays_bind; [apply H; set_solver|]. intros []. eapply triple_weaken; [apply IH; set_solver|by intros w (? & ? & _)|]. intros o w (? & ? & ?). by split_and!.
Qed.
Lemma stays_exists {A X} (G : X -> list happening -> Prop) (p : prog c_call A) (Q : A -> list happening -> Prop) :
  (forall x, stays (G x) p Q) -> stays (fun l => exists x, G x l) p Q.
Proof.
  intros H w [Hw [x Hx]]. destruct (H x w (conj Hw Hx)) as [Ht Hp]. split; [done|]. intros w' o Hr. destruct (Hp _ _ Hr) as (? & ? & ?). eauto.
Qed.
Lemma leads_cut {A} n (F : list happening -> Prop) (p : prog c_call A) :
  stays F p (fun _ _ => True) -> leads F (cut n p) (fun _ _ => True).
Proof.
  intros Hp w w' o Hw Hf Hc. destruct (Hp w (conj Hw Hf)) as [Ht _].
  destruct (cut_throughout _ _ _ _ _ _ _ Ht Hc) as (_ & Hs & _). split_and!; [done| |done].
  clear -Hc. revert n w Hc. induction p as [a|e|X c k IH]; intros n w Hc; cbn in Hc.
  - injection Hc as <- <-. apply grows_nil.
  - injection Hc as <- <-. apply grows_nil.
  - assert (forall w2 x, handle out X c w = (w2, x) -> exists l, happened w2 = happened w ++ l) as Hh.
    { intros w2 x H. destruct c; cbn in H; unfold write_hash in H; repeat case_match; simplify_eq; cbn; eauto; exists []; by rewrite app_nil_r. }
    destruct n; cbn in Hc; destruct (handle out X c w) as [w2 x] eqn:H2; destruct (Hh _ _ eq_refl) as [l Hl].
    + injection Hc as <- <-. eauto.
    + destruct (IH x n w2 Hc) as [l' Hl']. exists (l ++ l'). by rewrite Hl', Hl, app_assoc.
Qed.
End Logic.

(** ** What justifies a removal *)
Section Removals.
Context (out : Answers) (ctx : CheckContext) `{R : Rounding} (cl : Cleaner).
Local Open Scope string_scope.

(** The node lists the container with this pod id label. *)
Definition listed (name label : string) (l : list happening) : Prop :=
  exists r, (name, label) ∈ omap (listed_pair cl) (splitlines (hr_stdout r)) /\ Ran PsRental (Ok r) ∈ l.
(** The node's clock and the container's creation time make it older than the threshold. *)
Definition read_stale (name : string) (l : list happening) : Prop :=
  exists created clock t t' age,
    (hr_exit_status created = 0 /\ hr_exit_status clock = 0 /\ timestamp_of created = Ok t /\ timestamp_of clock = Ok t' /\
     age_in_minutes t t' = Ok age /\ (inject_Z (stale_threshold_minutes cl) < age)%Q) /\
    Ran (InspectCreated name) (Ok created) ∈ l /\ Ran HostClock (Ok clock) ∈ l.
(** The backend's record says that the workload of that name ran on this node and ended. *)
Definition backend_ended (name : string) (l : list happening) : Prop :=
  legacy_chars (chars name) = true /\
  ((exists rec, (startswith FILLER_CONTAINER_PREFIX name = true /\ run_ended ctx rec = true) /\ FillerAsked (record_id name) (Ok rec) ∈ l) \/
   (exists rec, (startswith FILLER_CONTAINER_PREFIX name = false /\ rental_ended ctx rec = true) /\ PodAsked (record_id name) (Ok rec) ∈ l)).
Definition lium_leftover (name : string) (l : list happening) : Prop :=
  exists label, listed name label l /\
    ((bound_pod_id_label name label <> "" /\ bound_pod_id_label name label ∉ live_pod_ids (cc_rented_data ctx)) \/
     backend_ended name l \/ LIUM_HEALTH_CHECK_CONTAINER_NAME name = true).
Definition removable (name : string) (l : list happening) : Prop :=
  (rented_list_unknown_reason (cc_rented_data ctx) = None /\ dry_run cl = false /\ name ∉ listed_container_names (cc_rented_data ctx)) /\
  Seen (Ok 0) ∈ l /\ lium_leftover name l /\ read_stale name l /\
  forall pod_id, pod_id_of_container name = Some pod_id -> Queued pod_id ∈ l.

(** The node says that no container mounts the volume. *)
Definition dangling (name : string) (l : list happening) : Prop :=
  exists r, (hr_exit_status r = 0 /\ name ∈ stripped_lines (hr_stdout r)) /\ Ran VolumeLsDangling (Ok r) ∈ l.
(** The backend says that the pod or filler run of the volume is over, or knows neither and it is old. *)
Definition read_age (id : string) (age : Z) (l : list happening) : Prop :=
  exists names r ages name, (ages_of cl r = Ok ages /\ dget name ages = Some age /\ id = removeprefix "volume_" name)
    /\ Ran (ClockAndVolumesCreated names) (Ok r) ∈ l.
Definition run_over (id : string) (f : FillerRunActive) (l : list happening) : Prop :=
  fa_active f = false /\ ((exists s, fa_status f = Some s /\ s ∉ LIVE_FILLER_RUN_STATUSES) \/
    fa_status f = None /\ exists age, UNKNOWN_VOLUME_MIN_AGE <= age /\ read_age id age l).
Definition volume_over (id : string) (l : list happening) : Prop :=
  exists pod, PodAsked id (Ok (Some pod)) ∈ l /\ pa_active pod = false /\
    ((exists closed now, (pa_rental_closed_at pod = Some closed /\ ENDED_RENTAL_VOLUME_GRACE <= instant now - closed) /\ Clock now ∈ l) \/
     (pa_rental_closed_at pod = None /\ pa_status pod = None) /\ exists f, FillerAsked id (Ok (Some f)) ∈ l /\ run_over id f l).
Definition orphan (name : string) (l : list happening) : Prop :=
  may_be_orphan (cc_rented_data ctx) name = true /\ dangling name l /\ volume_over (removeprefix "volume_" name) l.

(** The node runs neither a filler nor a pod, and its disk is below the listing floor. *)
Definition idle_and_tight (l : list happening) : Prop :=
  (exists r, (hr_exit_status r = 0 /\ strip (hr_stdout r) = "") /\ Ran RunningFillerOrPod (Ok r) ∈ l) /\
  (exists root r bytes gb, (hr_exit_status r = 0 /\ parse_df_available_bytes (hr_stdout r) = Ok bytes /\ in_gb bytes = Ok gb /\
     (gb < DPHN_CACHE_RECLAIM_FREE_FLOOR_GB)%Q) /\ Ran (DfAvailable root) (Ok r) ∈ l).
Definition is_cache (name : string) : Prop := exists p, p ∈ FILLER_CACHE_VOLUME_PREFIXES /\ startswith p name = true.

Definition justified (l : list happening) (c : host_command) : Prop :=
  match c with
  | RmContainer name | KillProcesses name => removable name l
  | VolumeRmStrict v =>
      exists name prefix r, (v = "volume_" +:+ removeprefix prefix name /\ startswith prefix name = true /\
        prefix ∈ [POD_CONTAINER_PREFIX; FILLER_CONTAINER_PREFIX] /\ hr_exit_status r = 0) /\ Ran (RmContainer name) (Ok r) ∈ l
  | VolumeRm names => dry_run cl = false /\ forall v, v ∈ names -> ANON_VOLUME_NAME_PATTERN v = true /\ dangling v l \/ orphan v l
  | EvictVolume v => (dry_run cl = false /\ is_cache v) /\ idle_and_tight l
  | RemoveIdleFillerImages => dry_run cl = false /\ idle_and_tight l
  | SweepTemporaries names => dry_run cl = false /\ forall v, v ∈ names -> is_cache v
  | RmCreated ids => exists r, (dry_run cl = false /\ hr_exit_status r = 0 /\ ids = never_started_check_containers (hr_stdout r)) /\ Ran ListCreated (Ok r) ∈ l
  | RmHealthChecks => False
  | _ => True
  end.
(** The node said that the container is removed. *)
Definition gone (name : string) (l : list happening) : Prop := exists r, hr_exit_status r = 0 /\ Ran (RmContainer name) (Ok r) ∈ l.
(** The volumes found to be orphans are; the pods of this cycle are queued; the names confirmed have ended
    and the names removed are gone. *)
Definition means (l : list happening) (s : CleanState) : Prop :=
  ((forall v, v ∈ orphans_found s -> orphan v l) /\ (forall pod_id, pod_id ∈ dkeys (this_cycle s) -> Queued pod_id ∈ l)) /\
  (forall n, n ∈ confirmed s -> backend_ended n l) /\ (forall n, n ∈ removed_names s -> gone n l).

Lemma grows_listed name label : grows (listed name label).
Proof. unfold listed. auto with grows. Qed.
Lemma grows_stale name : grows (read_stale name).
Proof. unfold read_stale. auto 10 with grows. Qed.
Lemma grows_ended name : grows (backend_ended name).
Proof. unfold backend_ended. auto 10 with grows. Qed.
#[local] Hint Resolve grows_listed grows_stale grows_ended : grows.
Lemma grows_leftover name : grows (lium_leftover name).
Proof. unfold lium_leftover. auto 10 with grows. Qed.
#[local] Hint Resolve grows_leftover : grows.
Lemma grows_removable name : grows (removable name).
Proof. unfold removable. auto 10 with grows. Qed.
Lemma grows_dangling name : grows (dangling name).
Proof. unfold dangling. auto 10 with grows. Qed.
Lemma grows_age id age : grows (read_age id age).
Proof. unfold read_age. auto 10 with grows. Qed.
#[local] Hint Resolve grows_removable grows_dangling grows_age : grows.
Lemma grows_run_over id f : grows (run_over id f).
Proof. unfold run_over. auto 10 with grows. Qed.
#[local] Hint Resolve grows_run_over : grows.
Lemma grows_over id : grows (volume_over id).
Proof. unfold volume_over. auto 10 with grows. Qed.
#[local] Hint Resolve grows_over : grows.
Lemma grows_orphan name : grows (orphan name).
Proof. unfold orphan. auto 10 with grows. Qed.
Lemma grows_idle : grows idle_and_tight.
Proof. unfold idle_and_tight. auto 10 with grows. Qed.
#[local] Hint Resolve grows_orphan grows_idle : grows.
Lemma grows_gone name : grows (gone name).
Proof. unfold gone. auto 10 with grows. Qed.
#[local] Hint Resolve grows_gone : grows.
Lemma means_grows s : grows (fun l => means l s).
Proof. unfold means. auto 10 with grows. Qed.
Notation leads := (leads out justified means).
Notation leads_ssh := (leads_ssh out justified means means_grows).
Notation leads_harmless := (leads_harmless out justified means means_grows).
Notation leads_then := (leads_then out justified means).
Notation leads_swallow := (leads_swallow out justified means).
Notation leads_for_each := (leads_for_each out justified means means_grows).
#[local] Hint Resolve means_grows : grows.
Ltac gr := lazy beta; solve [auto 30 with grows].
(** Reading the node is always justified. *)
Lemma reads (F : list happening -> Prop) c : (forall l, justified l c) -> leads F (ssh c) (fun r l => Ran c (Ok r) ∈ l).
Proof. intros H. by apply leads_ssh. Qed.

Lemma age_gives name : leads (fun _ => True) (get_container_age_minutes name) (fun age l => is_stale cl age = true -> read_stale name l).
Proof.
  unfold get_container_age_minutes. apply leads_swallow; [gr| |done].
  eapply leads_then; [gr|by apply reads|]. intros created. case_match eqn:H1; [by apply leads_ret|].
  eapply leads_then; [gr|apply leads_of_res with (Q := fun t _ => timestamp_of created = Ok t); auto|]. intros t.
  eapply leads_then; [gr|by apply reads|]. intros clock. case_match eqn:H2; [by apply leads_ret|].
  eapply leads_then; [gr|apply leads_of_res with (Q := fun t _ => timestamp_of clock = Ok t); auto|]. intros t'.
  eapply leads_then; [gr|apply leads_of_res with (Q := fun age _ => age_in_minutes t t' = Ok age); auto|]. intros age.
  apply leads_ret. intros l H Hs. unfold is_stale in Hs. apply andb_true_iff in Hs as [_ Hs%Qltb_lt].
  apply negb_false_iff, Z.eqb_eq in H1, H2. exists created, clock, t, t', age. tauto.
Qed.
Lemma update_silent (F : list happening -> Prop) f :
  (forall s, orphans_found (f s) = orphans_found s) -> (forall s, this_cycle (f s) = this_cycle s) ->
  (forall s, confirmed (f s) = confirmed s) -> (forall s, removed_names (f s) = removed_names s) -> leads F (update f) (fun _ _ => True).
Proof. intros H1 H2 H3 H4. apply leads_update. intros l s _ [[? ?] [? ?]]. unfold means. by rewrite H1, H2, H3, H4. Qed.
Lemma confirm_name_gives (F : list happening -> Prop) name : (forall l, F l -> backend_ended name l) -> leads F (update (confirm_name name)) (fun _ _ => True).
Proof.
  intros HF. apply leads_update. intros l s Hl [? [Hc ?]]. split; [done|]. split; [|done]. cbn. unfold add_name. intros n Hn.
  case_match; [auto|]. apply elem_of_app in Hn as [?| ->%list_elem_of_singleton]; auto.
Qed.

Lemma remove_gives name : leads (removable name) (remove_container name) (fun b l => b = true -> gone name l).
Proof.
  unfold remove_container.
  eapply leads_then with (mid := fun gone l => gone = true -> exists r, hr_exit_status r = 0 /\ Ran (RmContainer name) (Ok r) ∈ l); [gr| |].
  - apply leads_swallow; [gr| |done]. eapply leads_then; [gr|apply leads_ssh; by intros l ?|]. intros r. case_match eqn:Hr.
    + apply leads_ret. intros l [_ ?] _. exists r. split; [by apply Z.eqb_eq|done].
    + eapply leads_then; [gr|apply leads_ssh; by intros l [? _]|]. intros k. eapply leads_then; [gr|apply leads_ssh; by intros l [[? _] _]|].
      intros r'. apply leads_ret. intros l [_ ?] ?. exists r'. split; [by apply Z.eqb_eq|done].
  - intros [|]; [|by apply leads_ret]. eapply leads_then with (mid := fun _ _ => True); [gr| |intros []; apply leads_ret; intros l [[_ Hg] _] _; by apply Hg].
    apply leads_for_each; [gr|]. intros prefix Hp. unfold remove_own_volume. case_match eqn:Hs; [|by apply leads_ret].
    apply leads_swallow; [gr| |done]. eapply leads_then; [gr|apply leads_ssh|intros r; by apply leads_ret].
    intros l [_ H]. destruct (H eq_refl) as (r & ? & ?). exists name, prefix, r. tauto.
Qed.

Lemma asked_here_gives name : leads (fun _ => True) (lium_workload_ended_here ctx name) (fun ended l => ended = true -> backend_ended name l).
Proof.
  unfold lium_workload_ended_here. case_match eqn:Hl; [by apply leads_ret|]. apply negb_false_iff in Hl. case_match eqn:Hf.
  - eapply leads_then; [gr|by apply leads_harmless|]. intros r. destruct r as [rec|e]; [|apply leads_exc]. cbn. apply leads_ret. intros l [_ H] He.
    split; [done|]. left. exists rec. split; [done|]. apply H. cbn. set_solver.
  - eapply leads_then; [gr|by apply leads_harmless|]. intros r. destruct r as [rec|e]; [|apply leads_exc]. cbn. apply leads_ret. intros l [_ H] He.
    split; [done|]. right. exists rec. split; [done|]. apply H. cbn. set_solver.
Qed.
Lemma workload_ended_gives name : leads (fun _ => True) (lium_workload_ended ctx name) (fun ended l => ended = true -> backend_ended name l).
Proof.
  unfold lium_workload_ended. eapply leads_then; [gr|apply leads_get|]. intros s. case_match.
  - eapply leads_then; [gr|by apply update_silent|]. intros []. by apply leads_ret.
  - eapply leads_then; [gr|by apply update_silent|]. intros [].
    eapply leads_bind; [eapply leads_weaken; [apply asked_here_gives|done|done]|]. intros ended.
    eapply leads_then with (mid := fun _ _ => True); [gr|destruct ended; [apply confirm_name_gives; auto|by apply leads_ret]|]. intros []. apply leads_ret. by intros l [? _].
Qed.
Lemma legacy_gives name : leads (fun _ => True) (legacy_ended (Some (lium_workload_ended ctx)) name) (fun ended l => ended = true -> backend_ended name l).
Proof. apply leads_swallow; [gr|apply workload_ended_gives|done]. Qed.
Lemma reserve_gives name : leads (fun _ => True) (reserve_removal ctx name) (fun _ _ => True).
Proof.
  unfold reserve_removal. case_match; [by apply leads_ret|]. eapply leads_then; [gr|apply leads_get|]. intros s.
  case_match; (eapply leads_then; [gr|by apply update_silent|]); intros []; by apply leads_ret.
Qed.
Lemma queue_add_gives name : cc_has_redis ctx = true ->
  leads (fun _ => True) (queue_add ctx name) (fun _ l => forall pod_id, pod_id_of_container name = Some pod_id -> Queued pod_id ∈ l).
Proof.
  intros Hr. unfold queue_add. destruct (pod_id_of_container name) as [pod_id|] eqn:Hp; [|by apply leads_ret].
  eapply leads_then; [gr|apply leads_get|]. intros s. case_match eqn:Hd.
  { apply leads_ret. intros l [_ [[_ Hm] _]] p [= <-]. apply Hm. by apply din_keys. }
  unfold with_redis. rewrite Hr. intros w w' o [Hj [[Ho Hq] [Hc Hm]]] [_ _] H. set (t := clock_of out (step w)) in *.
  assert (Hend : vars w' = with_this_cycle (dset pod_id (mkReap t None)) (vars w) /\ happened w' = (happened w ++ [Clock t; Queued pod_id])%list).
  { cbn in H. unfold write_hash in H. cbn in H. fold t in H.
    destruct (fate_of out (S (step w))); cbn in H; unfold write_hash in H; cbn in H;
      [destruct (fate_of out (S (S (step w)))); cbn in H|..]; injection H as <- <-; cbn; by rewrite ?app_nil_r, <- ?app_assoc. }
  destruct Hend as [Hv Hl]. split_and!; [|by rewrite Hl; eauto|intros _ _ p [= <-]; rewrite Hl; set_solver].
  split; rewrite ?Hv, Hl.
  - change [Clock t; Queued pod_id] with ([Clock t] ++ [Queued pod_id])%list. rewrite app_assoc. by do 2 (apply justified_other; [|done]).
  - split; cbn; [split|split].
    + intros v Hv'. by apply grows_orphan, Ho.
    + intros p Hp'. rewrite dkeys_dset in Hp'. assert (p ∈ dkeys (this_cycle (vars w)) \/ p = pod_id) as [?| ->]; [case_match; set_solver| |set_solver].
      by apply grows_in, Hq.
    + intros n Hn. by apply grows_ended, Hc.
    + intros n Hn. by apply grows_gone, Hm.
Qed.

(** ** A pass of the cleanup *)
Notation pass := (look_at cl (Some (queue_add ctx)) (Some (lium_workload_ended ctx)) (Some (reserve_removal ctx))).
Lemma look_at_gives name label : cc_has_redis ctx = true -> rented_list_unknown_reason (cc_rented_data ctx) = None ->
  leads (fun l => Seen (Ok 0) ∈ l /\ listed name label l) (pass (listed_container_names (cc_rented_data ctx)) (live_pod_ids (cc_rented_data ctx)) (name, label))
    (fun _ _ => True).
Proof.
  intros Hr Hu. unfold look_at. set (pod_id := bound_pod_id_label name label). case_match eqn:Hlive; [by apply leads_ret|].
  apply orb_false_iff in Hlive as [Hn Hlive]. unfold in_list in Hn, Hlive. apply bool_decide_eq_false in Hn.
  case_match eqn:Hours; [by apply leads_ret|].
  eapply leads_then; [gr|eapply leads_weaken; [apply age_gives|done|done]|]. intros age. case_match eqn:Ha; [by apply leads_ret|]. apply negb_false_iff in Ha.
  eapply leads_then with (mid := fun ahead l => ahead = true -> lium_leftover name l); [gr| |].
  { unfold goes_ahead. case_match eqn:Hleg.
    - eapply leads_on; [gr|apply legacy_gives|]. intros a l [[_ ?] _] Hb Ht. exists label. auto.
    - assert (forall l, (Seen (Ok 0) ∈ l /\ listed name label l) /\ (is_stale cl age = true -> read_stale name l) -> lium_leftover name l) as Hleft.
      { intros l [[_ ?] _]. exists label. split; [done|]. destruct (String.eqb_spec pod_id "") as [He|He]; cbn in *.
        - right; right. subst pod_id. destruct (LEGACY_LIUM_CONTAINER_NAME name); [done|]. cbn in Hours. by apply negb_false_iff in Hours.
        - left. split; [done|]. by apply bool_decide_eq_false in Hlive. }
      case_match; [|apply leads_ret; auto].
      eapply leads_on; [gr|apply reserve_gives|]. intros a l Hb _ _. auto. }
  intros [|]; cbn [negb]; [|by apply leads_ret]. destruct (dry_run cl) eqn:Hdry; [by apply leads_ret|]. unfold remove_stale.
  eapply leads_then; [gr|eapply leads_weaken; [by apply queue_add_gives|done|done]|]. intros [].
  eapply leads_then; [gr|eapply leads_weaken; [apply remove_gives| |]|].
  - intros l [[[[Hs Hl] Hage] Hleft] Hq]. unfold removable. auto 10.
  - intros b l Hg. exact Hg.
  - intros b. apply leads_update. intros l s [_ Hg] [? [? Hm]]. split; [by destruct b|]. split; [by destruct b|]. destruct b; [|done]. cbn.
    intros n [?| ->%list_elem_of_singleton]%elem_of_app; [by apply Hm|by apply Hg].
Qed.
Lemma dangling_gives : leads (fun _ => True) get_dangling_volumes (fun names l => forall ns v, names = Some ns -> v ∈ ns -> dangling v l).
Proof.
  unfold get_dangling_volumes. eapply leads_then; [gr|by apply reads|]. intros r. apply leads_ret. intros l [_ H] ns v Hn Hv.
  case_match eqn:Hr; [|done]. injection Hn as <-. exists r. apply Z.eqb_eq in Hr. auto.
Qed.
Lemma prune_gives : leads (fun _ => True) (prune_dangling_anonymous_volumes cl) (fun _ _ => True).
Proof.
  unfold prune_dangling_anonymous_volumes, get_dangling_anonymous_volumes. apply leads_swallow; [gr| |done].
  eapply leads_then with (mid := fun names l => forall ns v, names = Some ns -> v ∈ ns -> ANON_VOLUME_NAME_PATTERN v = true /\ dangling v l); [gr| |].
  - eapply leads_then; [gr|apply dangling_gives|]. intros names. apply leads_ret. intros l [_ H] ns v Hns Hv. destruct names as [ns0|]; [|done].
    cbn in Hns. injection Hns as <-. apply elem_of_bfilter in Hv as [? ?]. split; [done|by eapply H].
  - intros [ns|]; [|by apply leads_ret]. cbn zeta. destruct (take VOLUME_RM_MAX_PER_PASS ns) as [|v0 vs] eqn:Ht; [by apply leads_ret|].
    destruct (dry_run cl) eqn:Hd; [by apply leads_ret|].
    eapply leads_then; [gr|apply leads_ssh|intros r; by apply leads_ret]. intros l [_ H]. split; [done|]. intros v Hv. left. apply (H ns v eq_refl).
    rewrite <- Ht in Hv. by eapply elem_of_sublist, sublist_take.
Qed.
Lemma never_started_gives : leads (fun _ => True) (remove_never_started_check_containers cl) (fun _ _ => True).
Proof.
  unfold remove_never_started_check_containers. apply leads_swallow; [gr| |done]. eapply leads_then; [gr|by apply reads|]. intros r.
  case_match eqn:Hr; [by apply leads_ret|]. cbn zeta. destruct (never_started_check_containers (hr_stdout r)) as [|i is_] eqn:Hi; [by apply leads_ret|].
  destruct (dry_run cl) eqn:Hd; [by apply leads_ret|]. eapply leads_then; [gr|apply leads_ssh|intros r'; by apply leads_ret].
  intros l [_ H]. exists r. apply negb_false_iff, Z.eqb_eq in Hr. auto.
Qed.
Lemma elem_of_shuffled {A} (x : A) draws l : x ∈ shuffled draws l -> x ∈ l.
Proof.
  revert l. induction draws as [|n draws IH]; intros l; cbn; [done|]. destruct l as [|y l]; [done|]. intros [->|Hx]%elem_of_cons.
  - destruct ((y :: l) !! (n mod length (y :: l))%nat) as [z|] eqn:Hz; cbn; [by eapply list_elem_of_lookup_2|set_solver].
  - apply IH, elem_of_app in Hx as [Hx|Hx]; [by eapply elem_of_sublist, sublist_take|by eapply elem_of_sublist, sublist_drop].
Qed.
Lemma listed_pairs_all lines : forall pairs, listed_pairs cl lines = Ok pairs -> pairs = omap (listed_pair cl) lines.
Proof.
  induction lines as [|line rest IH]; intros pairs H; cbn in H; [by injection H as <-|]. destruct (line_error cl line); [done|].
  destruct (listed_pairs cl rest) as [ps|e]; [|done]. cbn in H. injection H as <-. rewrite (IH ps eq_refl). cbn. by destruct (listed_pair cl line).
Qed.
Lemma cleanup_gives : cc_has_redis ctx = true -> leads (fun l => Seen (Ok 0) ∈ l)
  (cleanup cl (Some (queue_add ctx)) (Some (lium_workload_ended ctx)) (Some (reserve_removal ctx)) (cc_rented_data ctx)) (fun ru l => forall n, n ∈ ru.1 -> gone n l).
Proof.
  intros Hr. unfold cleanup. eapply leads_then; [gr|apply leads_update; intros l s _ (? & ? & _); split_and!; cbn; [tauto..|set_solver]|]. intros [].
  destruct (rented_list_unknown_reason (cc_rented_data ctx)) as [u|] eqn:Hu.
  { eapply leads_then; [gr|eapply leads_on; [gr|apply prune_gives|done]|]. intros n. apply leads_ret. cbn. set_solver. }
  eapply leads_then with (mid := fun _ _ => True); [gr| |intros []].
  - apply leads_swallow; [gr| |done].
    eapply leads_then with (mid := fun pairs l => forall name label, (name, label) ∈ pairs -> listed name label l); [gr| |intros pairs].
    + apply leads_swallow; [gr| |intros l _ name label Hin; set_solver]. eapply leads_then; [gr|by apply reads|]. intros r. apply leads_of_res.
      intros pairs l Hp [_ H] name label Hin. exists r. by rewrite <- (listed_pairs_all _ _ Hp).
    + eapply leads_then; [gr|by apply leads_harmless|]. intros draws. apply leads_for_each; [gr|].
      intros [name label] Hx%elem_of_shuffled. eapply leads_weaken; [by apply look_at_gives| |done]. intros l [[[Hs _] H] _]. auto.
  - eapply leads_then; [gr|eapply leads_on; [gr|apply prune_gives|done]|]. intros n.
    eapply leads_then; [gr|eapply leads_on; [gr|apply never_started_gives|done]|]. intros m.
    eapply leads_then; [gr|apply leads_get|]. intros s. apply leads_ret. by intros l [_ (_ & _ & Hm)].
Qed.

(** ** Caches and orphan volumes *)
Lemma cache_volumes_gives prefixes :
  leads (fun _ => True) (get_cache_volumes prefixes) (fun names _ => forall v, v ∈ names -> exists p, p ∈ prefixes /\ startswith p v = true).
Proof.
  unfold get_cache_volumes. eapply leads_then; [gr|by apply reads|]. intros r. apply leads_ret. intros l _ v Hv. case_match; [|set_solver].
  rewrite elem_of_psort in Hv. apply elem_of_bfilter in Hv as [_ Hv]. apply existsb_exists in Hv as (p & Hp & ?). exists p. by rewrite list_elem_of_In.
Qed.
Lemma free_disk_gives : leads (fun _ => True) get_free_disk_gb (fun free l => under_floor free = true ->
  exists root r bytes gb, (hr_exit_status r = 0 /\ parse_df_available_bytes (hr_stdout r) = Ok bytes /\ in_gb bytes = Ok gb /\
     (gb < DPHN_CACHE_RECLAIM_FREE_FLOOR_GB)%Q) /\ Ran (DfAvailable root) (Ok r) ∈ l).
Proof.
  unfold get_free_disk_gb. eapply leads_then; [gr|by apply reads|]. intros info. case_match; [by apply leads_ret|]. cbn zeta.
  apply leads_swallow; [gr| |done]. set (root := if _ : bool then _ else _).
  eapply leads_then with (mid := fun bytes l => exists r, (hr_exit_status r = 0 /\ parse_df_available_bytes (hr_stdout r) = Ok bytes) /\ Ran (DfAvailable root) (Ok r) ∈ l); [gr| |].
  - unfold df_available_bytes. eapply leads_then; [gr|by apply reads|]. intros r. case_match eqn:Hr; [|apply leads_exc].
    apply leads_of_res. intros bytes l Hb [_ ?]. exists r. apply Z.eqb_eq in Hr. auto.
  - intros bytes. eapply leads_then; [gr|apply leads_of_res with (Q := fun gb _ => in_gb bytes = Ok gb); auto|]. intros gb. apply leads_ret.
    intros l [[_ (r & [? ?] & ?)] ?] Hlow. exists root, r, bytes, gb. split_and!; [done..| |done]. cbn in Hlow.
    apply negb_true_iff, Qleb_nle in Hlow. lra.
Qed.
Lemma above_floor_gives : leads (fun _ => True) above_floor (fun _ _ => True).
Proof. unfold above_floor. eapply leads_then; [gr|apply free_disk_gives|]. intros f. by apply leads_ret. Qed.
Lemma run_evictions_gives (F : list happening -> Prop) names : grows F -> (forall l v, F l -> v ∈ names -> justified l (EvictVolume v)) ->
  leads F (evict (fun c => _ ← ssh c; Ret tt) above_floor names) (fun _ _ => True).
Proof.
  intros HF. induction names as [|v names IH]; intros H; cbn [evict]; [by apply leads_ret|].
  eapply leads_then with (mid := fun _ _ => True); [done| |intros []].
  - eapply leads_then; [done|apply leads_ssh; intros l Hl; apply H; [done|set_solver]|]. intros r. by apply leads_ret.
  - destruct names as [|v' names]; [by apply leads_ret|]. eapply leads_then; [gr|eapply leads_on; [gr|apply above_floor_gives|done]|].
    intros room. case_match; [by apply leads_ret|]. eapply leads_weaken; [apply IH|by intros l [[? _] _]|done]. intros l x Hl Hx. apply H; [done|set_solver].
Qed.
Lemma evict_gives names : dry_run cl = false -> (forall v, v ∈ names -> is_cache v) ->
  leads idle_and_tight (evict_cache_volumes_oldest_first names (fun c => _ ← ssh c; Ret tt) above_floor None) (fun _ _ => True).
Proof.
  intros Hd Hc. unfold evict_cache_volumes_oldest_first. eapply leads_then with (mid := fun _ _ => True); [gr| |intros created].
  - apply leads_swallow; [gr| |done]. eapply leads_then; [gr|by apply reads|]. intros r. by apply leads_ret.
  - eapply leads_then with (mid := fun _ _ => True); [gr| |intros []].
    + eapply leads_then; [gr|apply leads_ssh; intros l [? _]; by split|]. intros r. by apply leads_ret.
    + eapply leads_then; [gr|eapply leads_on; [gr|apply above_floor_gives|done]|]. intros room. case_match; [by apply leads_ret|].
      apply run_evictions_gives; [gr|]. intros l v [[[? _] _] _] Hv. rewrite elem_of_psort in Hv. split; [|done]. auto.
Qed.
Lemma reclaim_gives : leads (fun _ => True) (reclaim_dphn_cache_when_disk_is_tight cl) (fun _ _ => True).
Proof.
  unfold reclaim_dphn_cache_when_disk_is_tight. apply leads_swallow; [gr| |done]. eapply leads_then; [gr|apply cache_volumes_gives|]. intros names.
  destruct names as [|v vs] eqn:Hn; [by apply leads_ret|]. rewrite <- Hn.
  eapply leads_then with (mid := fun busy l => busy = false -> exists r, (hr_exit_status r = 0 /\ strip (hr_stdout r) = "") /\ Ran RunningFillerOrPod (Ok r) ∈ l); [gr| |].
  { eapply leads_then; [gr|by apply reads|]. intros r. apply leads_ret. intros l [_ Hr]. case_match eqn:Hz; [|done].
    intros Hb%negb_false_iff. exists r. apply String.eqb_eq in Hb. apply Z.eqb_eq in Hz. auto. }
  intros [|]; [by apply leads_ret|]. eapply leads_then; [gr|eapply leads_on; [gr|apply free_disk_gives|]; intros a l _ Hf; exact Hf|]. intros free.
  case_match eqn:Hb; [by apply leads_ret|]. apply negb_false_iff in Hb. destruct (dry_run cl) eqn:Hd; [by apply leads_ret|].
  eapply leads_fact; [intros l [[[_ Hc] _] _]; exact Hc|]. intros Hcache.
  eapply leads_then with (mid := fun _ _ => True); [gr|eapply leads_weaken; [by apply evict_gives| |done]|intros []].
  { intros l [[_ Hi] Hf]. split; [auto|]. by apply Hf. }
  eapply leads_then; [gr|eapply leads_on; [gr|apply cache_volumes_gives|done]|]. intros surviving. by apply leads_ret.
Qed.
Lemma sweep_gives : leads (fun _ => True) (sweep_abandoned_download_temporaries cl) (fun _ _ => True).
Proof.
  unfold sweep_abandoned_download_temporaries. apply leads_swallow; [gr| |done]. eapply leads_then; [gr|apply cache_volumes_gives|]. intros names.
  destruct names as [|v vs] eqn:Hn; [by apply leads_ret|]. rewrite <- Hn. destruct (dry_run cl) eqn:Hd; [by apply leads_ret|].
  eapply leads_then; [gr|apply leads_ssh|intros r; by apply leads_ret]. intros l [_ Hc]. by split.
Qed.

(** A lookup that calls a volume an orphan is right. *)
Notation stays := (stays out justified means).
Lemma is_orphan_stays name age ages r names (F : list happening -> Prop) : grows F -> ages_of cl r = Ok ages -> dget name ages = Some age ->
  (forall l, F l -> Ran (ClockAndVolumesCreated names) (Ok r) ∈ l) ->
  stays F (is_orphan_volume (removeprefix "volume_" name) age) (fun b l => b = true -> volume_over (removeprefix "volume_" name) l).
Proof.
  intros HF Hr Ha Hl. unfold is_orphan_volume. set (id := removeprefix "volume_" name).
  eapply stays_bind; [apply stays_harmless; [apply means_grows|gr|done]|]. intros pr.
  eapply stays_bind; [apply stays_of_res|]. intros [p|]; [|by apply stays_ret]. destruct (pa_active p) eqn:Hact; [by apply stays_ret|].
  destruct (pa_rental_closed_at p) as [closed|] eqn:Hclosed.
  { eapply stays_bind; [apply stays_harmless; [apply means_grows|gr|done]|]. intros now. apply stays_ret.
    intros l [[[_ H1] ->] H2] Hg%Z.leb_le. exists p. split_and!; [apply H1; cbn; set_solver|done|]. left. exists closed, now. split; [done|]. apply H2. cbn. set_solver. }
  destruct (pa_status p) eqn:Hst; [by apply stays_ret|]. eapply stays_bind; [apply stays_harmless; [apply means_grows|gr|done]|]. intros fr.
  eapply stays_bind; [apply stays_of_res|]. intros [f|]; [|by apply stays_ret]. destruct (fa_active f) eqn:Hfa; [by apply stays_ret|].
  assert (forall l, (((F l /\ (forall e, e ∈ noted_by (PodRental id) pr -> e ∈ l)) /\ pr = Ok (Some p)) /\ (forall e, e ∈ noted_by (FillerRun id) fr -> e ∈ l)) /\ fr = Ok (Some f) ->
    run_over id f l -> volume_over id l) as Hover.
  { intros l [[[[_ H1] ->] H2] ->] Hrun. exists p. split_and!; [apply H1; cbn; set_solver|done|]. right. split; [done|]. exists f. split; [apply H2; cbn; set_solver|done]. }
  destruct (fa_status f) as [s|] eqn:Hfs; apply stays_ret; intros l Hl' Hb; apply (Hover l Hl'); split; [done| |done|].
  - left. exists s. split; [done|]. apply negb_true_iff in Hb. by apply bool_decide_eq_false in Hb.
  - right. split; [done|]. exists age. split; [by apply Z.leb_le|]. exists names, r, ages, name. split; [done|]. apply Hl. apply Hl'.
Qed.
Lemma look_up_stays v names r ages (F : list happening -> Prop) :
  grows F -> may_be_orphan (cc_rented_data ctx) v = true -> (forall l, F l -> ages_of cl r = Ok ages) ->
  (forall l, F l -> Ran (ClockAndVolumesCreated names) (Ok r) ∈ l) -> (forall l, F l -> dangling v l) ->
  stays F (look_up (cc_executor_uuid ctx) is_orphan_volume ages v) (fun _ _ => True).
Proof.
  intros HF Hm Hr Hl Hd. unfold look_up.
  apply stays_bind with (mid := fun b l => b = true -> volume_over (removeprefix "volume_" v) l).
  - destruct (dget v ages) as [age|] eqn:Ha; [|by apply stays_ret]. intros w [Hw Hf].
    by apply (is_orphan_stays v age ages r names F HF (Hr _ Hf) Ha Hl).
  - intros b. apply stays_bind with (mid := fun _ _ => True); [destruct b; [|by apply stays_ret]|intros []].
    + apply stays_update. intros l s [Hf Hv] [[Ho Hq] ?]. split; [|done]. split; [|done]. cbn. intros x [Hx| ->%list_elem_of_singleton]%elem_of_app; [auto|].
      split_and!; [done|auto|auto].
    + apply stays_update. by intros l s _ [? ?].
Qed.
Lemma orphans_gives budget : leads (fun _ => True)
  (remove_orphan_rental_volumes cl (cc_rented_data ctx) (cc_executor_uuid ctx) is_orphan_volume budget) (fun _ _ => True).
Proof.
  unfold remove_orphan_rental_volumes. eapply leads_then with (mid := fun _ _ => True); [gr| |intros []].
  { apply leads_update. intros l s _ [[_ ?] ?]. split; [|done]. split; [cbn; set_solver|done]. }
  apply leads_swallow; [gr| |done]. case_match; [by apply leads_ret|].
  eapply leads_then; [gr|eapply leads_on; [gr|apply dangling_gives|]; intros a l _ Hd; exact Hd|]. intros names.
  eapply leads_then; [gr|apply leads_get|]. intros s. cbn zeta. set (candidates := batch _ _).
  destruct candidates as [|first rest] eqn:Hc; [by apply leads_ret|]. rewrite <- Hc.
  eapply leads_fact with (fact := forall v, v ∈ candidates -> may_be_orphan (cc_rented_data ctx) v = true /\ v ∈ default [] names).
  { intros l _ v Hv. unfold candidates, batch, rotated in Hv. eapply elem_of_sublist in Hv; [|apply sublist_take].
    apply elem_of_app in Hv as [Hv|Hv]; apply elem_of_bfilter in Hv as [Hv _]; rewrite elem_of_psort in Hv; by apply elem_of_bfilter in Hv as [? ?]. }
  intros Hcand.
  eapply leads_then; [gr|by apply update_silent|]. intros [].
  eapply leads_then with (mid := fun ages l => exists r, ages_of cl r = Ok ages /\ Ran (ClockAndVolumesCreated candidates) (Ok r) ∈ l); [gr| |].
  { unfold volume_ages. eapply leads_then; [gr|by apply reads|]. intros r. apply leads_of_res. intros ages l ? [_ ?]. eauto. }
  intros ages. eapply leads_then; [gr|by apply update_silent|]. intros [].
  eapply leads_then with (mid := fun _ _ => True); [gr| |intros cut_off].
  { eapply leads_weaken; [apply leads_cut; apply (stays_exists out justified means (fun r l => ages_of cl r = Ok ages /\
      Ran (ClockAndVolumesCreated candidates) (Ok r) ∈ l /\ forall v, v ∈ candidates -> dangling v l)); intros r| |done].
    - apply stays_for_each; [apply means_grows|]. intros v Hv. eapply look_up_stays; [gr|by apply Hcand|by intros l (? & _)|by intros l (_ & ? & _)|]. intros l (_ & _ & Hd). auto.
    - intros l [[[[[_ Hd] _] _] (r & ? & ?)] _]. exists r. split_and!; [done..|]. intros v Hv. destruct (Hcand v Hv) as [_ Hin].
      destruct names as [ns|]; [by eapply Hd|set_solver]. }
  eapply leads_then; [gr|apply leads_get|]. intros s'. destruct (orphans_found s') as [|v vs] eqn:Ho; [by apply leads_ret|]. rewrite <- Ho.
  destruct (dry_run cl) eqn:Hd; [by apply leads_ret|]. eapply leads_then; [gr|apply leads_ssh|intros r].
  { intros l [_ [[Hm _] _]]. split; [done|]. auto. }
  eapply leads_then; [gr|eapply leads_on; [gr|apply cache_volumes_gives|done]|]. intros surviving. by apply leads_ret.
Qed.

(** ** A run of the check *)
Lemma redis_gives {A} (c : c_call (res A)) : harmless_call c -> leads (fun _ => True) (redis c) (fun _ _ => True).
Proof. intros Hc. unfold redis. eapply leads_then; [gr|by apply leads_harmless|]. intros r. by apply leads_of_res. Qed.
Lemma with_redis_gives p : leads (fun _ => True) p (fun _ _ => True) -> leads (fun _ => True) (with_redis ctx p) (fun _ _ => True).
Proof. intros Hp. unfold with_redis. case_match; [apply leads_swallow; [gr|done|done]|by apply leads_ret]. Qed.
Lemma any_then {A B} (p : prog c_call A) (f : A -> prog c_call B) :
  leads (fun _ => True) p (fun _ _ => True) -> (forall a, leads (fun _ => True) (f a) (fun _ _ => True)) -> leads (fun _ => True) (p ≫= f) (fun _ _ => True).
Proof. intros Hp Hf. eapply leads_bind; [exact Hp|]. auto. Qed.
Lemma any_each {A} (f : A -> prog c_call unit) l : (forall x, leads (fun _ => True) (f x) (fun _ _ => True)) -> leads (fun _ => True) (for_each f l) (fun _ _ => True).
Proof. intros Hf. apply leads_for_each; [gr|]. auto. Qed.
Lemma any_call {X} (c : c_call X) : harmless_call c -> leads (fun _ => True) (call c) (fun _ _ => True).
Proof. intros Hc. eapply leads_weaken; [by apply (leads_harmless (fun _ => True))|done|done]. Qed.
Lemma elem_of_keys_ddel {V} k k' (d : list (string * V)) : k' ∈ dkeys (ddel k d) -> k' ∈ dkeys d.
Proof. unfold dkeys, ddel. rewrite !list_elem_of_fmap. intros (kv & -> & [? _]%elem_of_bfilter). eauto. Qed.
Lemma drop_gives name : leads (fun _ => True) (queue_drop ctx name) (fun _ _ => True).
Proof.
  unfold queue_drop. case_match; [|by apply leads_ret]. apply any_then; [|intros []; by apply with_redis_gives, redis_gives].
  apply leads_update. intros l st _ [[? Hq] ?]. split; [|done]. split; [done|]. cbn. intros p Hp. apply Hq. by eapply elem_of_keys_ddel.
Qed.
Lemma states_gives limit : leads (fun _ => True) (queue_states ctx limit) (fun _ _ => True).
Proof.
  unfold queue_states. apply any_then.
  - unfold queued_entries. apply any_then; [by apply any_call|]. intros st. case_match; [by apply leads_ret|].
    apply any_then; [apply leads_swallow; [gr|by apply redis_gives|done]|]. intros h. apply any_then; [by apply any_call|]. intros now. cbn zeta.
    destruct (foldl _ _ _) as [queued expired]. apply any_then; [|intros []; by apply leads_ret].
    destruct expired; [by apply leads_ret|]. apply leads_swallow; [gr|by apply redis_gives|done].
  - intros queued. cbn zeta. apply any_then; [by apply any_call|]. intros now.
    apply any_then; [apply with_redis_gives, any_each; intros x; by apply redis_gives|]. intros []. by apply leads_ret.
Qed.
Lemma claim_gives names : leads (fun _ => True) (claim_gpu_exemptions ctx names) (fun exempt _ => forall n, n ∈ exempt -> n ∈ names).
Proof.
  unfold claim_gpu_exemptions. destruct names as [|n ns]; [by apply leads_ret|]. case_match; [by apply leads_ret|].
  apply leads_swallow; [gr| |set_solver]. eapply leads_bind; [by apply redis_gives|]. intros seen. eapply leads_bind; [by apply any_call|]. intros now. cbn zeta.
  eapply leads_bind; [apply any_each; intros x; by apply redis_gives|]. intros []. apply leads_ret. by intros l _ m [? _]%elem_of_bfilter.
Qed.
Lemma confirm_gives name : leads (fun _ => True) (confirm_removed ctx name) (fun _ _ => True).
Proof.
  unfold confirm_removed. apply any_then; [by apply any_call|]. intros st. case_match; [by apply leads_ret|].
  apply leads_swallow; [gr| |done]. eapply leads_bind; [apply asked_here_gives|].
  intros [|]; [apply confirm_name_gives; auto|by apply leads_ret].
Qed.
Lemma hourly_gives budget : leads (fun _ => True) (hourly_sweep ctx cl budget) (fun _ _ => True).
Proof.
  unfold hourly_sweep. apply any_then; [by apply any_call|]. intros now. apply any_then; [by apply any_call|]. intros st. cbn zeta.
  case_match; [by apply leads_ret|]. apply any_then; [apply sweep_gives|]. intros n. apply any_then; [apply orphans_gives|]. intros m.
  apply any_then; [by apply update_silent|]. intros []. by apply leads_ret.
Qed.
Lemma first_sight_gives : leads (fun _ => True) (first_sight ctx) (fun first l => first = false -> cc_has_redis ctx = true /\ Seen (Ok 0) ∈ l).
Proof.
  unfold first_sight. destruct (cc_has_redis ctx) eqn:Hr; [|by apply leads_ret]. apply leads_swallow; [gr| |done].
  eapply leads_then with (mid := fun added l => Seen (Ok added) ∈ l); [gr| |].
  - unfold redis. eapply leads_then; [gr|by apply leads_harmless|]. intros r. apply leads_of_res. intros a l -> [_ H]. apply H. cbn. set_solver.
  - intros added. apply leads_ret. intros l [_ H] Ha%negb_false_iff%Z.eqb_eq. subst. auto.
Qed.
Definition dropped (u : StateUpdate) (n : string) : Prop :=
  exists p, p ∈ cc_gpu_processes ctx /\ p ∉ su_gpu_processes u /\ container_of p = JStr n.
Definition drops_ours (r : CleanupEvent * option StateUpdate) (l : list happening) : Prop :=
  forall u n, r.2 = Some u -> dropped u n -> gone n l /\ backend_ended n l.
Lemma dropped_exempt exempt o states n : dropped (mkStateUpdate o (without_processes ctx exempt) states) n -> n ∈ exempt.
Proof.
  intros (p & Hp & Hn & Hc). destruct (decide (n ∈ exempt)) as [|Hx]; [done|]. destruct Hn. apply elem_of_bfilter. split; [done|].
  apply negb_true_iff, not_true_iff_false. intros (m & Hm & Ht)%existsb_exists. apply bool_decide_eq_true in Ht. rewrite Ht in Hc. injection Hc as ->.
  by apply Hx, list_elem_of_In.
Qed.
Lemma check_gives budget w w' o : happened w = [] ->
  perform (handle out) (stale_container_check ctx cl budget) w = (w', o) ->
  all_justified justified (happened w') /\ forall r, o = Ok r -> drops_ours r (happened w').
Proof.
  intros Hw H. unfold stale_container_check in H. rewrite (perform_bind_ok _ _ _ _ (mkNode [] (fresh_run (vars w)) (hashes w) (step w)) tt) in H by (cbn; by rewrite Hw).
  match type of H with perform _ ?p _ = _ => assert (Hg : leads (fun _ => True) p drops_ours) end; cycle 1.
  { edestruct Hg as ([Hj _] & _ & Hr); [| |exact H|by split]; [|done]. split; [|repeat split; cbn; set_solver]. intros l1 c r l2 He. by destruct l1. }
  clear H. eapply leads_then; [gr|apply first_sight_gives|]. intros first.
  eapply leads_then with (mid := fun _ _ => True); [gr|by apply leads_of_res|intros []].
  eapply leads_weaken with (Q := drops_ours); [|intros l [Hl _]; exact Hl|done].
  eapply leads_then with (mid := fun ru l => forall n, n ∈ ru.1 -> gone n l); [gr| |intros [removed unremovable]; cbn [fst]].
  { destruct first; [apply leads_ret; cbn; set_solver|]. eapply leads_fact; [intros l [_ Hf]; exact (proj1 (Hf eq_refl))|]. intros Hr.
    eapply leads_weaken; [by apply cleanup_gives| |done]. intros l [_ Hf]. by apply Hf. }
  eapply leads_weaken with (Q := drops_ours); [|intros l [_ Hr]; exact Hr|done].
  eapply leads_then; [gr|eapply leads_on; [gr|apply hourly_gives|done]|]. intros sweeps.
  eapply leads_then; [gr|eapply leads_on; [gr|apply reclaim_gives|done]|]. intros m. cbn zeta.
  eapply leads_then; [gr|eapply leads_on; [gr|apply any_each, confirm_gives|done]|]. intros [].
  eapply leads_then; [gr|eapply leads_on; [gr|apply any_each, drop_gives|done]|]. intros [].
  eapply leads_then; [gr|eapply leads_on; [gr|apply states_gives|done]|]. intros reaped.
  eapply leads_weaken with (pre := fun l => forall n, n ∈ removed -> gone n l) (Q := drops_ours); [|tauto|done].
  assert (forall e : CleanupEvent, leads (fun l => forall n, n ∈ removed -> gone n l)
    (s ← call GetClean; exempt ← claim_gpu_exemptions ctx (List.filter (fun n => in_list n removed) (confirmed s));
     Ret (e, Some (mkStateUpdate unremovable (without_processes ctx exempt) (cc_pod_states ctx ++ reaped)%list))) drops_ours) as Hclaim.
  { intros e. eapply leads_then; [gr|apply leads_get|]. intros s. eapply leads_then; [gr|eapply leads_on; [gr|apply claim_gives|intros a l _ Hx; exact Hx]|].
    intros exempt. apply leads_ret. intros l [[Hrem (_ & Hconf & _)] Hx] u n [= <-] Hd. apply dropped_exempt in Hd. apply Hx, elem_of_bfilter in Hd as [Hd Hin].
    split; [apply Hrem; by apply bool_decide_eq_true in Hin|auto]. }
  destruct unremovable, reaped, removed; first [apply Hclaim|apply leads_ret; intros l _ u n [=]].
Qed.



(** GPU processes stop counting only when the backend vouches for them.  If a run drops a GPU process of a
    container from the state the later checks read, then in that run the node said that the container
    is removed, and the backend's record of its name says that it was a workload of this node that ended. *)
Theorem only_ended_workloads_are_spared budget w w' e u n :
  happened w = [] -> perform (handle out) (stale_container_check ctx cl budget) w = (w', Ok (e, Some u)) -> dropped u n ->
  gone n (happened w') /\ backend_ended n (happened w').
Proof. intros Hw H. exact (proj2 (check_gives budget w w' _ Hw H) _ eq_refl u n eq_refl). Qed.
End Removals.
