(* ===== verification/ReapQueue.v ===== *)
(** * The memory of the stale container check

    What the check keeps in Redis over its runs: which names were ever spared their GPU processes, and the
    queue of reaped pods it reports. *)

From Stdlib Require Import Ascii String.
From stdpp Require Import strings.
From S2P Require Import Prelude Float64 PyValue HostText IncentiveConfig RentedData Effects IsoTime ContainerCleanup StaleContainers ContainerSafety.
Import Text.

Local Open Scope list_scope.
Local Open Scope Z_scope.

(** ** Calls that leave the record of spared names alone *)
Section Sparing.
Context (out : Answers).

Definition keeping (X : Type) (c : c_call X) : Prop := match c with HSet GpuExempt _ _ | HDel GpuExempt _ | Expire GpuExempt => False | _ => True end.
Notation only := (calls_only keeping).
Lemma only_swallow {A} (p : prog c_call A) a : only p -> only (swallow p a).
Proof. intros Hp. apply calls_only_try; [done|]. by intros e q [= <-]. Qed.
Lemma only_for_each {A} (f : A -> prog c_call unit) l : (forall x, only (f x)) -> only (for_each f l).
Proof. intros Hf. induction l as [|x l IH]; cbn [for_each]; [done|]. apply calls_only_bind; auto. Qed.
Lemma only_ssh c : only (ssh c).
Proof. apply calls_only_bind; [by split|]. intros r. apply calls_only_of_res. Qed.
Lemma only_update f : only (update f).
Proof. by repeat split. Qed.
Lemma only_redis {A} (c : c_call (res A)) : keeping _ c -> only (redis c).
Proof. intros Hc. apply calls_only_bind; [by split|]. intros r. apply calls_only_of_res. Qed.
Lemma only_with_redis ctx p : only p -> only (with_redis ctx p).
Proof. intros Hp. unfold with_redis. case_match; [by apply only_swallow|done]. Qed.
Lemma only_call {X} (c : c_call X) : keeping _ c -> only (call c).
Proof. by split. Qed.
Ltac kept_step := first [exact I | simple apply only_ssh | simple apply only_update | simple apply only_redis; done | simple apply only_with_redis
  | simple apply only_swallow | simple apply only_for_each; intros ? | simple apply calls_only_cut | simple apply calls_only_of_res
  | simple apply only_call; done | simple apply calls_only_bind; [|intros ?] | case_match].
Ltac kept_all := cbn zeta; repeat (kept_step; cbn zeta).

Context `{R : Rounding} (ctx : CheckContext) (cl : Cleaner).
Lemma add_only name : only (queue_add ctx name).
Proof. unfold queue_add. kept_all. Qed.
Lemma ended_only name : only (lium_workload_ended_here ctx name).
Proof. unfold lium_workload_ended_here. kept_all. Qed.
Lemma remove_only name : only (remove_container name).
Proof. unfold remove_container, remove_own_volume. kept_all. Qed.
Lemma age_only name : only (get_container_age_minutes name).
Proof. unfold get_container_age_minutes. kept_all. Qed.
Lemma prune_only : only (prune_dangling_anonymous_volumes cl).
Proof. unfold prune_dangling_anonymous_volumes, get_dangling_anonymous_volumes, get_dangling_volumes. kept_all. Qed.
Lemma look_at_only rented live x :
  only (look_at cl (Some (queue_add ctx)) (Some (lium_workload_ended ctx)) (Some (reserve_removal ctx)) rented live x).
Proof.
  unfold look_at, goes_ahead, legacy_ended, lium_workload_ended, reserve_removal, remove_stale. destruct x as [name label].
  kept_all; first [apply age_only|apply add_only|apply remove_only|apply ended_only].
Qed.
Lemma cleanup_only : only (cleanup cl (Some (queue_add ctx)) (Some (lium_workload_ended ctx)) (Some (reserve_removal ctx)) (cc_rented_data ctx)).
Proof.
  unfold cleanup, get_all_rental_containers, remove_never_started_check_containers. kept_all; first [apply prune_only|apply look_at_only].
Qed.
Lemma cache_volumes_only prefixes : only (get_cache_volumes prefixes).
Proof. unfold get_cache_volumes. kept_all. Qed.
Lemma free_disk_only : only get_free_disk_gb.
Proof. unfold get_free_disk_gb, df_available_bytes. kept_all. Qed.
Lemma above_floor_only : only above_floor.
Proof. unfold above_floor. kept_all. apply free_disk_only. Qed.
Lemma evict_only names : only (evict (fun c => _ ← ssh c; Ret tt) above_floor names).
Proof. induction names as [|n ns IH]; cbn [evict]; [done|]. kept_all; first [apply above_floor_only|apply IH]. Qed.
Lemma reclaim_only : only (reclaim_dphn_cache_when_disk_is_tight cl).
Proof.
  unfold reclaim_dphn_cache_when_disk_is_tight, has_running_filler_or_pod, evict_cache_volumes_oldest_first.
  kept_all; first [apply cache_volumes_only|apply free_disk_only|apply above_floor_only|apply evict_only].
Qed.
Lemma orphans_only budget : only (remove_orphan_rental_volumes cl (cc_rented_data ctx) (cc_executor_uuid ctx) is_orphan_volume budget).
Proof.
  unfold remove_orphan_rental_volumes, get_dangling_volumes, volume_ages, look_up, is_orphan_volume. kept_all; apply cache_volumes_only.
Qed.
Lemma hourly_only budget : only (hourly_sweep ctx cl budget).
Proof.
  unfold hourly_sweep, sweep_abandoned_download_temporaries. kept_all; first [apply cache_volumes_only|apply orphans_only].
Qed.
Lemma drop_only name : only (queue_drop ctx name).
Proof. unfold queue_drop. kept_all. Qed.
Lemma confirm_only name : only (confirm_removed ctx name).
Proof. unfold confirm_removed. kept_all. apply ended_only. Qed.
Lemma states_only limit : only (queue_states ctx limit).
Proof. unfold queue_states, queued_entries. kept_all. Qed.
Lemma first_sight_only : only (first_sight ctx).
Proof. unfold first_sight. kept_all. Qed.

(** ** Claiming *)
Notation perform := (perform (handle out)).
Definition spared (w : Node) : list string := dkeys (hashes w GpuExempt).
Lemma only_spared {A} (p : prog c_call A) w w' o : only p -> perform p w = (w', o) -> spared w' = spared w.
Proof.
  intros Hp H. eapply (proj2 (calls_only_keeps keeping (handle out) (fun w1 => spared w1 = spared w) p _ Hp w eq_refl) w' o H).
  Unshelve. intros X c w1 w2 x Hc Hw Hh. rewrite <- Hw. clear Hw. unfold spared.
  destruct c; cbn in Hh; unfold write_hash in Hh; repeat case_match; simplify_eq; try done; destruct h; try done.
Qed.
Lemma write_spared field v w w' o : perform (redis (HSet GpuExempt field v)) w = (w', o) ->
  (forall k, k ∈ spared w -> k ∈ spared w') /\ (o = Ok tt -> field ∈ spared w').
Proof.
  intros H. unfold redis in H. cbn in H. unfold write_hash in H. cbn in H.
  assert (forall k, k ∈ spared w \/ k = field -> k ∈ dkeys (dset field v (hashes w GpuExempt))) as Hk.
  { intros k. rewrite dkeys_dset. destruct (din field (hashes w GpuExempt)) eqn:Hd; [|unfold spared; set_solver]. apply din_keys in Hd. by intros [?| ->]. }
  destruct (fate_of out (step w)); cbn in H; injection H as <- <-; (split; [intros k ?; auto|try done]); by intros; apply Hk; auto.
Qed.
Lemma writes_spared now ns : forall w w' o, perform (for_each (fun n => redis (HSet GpuExempt (base_name n) (OtherText (isoformat now)))) ns) w = (w', o) ->
  (forall k, k ∈ spared w -> k ∈ spared w') /\ (o = Ok tt -> forall n, n ∈ ns -> base_name n ∈ spared w').
Proof.
  induction ns as [|n ns IH]; intros w w' o H; cbn [for_each] in H; [injection H as <- <-; split; [done|set_solver]|].
  rewrite perform_bind in H. unfold mbind, act_bind in H.
  destruct (perform (redis _) w) as [w1 [[]|e]] eqn:H1; destruct (write_spared _ _ _ _ _ H1) as [Hm1 Hn1].
  - destruct (IH _ _ _ H) as [Hm Hn]. split; [auto|]. intros Ho m [->|Hm']%elem_of_cons; [by apply Hm, Hn1|by apply Hn].
  - injection H as <- <-. by split.
Qed.
Lemma claim_spared names w w' o : cc_has_redis ctx = true -> perform (claim_gpu_exemptions ctx names) w = (w', o) ->
  (forall k, k ∈ spared w -> k ∈ spared w') /\ forall exempt n, o = Ok exempt -> n ∈ exempt -> base_name n ∉ spared w /\ base_name n ∈ spared w'.
Proof.
  intros Hr H. unfold claim_gpu_exemptions in H. destruct names as [|n0 ns]; [injection H as <- <-; split; [done|set_solver]|].
  rewrite Hr in H. cbn [negb] in H. unfold swallow in H. rewrite perform_try in H. unfold redis at 1 in H.
  match type of H with context [perform ?p w] => destruct (perform p w) as [w1 o1] eqn:H1 end. cbn in H1.
  destruct (fate_of out (step w)); cbn in H1; [|injection H1 as <- <-; cbn in H; injection H as <- <-; split; [done|set_solver]..].
  change (pbind ?f ?p) with (p ≫= f) in H1. rewrite perform_bind in H1. unfold mbind, act_bind in H1.
  match type of H1 with context [perform ?p ?w0] => destruct (perform p w0) as [w2 [[]|e]] eqn:H2 end; apply writes_spared in H2 as [Hm Hn].
  - cbn in H1. injection H1 as <- <-. injection H as <- <-. split; [exact Hm|]. intros ex n [= <-] Hin.
    split; [|by apply Hn]. change (n ∈ List.filter (fun n => negb (din (base_name n) (hashes w GpuExempt))) (n0 :: ns)) in Hin.
    apply elem_of_bfilter in Hin as [_ Hin]. intros Hx. apply negb_true_iff, not_true_iff_false in Hin. by apply Hin, din_keys.
  - injection H1 as <- <-. cbn in H. injection H as <- <-. split; [exact Hm|set_solver].
Qed.

(** A program that drops a GPU process only for a name it spares now and never spared before. *)
Definition claims (p : prog c_call (CleanupEvent * option StateUpdate)) : Prop := forall w w' o, perform p w = (w', o) ->
  (forall k, k ∈ spared w -> k ∈ spared w') /\
  forall e u n, o = Ok (e, Some u) -> dropped ctx u n -> base_name n ∉ spared w /\ base_name n ∈ spared w'.
Lemma claims_after {A} (p : prog c_call A) f : only p -> (forall a, claims (f a)) -> claims (p ≫= f).
Proof.
  intros Hp Hf w w' o H. rewrite perform_bind in H. unfold mbind, act_bind in H.
  destruct (perform p w) as [w1 [a|e]] eqn:H1; rewrite <- (only_spared p w w1 _ Hp H1); [by apply (Hf a)|]. injection H as <- <-. by split.
Qed.
Lemma claims_nothing e : claims (Ret (e, None)).
Proof. intros w w' o [= <- <-]. by split. Qed.
Lemma claims_exempt names event unremovable states : cc_has_redis ctx = true ->
  claims (exempt ← claim_gpu_exemptions ctx names; Ret (event, Some (mkStateUpdate unremovable (without_processes ctx exempt) states))).
Proof.
  intros Hr w w' o H. rewrite perform_bind in H. unfold mbind, act_bind in H.
  destruct (perform (claim_gpu_exemptions ctx names) w) as [w1 [ex|e]] eqn:H1; destruct (claim_spared names w w1 _ Hr H1) as [Hm Hn];
    injection H as <- <-; split; [done| |done|done].
  intros e u n [= <- <-] Hd%dropped_exempt. by apply (Hn ex).
Qed.
Lemma check_claims budget : cc_has_redis ctx = true -> claims (stale_container_check ctx cl budget).
Proof.
  intros Hr. unfold stale_container_check. apply claims_after; [apply only_update|intros []]. apply claims_after; [apply first_sight_only|intros first]. apply claims_after; [apply calls_only_of_res|intros []].
  apply claims_after; [case_match; [done|apply cleanup_only]|intros [removed unremovable]].
  apply claims_after; [apply hourly_only|intros sweeps]. apply claims_after; [apply reclaim_only|intros reclaimed]. cbn zeta.
  apply claims_after; [apply only_for_each, confirm_only|intros []]. apply claims_after; [apply only_for_each, drop_only|intros []].
  apply claims_after; [apply states_only|intros reaped].
  destruct unremovable, reaped, removed; first [apply claims_nothing|apply claims_after; [by split|intros ?; by apply claims_exempt]].
Qed.
End Sparing.

(** ** Over the runs of a node *)
Section Runs.
Context `{R : Rounding} (out : Answers).

Record Visit := mkVisit { vi_context : CheckContext; vi_cleaner : Cleaner; vi_budget : nat }.
Definition visit (v : Visit) : prog c_call (CleanupEvent * option StateUpdate) := stale_container_check (vi_context v) (vi_cleaner v) (vi_budget v).
(** The outcomes of one run of the check after another, on one node and what Redis keeps of it. *)
Fixpoint visits (vs : list Visit) (w : Node) : list (res (CleanupEvent * option StateUpdate)) :=
  match vs with
  | [] => []
  | v :: vs => let '(w', o) := perform (handle out) (visit v) w in o :: visits vs w'
  end.
(** The run [v] with outcome [o] no longer counts the GPU processes of the container [n]. *)
Definition spares (v : Visit) (o : res (CleanupEvent * option StateUpdate)) (n : string) : Prop :=
  exists e u, o = Ok (e, Some u) /\ dropped (vi_context v) u n.

Lemma spared_once_before vs : forall w i v o n, Forall (fun v => cc_has_redis (vi_context v) = true) vs ->
  vs !! i = Some v -> visits vs w !! i = Some o -> spares v o n -> base_name n ∉ spared w.
Proof.
  induction vs as [|v0 vs IH]; intros w i v o n Hr Hv Ho Hs; [done|]. apply Forall_cons in Hr as [Hr0 Hr]. cbn [visits] in Ho.
  destruct (perform (handle out) (visit v0) w) as [w1 o1] eqn:H1. destruct (check_claims out _ _ _ Hr0 _ _ _ H1) as [Hm Hn].
  destruct i as [|i]; cbn in Hv, Ho.
  - injection Hv as ->. injection Ho as ->. destruct Hs as (e & u & -> & Hd). by apply (Hn e u).
  - intros Hx. by apply (IH w1 i v o n Hr Hv Ho Hs), Hm.
Qed.

(** C15. A workload is spared its GPU processes at most once.  Over any sequence of runs on one node, with
    Redis answering, losing or leaving unanswered any of its calls, if one run no longer counts the GPU
    processes of a removed container and another run those of a container with the same name, parked
    for an edit or not, then it is the same run. *)
Theorem spared_at_most_once vs w i j vi vj oi oj n m :
  Forall (fun v => cc_has_redis (vi_context v) = true) vs ->
  vs !! i = Some vi -> vs !! j = Some vj -> visits vs w !! i = Some oi -> visits vs w !! j = Some oj ->
  spares vi oi n -> spares vj oj m -> base_name n = base_name m -> i = j.
Proof.
  revert w i j. induction vs as [|v0 vs IH]; intros w i j Hr Hi Hj Hoi Hoj Hsi Hsj Hnm; [done|].
  pose proof Hr as [Hr0 Hr']%Forall_cons. cbn [visits] in Hoi, Hoj.
  destruct (perform (handle out) (visit v0) w) as [w1 o1] eqn:H1. destruct (check_claims out _ _ _ Hr0 _ _ _ H1) as [_ Hn].
  destruct i as [|i], j as [|j]; cbn in *; simplify_eq; [done| | |f_equal; by eapply IH].
  - destruct Hsi as (e & u & -> & Hd). destruct (spared_once_before vs w1 j vj oj m Hr' Hj Hoj Hsj). rewrite <- Hnm. by apply (Hn e u).
  - destruct Hsj as (e & u & -> & Hd). destruct (spared_once_before vs w1 i vi oi n Hr' Hi Hoi Hsi). rewrite Hnm. by apply (Hn e u).
Qed.
End Runs.

(** ** No failure stops the check *)
Section Returns.
Context `{R : Rounding} (ctx : CheckContext) (cl : Cleaner).
Lemma quiet_swallow {A} (p : prog c_call A) a : quiet (swallow p a).
Proof. by apply quiet_try. Qed.
Lemma quiet_each {A} (f : A -> prog c_call unit) l : (forall x, quiet (f x)) -> quiet (for_each f l).
Proof. intros Hf. induction l as [|x l IH]; cbn [for_each]; [done|]. apply quiet_bind; auto. Qed.
Lemma quiet_with_redis p : quiet (with_redis ctx p).
Proof. unfold with_redis. case_match; [apply quiet_swallow|done]. Qed.
Lemma quiet_update f : quiet (update f).
Proof. done. Qed.
Ltac quiet_step := first [exact I | simple apply quiet_swallow | simple apply quiet_with_redis | simple apply quiet_update
  | simple apply quiet_each; intros ? | simple apply quiet_call | simple apply quiet_bind; [|intros ?] | case_match].
Ltac quiet_all := cbn zeta; repeat (quiet_step; cbn zeta).

Lemma check_quiet budget : gpu_container_names ctx = Ok tt -> quiet (stale_container_check ctx cl budget).
Proof.
  intros Hn. unfold stale_container_check, first_sight, cleanup, get_all_rental_containers, prune_dangling_anonymous_volumes, remove_never_started_check_containers,
    hourly_sweep, sweep_abandoned_download_temporaries, remove_orphan_rental_volumes, reclaim_dphn_cache_when_disk_is_tight, confirm_removed, queue_drop,
    queue_states, queued_entries, claim_gpu_exemptions. rewrite Hn. quiet_all.
Qed.
End Returns.
