(* ===== verification/ReapDelivery.v ===== *)
(** * Every reaped pod is reported

    The queue of reaped pods: its entries survive Redis, and one that was never sent is sent within as many
    cycles as it takes to send the ones ahead of it, however many pods are reaped meanwhile. *)

From Stdlib Require Import Ascii String Sorting.Sorted.
From stdpp Require Import strings sorting.
From S2P Require Import Prelude PyValue HostText RentedData Effects IsoTime ContainerCleanup StaleContainers ContainerSafety.
Import Text.

Local Open Scope list_scope.
Local Open Scope Z_scope.

Definition valid_entry (e : QueuedReap) : bool := valid_time (qr_observed_at e) && match qr_sent_at e with Some t => valid_time t | None => true end.
Lemma decode_encode e : valid_entry e = true -> decode (encode e) = Ok e.
Proof.
  destruct e as [o s]; intros [Ho Hs]%andb_true_iff; cbn [qr_observed_at qr_sent_at] in *.
  unfold encode, decode. cbn [qr_observed_at qr_sent_at]. change (dget_or JNull "observed_at" _) with (JStr (isoformat o)).
  unfold time_of_json. rewrite isoformat_round_trip by done. destruct s as [s|]; [|done].
  change (dget_or JNull "sent_at" _) with (JStr (isoformat s)). replace (truthy (JStr (isoformat s))) with true by done.
  unfold mbind, res_bind. by rewrite isoformat_round_trip.
Qed.

(** ** Reading the queue *)

Lemma sends_before_total a b : sends_before a b = true \/ sends_before b a = true.
Proof. unfold sends_before. destruct (was_sent a.2), (was_sent b.2); cbn; lia. Qed.
Lemma sends_before_trans a b c : sends_before a b = true -> sends_before b c = true -> sends_before a c = true.
Proof. unfold sends_before. destruct (was_sent a.2), (was_sent b.2), (was_sent c.2); cbn; lia. Qed.

(** What [queued.setdefault] leaves: the reaps of this cycle, then the stored entries that still count. *)
Definition counts (cutoff : Z) (hash : list (string * stored)) (k : string) (e : QueuedReap) : Prop :=
  exists raw, (k, raw) ∈ hash /\ decode raw = Ok e /\ cutoff <= instant (qr_observed_at e).
Lemma setdefault_reap_keys k e d : NoDup (dkeys d) -> NoDup (dkeys (setdefault_reap k e d)).
Proof.
  intros H. unfold setdefault_reap. destruct (din k d) eqn:Hd; [done|]. rewrite <- dset_fresh by done. by apply NoDup_dset.
Qed.
Lemma elem_of_setdefault k e d x : x ∈ setdefault_reap k e d -> x ∈ d \/ x = (k, e).
Proof. unfold setdefault_reap. case_match; [by left|]. rewrite elem_of_app, list_elem_of_singleton. done. Qed.
Lemma setdefault_mono k e d x : x ∈ d -> x ∈ setdefault_reap k e d.
Proof. unfold setdefault_reap. case_match; set_solver. Qed.

Section Reading.
Context (cutoff : Z).
Notation read := (foldl (read_entry cutoff)).

Lemma read_keys hash : forall acc, NoDup (dkeys acc.1) -> NoDup (dkeys (read acc hash).1).
Proof.
  induction hash as [|[k raw] hash IH]; intros acc H; cbn; [done|]. apply IH. unfold read_entry. cbn.
  destruct (decode raw) as [e|]; [|done]. case_match; [done|]. by apply setdefault_reap_keys.
Qed.
Lemma read_from hash : forall acc k e, (k, e) ∈ (read acc hash).1 -> (k, e) ∈ acc.1 \/ counts cutoff hash k e.
Proof.
  induction hash as [|[k0 raw] hash IH]; intros acc k e H; cbn in H; [by left|]. apply IH in H as [H|(r & ? & ?)]; [|right; exists r; set_solver].
  unfold read_entry in H. cbn in H. destruct (decode raw) as [e0|] eqn:Hd; [|by left]. destruct (Z.ltb_spec (instant (qr_observed_at e0)) cutoff); [by left|].
  cbn in H. apply elem_of_setdefault in H as [H|[= -> ->]]; [by left|]. right. exists raw. split_and!; [set_solver|done|done].
Qed.
Lemma read_mono hash : forall acc x, x ∈ acc.1 -> x ∈ (read acc hash).1.
Proof.
  induction hash as [|[k0 raw] hash IH]; intros acc x H; cbn; [done|]. apply IH. unfold read_entry. cbn.
  destruct (decode raw); [|done]. case_match; [done|]. by apply setdefault_mono.
Qed.
(** A stored entry that counts is read, unless this cycle has its own. *)
Lemma read_all hash : forall acc k e, NoDup (dkeys hash) -> k ∉ dkeys acc.1 -> counts cutoff hash k e -> (k, e) ∈ (read acc hash).1.
Proof.
  induction hash as [|[k0 raw] hash IH]; intros acc k e Hd Hk (r & Hin & Hr & Hc); [set_solver|]. apply NoDup_cons in Hd as [Hk0 Hd]. cbn.
  apply elem_of_cons in Hin as [[= <- <-]|Hin].
  - apply read_mono. unfold read_entry. cbn. rewrite Hr. destruct (Z.ltb_spec (instant (qr_observed_at e)) cutoff); [lia|]. cbn. unfold setdefault_reap.
    destruct (din k acc.1) eqn:Hdin; [by apply din_keys in Hdin|set_solver].
  - apply IH; [done| |by exists r]. assert (k0 <> k) by (intros ->; apply Hk0; apply list_elem_of_fmap; by exists (k, r)).
    unfold read_entry. cbn. destruct (decode raw) as [e0|]; [|done]. case_match; [done|]. cbn. unfold setdefault_reap. case_match; [done|].
    unfold dkeys. rewrite fmap_app. set_solver.
Qed.
(** The fields dropped do not count. *)
Lemma read_expired hash : forall acc k, NoDup (dkeys hash) -> k ∈ (read acc hash).2 -> k ∈ acc.2 \/ k ∈ dkeys hash /\ forall e, ~ counts cutoff hash k e.
Proof.
  induction hash as [|[k0 raw] hash IH]; intros acc k Hd H; cbn in H; [by left|]. apply NoDup_cons in Hd as [Hk0 Hd].
  assert (Hnot : forall r, (k0, r) ∉ hash) by (intros r Hr; apply Hk0, list_elem_of_fmap; by exists (k0, r)).
  destruct (IH _ _ Hd H) as [H1|[H1 H2]].
  - unfold read_entry in H1. cbn in H1.
    assert (k ∈ acc.2 \/ k = k0 /\ forall e, decode raw = Ok e -> instant (qr_observed_at e) < cutoff) as [?|[-> Hx]]; [|by left|].
    { destruct (decode raw) as [e0|] eqn:He; [destruct (Z.ltb_spec (instant (qr_observed_at e0)) cutoff)|]; cbn in H1; [|by left|];
        apply elem_of_app in H1 as [?|Hk%list_elem_of_singleton]; try (by left); right; split; [done| |done|]; by intros ? [= <-]. }
    right. split; [apply elem_of_cons; by left|]. intros e (r & [[= ->]|Hr]%elem_of_cons & Hr' & Hc); [specialize (Hx e Hr'); lia|by destruct (Hnot r)].
  - right. split; [apply elem_of_cons; by right|]. intros e (r & [[= -> ->]|Hr]%elem_of_cons & Hr'); [done|]. apply (H2 e). by exists r.
Qed.
End Reading.

(** ** The ones ahead *)
Section Ahead.
Context (pid : string) (t : datetime).
Definition unsent : string * QueuedReap := (pid, mkReap t None).
Definition ahead (kv : string * stored) : bool := match decode kv.2 with Ok e => sends_before (kv.1, e) unsent | Raise _ => false end.
Definition queue_ahead (hash : list (string * stored)) : nat := length (List.filter ahead hash).

Lemma ahead_ddel k hash : (queue_ahead (ddel k hash) <= queue_ahead hash)%nat.
Proof.
  unfold queue_ahead, ddel. induction hash as [|kv hash IH]; cbn; [done|]. destruct (bool_decide (kv.1 = k)), (ahead kv) eqn:Ha; cbn; rewrite ?Ha; cbn; lia.
Qed.
Lemma ahead_dset_new k v hash : ahead (k, v) = false -> (queue_ahead (dset k v hash) <= queue_ahead hash)%nat.
Proof.
  unfold queue_ahead. intros Hv. induction hash as [|[k' v'] hash IH]; cbn; [by rewrite Hv|].
  case_decide as Hk; [subst; cbn; rewrite Hv; destruct (ahead (k, v')); cbn; lia|]. cbn. destruct (ahead (k', v')); cbn; lia.
Qed.
(** A stored entry ahead that is sent is ahead no longer. *)
Lemma ahead_dset_sent k v v' hash : dget k hash = Some v -> ahead (k, v) = true -> ahead (k, v') = false ->
  S (queue_ahead (dset k v' hash)) = queue_ahead hash.
Proof.
  unfold queue_ahead. intros Hg Hv Hv'. induction hash as [|[k0 v0] hash IH]; cbn in *; [done|].
  destruct (decide (k0 = k)) as [-> |]; [injection Hg as ->; cbn; by rewrite Hv, Hv'|]. cbn. specialize (IH Hg). destruct (ahead (k0, v0)); cbn; lia.
Qed.
Definition sent_all (l : list (string * QueuedReap)) (hash : list (string * stored)) : list (string * stored) :=
  foldl (fun d pe => dset pe.1 (encode pe.2) d) hash l.
Lemma sent_all_other l : forall hash k, k ∉ dkeys l -> dget k (sent_all l hash) = dget k hash.
Proof.
  unfold sent_all. induction l as [|[k0 e] l IH]; intros hash k Hk; cbn; [done|]. apply not_elem_of_cons in Hk as [Hk Hl].
  rewrite IH by done. by apply dget_dset_ne.
Qed.
Lemma sent_all_keys l : forall hash, NoDup (dkeys hash) -> NoDup (dkeys (sent_all l hash)).
Proof. unfold sent_all. induction l as [|[k0 e] l IH]; intros hash H; cbn; [done|]. by apply IH, NoDup_dset. Qed.
Lemma sent_all_ahead l : forall hash, NoDup (dkeys l) ->
  (forall k e, (k, e) ∈ l -> ahead (k, encode e) = false /\ exists v, dget k hash = Some v /\ ahead (k, v) = true) ->
  (queue_ahead (sent_all l hash) + length l = queue_ahead hash)%nat.
Proof.
  unfold sent_all. induction l as [|[k0 e] l IH]; intros hash Hd Hl; cbn [foldl length]; [lia|]. apply NoDup_cons in Hd as [Hk Hd].
  destruct (Hl k0 e) as (Hn & v & Hv & Ha); [set_solver|]. rewrite <- (ahead_dset_sent k0 v (encode e) hash Hv Ha Hn). cbn [fst snd].
  rewrite <- (IH (dset k0 (encode e) hash) Hd); [lia|]. intros k e' Hin. destruct (Hl k e') as (? & v' & ? & ?); [set_solver|]. split; [done|].
  exists v'. split; [|done]. rewrite dget_dset_ne; [done|]. intros ->. apply Hk, list_elem_of_fmap. by exists (k, e').
Qed.

(** Either the entry is among the first [n] to send, or all of them go before it. *)
Lemma sent_or_behind n queued : NoDup queued -> unsent ∈ queued -> let sending := take n (psort sends_before queued) in
  unsent ∈ sending \/ length sending = n /\ forall a, a ∈ sending -> a <> unsent /\ sends_before a unsent = true.
Proof.
  intros Hd Hin. cbn. pose proof (psort_sorted sends_before sends_before_total sends_before_trans queued) as Hs.
  rewrite <- (elem_of_psort sends_before) in Hin. rewrite <- (psort_perm sends_before) in Hd. set (l := psort sends_before queued) in *. clearbody l.
  rewrite <- (take_drop n l) in Hin, Hs, Hd. apply elem_of_app in Hin as [Hin|Hin]; [by left|]. right. split.
  - apply length_take_le. destruct (decide (n <= length l)%nat); [done|]. rewrite drop_ge in Hin by lia. set_solver.
  - intros a Ha. apply NoDup_app in Hd as (_ & Hd & _). split; [intros ->; by apply (Hd unsent)|]. by eapply (StronglySorted_app_1_elem_of (fun a b => sends_before a b = true)).
Qed.
End Ahead.

(** ** Cycles of the queue *)
Section Turns.
Context (out : Answers) (last : nat) (pid : string) (t : datetime).
Notation perform := (perform (handle out)).
Notation unsent := (unsent pid t).
Hypothesis up : forall n, fate_of out n = Done.
Hypothesis times : forall n, (n < last)%nat -> valid_time (clock_of out n) = true.
Hypothesis recent : forall n, (n < last)%nat -> instant (clock_of out n) - REAPED_POD_STATE_RETENTION_SECONDS * 1000000 < instant t.
Hypothesis when : valid_time t = true.

(** The entry is stored and was never sent; no reap of the cycle is its pod's or goes before it; at most [m] entries go no later. *)
Record waiting (m : nat) (w : Node) : Prop := mkWaiting {
  stored_unsent : dget pid (hashes w ReapedStates) = Some (encode unsent.2);
  fields_once : NoDup (dkeys (hashes w ReapedStates));
  cycle_once : NoDup (dkeys (this_cycle (vars w)));
  cycle_later : forall k e, (k, e) ∈ this_cycle (vars w) -> k <> pid /\ sends_before (k, e) unsent = false;
  few_ahead : (queue_ahead pid t (hashes w ReapedStates) <= m)%nat;
  clock_later : forall n, (step w <= n < last)%nat -> instant t < instant (clock_of out n)
}.

Ltac redis_done H := repeat (unfold write_hash in H; cbn in H; rewrite up in H; cbn in H).
Lemma handle_steps {X} (c : c_call X) w w' x : handle out X c w = (w', x) -> (step w <= step w')%nat.
Proof. destruct c; cbn; unfold write_hash; intros H; repeat case_match; simplify_eq; cbn; lia. Qed.
Lemma steps_grow {A} (p : prog c_call A) : forall w w' o, perform p w = (w', o) -> (step w <= step w')%nat.
Proof.
  induction p as [a|e|X c k IH]; intros w w' o H; cbn in H; [injection H as <- <-; lia..|].
  destruct (handle out X c w) as [w1 x] eqn:Hc. apply handle_steps in Hc. apply IH in H. lia.
Qed.
Lemma sent_behind k o s : ahead pid t (k, encode (mkReap o (Some s))) = false.
Proof.
  unfold ahead, encode, decode. cbn [snd qr_observed_at qr_sent_at]. change (dget_or JNull "observed_at" _) with (JStr (isoformat o)).
  change (dget_or JNull "sent_at" _) with (JStr (isoformat s)). replace (truthy (JStr (isoformat s))) with true by done.
  unfold time_of_json, mbind, res_bind. by destruct (fromisoformat (isoformat o)), (fromisoformat (isoformat s)).
Qed.
Lemma later_behind k now : instant t < instant now -> sends_before (k, mkReap now None) unsent = false.
Proof. intros H. unfold sends_before. cbn. lia. Qed.

Context (ctx : CheckContext).
Hypothesis redis_up : cc_has_redis ctx = true.
Lemma add_waits m name w w' o : perform (queue_add ctx name) w = (w', o) -> pod_id_of_container name <> Some pid -> (step w' <= last)%nat ->
  waiting m w -> waiting m w' /\ o = Ok tt.
Proof.
  intros H Hp Hl Hw. unfold queue_add in H. destruct (pod_id_of_container name) as [k|]; [|by injection H as <- <-].
  assert (k <> pid) as Hk by congruence. cbn in H. destruct (din k (this_cycle (vars w))) eqn:Hd; [by injection H as <- <-|].
  unfold with_redis in H. rewrite redis_up in H. cbn in H. redis_done H.
  injection H as <- <-. split; [|done]. cbn in Hl. destruct Hw as [H1 H2 H3 H4 H5 H6]. set (now := clock_of out (step w)) in *.
  assert (instant t < instant now) as Hnow by (apply H6; lia). split; cbn.
  - by rewrite dget_dset_ne.
  - by apply NoDup_dset.
  - by apply NoDup_dset.
  - intros k' e' [[-> ->]|Hin]%elem_of_dset; [split; [done|by apply later_behind]|by apply H4].
  - etransitivity; [apply ahead_dset_new|done]. unfold ahead. cbn [snd]. rewrite decode_encode; [by apply later_behind|].
    unfold valid_entry. cbn. subst now. by rewrite times by lia.
  - intros n Hn. apply H6. lia.
Qed.
Lemma drop_waits m name w w' o : perform (queue_drop ctx name) w = (w', o) -> pod_id_of_container name <> Some pid ->
  waiting m w -> waiting m w' /\ o = Ok tt.
Proof.
  intros H Hp [H1 H2 H3 H4 H5 H6]. unfold queue_drop in H. destruct (pod_id_of_container name) as [k|]; [|by injection H as <- <-].
  assert (k <> pid) as Hk by congruence. unfold with_redis in H. rewrite redis_up in H. cbn in H. redis_done H.
  injection H as <- <-. split; [|done]. split; cbn.
  - by rewrite dget_ddel_ne.
  - by apply map_filter_NoDup.
  - by apply map_filter_NoDup.
  - intros k' e' [Hin _]%elem_of_bfilter. by apply H4.
  - etransitivity; [apply ahead_ddel|done].
  - intros n Hn. apply H6. lia.
Qed.

Definition ddels (ks : list string) (d : list (string * stored)) : list (string * stored) := foldl (fun d k => ddel k d) d ks.
Lemma ddels_other ks : forall d k, k ∉ ks -> dget k (ddels ks d) = dget k d.
Proof.
  unfold ddels. induction ks as [|k0 ks IH]; intros d k Hk; cbn; [done|]. apply not_elem_of_cons in Hk as [? ?]. rewrite IH by done. by apply dget_ddel_ne.
Qed.
Lemma ddels_keys ks : forall d, NoDup (dkeys d) -> NoDup (dkeys (ddels ks d)).
Proof. unfold ddels. induction ks as [|k0 ks IH]; intros d H; cbn; [done|]. by apply IH, map_filter_NoDup. Qed.
Lemma ddels_ahead ks : forall d, (queue_ahead pid t (ddels ks d) <= queue_ahead pid t d)%nat.
Proof. unfold ddels. induction ks as [|k0 ks IH]; intros d; cbn; [done|]. etransitivity; [apply IH|apply ahead_ddel]. Qed.

(** What the queue is read as. *)
Record entries (w w1 : Node) (queued : list (string * QueuedReap)) : Prop := mkEntries {
  entry_read : unsent ∈ queued;
  entries_once : NoDup (dkeys queued);
  entries_stored : forall k e, (k, e) ∈ queued -> sends_before (k, e) unsent = true ->
    exists v, dget k (hashes w1 ReapedStates) = Some v /\ ahead pid t (k, v) = true;
  entry_kept : dget pid (hashes w1 ReapedStates) = Some (encode unsent.2);
  kept_once : NoDup (dkeys (hashes w1 ReapedStates));
  kept_ahead : (queue_ahead pid t (hashes w1 ReapedStates) <= queue_ahead pid t (hashes w ReapedStates))%nat;
  vars_kept : vars w1 = vars w
}.
Lemma entries_waiting m w w1 o : perform (queued_entries ctx) w = (w1, o) -> (step w1 <= last)%nat -> waiting m w ->
  exists queued, o = Ok queued /\ entries w w1 queued.
Proof.
  intros H Hl [H1 H2 H3 H4 H5 H6]. unfold queued_entries in H. rewrite redis_up in H. cbn in H. rewrite up in H. cbn in H.
  set (cutoff := (_ - _)%Z) in H. set (hash := hashes w ReapedStates) in *.
  pose proof (read_keys cutoff hash (this_cycle (vars w), []) H3) as Hkeys. pose proof (read_from cutoff hash (this_cycle (vars w), [])) as Hfrom.
  pose proof (read_all cutoff hash (this_cycle (vars w), [])) as Hall. pose proof (read_expired cutoff hash (this_cycle (vars w), [])) as Hexp.
  destruct (foldl (read_entry cutoff) (this_cycle (vars w), []) hash) as [queued expired]. cbn [fst snd] in *.
  assert (o = Ok queued /\ hashes w1 ReapedStates = ddels expired hash /\ vars w1 = vars w /\ (S (step w) < last)%nat) as (-> & Hw1 & Hv1 & Hs).
  { destruct expired as [|k ks]; [injection H as <- <-; cbn in Hl; split_and!; [done..|lia]|].
    rewrite perform_bind in H. unfold mbind, act_bind in H. cbn in H. redis_done H. injection H as <- <-. cbn in Hl |- *. split_and!; [done..|lia]. }
  assert (counts cutoff hash pid unsent.2) as Hx.
  { exists (encode unsent.2). split_and!; [by apply dget_In|apply decode_encode; unfold valid_entry; cbn [unsent snd qr_observed_at qr_sent_at]; by rewrite when|]. cbn. apply Z.lt_le_incl, recent. lia. }
  assert (forall k e, counts cutoff hash k e -> k ∉ expired) as Hkept by (intros k e Hc Hin; destruct (Hexp k H2 Hin) as [?|[_ Hn]]; [set_solver|by apply (Hn e)]).
  exists queued. split; [done|]. split; rewrite ?Hw1.
  - apply Hall; [done| |done]. intros ([k e] & Hk & Hin)%list_elem_of_fmap. cbn in Hk. subst k. by destruct (H4 pid e Hin).
  - done.
  - intros k e Hin Hb. destruct (Hfrom k e Hin) as [Hc|Hc]; [destruct (H4 k e Hc); congruence|]. destruct Hc as (raw & Hraw & Hdec & Hcut).
    exists raw. rewrite ddels_other by (apply (Hkept k e); by exists raw). split; [by apply elem_of_dget|]. unfold ahead. cbn [fst snd]. by rewrite Hdec.
  - rewrite ddels_other by (by apply (Hkept pid unsent.2)). done.
  - by apply ddels_keys.
  - apply ddels_ahead.
  - done.
Qed.
Lemma sends_stored l : forall w w' o, perform (for_each (fun pe => redis (HSet ReapedStates pe.1 (encode pe.2))) l) w = (w', o) ->
  o = Ok tt /\ hashes w' ReapedStates = sent_all l (hashes w ReapedStates) /\ vars w' = vars w.
Proof.
  induction l as [|pe l IH]; intros w w' o H; cbn [for_each] in H; [by injection H as <- <-|].
  rewrite perform_bind in H. unfold mbind at 1, act_bind in H. cbn in H. redis_done H. by apply IH in H.
Qed.

(** At least [n] of the queue go out, if it has that many. *)
Definition serves (n : nat) (limit : option Z) : Prop := match limit with None => True | Some k => (n <= Z.to_nat k)%nat end.
Lemma share_sent n limit queued : serves n limit -> NoDup queued -> unsent ∈ queued -> let sending := share limit (psort sends_before queued) in
  unsent ∈ sending \/ (n <= length sending)%nat /\ forall a, a ∈ sending -> a <> unsent /\ sends_before a unsent = true.
Proof.
  intros Hn Hd Hin. destruct limit as [k|]; cbn; [|left; by rewrite elem_of_psort].
  destruct (sent_or_behind pid t (Z.to_nat k) queued Hd Hin) as [?|[Hl ?]]; [by left|right]. split; [|done]. cbn in Hl, Hn. lia.
Qed.
Lemma share_sublist limit queued : share limit queued `sublist_of` queued.
Proof. destruct limit; cbn; [apply sublist_take|done]. Qed.
(** A report either carries the entry, or sends [n] of the entries ahead of it. *)
Lemma states_wait n m limit w w' o : serves n limit -> perform (queue_states ctx limit) w = (w', o) -> (step w' <= last)%nat -> waiting m w ->
  exists ss, o = Ok ss /\ (mkPodState pid REAPED t ∈ ss \/ (n <= m)%nat /\ waiting (m - n) w').
Proof.
  intros Hn H Hl Hw. unfold queue_states in H. rewrite perform_bind in H. unfold mbind at 1, act_bind in H.
  destruct (perform (queued_entries ctx) w) as [w1 o1] eqn:H1. assert (step w1 <= step w')%nat as Hstep.
  { destruct o1; [by eapply steps_grow|by injection H as <- <-]. }
  destruct (entries_waiting m w w1 o1 H1) as (queued & -> & [E1 E2 E3 E4 E5 E6 E7]); [lia|done|]. cbn zeta in H.
  set (sending := share limit (psort sends_before queued)) in *. cbn in H. set (now := clock_of out (step w1)) in H.
  unfold with_redis in H. rewrite redis_up in H. unfold swallow in H. rewrite perform_bind in H. unfold mbind at 1, act_bind in H. rewrite perform_try in H.
  match type of H with context [perform (for_each ?f ?l) ?w0] => destruct (perform (for_each f l) w0) as [w2 o2] eqn:H2 end.
  apply sends_stored in H2 as (-> & Hh & Hv). injection H as <- <-. eexists. split; [done|]. cbn in Hh, Hv.
  pose proof (share_sent n limit queued Hn (NoDup_fmap_1 fst queued E2) E1) as Hshare. cbn zeta in Hshare. fold sending in Hshare. destruct Hshare as [Hin|[Hlen Hb]].
  - left. apply list_elem_of_fmap. exists (sent_at now unsent). split; [done|]. rewrite elem_of_psort. by apply list_elem_of_fmap_2.
  - right. assert (sending `sublist_of` psort sends_before queued) as Hsub by apply share_sublist.
    assert (NoDup (dkeys sending)) as Hnd.
    { eapply sublist_NoDup; [|apply fmap_sublist, Hsub]. unfold dkeys in *. by rewrite psort_perm. }
    assert (dkeys (map (sent_at now) sending) = dkeys sending) as Hk.
    { unfold dkeys. rewrite <- list_fmap_compose. by apply list_fmap_ext. }
    destruct Hw as [W1 W2 W3 W4 W5 W6].
    assert (queue_ahead pid t (hashes w2 ReapedStates) + length sending = queue_ahead pid t (hashes w1 ReapedStates))%nat as Hcount.
    { rewrite Hh, <- (length_map (sent_at now) sending). apply sent_all_ahead; [by rewrite Hk|].
      intros k e ([k' e'] & [= -> ->] & Hin)%list_elem_of_fmap. split; [apply sent_behind|]. apply (E3 k' e'); [|by apply (Hb (k', e'))].
      rewrite <- (elem_of_psort sends_before). by eapply elem_of_sublist. }
    split; [lia|]. split.
    + rewrite Hh, sent_all_other; [done|]. rewrite Hk. intros ([k e] & Hke & Hin)%list_elem_of_fmap. cbn in Hke. subst k.
      assert (Hq : (pid, e) ∈ queued) by (rewrite <- (elem_of_psort sends_before); by eapply elem_of_sublist).
      destruct (Hb _ Hin) as [Hne _]. apply Hne. apply (elem_of_dget _ _ _ E2) in Hq. apply (elem_of_dget _ _ _ E2) in E1. rewrite Hq in E1. by injection E1 as ->.
    + rewrite Hh. by apply sent_all_keys.
    + by rewrite Hv, E7.
    + by rewrite Hv, E7.
    + lia.
    + intros i Hi. apply W6. apply steps_grow in H1. cbn in *. lia.
Qed.
End Turns.

(** ** A cycle of the check, as the queue sees it *)

(** Redis answers; until step [last] the clock shows times, by which an entry of time [t] is less than a day old. *)
Record orderly (out : Answers) (last : nat) (t : datetime) : Prop := mkOrderly {
  redis_answers : forall n, fate_of out n = Done;
  clock_valid : forall n, (n < last)%nat -> valid_time (clock_of out n) = true;
  entry_recent : forall n, (n < last)%nat -> instant (clock_of out n) - REAPED_POD_STATE_RETENTION_SECONDS * 1000000 < instant t;
  entry_valid : valid_time t = true
}.

(** The containers a cycle removes, queued before they are, and the ones it found it could not remove. *)
Record Turn := mkTurn { tu_context : CheckContext; tu_reaped : list string; tu_unremovable : list string }.
Definition queue_turn (u : Turn) : prog c_call (list PodContainerState) :=
  _ ← update fresh_run;
  _ ← for_each (queue_add (tu_context u)) (tu_reaped u);
  _ ← for_each (queue_drop (tu_context u)) (tu_unremovable u);
  queue_states (tu_context u) (reaped_slots_in_spec (tu_context u)).

Section Delivery.
Context (out : Answers) (last : nat) (pid : string) (t : datetime).
Notation perform := (perform (handle out)).
Fixpoint queue_turns (us : list Turn) (w : Node) : Node * list (res (list PodContainerState)) :=
  match us with
  | [] => (w, [])
  | u :: us => let '(w1, o) := perform (queue_turn u) w in let '(w2, os) := queue_turns us w1 in (w2, o :: os)
  end.
(** The cycle does not touch the pod's own entry. *)
Definition leaves (u : Turn) : Prop :=
  cc_has_redis (tu_context u) = true /\ forall name, name ∈ tu_reaped u ++ tu_unremovable u -> pod_id_of_container name <> Some pid.

Hypothesis order : orderly out last t.
Lemma each_waits {A} (f : A -> prog c_call unit) m l :
  (forall x w w' o, x ∈ l -> perform (f x) w = (w', o) -> (step w' <= last)%nat -> waiting out last pid t m w -> waiting out last pid t m w' /\ o = Ok tt) ->
  forall w w' o, perform (for_each f l) w = (w', o) -> (step w' <= last)%nat -> waiting out last pid t m w -> waiting out last pid t m w' /\ o = Ok tt.
Proof.
  induction l as [|x l IH]; intros Hf w w' o H Hl Hw; cbn [for_each] in H; [by injection H as <- <-|].
  rewrite perform_bind in H. unfold mbind, act_bind in H. destruct (perform (f x) w) as [w1 o1] eqn:H1.
  assert (step w1 <= step w')%nat as Hs by (destruct o1; [by eapply steps_grow|by injection H as <- <-]).
  destruct (Hf x w w1 o1) as [Hw1 ->]; [set_solver|done|lia|done|]. apply (IH ltac:(intros; eapply Hf; eauto; set_solver) _ _ _ H Hl Hw1).
Qed.
Lemma slots_serve ctx : serves (Z.to_nat REAPED_POD_STATES_FLOOR) (reaped_slots_in_spec ctx).
Proof. unfold reaped_slots_in_spec. case_match; [done|]. unfold serves. rewrite pymaxZ_max. lia. Qed.
Lemma adds_wait ctx m l w w' o : cc_has_redis ctx = true -> (forall x, x ∈ l -> pod_id_of_container x <> Some pid) ->
  perform (for_each (queue_add ctx) l) w = (w', o) -> (step w' <= last)%nat -> waiting out last pid t m w -> waiting out last pid t m w' /\ o = Ok tt.
Proof. intros Hr Hx. apply each_waits. intros x w0 w1 o1 Hin H. apply (add_waits out last pid t (redis_answers _ _ _ order) (clock_valid _ _ _ order) ctx Hr m x w0 w1 o1 H). auto. Qed.
Lemma drops_wait ctx m l w w' o : cc_has_redis ctx = true -> (forall x, x ∈ l -> pod_id_of_container x <> Some pid) ->
  perform (for_each (queue_drop ctx) l) w = (w', o) -> (step w' <= last)%nat -> waiting out last pid t m w -> waiting out last pid t m w' /\ o = Ok tt.
Proof.
  intros Hr Hx. apply each_waits. intros x w0 w1 o1 Hin H _. apply (drop_waits out last pid t (redis_answers _ _ _ order) ctx Hr m x w0 w1 o1 H). auto.
Qed.
(** A new run of the check forgets the reaps of the last. *)
Definition restarted (w : Node) : Node := mkNode (happened w) (fresh_run (vars w)) (hashes w) (step w).
Lemma waiting_restarted m w : waiting out last pid t m w -> waiting out last pid t m (restarted w).
Proof. intros [W1 W2 W3 W4 W5 W6]. split; cbn; [done|done|constructor|set_solver|done|done]. Qed.
Lemma turn_waits u m w w' o : leaves u -> perform (queue_turn u) w = (w', o) -> (step w' <= last)%nat -> waiting out last pid t m (restarted w) ->
  exists ss, o = Ok ss /\
    (mkPodState pid REAPED t ∈ ss \/ (Z.to_nat REAPED_POD_STATES_FLOOR <= m)%nat /\ waiting out last pid t (m - Z.to_nat REAPED_POD_STATES_FLOOR) w').
Proof.
  intros [Hr Hu] H Hl Hw. unfold queue_turn in H. rewrite (perform_bind_ok _ _ _ _ (restarted w) tt) in H by done.
  rewrite perform_bind in H. unfold mbind at 1, act_bind in H. destruct (perform (for_each _ (tu_reaped u)) _) as [w1 o1] eqn:H1.
  assert (step w1 <= step w')%nat by (destruct o1; [by eapply steps_grow|by injection H as <- <-]).
  destruct (adds_wait _ m _ _ _ _ Hr ltac:(intros x Hx; apply Hu, elem_of_app; by left) H1) as [Hw1 ->]; [lia|done|].
  rewrite perform_bind in H. unfold mbind at 1, act_bind in H. destruct (perform (for_each _ (tu_unremovable u)) _) as [w2 o2] eqn:H2.
  assert (step w2 <= step w')%nat by (destruct o2; [by eapply steps_grow|by injection H as <- <-]).
  destruct (drops_wait _ m _ _ _ _ Hr ltac:(intros x Hx; apply Hu, elem_of_app; by right) H2) as [Hw2 ->]; [lia|done|].
  destruct order. eapply states_wait; [done..|apply slots_serve|done|done|done].
Qed.
Lemma ahead_itself hash : valid_time t = true -> dget pid hash = Some (encode (mkReap t None)) -> (0 < queue_ahead pid t hash)%nat.
Proof.
  intros Hv Hg. unfold queue_ahead. apply dget_In in Hg. assert ((pid, encode (mkReap t None)) ∈ List.filter (ahead pid t) hash) as Hin.
  { apply elem_of_bfilter. split; [done|]. unfold ahead. cbn [fst snd]. rewrite decode_encode by (unfold valid_entry; cbn; by rewrite Hv).
    unfold sends_before. cbn. lia. }
  destruct (List.filter (ahead pid t) hash); cbn; [set_solver|lia].
Qed.
Lemma turns_steps us : forall w w' os, queue_turns us w = (w', os) -> (step w <= step w')%nat.
Proof.
  induction us as [|u us IH]; intros w w' os H; cbn [queue_turns] in H; [by injection H as <- <-|]. destruct (perform (queue_turn u) w) as [w1 o] eqn:H1.
  destruct (queue_turns us w1) as [w2 os'] eqn:H2. injection H as <- <-. apply steps_grow in H1. apply IH in H2. lia.
Qed.
Lemma turns_report us : forall m w w' os, Forall leaves us -> queue_turns us w = (w', os) -> (step w' <= last)%nat ->
  waiting out last pid t m (restarted w) -> (m <= Z.to_nat REAPED_POD_STATES_FLOOR * length us)%nat ->
  exists i ss, os !! i = Some (Ok ss) /\ mkPodState pid REAPED t ∈ ss.
Proof.
  induction us as [|u us IH]; intros m w w' os Hu H Hl Hw Hm; cbn [queue_turns] in H.
  - destruct Hw as [W1 _ _ _ W5 _]. pose proof (ahead_itself _ (entry_valid _ _ _ order) W1). cbn in *. lia.
  - apply Forall_cons in Hu as [Hu Hus]. destruct (perform (queue_turn u) w) as [w1 o] eqn:H1. destruct (queue_turns us w1) as [w2 os'] eqn:H2.
    injection H as <- <-. pose proof (turns_steps _ _ _ _ H2). destruct (turn_waits u m w w1 o Hu H1) as (ss & -> & [Hin|[Hle Hw1]]); [lia|done| |].
    + by exists O, ss.
    + destruct (IH _ _ _ _ Hus H2 Hl (waiting_restarted _ _ Hw1)) as (i & ss' & ? & ?); [|by exists (S i), ss'].
      cbn [length] in Hm. lia.
Qed.

End Delivery.
