(* ===== verification/GpuUsage.v ===== *)
(** * Who uses the GPUs of a node

    [services/task/checks/gpu_usage.py] with [rental_owner.py] and the ghost detection of [services/gpu_wedge.py]:
    the check that fails a node whose GPUs work for someone else.  What the node reported is any
    JSON; the backend, Redis, the node and the clock answer what they like.  Coroutines that are
    gathered make their calls one after the other. *)

From Stdlib Require Import Ascii String.
From stdpp Require Import strings.
From S2P Require Import Prelude Float64 PyValue HostText IncentiveConfig RentedData Effects IsoTime ContainerCleanup StaleContainers.
Import Text.

Local Open Scope string_scope.
Local Open Scope list_scope.
Local Open Scope Z_scope.

Definition GPU_UTILIZATION_LIMIT : Z := 5.
Definition GPU_MEMORY_UTILIZATION_LIMIT : Z := 5.
Definition GPU_HELD_VRAM_MB_LIMIT : Z := 2048.
Definition GPU_WEDGE_UTILIZATION_MIN : Z := 95.
Definition GPU_WEDGE_MEMORY_MAX : Z := 1.
Definition GPU_WEDGE_SWEEP_MEMORY_MAX_MIB : Z := 16.
(** Minutes, in microseconds. *)
Definition minutes (n : Z) : Z := n * 60 * 1000000.
Definition BROKEN_POD_CONTAINER_GRACE : Z := minutes 30.
Definition RENTAL_TEARDOWN_GRACE : Z := minutes 15.
Definition RENTAL_CLOSE_CLOCK_SKEW : Z := minutes 5.
Definition BROKEN_POD_STATUS : string := "BROKEN".

(** ** Data *)

Record ForeignGpuProcess := mkForeign { fp_pid : json; fp_container_name : json; fp_cgroup : json }.
Record HeldVram := mkHeld { hv_gpu_uuid : json; hv_memory_used_mb : json }.
Inductive PodRentalState := ENDED_DURING_RUN | ENDED_RECENTLY | LIVE | LIVE_ON_ANOTHER_NODE | ORPHAN.
(** Without the status text for the provider. *)
Record PodContainerRental := mkPodContainerRental {
  pc_container_name : string; pc_pod_id : option string; pc_state : PodRentalState; pc_rental_closed_at : option Z; pc_rental_executor_id : option string
}.
(** The advice a provider gets about an orphaned container. *)
Inductive orphan_advice := OfALiveRental | NotLiums | RemoveIt.
Inductive violation := OverLimit (gpu_utilization memory_utilization : json) | OffImage (fillers : list string).
Inductive usage_event :=
| GPU_RESET_IN_PROGRESS
| GPU_WEDGED (cure_attempted : bool) (wedged : list json) (still_wedged : list string)
| GPU_WEDGE_CURED (wedged : list json)
| FOREIGN_PROCESS (foreign : list ForeignGpuProcess) (lium_named : list ForeignGpuProcess)
| VRAM_HELD (held : list HeldVram)
| USAGE_OK (pods : list PodContainerRental)
| USAGE_HIGH (v : violation) (outside : option (list json))
| ORPHANED_CONTAINER (v : violation) (rentals : list PodContainerRental) (orphan : PodContainerRental) (advice : orphan_advice).
Record UsageResult := mkUsage { ur_passed : bool; ur_event : usage_event }.
Record UsageContext := mkUsageContext {
  uc_executor_uuid : string; uc_address : string; uc_port : string; uc_miner_hotkey : string; uc_rented : bool;
  uc_rented_data : option RentedExecutorsResponse; uc_specs : json; uc_gpu_details : list json; uc_gpu_processes : list json;
  uc_enforce : bool; uc_dry_run : bool
}.

Record RunResult := mkRun { rs_success : bool; rs_stdout : string }.
Inductive u_call : Type -> Type :=
| ResetMarks : u_call (res (list (list (string * json))))
| GpuQuery : u_call RunResult                 (** the runner never raises *)
| ComputeApps : u_call RunResult
| Cure (gpu_uuid : string) : u_call RunResult
| CpuSample : u_call RunResult                (** the load of the host and of its containers, once more *)
| CpuPresent : u_call (res HostResult)        (** [cat /sys/devices/system/cpu/present] *)
| AskPod (pod_id : string) : u_call (res (option PodRentalActive))
| AskFiller (run_id : string) : u_call (res (option FillerRunActive))
| GetDigests (filler : string) : u_call (res (option string))
| KeepDigests (filler : string) : u_call (res unit)
| Now : u_call datetime.
Notation P := (prog u_call).

(** ** Python *)

Fixpoint each {A B} (f : A -> res B) (l : list A) : res (list B) :=
  match l with [] => Ok [] | x :: l' => y ← f x; ys ← each f l'; Ok (y :: ys) end.
Fixpoint those {A} (f : A -> res bool) (l : list A) : res (list A) :=
  match l with [] => Ok [] | x :: l' => b ← f x; ys ← those f l'; Ok (if (b : bool) then x :: ys else ys) end.
Fixpoint some_is {A} (f : A -> res bool) (l : list A) : res bool :=
  match l with [] => Ok false | x :: l' => b ← f x; if (b : bool) then Ok true else some_is f l' end.
Fixpoint gathered {A B} (f : A -> P B) (l : list A) : P (list B) :=
  match l with [] => Ret [] | x :: l' => y ← f x; ys ← gathered f l'; Ret (y :: ys) end.
Definition or_default {A} (p : P A) (a : A) : P A := try_except p (fun _ => Some (Ret a)).
(** [v in s] for a set: a list or a dict has no hash. *)
Definition in_set (v : json) (s : list json) : res bool := if hashable v then Ok (existsb (json_eqb v) s) else Raise TypeError.
Definition in_names (v : json) (names : list string) : res bool :=
  if hashable v then Ok (match v with JStr s => in_list s names | _ => false end) else Raise TypeError.
(** Comparing with a number: only a number or a bool can be. *)
Definition jnumber (v : json) : res num :=
  match v with
  | JBool b => Ok (Fin (if b then 1 else 0)%Q)
  | JInt z => Ok (Fin (inject_Z z))
  | JFloat x => Ok x
  | _ => Raise TypeError
  end.
Definition at_least (limit : Z) (x : num) : bool := num_le (Fin (inject_Z limit)) x.
Definition at_most (limit : Z) (x : num) : bool := num_le x (Fin (inject_Z limit)).
Definition above (limit : Z) (x : num) : bool := match x with NaN => false | _ => negb (at_most limit x) end.
(** [d.get(k, v)], [v.startswith(..)] *)
Definition jget_or (k : string) (v : json) (d : json) : res json := match d with JObj l => Ok (dget_or v k l) | _ => Raise AttributeError end.
Definition starts (prefixes : list string) (v : json) : res bool :=
  match v with JStr s => Ok (existsb (fun p => startswith p s) prefixes) | _ => Raise AttributeError end.
(** A set of names, sorted. *)
Definition sorted_names (l : list string) : list string := psort String.leb (remove_dups l).
Definition canonical_uuid (s : string) : bool := uuid_then nothing_left (chars s).
(** [_uuid_after_prefix]: [str(UUID(s)) == s] for the canonical spelling only. *)
Definition uuid_after_prefix (container_name prefix : string) : option string :=
  let suffix := removeprefix prefix container_name in if canonical_uuid suffix then Some suffix else None.

(** ** Ghost GPUs ([services/gpu_wedge.py]) *)

Section Readings.
Context `{R : Rounding}.
Definition matches_wedge_utilization (u : num) : bool := at_least GPU_WEDGE_UTILIZATION_MIN u.
Definition query_row (line : string) : option (string * string * string) :=
  match map strip (split "," line) with [a; b; c] => Some (a, b, c) | _ => None end.
(** [parse_wedged_gpu_uuids] *)
Definition wedged_row (line : string) : option string :=
  '(uuid, utilization, memory) ← query_row line;
  u ← float_of_str utilization; m ← float_of_str memory;
  if startswith "GPU-" uuid && matches_wedge_utilization (if num_truthy u then u else Fin 0) && at_most GPU_WEDGE_SWEEP_MEMORY_MAX_MIB m
  then Some uuid else None.
Definition parse_wedged_gpu_uuids (gpu_query_csv compute_apps_csv : string) : list string :=
  if negb (String.eqb (strip compute_apps_csv) "") then [] else omap wedged_row (splitlines (strip gpu_query_csv)).
Definition query_wedged_gpu_uuids : P (list string) :=
  gpu_query ← call GpuQuery; compute_apps ← call ComputeApps;
  Ret (parse_wedged_gpu_uuids (rs_stdout gpu_query) (rs_stdout compute_apps)).
(** [_parse_gpu_memory_used_mb] *)
Definition memory_row (acc : list (string * num)) (line : string) : list (string * num) :=
  match query_row line with
  | Some (uuid, _, memory) => match float_of_str memory with Some m => dset uuid m acc | None => acc end
  | None => acc
  end.
Definition parse_gpu_memory_used_mb (gpu_query_csv : string) : list (string * num) := foldl memory_row [] (splitlines (strip gpu_query_csv)).
End Readings.

(** [_is_wedge_candidate] *)
Definition is_wedge_candidate (detail : json) : res bool :=
  gpu_utilization ← jget "gpu_utilization" detail;
  memory_utilization ← jget_or "memory_utilization" (JInt 0) detail;
  uuid ← jget "uuid" detail;
  if negb (truthy uuid) then Ok false
  else
    u ← jnumber (py_or gpu_utilization (JInt 0));
    if negb (matches_wedge_utilization u) then Ok false
    else m ← jnumber (py_or memory_utilization (JInt 0)); Ok (at_most GPU_WEDGE_MEMORY_MAX m).

(** ** Whose node, whose container *)
Section Check.
Context `{R : Rounding} (ctx : UsageContext) (str_of : json -> string) (json_loads : string -> res json).

(** [rental_of_validated_miner], [rental_of_this_node] *)
Definition rental_of_validated_miner (rented_executor : option RentedExecutor) : option RentedExecutor :=
  match rented_executor with
  | None => None
  | Some e =>
      if String.eqb (re_miner_hotkey e) (uc_miner_hotkey ctx)
         || (String.eqb (re_executor_ip_address e) (uc_address ctx) && String.eqb (re_executor_ip_port e) (uc_port ctx))
      then Some e else None
  end.
Definition listed_executor : option RentedExecutor := d ← uc_rented_data ctx; dget (uc_executor_uuid ctx) (rd_executors d).
Definition rental_of_this_node : option RentedExecutor := rental_of_validated_miner listed_executor.
Definition not_empty (s : string) : bool := negb (String.eqb s "").
Definition filler_containers_here : list string :=
  match uc_rented_data ctx with Some d => get_filler_containers d (uc_executor_uuid ctx) | None => [] end.
(** [lium_workload_containers] *)
Definition lium_workload_containers : list string :=
  List.filter not_empty
    (filler_containers_here ++ match rental_of_this_node with Some e => map docker_container_name (re_pods e) | None => [] end).
(** [_containers_claimed_by_another_executor] *)
Definition containers_claimed_by_another_executor : list string :=
  match uc_rented_data ctx with
  | None => []
  | Some d =>
      let others := List.filter (fun u => negb (String.eqb u (uc_executor_uuid ctx)))
                      (dkeys (rd_all_filler_containers_by_executor d) ++ dkeys (rd_filler_containers_by_executor d)) in
      List.filter not_empty
        (flat_map (get_filler_containers d) others
         ++ flat_map (fun ke => map docker_container_name (re_pods ke.2))
              (List.filter (fun ke => negb (String.eqb ke.1 (uc_executor_uuid ctx))) (rd_executors d)))
  end.
(** [_the_answer_is_about_this_node] *)
Definition the_answer_is_about_this_node (owning_executor_id : option string) : bool :=
  match owning_executor_id with Some o => String.eqb o (uc_executor_uuid ctx) | None => true end
  && (bool_decide (listed_executor = None) || bool_decide (rental_of_this_node <> None)).
(** [_time_since_the_rental_closed], [_a_broken_pod_the_reaper_has_not_collected_yet] *)
Definition time_since_the_rental_closed (closed_at : Z) : P Z := now ← call Now; Ret (instant now - closed_at).
Definition a_broken_pod_the_reaper_has_not_collected_yet (r : PodRentalActive) : P bool :=
  if negb (bool_decide (pa_status r = Some BROKEN_POD_STATUS)) then Ret false
  else match pa_rental_closed_at r with
       | None => Ret false
       | Some closed => since ← time_since_the_rental_closed closed; Ret (since <? BROKEN_POD_CONTAINER_GRACE)
       end.
(** [the_backend_still_owns] *)
Definition the_backend_still_owns (container_name : string) : P bool :=
  let is_filler := startswith FILLER_CONTAINER_PREFIX container_name in
  match uuid_after_prefix container_name (if is_filler then FILLER_CONTAINER_PREFIX else POD_CONTAINER_PREFIX) with
  | None => Ret false
  | Some id =>
      if is_filler
      then r ← call (AskFiller id); r ← of_res r;
           Ret (match r with
                | None => true
                | Some f => the_answer_is_about_this_node (fa_executor_id f)
                            && (fa_active f || match fa_status f with Some s => in_list s LIVE_FILLER_RUN_STATUSES | None => false end)
                end)
      else r ← call (AskPod id); r ← of_res r;
           match r with
           | None => Ret true
           | Some p => if negb (the_answer_is_about_this_node (pa_executor_id p)) then Ret false
                       else if pa_active p then Ret true else a_broken_pod_the_reaper_has_not_collected_yet p
           end
  end.

(** ** Foreign workloads *)

(** [_runs_in_the_executors_own_cgroup]: [".." in cgroup] for a text, a list or a dict. *)
Definition runs_in_the_executors_own_cgroup (process : json) : res bool :=
  info ← jget "info" process;
  if negb (truthy info) then Ok false
  else match info with
       | JStr s => Ok (negb (HostText.within ".." s))
       | JList l => Ok (negb (existsb (json_eqb (JStr "..")) l))
       | JObj d => Ok (negb (din ".." d))
       | _ => Raise TypeError
       end.
(** [carries_a_rental_prefix], [_carries_a_lium_prefix] *)
Definition carries_a_rental_prefix (name : string) : bool := startswith POD_CONTAINER_PREFIX name || startswith FILLER_CONTAINER_PREFIX name.
Definition carries_a_lium_prefix (p : ForeignGpuProcess) : res bool :=
  match py_or (fp_container_name p) (JStr "") with JStr s => Ok (carries_a_rental_prefix s) | _ => Raise AttributeError end.
Definition foreign_process (process : json) : res ForeignGpuProcess :=
  pid ← jget "pid" process; name ← jget "container_name" process; info ← jget "info" process; Ok (mkForeign pid name info).
Definition is_foreign (workload : list string) (process : json) : res bool :=
  name ← jget "container_name" process; ours ← in_names name workload;
  if (ours : bool) then Ok false else own ← runs_in_the_executors_own_cgroup process; Ok (negb own).
(** [_drop_containers_the_backend_still_owns] *)
Definition name_text (p : ForeignGpuProcess) : string := match fp_container_name p with JStr s => s | _ => "" end.
Definition drop_containers_the_backend_still_owns (foreign : list ForeignGpuProcess) : P (list ForeignGpuProcess) :=
  let claimed_elsewhere := containers_claimed_by_another_executor in
  named ← of_res (those (fun p => b ← carries_a_lium_prefix p; Ok (b && negb (in_list (name_text p) claimed_elsewhere))) foreign);
  let lium_named_containers := sorted_names (map name_text named) in
  match lium_named_containers with
  | [] => Ret foreign
  | _ =>
      verdicts ← gathered (fun n => b ← the_backend_still_owns n; Ret (n, b)) lium_named_containers;
      let still_ours := map fst (List.filter snd (verdicts : list (string * bool))) in
      of_res (those (fun p => b ← in_names (fp_container_name p) still_ours; Ok (negb b)) foreign)
  end.

(** [_held_vram_without_owner], [_card_still_holds_vram_with_no_owner] *)
Definition held_vram_without_owner (gpu_details : list json) (workload : list string) : res (list HeldVram) :=
  match uc_gpu_processes ctx, workload with
  | [], [] =>
      held ← those (fun d => m ← jget "memory_used_mb" d; x ← jnumber (py_or m (JInt 0)); Ok (above GPU_HELD_VRAM_MB_LIMIT x)) gpu_details;
      each (fun d => u ← jget "uuid" d; m ← jget "memory_used_mb" d; Ok (mkHeld u (py_or m (JInt 0)))) held
  | _, _ => Ok []
  end.
Definition holds_now (live_memory_mb : list (string * num)) (h : HeldVram) : res bool :=
  let key := py_or (hv_gpu_uuid h) (JStr "") in
  if hashable key
  then Ok (match key with JStr s => above GPU_HELD_VRAM_MB_LIMIT (dget_or (Fin 0) s live_memory_mb) | _ => false end)
  else Raise TypeError.
Definition card_still_holds_vram_with_no_owner (held : list HeldVram) : P bool :=
  or_default
    (gpu_query ← call GpuQuery; compute_apps ← call ComputeApps;
     if negb (rs_success gpu_query) || negb (rs_success compute_apps) then Ret false
     else if not_empty (strip (rs_stdout compute_apps)) then Ret false
     else match parse_gpu_memory_used_mb (rs_stdout gpu_query) with
          | [] => Ret false
          | live_memory_mb => of_res (some_is (holds_now live_memory_mb) held)
          end)
    false.
(** [_judge_foreign_occupancy] *)
Definition judge_foreign_occupancy (gpu_details : list json) : P (option UsageResult) :=
  match uc_rented_data ctx with
  | None => Ret None
  | Some _ =>
      let workload := lium_workload_containers in
      raw ← of_res (those (is_foreign workload) (uc_gpu_processes ctx));
      foreign ← of_res (each foreign_process raw);
      foreign ← drop_containers_the_backend_still_owns foreign;
      match foreign with
      | _ :: _ =>
          lium_named ← of_res (those carries_a_lium_prefix foreign);
          Ret (Some (mkUsage (negb (uc_enforce ctx)) (FOREIGN_PROCESS foreign lium_named)))
      | [] =>
          held ← of_res (held_vram_without_owner gpu_details workload);
          match held with
          | [] => Ret None
          | _ => still ← card_still_holds_vram_with_no_owner held;
                 Ret (if (still : bool) then Some (mkUsage (negb (uc_enforce ctx)) (VRAM_HELD held)) else None)
          end
      end
  end.

(** ** The load of the GPUs *)

(** [_find_violation] *)
Definition is_over (gpu_utilization memory_utilization : json) : res bool :=
  u ← jnumber gpu_utilization;
  if at_least GPU_UTILIZATION_LIMIT u then Ok true else m ← jnumber memory_utilization; Ok (above GPU_MEMORY_UTILIZATION_LIMIT m).
Fixpoint over_limit (gpu_details : list json) : res (option violation) :=
  match gpu_details with
  | [] => Ok None
  | detail :: rest =>
      gpu_utilization ← jget_or "gpu_utilization" (JInt GPU_UTILIZATION_LIMIT) detail;
      memory_utilization ← jget_or "memory_utilization" (JInt GPU_MEMORY_UTILIZATION_LIMIT) detail;
      high ← is_over gpu_utilization memory_utilization;
      if (high : bool) then Ok (Some (OverLimit gpu_utilization memory_utilization)) else over_limit rest
  end.
Definition find_violation (gpu_details : list json) : res (option violation) :=
  match uc_gpu_processes ctx with [] => Ok None | _ => over_limit gpu_details end.

(** [_fillers_off_their_image]: the digests the node reported, and the fillers whose recorded ones they are not. *)
Definition py_str (v : json) : string := match v with JStr s => s | _ => str_of v end.
Definition scraped_entry (acc : list (string * string)) (entry : json) : list (string * string) :=
  match entry with
  | JObj d => dset (py_str (py_or (dget_or JNull "name" d) (JStr ""))) (py_str (py_or (dget_or JNull "digest" d) (JStr ""))) acc
  | _ => acc
  end.
Definition scraped_digests : res (list (string * string)) :=
  docker ← jget "docker" (py_or (uc_specs ctx) (JObj []));
  containers ← jget "containers" (py_or docker (JObj []));
  entries ← jiter (py_or containers (JList []));
  Ok (foldl scraped_entry [] entries).
Definition recorded_digests (name : string) : P (option (list json)) :=
  or_default
    (recorded ← call (GetDigests name); recorded ← of_res recorded;
     match recorded with
     | None => Ret (Some [])
     | Some text =>
         if String.eqb text "" then Ret (Some [])
         else kept ← call (KeepDigests name); _ ← of_res kept;
              digests ← of_res (json_loads text);
              match digests with JList l => Ret (Some l) | _ => Exc ValueError end
     end)
    None.
Definition is_off_image (scraped : list (string * string)) (name : string) (digests : option (list json)) : bool :=
  match digests, dget name scraped with
  | Some ((_ :: _) as l), Some digest => negb (existsb (json_eqb (JStr digest)) l)
  | _, _ => false
  end.
Definition fillers_off_their_image (names : list string) : P (list string) :=
  scraped ← of_res scraped_digests;
  judged ← gathered (fun n => d ← recorded_digests n; Ret (n, is_off_image scraped n d)) (sorted_names names);
  Ret (map fst (List.filter snd (judged : list (string * bool)))).

(** [_pod_container_rental] *)
Definition closed_rental_state (pod_id : string) (p : PodRentalActive) (closed_at since_closed : Z) (container_name : string) : PodContainerRental :=
  let rented_at_run_start := match rental_of_this_node with Some e => existsb (fun q => String.eqb (rp_pod_id q) pod_id) (re_pods e) | None => false end in
  let with_state st owner := mkPodContainerRental container_name (Some pod_id) st (Some closed_at) owner in
  if since_closed <? - RENTAL_CLOSE_CLOCK_SKEW then with_state ORPHAN (pa_executor_id p)
  else if RENTAL_TEARDOWN_GRACE <=? since_closed then with_state ORPHAN (pa_executor_id p)
  else if rented_at_run_start then with_state ENDED_DURING_RUN None
  else match pa_executor_id p with None => with_state ORPHAN None | Some _ => with_state ENDED_RECENTLY None end.
Definition pod_container_rental (container_name : string) : P PodContainerRental :=
  match uuid_after_prefix (removesuffix EDIT_PARKED_SUFFIX container_name) POD_CONTAINER_PREFIX with
  | None => Ret (mkPodContainerRental container_name None ORPHAN None None)
  | Some pod_id =>
      r ← call (AskPod pod_id); r ← of_res r;
      let with_state st := mkPodContainerRental container_name (Some pod_id) st None None in
      match r with
      | None => Ret (with_state ORPHAN)
      | Some p =>
          if negb (the_answer_is_about_this_node (pa_executor_id p)) then Ret (with_state (if pa_active p then LIVE_ON_ANOTHER_NODE else ORPHAN))
          else if pa_active p then Ret (with_state LIVE)
          else match pa_rental_closed_at p with
               | None => Ret (with_state ORPHAN)
               | Some closed_at => since ← time_since_the_rental_closed closed_at; Ret (closed_rental_state pod_id p closed_at since container_name)
               end
      end
  end.
Definition is_orphan_state (r : PodContainerRental) : bool := match pc_state r with ORPHAN | LIVE_ON_ANOTHER_NODE => true | _ => false end.
(** The remediation of [_orphaned_container_failure] *)
Definition advice_for (orphan : PodContainerRental) : orphan_advice :=
  match pc_state orphan, pc_pod_id orphan, pc_rental_closed_at orphan, pc_rental_executor_id orphan with
  | LIVE_ON_ANOTHER_NODE, _, _, _ => OfALiveRental
  | _, Some _, Some _, Some owner => if String.eqb owner (uc_executor_uuid ctx) then RemoveIt else NotLiums
  | _, _, _, _ => NotLiums
  end.
(** [_judge_pod_containers_outside_a_rental] *)
Definition outside_of (expected : list string) (process : json) : res bool :=
  name ← jget "container_name" process; b ← in_names name expected; Ok (negb b).
Definition judge_pod_containers_outside_a_rental (v : violation) (pod_containers filler_containers : list string) : P UsageResult :=
  rentals ← gathered pod_container_rental pod_containers;
  match List.filter is_orphan_state rentals with
  | orphan :: _ => Ret (mkUsage false (ORPHANED_CONTAINER v rentals orphan (advice_for orphan)))
  | [] =>
      outside ← of_res (those (outside_of (map pc_container_name rentals ++ filler_containers)) (uc_gpu_processes ctx));
      Ret (match outside with
           | [] => mkUsage true (USAGE_OK rentals)
           | _ => mkUsage false (USAGE_HIGH v (Some outside))
           end)
  end.

(** [_judge_process_based_usage] *)
Definition process_name (process : json) : res json :=
  name ← jget "container_name" process; if hashable name then Ok name else Raise TypeError.
Definition pod_container_of (process : json) : res (option string) :=
  name ← jget "container_name" process;
  if negb (truthy name) then Ok None
  else match name with JStr s => Ok (if startswith POD_CONTAINER_PREFIX s then Some s else None) | _ => Raise AttributeError end.
Definition judge_process_based_usage (gpu_details : list json) : P UsageResult :=
  let filler_containers := filler_containers_here in
  process_names ← of_res (each process_name (uc_gpu_processes ctx));
  let is_filler v := match v with JStr s => in_list s filler_containers | _ => false end in
  let fillers_only := match filler_containers with [] => false | _ => forallb is_filler process_names end in
  off_image ← fillers_off_their_image (List.filter (fun n => existsb (json_eqb (JStr n)) process_names) filler_containers);
  found ← of_res (find_violation gpu_details);
  let found := match found, off_image with None, _ :: _ => Some (OffImage off_image) | _, _ => found end in
  match found with
  | None =>
      foreign ← judge_foreign_occupancy gpu_details;
      Ret (default (mkUsage true (USAGE_OK [])) foreign)
  | Some v =>
      if fillers_only && match off_image with [] => true | _ => false end then Ret (mkUsage true (USAGE_OK []))
      else
        pods ← of_res (each pod_container_of (uc_gpu_processes ctx));
        let pod_containers := sorted_names (omap id pods) in
        match pod_containers with
        | _ :: _ => if negb (uc_rented ctx) then judge_pod_containers_outside_a_rental v pod_containers filler_containers
                    else Ret (mkUsage false (USAGE_HIGH v None))
        | [] => Ret (mkUsage false (USAGE_HIGH v None))
        end
  end.

(** [_detect_and_cure_ghost_gpus]; quoting a uuid that is no text raises. *)
Definition cure_one (uuid : json) : P unit := match uuid with JStr s => _ ← call (Cure s); Ret tt | _ => Exc TypeError end.
Definition is_in_both (wedged : list json) (uuid : string) : bool := existsb (json_eqb (JStr uuid)) wedged.
Definition detect_and_cure_ghost_gpus (gpu_details : list json) : P (option UsageResult) :=
  or_default
    (match uc_gpu_processes ctx with
     | _ :: _ => Ret None
     | [] =>
         candidates ← of_res (those is_wedge_candidate gpu_details);
         wedged ← of_res (each (jget "uuid") candidates);
         match wedged with
         | [] => Ret None
         | _ =>
             if uc_dry_run ctx then Ret (Some (mkUsage false (GPU_WEDGED false wedged [])))
             else
               _ ← gathered cure_one wedged;
               seen ← query_wedged_gpu_uuids;
               let still_wedged := sorted_names (List.filter (is_in_both wedged) seen) in
               Ret (Some (match still_wedged with
                          | [] => mkUsage true (GPU_WEDGE_CURED wedged)
                          | _ => mkUsage false (GPU_WEDGED true wedged still_wedged)
                          end))
         end
     end)
    None.

(** ** A run of the check *)

(** [renter_gpu_resets] ([services/gpu_reset.py]) and the GPUs the marks leave to judge. *)
Definition renter_gpu_resets : P (list (list (string * json))) := or_default (marks ← call ResetMarks; of_res marks) [].
Definition marked_uuids (mark : list (string * json)) : res (list json) :=
  uuids ← jiter (dget_or JNull "gpu_uuids" mark); each (fun u => if hashable u then Ok u else Raise TypeError) uuids.
Definition details_to_judge (resets : list (list (string * json))) : res (list json) :=
  if forallb (fun mark => truthy (dget_or JNull "gpu_uuids" mark)) resets
  then
    resetting ← each marked_uuids resets;
    those (fun d => u ← jget "uuid" d; b ← in_set u (concat resetting); Ok (negb b)) (uc_gpu_details ctx)
  else Ok [].
(** [GpuUsageCheck.run] *)
Definition gpu_usage_check : P UsageResult :=
  resets ← renter_gpu_resets;
  gpu_details ← (match resets with [] => Ret (uc_gpu_details ctx) | _ => of_res (details_to_judge resets) end);
  match resets, gpu_details with
  | _ :: _, [] => Ret (mkUsage true GPU_RESET_IN_PROGRESS)
  | _, _ =>
      ghost ← detect_and_cure_ghost_gpus gpu_details;
      match ghost with Some r => Ret r | None => judge_process_based_usage gpu_details end
  end.
End Check.
