(* ===== verification/GpuUsageSafety.v ===== *)
(** * What a verdict about the GPUs' users rests on

    A passing run accounts for every process the node reported; a failing one has its evidence, read in
    the same run. *)

From Stdlib Require Import Ascii String.
From stdpp Require Import strings.
From S2P Require Import Prelude Float64 PyValue HostText IncentiveConfig RentedData Effects IsoTime ContainerCleanup StaleContainers GpuUsage.
Import Text.

Local Open Scope list_scope.
Local Open Scope Z_scope.

(** ** The world of a run *)

Inductive u_event :=
| SaidPod (id : string) (r : res (option PodRentalActive))
| SaidFiller (id : string) (r : res (option FillerRunActive))
| SaidDigests (filler : string) (r : res (option string))
| SaidGpus (r : RunResult)
| SaidApps (r : RunResult)
| SaidNow (t : datetime)
| SaidSample (r : RunResult)
| SaidPresent (r : res HostResult)
| Did.
Record Replies := mkReplies {
  marks_of : nat -> res (list (list (string * json)));
  gpus_of : nat -> RunResult;
  apps_of : nat -> RunResult;
  cure_of : nat -> string -> RunResult;
  sample_of : nat -> RunResult;
  present_of : nat -> res HostResult;
  u_pod_of : nat -> string -> res (option PodRentalActive);
  u_filler_of : nat -> string -> res (option FillerRunActive);
  digests_of : nat -> string -> res (option string);
  kept_of : nat -> res unit;
  now_of : nat -> datetime
}.
(** The world is what was said so far; the n-th reply is to the n-th question. *)
Definition u_handle (out : Replies) (X : Type) (c : u_call X) : list u_event -> list u_event * X :=
  match c in u_call X return list u_event -> list u_event * X with
  | ResetMarks => fun l => (l ++ [Did], marks_of out (length l))
  | GpuQuery => fun l => let r := gpus_of out (length l) in (l ++ [SaidGpus r], r)
  | ComputeApps => fun l => let r := apps_of out (length l) in (l ++ [SaidApps r], r)
  | Cure u => fun l => (l ++ [Did], cure_of out (length l) u)
  | CpuSample => fun l => let r := sample_of out (length l) in (l ++ [SaidSample r], r)
  | CpuPresent => fun l => let r := present_of out (length l) in (l ++ [SaidPresent r], r)
  | AskPod id => fun l => let r := u_pod_of out (length l) id in (l ++ [SaidPod id r], r)
  | AskFiller id => fun l => let r := u_filler_of out (length l) id in (l ++ [SaidFiller id r], r)
  | GetDigests n => fun l => let r := digests_of out (length l) n in (l ++ [SaidDigests n r], r)
  | KeepDigests n => fun l => (l ++ [Did], kept_of out (length l))
  | Now => fun l => let t := now_of out (length l) in (l ++ [SaidNow t], t)
  end.

Section Logic.
Context (out : Replies).
Notation perform := (perform (u_handle out)).
Definition lasts (F : list u_event -> Prop) : Prop := forall l l', F l -> F (l ++ l').
(** From a past that says [F], a run of [p] that returns [a] leads to one that says [Q a]. *)
Definition tells {A} (F : list u_event -> Prop) (p : prog u_call A) (Q : A -> list u_event -> Prop) : Prop :=
  forall l l' a, F l -> perform p l = (l', Ok a) -> Q a l'.

Lemma handle_extends {X} (c : u_call X) l l' x : u_handle out X c l = (l', x) -> exists k, l' = l ++ k.
Proof. destruct c; cbn; intros [= <- <-]; eauto. Qed.
Lemma perform_extends {A} (p : prog u_call A) : forall l l' o, perform p l = (l', o) -> exists k, l' = l ++ k.
Proof.
  induction p as [a|e|X c k IH]; intros l l' o H; cbn in H; [injection H as <- <-; exists []; by rewrite app_nil_r..|].
  destruct (u_handle out X c l) as [l1 x] eqn:Hc. apply handle_extends in Hc as [k1 ->]. apply IH in H as [k2 ->]. exists (k1 ++ k2). by rewrite app_assoc.
Qed.
Lemma tells_ret {A} (F : list u_event -> Prop) (a : A) (Q : A -> list u_event -> Prop) : (forall l, F l -> Q a l) -> tells F (Ret a) Q.
Proof. intros H l l' b Hf [= <- <-]. auto. Qed.
Lemma tells_exc {A} (F : list u_event -> Prop) e (Q : A -> list u_event -> Prop) : tells F (Exc e) Q.
Proof. by intros l l' a _ H. Qed.
Lemma tells_of_res {A} (F : list u_event -> Prop) (r : res A) (Q : A -> list u_event -> Prop) :
  (forall a l, r = Ok a -> F l -> Q a l) -> tells F (of_res r) Q.
Proof. destruct r; intros H; [apply tells_ret; auto|apply tells_exc]. Qed.
Lemma tells_then {A B} (F : list u_event -> Prop) (p : prog u_call A) (f : A -> prog u_call B) mid (Q : B -> list u_event -> Prop) :
  lasts F -> tells F p mid -> (forall a, tells (fun l => F l /\ mid a l) (f a) Q) -> tells F (p ≫= f) Q.
Proof.
  intros HF Hp Hf l l' b Hl H. rewrite perform_bind in H. unfold mbind, act_bind in H. destruct (perform p l) as [l1 [a|e]] eqn:H1; [|done].
  eapply Hf; [|exact H]. split; [|by eapply Hp]. destruct (perform_extends _ _ _ _ H1) as [k ->]. by apply HF.
Qed.
Lemma tells_weaken {A} (F F' : list u_event -> Prop) (p : prog u_call A) (Q Q' : A -> list u_event -> Prop) :
  tells F p Q -> (forall l, F' l -> F l) -> (forall a l, F' l -> Q a l -> Q' a l) -> lasts F' -> tells F' p Q'.
Proof.
  intros H H1 H2 HF l l' a Hl Hr. apply H2; [|by eapply H; [apply H1|]]. destruct (perform_extends _ _ _ _ Hr) as [k ->]. by apply HF.
Qed.
Lemma tells_default {A} (F : list u_event -> Prop) (p : prog u_call A) (a : A) (Q : A -> list u_event -> Prop) :
  lasts F -> tells F p Q -> (forall l, F l -> Q a l) -> tells F (or_default p a) Q.
Proof.
  intros HF Hp Ha l l' b Hl H. unfold or_default in H. rewrite perform_try in H. destruct (perform p l) as [l1 [c|e]] eqn:H1; injection H as <- <-.
  - by eapply Hp.
  - apply Ha. destruct (perform_extends _ _ _ _ H1) as [k ->]. by apply HF.
Qed.
Lemma tells_call {X} (F : list u_event -> Prop) (c : u_call X) : tells F (call c) (fun x l => exists k, u_handle out X c k = (l, x)).
Proof. intros l l' a Hl H. cbn in H. destruct (u_handle out X c l) as [l1 x] eqn:Hc. injection H as <- <-. eauto. Qed.
Lemma tells_fact {A} (fact : Prop) (F : list u_event -> Prop) (p : prog u_call A) (Q : A -> list u_event -> Prop) :
  (forall l, F l -> fact) -> (fact -> tells F p Q) -> tells F p Q.
Proof. intros H1 H2 l l' a Hl. apply (H2 (H1 l Hl)). done. Qed.

Lemma lasts_in e : lasts (fun l => e ∈ l).
Proof. intros l l'. set_solver. Qed.
Lemma lasts_and F G : lasts F -> lasts G -> lasts (fun l => F l /\ G l).
Proof. intros HF HG l l' [? ?]. split; [by apply HF|by apply HG]. Qed.
Lemma lasts_or F G : lasts F -> lasts G -> lasts (fun l => F l \/ G l).
Proof. intros HF HG l l' [?|?]; [left; by apply HF|right; by apply HG]. Qed.
Lemma lasts_ex {A} (F : A -> list u_event -> Prop) : (forall a, lasts (F a)) -> lasts (fun l => exists a, F a l).
Proof. intros HF l l' [a ?]. exists a. by apply HF. Qed.
Lemma lasts_all {A} (F : A -> list u_event -> Prop) : (forall a, lasts (F a)) -> lasts (fun l => forall a, F a l).
Proof. intros HF l l' H a. by apply HF. Qed.
Lemma lasts_imp (X : Prop) F : lasts F -> lasts (fun l => X -> F l).
Proof. intros HF l l' H HX. apply HF. by apply H. Qed.
Lemma lasts_const (X : Prop) : lasts (fun _ => X).
Proof. by intros l l' ?. Qed.
Lemma tells_pod F id : tells F (call (AskPod id)) (fun r l => SaidPod id r ∈ l).
Proof. intros l l' a _ H. cbn in H. injection H as <- <-. set_solver. Qed.
Lemma tells_filler F id : tells F (call (AskFiller id)) (fun r l => SaidFiller id r ∈ l).
Proof. intros l l' a _ H. cbn in H. injection H as <- <-. set_solver. Qed.
Lemma tells_now F : tells F (call Now) (fun t l => SaidNow t ∈ l).
Proof. intros l l' a _ H. cbn in H. injection H as <- <-. set_solver. Qed.
Lemma tells_gpus F : tells F (call GpuQuery) (fun r l => SaidGpus r ∈ l).
Proof. intros l l' a _ H. cbn in H. injection H as <- <-. set_solver. Qed.
Lemma tells_apps F : tells F (call ComputeApps) (fun r l => SaidApps r ∈ l).
Proof. intros l l' a _ H. cbn in H. injection H as <- <-. set_solver. Qed.
Lemma tells_any {A} (F : list u_event -> Prop) (p : prog u_call A) : tells F p (fun _ _ => True).
Proof. done. Qed.
Lemma tells_sample F : tells F (call CpuSample) (fun r l => SaidSample r ∈ l).
Proof. intros l l' a _ H. cbn in H. injection H as <- <-. set_solver. Qed.
Lemma tells_present F : tells F (call CpuPresent) (fun r l => SaidPresent r ∈ l).
Proof. intros l l' a _ H. cbn in H. injection H as <- <-. set_solver. Qed.
End Logic.
Create HintDb lasts.
#[export] Hint Resolve lasts_in lasts_and lasts_or lasts_const lasts_imp : lasts.
#[export] Hint Extern 2 (lasts (fun _ => exists _, _)) => apply lasts_ex; intros : lasts.
#[export] Hint Extern 2 (lasts (fun _ => forall _, _)) => apply lasts_all; intros : lasts.

(** ** Loops *)
Lemma those_spec {A} (f : A -> res bool) l : forall l', those f l = Ok l' -> forall x, x ∈ l -> f x = Ok true /\ x ∈ l' \/ f x = Ok false.
Proof.
  induction l as [|y l IH]; intros l' H x Hx; [set_solver|]. cbn in H. destruct (f y) as [b|] eqn:Hy; [|done]. cbn in H.
  destruct (those f l) as [ys|] eqn:Hl; [|done]. injection H as <-. apply elem_of_cons in Hx as [->|Hx].
  - destruct b; [left; split; [done|set_solver]|by right].
  - destruct (IH ys eq_refl x Hx) as [[? ?]|?]; [|by right]. left. split; [done|]. destruct b; set_solver.
Qed.
Lemma those_within {A} (f : A -> res bool) l : forall l', those f l = Ok l' -> forall x, x ∈ l' -> x ∈ l /\ f x = Ok true.
Proof.
  induction l as [|y l IH]; intros l' H x Hx; cbn in H; [injection H as <-; set_solver|]. destruct (f y) as [b|] eqn:Hy; [|done]. cbn in H.
  destruct (those f l) as [ys|] eqn:Hl; [|done]. injection H as <-. assert (x = y /\ b = true \/ x ∈ ys) as [[-> ->]|Hin] by (destruct b; set_solver).
  - split; [set_solver|done].
  - destruct (IH ys eq_refl x Hin). split; [set_solver|done].
Qed.
Lemma each_spec {A B} (f : A -> res B) l : forall l', each f l = Ok l' -> forall x, x ∈ l -> exists y, f x = Ok y /\ y ∈ l'.
Proof.
  induction l as [|z l IH]; intros l' H x Hx; [set_solver|]. cbn in H. destruct (f z) as [y|] eqn:Hz; [|done]. cbn in H.
  destruct (each f l) as [ys|] eqn:Hl; [|done]. injection H as <-. apply elem_of_cons in Hx as [->|Hx]; [exists y; split; [done|set_solver]|].
  destruct (IH ys eq_refl x Hx) as (y' & ? & ?). exists y'. split; [done|set_solver].
Qed.
Lemma each_within {A B} (f : A -> res B) l : forall l', each f l = Ok l' -> forall y, y ∈ l' -> exists x, x ∈ l /\ f x = Ok y.
Proof.
  induction l as [|z l IH]; intros l' H y Hy; cbn in H; [injection H as <-; set_solver|]. destruct (f z) as [y0|] eqn:Hz; [|done]. cbn in H.
  destruct (each f l) as [ys|] eqn:Hl; [|done]. injection H as <-. apply elem_of_cons in Hy as [->|Hy]; [exists z; split; [set_solver|done]|].
  destruct (IH ys eq_refl y Hy) as (x & ? & ?). exists x. split; [set_solver|done].
Qed.
Lemma gathered_tells {A B} out (F : list u_event -> Prop) (f : A -> prog u_call B) (Q : A -> B -> list u_event -> Prop) l :
  lasts F -> (forall x y, lasts (Q x y)) -> (forall x, x ∈ l -> tells out F (f x) (Q x)) ->
  tells out F (gathered f l) (fun ys log => (forall x, x ∈ l -> exists y, y ∈ ys /\ Q x y log) /\ (forall y, y ∈ ys -> exists x, x ∈ l /\ Q x y log)).
Proof.
  intros HF HQ. induction l as [|x l IH]; intros H; cbn [gathered]; [apply tells_ret; intros; split; intros ? ?%elem_of_nil; done|].
  eapply tells_then; [done|apply H; set_solver|]. intros y. eapply tells_then with (mid := fun ys log => (forall x, x ∈ l -> exists y, y ∈ ys /\ Q x y log) /\ (forall y, y ∈ ys -> exists x, x ∈ l /\ Q x y log)).
  - auto with lasts.
  - eapply tells_weaken; [apply IH; set_solver|by intros ? [? _]|done|auto with lasts].
  - intros ys. apply tells_ret. intros log [[_ Hy] [H1 H2]]. split.
    + intros z [->|Hz]%elem_of_cons; [exists y; split; [set_solver|done]|]. destruct (H1 z Hz) as (y' & ? & ?). exists y'. split; [set_solver|done].
    + intros z [->|Hz]%elem_of_cons; [exists x; split; [set_solver|done]|]. destruct (H2 z Hz) as (x' & ? & ?). exists x'. split; [set_solver|done].
Qed.

(** ** Who vouches for a container *)
Section Verdict.
Context (out : Replies) (ctx : UsageContext) `{R : Rounding} (str_of : json -> string) (json_loads : string -> res json).
Notation tells := (tells out).
Ltac ls := auto 20 with lasts.

(** The backend, asked about the id in the name, did not answer or said that the run of this node is on, or is a
    broken pod's closed half an hour ago at most. *)
Definition owned (name : string) (l : list u_event) : Prop :=
  (startswith FILLER_CONTAINER_PREFIX name = true /\ exists id r, (uuid_after_prefix name FILLER_CONTAINER_PREFIX = Some id /\
      forall f, r = Some f -> the_answer_is_about_this_node ctx (fa_executor_id f) = true /\
        (fa_active f = true \/ exists s, fa_status f = Some s /\ s ∈ LIVE_FILLER_RUN_STATUSES)) /\ SaidFiller id (Ok r) ∈ l) \/
   (startswith FILLER_CONTAINER_PREFIX name = false /\ exists id r, (uuid_after_prefix name POD_CONTAINER_PREFIX = Some id /\ SaidPod id (Ok r) ∈ l) /\
      forall p, r = Some p -> the_answer_is_about_this_node ctx (pa_executor_id p) = true /\
        (pa_active p = true \/ pa_status p = Some BROKEN_POD_STATUS /\
          exists closed now, (pa_rental_closed_at p = Some closed /\ instant now - closed < BROKEN_POD_CONTAINER_GRACE) /\ SaidNow now ∈ l)).
Definition vouched (name : string) (l : list u_event) : Prop :=
  carries_a_rental_prefix name = true /\ name ∉ containers_claimed_by_another_executor ctx /\ owned name l.
(** The backend's record places the pod on this node, and its rental is live or was closed less than a quarter of
    an hour ago, with proof that it ran here. *)
Definition torn_down (name : string) (l : list u_event) : Prop :=
  exists pod_id p, (uuid_after_prefix (removesuffix EDIT_PARKED_SUFFIX name) POD_CONTAINER_PREFIX = Some pod_id /\
    the_answer_is_about_this_node ctx (pa_executor_id p) = true /\ SaidPod pod_id (Ok (Some p)) ∈ l) /\
  (pa_active p = true \/
   exists closed now, (pa_rental_closed_at p = Some closed /\ - RENTAL_CLOSE_CLOCK_SKEW <= instant now - closed < RENTAL_TEARDOWN_GRACE /\
     ((exists e q, rental_of_this_node ctx = Some e /\ q ∈ re_pods e /\ rp_pod_id q = pod_id) \/ pa_executor_id p = Some (uc_executor_uuid ctx))) /\ SaidNow now ∈ l).
Definition accounted (process : json) (l : list u_event) : Prop :=
  runs_in_the_executors_own_cgroup process = Ok true \/
  exists name, container_of process = JStr name /\
    (name ∈ filler_containers_here ctx \/ name ∈ lium_workload_containers ctx \/ vouched name l \/ torn_down name l).
Lemma lasts_owned name : lasts (owned name).
Proof. unfold owned. ls. Qed.
Lemma lasts_vouched name : lasts (vouched name).
Proof. unfold vouched. pose proof lasts_owned. ls. Qed.
Lemma lasts_torn_down name : lasts (torn_down name).
Proof. unfold torn_down. ls. Qed.
Lemma lasts_accounted p : lasts (accounted p).
Proof. unfold accounted. pose proof lasts_vouched. pose proof lasts_torn_down. ls. Qed.
Hint Resolve lasts_owned lasts_vouched lasts_torn_down lasts_accounted : lasts.

Lemma owns_tells name : tells (fun _ => True) (the_backend_still_owns ctx name) (fun b l => b = true -> owned name l).
Proof.
  unfold the_backend_still_owns. destruct (startswith FILLER_CONTAINER_PREFIX name) eqn:Hf;
    [destruct (uuid_after_prefix name FILLER_CONTAINER_PREFIX) as [id|] eqn:Hid|destruct (uuid_after_prefix name POD_CONTAINER_PREFIX) as [id|] eqn:Hid];
    try (by apply tells_ret).
  - eapply tells_then; [ls|apply tells_filler|]. intros r. eapply tells_then with (mid := fun a _ => r = Ok a); [ls|by apply tells_of_res|]. intros a.
    apply tells_ret. intros l [[_ Hr] ->] Hb. left. split; [done|]. exists id, a. split_and!; [done| |done].
    intros f ->. apply andb_true_iff in Hb as [Hb1 Hb2]. split; [done|]. apply orb_true_iff in Hb2 as [?|Hs]; [by left|right].
    destruct (fa_status f) as [s|]; [|done]. exists s. split; [done|]. by apply bool_decide_eq_true in Hs.
  - eapply tells_then; [ls|apply tells_pod|]. intros r. eapply tells_then with (mid := fun a _ => r = Ok a); [ls|by apply tells_of_res|]. intros a.
    assert (forall l, SaidPod id (Ok a) ∈ l -> (forall p, a = Some p -> the_answer_is_about_this_node ctx (pa_executor_id p) = true /\
      (pa_active p = true \/ pa_status p = Some BROKEN_POD_STATUS /\
        exists closed now, (pa_rental_closed_at p = Some closed /\ instant now - closed < BROKEN_POD_CONTAINER_GRACE) /\ SaidNow now ∈ l)) -> owned name l) as Hv.
    { intros l Hl Hp. right. split; [done|]. exists id, a. by split. }
    destruct a as [p|]; [|apply tells_ret; intros l [[_ Hr] ->] _; by apply Hv].
    destruct (the_answer_is_about_this_node ctx (pa_executor_id p)) eqn:Ha; cbn [negb]; [|by apply tells_ret].
    destruct (pa_active p) eqn:Hact; [apply tells_ret; intros l [[_ Hr] ->] _; apply Hv; [done|]; intros ? [= <-]; by auto|].
    unfold a_broken_pod_the_reaper_has_not_collected_yet. case_bool_decide as Hst; cbn [negb]; [|by apply tells_ret].
    destruct (pa_rental_closed_at p) as [closed|] eqn:Hcl; [|by apply tells_ret].
    eapply tells_then with (mid := fun since l => exists now, since = instant now - closed /\ SaidNow now ∈ l); [ls| |].
    { unfold time_since_the_rental_closed. eapply tells_then; [ls|apply tells_now|]. intros now. apply tells_ret. intros l [_ ?]. eauto. }
    intros since. apply tells_ret. intros l [[[_ Hr] ->] (now & -> & Hnow)] Hb. apply Hv; [done|]. intros ? [= <-]. split; [done|]. right. split; [done|].
    exists closed, now. split_and!; [done|by apply Z.ltb_lt|done].
Qed.
Lemma rental_tells name :
  tells (fun _ => True) (pod_container_rental ctx name) (fun r l => pc_container_name r = name /\ (is_orphan_state r = false -> torn_down name l)).
Proof.
  unfold pod_container_rental. destruct (uuid_after_prefix _ _) as [pod_id|] eqn:Hid; [|by apply tells_ret].
  eapply tells_then; [ls|apply tells_pod|]. intros r. eapply tells_then with (mid := fun a _ => r = Ok a); [ls|by apply tells_of_res|]. intros [p|]; [|by apply tells_ret].
  cbn zeta. destruct (the_answer_is_about_this_node ctx (pa_executor_id p)) eqn:Ha; cbn [negb]; [|apply tells_ret; intros; split; [done|]; by destruct (pa_active p)].
  destruct (pa_active p) eqn:Hact; [apply tells_ret; intros l [[_ Hr] ->]; split; [done|]; intros _; exists pod_id, p; by auto|].
  destruct (pa_rental_closed_at p) as [closed|] eqn:Hcl; [|by apply tells_ret].
  eapply tells_then with (mid := fun since l => exists now, since = instant now - closed /\ SaidNow now ∈ l); [ls| |].
  { unfold time_since_the_rental_closed. eapply tells_then; [ls|apply tells_now|]. intros now. apply tells_ret. intros l [_ ?]. eauto. }
  intros since. apply tells_ret. intros l [[[_ Hr] ->] (now & -> & Hnow)]. unfold closed_rental_state. cbn zeta.
  destruct (Z.ltb_spec (instant now - closed) (- RENTAL_CLOSE_CLOCK_SKEW)); [done|]. destruct (Z.leb_spec RENTAL_TEARDOWN_GRACE (instant now - closed)); [done|].
  assert ((exists e q, rental_of_this_node ctx = Some e /\ q ∈ re_pods e /\ rp_pod_id q = pod_id) \/ pa_executor_id p = Some (uc_executor_uuid ctx) -> torn_down name l) as Ht.
  { intros Hown. exists pod_id, p. split; [done|]. right. by exists closed, now. }
  destruct (match rental_of_this_node ctx with Some _ => _ | None => _ end) eqn:Hs.
  - split; [done|]. intros _. apply Ht. left. destruct (rental_of_this_node ctx) as [e|]; [|done].
    apply existsb_exists in Hs as (q & Hq & He). exists e, q. split_and!; [done|by apply list_elem_of_In|by apply String.eqb_eq].
  - destruct (pa_executor_id p) as [o|] eqn:Ho; [|done]. split; [done|]. intros _. apply Ht. right.
    unfold the_answer_is_about_this_node in Ha. apply andb_true_iff in Ha as [Ha _]. apply String.eqb_eq in Ha. by subst.
Qed.

(** ** Accounting for the processes *)
Lemma elem_of_sorted_names x l : x ∈ sorted_names l <-> x ∈ l.
Proof. unfold sorted_names. by rewrite elem_of_psort, elem_of_remove_dups. Qed.
Lemma jget_container p v : jget "container_name" p = Ok v -> container_of p = v.
Proof. destruct p; try done. by intros [= <-]. Qed.
Lemma in_names_true v names : in_names v names = Ok true -> exists s, v = JStr s /\ s ∈ names.
Proof.
  unfold in_names. destruct (hashable v); [|done]. destruct v as [| | | |s| |]; try done. intros [= Hs]. exists s. split; [done|]. by apply bool_decide_eq_true in Hs.
Qed.
Lemma lium_prefix_true p : carries_a_lium_prefix p = Ok true -> fp_container_name p = JStr (name_text p) /\ carries_a_rental_prefix (name_text p) = true.
Proof.
  unfold carries_a_lium_prefix, py_or, name_text. destruct (fp_container_name p); cbn.
  all: repeat case_match; simplify_eq; try done; intros [= H]; try by vm_compute in H.
Qed.
Lemma drop_tells foreign : tells (fun _ => True) (drop_containers_the_backend_still_owns ctx foreign)
  (fun kept l => forall p, p ∈ foreign -> p ∈ kept \/ exists name, fp_container_name p = JStr name /\ vouched name l).
Proof.
  unfold drop_containers_the_backend_still_owns. cbn zeta.
  eapply tells_then with (mid := fun named _ => forall p, p ∈ named -> carries_a_lium_prefix p = Ok true /\ name_text p ∉ containers_claimed_by_another_executor ctx); [ls| |intros named].
  { apply tells_of_res. intros named l Hn _ p Hp. destruct (those_within _ _ _ Hn p Hp) as [_ Hb]. destruct (carries_a_lium_prefix p) as [b|]; [|done].
    cbn in Hb. injection Hb as [-> Hc]%andb_true_iff. split; [done|]. apply negb_true_iff in Hc. by apply bool_decide_eq_false in Hc. }
  eapply tells_fact; [intros l [_ H]; exact H|]. intros Hnamed. destruct (sorted_names (map name_text named)) as [|n0 ns] eqn:Hs; [apply tells_ret; by left|]. rewrite <- Hs.
  eapply tells_then with (mid := fun vs l => forall y, y ∈ vs -> y.2 = true -> vouched y.1 l); [ls| |intros verdicts].
  { eapply tells_weaken; [eapply (gathered_tells out (fun _ => True) _ (fun n y l => y.1 = n /\ (y.2 = true -> vouched n l)))| | |].
    - ls.
    - intros x y. ls.
    - intros n Hn. rewrite elem_of_sorted_names in Hn. apply list_elem_of_fmap in Hn as (p & -> & Hp). destruct (Hnamed p Hp) as [Hl Hc]. destruct (lium_prefix_true p Hl).
      eapply tells_then; [ls|apply owns_tells|]. intros b. apply tells_ret. intros l [_ Hb]. split; [done|]. cbn. intros ->. split_and!; auto.
    - done.
    - intros vs l _ [_ H] y Hy Hy2. destruct (H y Hy) as (n & _ & <- & Hv). auto.
    - ls. }
  apply tells_of_res. intros kept l Hk [_ Hv] p Hp. destruct (those_spec _ _ _ Hk p Hp) as [[_ ?]|Hf]; [by left|right].
  destruct (in_names (fp_container_name p) _) as [b|] eqn:Hb; [|done]. cbn in Hf. injection Hf as Hf. apply negb_false_iff in Hf as ->.
  apply in_names_true in Hb as (name & Hname & Hin). exists name. split; [done|]. apply list_elem_of_fmap in Hin as (y & -> & Hy). apply elem_of_bfilter in Hy as [Hy ?].
  by apply Hv.
Qed.
Lemma foreign_tells details : uc_rented_data ctx <> None -> uc_enforce ctx = true ->
  tells (fun _ => True) (judge_foreign_occupancy ctx details)
    (fun r l => (forall u, r = Some u -> ur_passed u = false) /\ (r = None -> forall p, p ∈ uc_gpu_processes ctx -> accounted p l)).
Proof.
  intros Hd He. unfold judge_foreign_occupancy. destruct (uc_rented_data ctx) as [d|]; [|done]. cbn zeta. rewrite He. cbn [negb].
  eapply tells_then with (mid := fun raw _ => those (is_foreign (lium_workload_containers ctx)) (uc_gpu_processes ctx) = Ok raw); [ls|by apply tells_of_res|intros raw].
  eapply tells_then with (mid := fun f _ => each foreign_process raw = Ok f); [ls|by apply tells_of_res|intros foreign].
  eapply tells_then; [ls|eapply tells_weaken; [apply drop_tells|done|intros a l _ H; exact H|ls]|intros kept].
  assert (forall l, (((True /\ those (is_foreign (lium_workload_containers ctx)) (uc_gpu_processes ctx) = Ok raw) /\ each foreign_process raw = Ok foreign) /\
    (forall p, p ∈ foreign -> p ∈ kept \/ exists name, fp_container_name p = JStr name /\ vouched name l)) -> kept = [] -> forall p, p ∈ uc_gpu_processes ctx -> accounted p l) as Hall.
  { intros l [[[_ Hraw] Hfor] Hk] -> p Hp. destruct (those_spec _ _ _ Hraw p Hp) as [[_ Hin]|Hf].
    - destruct (each_spec _ _ _ Hfor p Hin) as (f & Hf & Hff). destruct (Hk f Hff) as [Hnil|(name & Hname & Hv)]; [set_solver|]. right. exists name. split; [|auto].
      unfold foreign_process in Hf. destruct (jget "pid" p); [|done]. cbn in Hf. destruct (jget "container_name" p) as [v|] eqn:Hc; [|done]. cbn in Hf.
      destruct (jget "info" p); [|done]. injection Hf as <-. cbn in Hname. subst. by apply jget_container.
    - unfold is_foreign in Hf. destruct (jget "container_name" p) as [v|] eqn:Hc; [|done]. cbn in Hf. destruct (in_names v _) as [b|] eqn:Hb; [|done]. cbn in Hf. destruct b.
      + apply in_names_true in Hb as (s & -> & Hs). right. exists s. split; [by apply jget_container|auto].
      + destruct (runs_in_the_executors_own_cgroup p) as [own|] eqn:Ho; [|done]. cbn in Hf. injection Hf as Hf. apply negb_false_iff in Hf as ->. by left. }
  destruct kept as [|k ks].
  - eapply tells_then; [ls|apply tells_any|]. intros held. destruct held; [apply tells_ret; intros l [H _]; split; [done|]; intros _; by apply Hall|].
    eapply tells_then; [ls|apply tells_any|]. intros still. apply tells_ret. intros l [[H _] _]. destruct still; (split; [by intros u [= <-]|intros]); [done|by apply Hall].
  - eapply tells_then; [ls|apply tells_any|]. intros named. apply tells_ret. intros l _. by split; [intros u [= <-]|].
Qed.

Lemma pods_tells v pods : tells (fun _ => True) (judge_pod_containers_outside_a_rental ctx v pods (filler_containers_here ctx))
  (fun r l => ur_passed r = true -> forall p, p ∈ uc_gpu_processes ctx -> accounted p l).
Proof.
  unfold judge_pod_containers_outside_a_rental. eapply tells_then; [ls|eapply (gathered_tells out (fun _ => True) _ (fun n r l => pc_container_name r = n /\ (is_orphan_state r = false -> torn_down n l)))|].
  - ls.
  - intros x y. ls.
  - intros n _. apply rental_tells.
  - intros rentals. destruct (List.filter is_orphan_state rentals) as [|o os] eqn:Hnone; [|by apply tells_ret].
    eapply tells_then with (mid := fun outside _ => those (outside_of (map pc_container_name rentals ++ filler_containers_here ctx)) (uc_gpu_processes ctx) = Ok outside); [ls|by apply tells_of_res|].
    intros [|x xs]; apply tells_ret; [|done]. intros l [[_ [_ Hr]] Hout] _ p Hp. destruct (those_spec _ _ _ Hout p Hp) as [[_ ?]|Hf]; [set_solver|].
    unfold outside_of in Hf. destruct (jget "container_name" p) as [c|] eqn:Hc; [|done]. cbn in Hf. destruct (in_names c _) as [b|] eqn:Hb; [|done]. cbn in Hf.
    injection Hf as Hf. apply negb_false_iff in Hf as ->. apply in_names_true in Hb as (name & -> & Hin). right. exists name. split; [by apply jget_container|].
    apply elem_of_app in Hin as [Hin|?]; [|auto]. apply list_elem_of_fmap in Hin as (r & -> & Hr0). destruct (Hr r Hr0) as (n & _ & <- & Ht). do 3 right. apply Ht.
    destruct (is_orphan_state r) eqn:Ho; [|done]. assert (r ∈ List.filter is_orphan_state rentals) as Hx by (by apply elem_of_bfilter). rewrite Hnone in Hx. set_solver.
Qed.
Lemma fillers_accounted names p : each process_name (uc_gpu_processes ctx) = Ok names ->
  forallb (fun v => match v with JStr s => in_list s (filler_containers_here ctx) | _ => false end) names = true ->
  p ∈ uc_gpu_processes ctx -> forall l, accounted p l.
Proof.
  intros He Hall Hp l. destruct (each_spec _ _ _ He p Hp) as (v & Hv & Hin). rewrite forallb_forall in Hall. specialize (Hall v (proj1 (list_elem_of_In _ _) Hin)).
  unfold process_name in Hv. destruct (jget "container_name" p) as [c|] eqn:Hc; [|done]. cbn in Hv. destruct (hashable c); [|done]. injection Hv as ->.
  destruct v; try done. right. eexists. split; [by apply jget_container|]. left. by apply bool_decide_eq_true in Hall.
Qed.
Lemma usage_tells details : uc_rented_data ctx <> None -> uc_enforce ctx = true ->
  tells (fun _ => True) (judge_process_based_usage ctx str_of json_loads details)
    (fun r l => ur_passed r = true -> forall p, p ∈ uc_gpu_processes ctx -> accounted p l).
Proof.
  intros Hd He. unfold judge_process_based_usage. cbn zeta.
  eapply tells_then with (mid := fun names _ => each process_name (uc_gpu_processes ctx) = Ok names); [ls|by apply tells_of_res|intros names].
  eapply tells_fact; [intros l [_ H]; exact H|]. intros Hnames.
  eapply tells_then; [ls|apply tells_any|intros off_image]. eapply tells_then; [ls|apply tells_any|intros found].
  destruct (match found, off_image with None, _ :: _ => Some (OffImage off_image) | _, _ => found end) as [v|].
  - match goal with |- tells _ (if ?c then _ else _) _ => destruct c eqn:Hf end.
    + apply tells_ret. intros l _ _ p Hp. apply andb_true_iff in Hf as [Hf _]. destruct (filler_containers_here ctx) as [|c cs] eqn:Hfc; [done|].
      rewrite <- Hfc in Hf. by apply (fillers_accounted names).
    + eapply tells_then; [ls|apply tells_any|intros pods]. destruct (sorted_names (omap id pods)) as [|q qs]; [by apply tells_ret|].
      destruct (negb (uc_rented ctx)); [|by apply tells_ret]. eapply tells_weaken; [apply pods_tells|done|done|ls].
  - eapply tells_then; [ls|eapply tells_weaken; [by apply (foreign_tells details)|done|intros a l _ H; exact H|ls]|]. intros [u|]; apply tells_ret.
    + intros l [_ [Hu _]] Hp. cbn in Hp. specialize (Hu u eq_refl). congruence.
    + intros l [_ [_ Hn]] _. auto.
Qed.
Lemma ghost_tells details : tells (fun _ => True) (detect_and_cure_ghost_gpus ctx details) (fun r _ => forall u, r = Some u -> uc_gpu_processes ctx = []).
Proof.
  unfold detect_and_cure_ghost_gpus. apply tells_default; [ls| |done]. destruct (uc_gpu_processes ctx) as [|p ps]; [|by apply tells_ret].
  by intros l l' a _ _ u _.
Qed.


(** ** Failing with evidence *)

(** A card of the node that reads over a limit, or fillers whose image is none of the ones recorded at their start. *)
Definition violated (v : violation) (l : list u_event) : Prop :=
  match v with
  | OverLimit gpu memory => exists d, d ∈ uc_gpu_details ctx /\ jget_or "gpu_utilization" (JInt GPU_UTILIZATION_LIMIT) d = Ok gpu /\
      jget_or "memory_utilization" (JInt GPU_MEMORY_UTILIZATION_LIMIT) d = Ok memory /\ is_over gpu memory = Ok true
  | OffImage fillers => fillers <> [] /\ forall n, n ∈ fillers -> n ∈ filler_containers_here ctx /\
      exists text digests scraped digest, (json_loads text = Ok (JList digests) /\ scraped_digests ctx str_of = Ok scraped /\ dget n scraped = Some digest /\
        existsb (json_eqb (JStr digest)) digests = false) /\ SaidDigests n (Ok (Some text)) ∈ l
  end.
Definition evidence (e : usage_event) (l : list u_event) : Prop :=
  match e with
  | GPU_WEDGED cure_attempted wedged _ =>
      uc_gpu_processes ctx = [] /\ (exists d, d ∈ uc_gpu_details ctx /\ is_wedge_candidate d = Ok true) /\
      if cure_attempted then exists gpus apps u, (u ∈ parse_wedged_gpu_uuids (rs_stdout gpus) (rs_stdout apps) /\ is_in_both wedged u = true) /\ SaidGpus gpus ∈ l /\ SaidApps apps ∈ l
      else uc_dry_run ctx = true
  | FOREIGN_PROCESS foreign _ => uc_enforce ctx = true /\ foreign <> [] /\
      forall f, f ∈ foreign -> exists p, p ∈ uc_gpu_processes ctx /\ is_foreign (lium_workload_containers ctx) p = Ok true /\ foreign_process p = Ok f
  | VRAM_HELD held => uc_enforce ctx = true /\ uc_gpu_processes ctx = [] /\ lium_workload_containers ctx = [] /\
      exists gpus apps h s, (h ∈ held /\ rs_success gpus = true /\ rs_success apps = true /\ strip (rs_stdout apps) = ""%string /\
        py_or (hv_gpu_uuid h) (JStr "") = JStr s /\ above GPU_HELD_VRAM_MB_LIMIT (dget_or (Fin 0) s (parse_gpu_memory_used_mb (rs_stdout gpus))) = true) /\ SaidGpus gpus ∈ l /\ SaidApps apps ∈ l
  | USAGE_HIGH v _ => violated v l
  | ORPHANED_CONTAINER v rentals orphan _ => violated v l /\ orphan ∈ rentals /\ is_orphan_state orphan = true /\ uc_rented ctx = false
  | _ => False
  end.
Lemma lasts_violated v : lasts (violated v).
Proof. unfold violated. destruct v; ls. Qed.
Hint Resolve lasts_violated : lasts.
Lemma lasts_evidence e : lasts (evidence e).
Proof. destruct e as [|c w ws| | | | | |]; unfold evidence; [|destruct c| | | | | |]; ls. Qed.
Hint Resolve lasts_evidence : lasts.
Notation explained := (fun r l => ur_passed r = false -> evidence (ur_event r) l).

Lemma over_limit_spec details v : over_limit details = Ok (Some v) -> (forall d, d ∈ details -> d ∈ uc_gpu_details ctx) -> forall l, violated v l.
Proof.
  induction details as [|d ds IH]; intros H Hin l; cbn [over_limit] in H; [done|].
  destruct (jget_or "gpu_utilization" _ d) as [gpu|] eqn:Hg; [|done]. cbn [mbind res_bind] in H. destruct (jget_or "memory_utilization" _ d) as [mem|] eqn:Hm; [|done].
  cbn [mbind res_bind] in H. destruct (is_over gpu mem) as [[|]|] eqn:Hu; cbn [mbind res_bind] in H; [| |done].
  - injection H as <-. exists d. split_and!; [apply Hin; set_solver|done..].
  - apply IH; [done|]. intros x Hx. apply Hin. set_solver.
Qed.
Lemma recorded_tells name : tells (fun _ => True) (recorded_digests json_loads name) (fun r l => forall d ds, r = Some (d :: ds) ->
  exists text, json_loads text = Ok (JList (d :: ds)) /\ SaidDigests name (Ok (Some text)) ∈ l).
Proof.
  unfold recorded_digests. apply tells_default; [ls| |done].
  eapply tells_then with (mid := fun r l => SaidDigests name r ∈ l); [ls|intros l l' a _ H; cbn in H; injection H as <- <-; set_solver|intros r].
  eapply tells_then with (mid := fun a _ => r = Ok a); [ls|by apply tells_of_res|]. intros [text|]; [|by apply tells_ret].
  destruct (String.eqb text ""); [by apply tells_ret|]. eapply tells_then; [ls|apply tells_any|intros kept]. eapply tells_then; [ls|apply tells_any|intros []].
  eapply tells_then with (mid := fun v _ => json_loads text = Ok v); [ls|by apply tells_of_res|].
  intros [| | | | |ds|]; try apply tells_exc. apply tells_ret. intros l [[[[[_ Hd] ->] _] _] Hj] d ds' [= ->]. eauto.
Qed.
Lemma off_image_tells names : (forall n, n ∈ names -> n ∈ filler_containers_here ctx) -> tells (fun _ => True) (fillers_off_their_image ctx str_of json_loads names)
  (fun off l => off <> [] -> violated (OffImage off) l).
Proof.
  intros Hn. unfold fillers_off_their_image. eapply tells_then with (mid := fun s _ => scraped_digests ctx str_of = Ok s); [ls|by apply tells_of_res|intros scraped].
  eapply tells_then; [ls| |].
  - eapply tells_weaken; [eapply (gathered_tells out (fun _ => True) _ (fun n y l => y.1 = n /\ (y.2 = true -> exists text digests digest,
      (json_loads text = Ok (JList digests) /\ dget n scraped = Some digest /\ existsb (json_eqb (JStr digest)) digests = false) /\ SaidDigests n (Ok (Some text)) ∈ l)))| | |].
    + ls.
    + intros x y. ls.
    + intros n _. eapply tells_then; [ls|apply recorded_tells|]. intros r. apply tells_ret. intros l [_ Hr]. split; [done|]. cbn [snd]. unfold is_off_image. intros Hoff.
      destruct r as [[|d ds]|]; try done. destruct (dget n scraped) as [digest|]; [|done]. destruct (Hr d ds eq_refl) as (text & ? & ?).
      exists text, (d :: ds), digest. split_and!; [done|done|by apply negb_true_iff in Hoff|done].
    + done.
    + intros a l _ [_ H]. exact H.
    + ls.
  - intros judged. apply tells_ret. intros l [[_ Hs] Hj] Hne. split; [done|]. intros n (y & -> & Hy)%list_elem_of_fmap. apply elem_of_bfilter in Hy as [Hy Hoff].
    destruct (Hj y Hy) as (m & Hm & -> & Ht). rewrite elem_of_sorted_names in Hm. split; [by apply Hn|]. destruct (Ht Hoff) as (text & digests & digest & (? & ? & ?) & ?).
    by exists text, digests, scraped, digest.
Qed.

Lemma still_holds_tells held : tells (fun _ => True) (card_still_holds_vram_with_no_owner held) (fun b l => b = true ->
  exists gpus apps h s, (h ∈ held /\ rs_success gpus = true /\ rs_success apps = true /\ strip (rs_stdout apps) = ""%string /\
    py_or (hv_gpu_uuid h) (JStr "") = JStr s /\ above GPU_HELD_VRAM_MB_LIMIT (dget_or (Fin 0) s (parse_gpu_memory_used_mb (rs_stdout gpus))) = true) /\ SaidGpus gpus ∈ l /\ SaidApps apps ∈ l).
Proof.
  unfold card_still_holds_vram_with_no_owner. apply tells_default; [ls| |done].
  eapply tells_then; [ls|apply tells_gpus|intros gpus]. eapply tells_then; [ls|apply tells_apps|intros apps].
  destruct (rs_success gpus) eqn:Hg; [|by apply tells_ret]. destruct (rs_success apps) eqn:Ha; [|by apply tells_ret]. cbn [negb orb].
  destruct (not_empty (strip (rs_stdout apps))) eqn:Hs; [by apply tells_ret|]. unfold not_empty in Hs. apply negb_false_iff, String.eqb_eq in Hs.
  destruct (parse_gpu_memory_used_mb (rs_stdout gpus)) as [|x xs] eqn:Hm; [by apply tells_ret|]. rewrite <- Hm. apply tells_of_res. intros b l Hb [[_ ?] ?] ->.
  assert (exists h, h ∈ held /\ holds_now (parse_gpu_memory_used_mb (rs_stdout gpus)) h = Ok true) as (h & Hh & Hn).
  { clear -Hb. induction held as [|h hs IH]; cbn in Hb; [done|]. destruct (holds_now _ h) as [[|]|] eqn:Hh; [| |done].
    - exists h. split; [set_solver|done].
    - destruct (IH Hb) as (h' & ? & ?). exists h'. split; [set_solver|done]. }
  exists gpus, apps, h. unfold holds_now in Hn. destruct (hashable _); [|done]. destruct (py_or (hv_gpu_uuid h) (JStr "")) as [| | | |s| |] eqn:Hu; try done.
  exists s. injection Hn as Hn. by split_and!.
Qed.
Lemma foreign_explained details : tells (fun _ => True) (judge_foreign_occupancy ctx details) (fun r l => forall u, r = Some u -> explained u l).
Proof.
  unfold judge_foreign_occupancy. destruct (uc_rented_data ctx) as [d|]; [|by apply tells_ret]. cbn zeta.
  eapply tells_then with (mid := fun raw _ => those (is_foreign (lium_workload_containers ctx)) (uc_gpu_processes ctx) = Ok raw); [ls|by apply tells_of_res|intros raw].
  eapply tells_then with (mid := fun f _ => each foreign_process raw = Ok f); [ls|by apply tells_of_res|intros foreign].
  eapply tells_then with (mid := fun kept _ => forall f, f ∈ kept -> f ∈ foreign); [ls| |intros kept].
  { unfold drop_containers_the_backend_still_owns. cbn zeta. eapply tells_then; [ls|apply tells_any|intros named].
    destruct (sorted_names _) as [|n0 ns]; [by apply tells_ret|]. eapply tells_then; [ls|apply tells_any|intros vs]. apply tells_of_res. intros kept l Hk _ f Hf. by apply (those_within _ _ _ Hk). }
  destruct kept as [|k ks].
  - eapply tells_then with (mid := fun held _ => held_vram_without_owner ctx details (lium_workload_containers ctx) = Ok held); [ls|by apply tells_of_res|].
    intros [|h hs]; [by apply tells_ret|]. eapply tells_then; [ls|eapply tells_weaken; [apply still_holds_tells|done|intros a l _ H; exact H|ls]|].
    intros still. apply tells_ret. intros l [[_ Hheld] Hst] u Hu Hp. destruct still; [|done]. injection Hu as <-. cbn in Hp |- *. apply negb_false_iff in Hp.
    unfold held_vram_without_owner in Hheld. destruct (uc_gpu_processes ctx); [|done]. destruct (lium_workload_containers ctx); [|done]. split_and!; [done..|auto].
  - eapply tells_then; [ls|apply tells_any|]. intros named. apply tells_ret. intros l [[[[_ Hraw] Hfor] Hk] _] u [= <-] Hp. cbn in Hp |- *. apply negb_false_iff in Hp.
    split_and!; [done|done|]. intros f Hf. destruct (each_within _ _ _ Hfor f (Hk f Hf)) as (p & Hp1 & Hp2). exists p. by destruct (those_within _ _ _ Hraw p Hp1).
Qed.
Lemma pods_explained v pods fillers : uc_rented ctx = false ->
  tells (fun l => violated v l) (judge_pod_containers_outside_a_rental ctx v pods fillers) explained.
Proof.
  intros Hr. unfold judge_pod_containers_outside_a_rental. eapply tells_then; [ls|apply tells_any|intros rentals].
  destruct (List.filter is_orphan_state rentals) as [|o os] eqn:Ho.
  - eapply tells_then; [ls|apply tells_any|]. intros [|x xs]; apply tells_ret; [done|]. by intros l [[? _] _] _.
  - apply tells_ret. intros l [? _] _. assert (o ∈ List.filter is_orphan_state rentals) as [? ?]%elem_of_bfilter by (rewrite Ho; set_solver). by split_and!.
Qed.
Lemma usage_explained details : (forall d, d ∈ details -> d ∈ uc_gpu_details ctx) ->
  tells (fun _ => True) (judge_process_based_usage ctx str_of json_loads details) explained.
Proof.
  intros Hin. unfold judge_process_based_usage. cbn zeta. eapply tells_then; [ls|apply tells_any|intros names].
  eapply tells_then; [ls|eapply tells_weaken; [apply off_image_tells|done|intros a l _ H; exact H|ls]|intros off].
  { by intros n [? _]%elem_of_bfilter. }
  eapply tells_then with (mid := fun found l => forall v, found = Some v -> violated v l); [ls| |intros found].
  { apply tells_of_res. intros found l Hf _ v ->. unfold find_violation in Hf. destruct (uc_gpu_processes ctx); [done|]. by eapply over_limit_spec. }
  set (v' := match found, off with None, _ :: _ => Some (OffImage off) | _, _ => found end).
  assert (forall l, (((True /\ True) /\ (off <> [] -> violated (OffImage off) l)) /\ (forall v, found = Some v -> violated v l)) -> forall v, v' = Some v -> violated v l) as Hv.
  { intros l [[_ Hoff] Hf] v Hvv. subst v'. destruct found; [by apply Hf|]. destruct off; [done|]. injection Hvv as <-. by apply Hoff. }
  destruct v' as [v|].
  - match goal with |- tells _ (if ?c then _ else _) _ => destruct c end; [by apply tells_ret|].
    eapply tells_then; [ls|apply tells_any|intros pods].
    assert (forall l, ((((True /\ True) /\ (off <> [] -> violated (OffImage off) l)) /\ (forall v, found = Some v -> violated v l)) /\ True) -> violated v l) as Hvv.
    { intros l [H _]. by apply (Hv l H). }
    destruct (sorted_names (omap id pods)) as [|q qs]; [apply tells_ret; intros l H _; by apply Hvv|].
    destruct (uc_rented ctx) eqn:Hr; cbn [negb]; [apply tells_ret; intros l H _; by apply Hvv|].
    eapply tells_weaken; [by apply pods_explained|exact Hvv|done|ls].
  - eapply tells_then; [ls|eapply tells_weaken; [apply foreign_explained|done|intros a l _ H; exact H|ls]|].
    intros [u|]; apply tells_ret; [|done]. intros l [_ Hu]. by apply Hu.
Qed.
Lemma ghost_explained details : (forall d, d ∈ details -> d ∈ uc_gpu_details ctx) ->
  tells (fun _ => True) (detect_and_cure_ghost_gpus ctx details) (fun r l => forall u, r = Some u -> explained u l).
Proof.
  intros Hin. unfold detect_and_cure_ghost_gpus. apply tells_default; [ls| |done]. destruct (uc_gpu_processes ctx) as [|p ps] eqn:Hp; [|by apply tells_ret].
  eapply tells_then with (mid := fun c _ => those is_wedge_candidate details = Ok c); [ls|by apply tells_of_res|intros candidates].
  eapply tells_then with (mid := fun ws _ => each (jget "uuid") candidates = Ok ws); [ls|by apply tells_of_res|]. intros [|w ws]; [by apply tells_ret|].
  assert (forall l : list u_event, ((True /\ those is_wedge_candidate details = Ok candidates) /\ each (jget "uuid") candidates = Ok (w :: ws)) ->
    exists d, d ∈ uc_gpu_details ctx /\ is_wedge_candidate d = Ok true) as Hd.
  { intros l [[_ Hc] He]. destruct (each_within _ _ _ He w) as (d & Hd & _); [set_solver|]. exists d. destruct (those_within _ _ _ Hc d Hd). auto. }
  destruct (uc_dry_run ctx) eqn:Hdry.
  { apply tells_ret. intros l H u [= <-] _. split_and!; [done|by eapply Hd|done]. }
  eapply tells_then; [ls|apply tells_any|intros cures].
  eapply tells_then with (mid := fun seen l => exists gpus apps, seen = parse_wedged_gpu_uuids (rs_stdout gpus) (rs_stdout apps) /\ SaidGpus gpus ∈ l /\ SaidApps apps ∈ l); [ls| |intros seen].
  { unfold query_wedged_gpu_uuids. eapply tells_then; [ls|apply tells_gpus|intros gpus]. eapply tells_then; [ls|apply tells_apps|intros apps]. apply tells_ret.
    intros l [[_ ?] ?]. by exists gpus, apps. }
  apply tells_ret. intros l [[H _] (gpus & apps & -> & ? & ?)] u Hu Hpass. destruct (sorted_names _) as [|s ss] eqn:Hs; injection Hu as <-; [done|].
  split_and!; [done|by eapply Hd|]. exists gpus, apps, s. assert (s ∈ sorted_names (List.filter (is_in_both (w :: ws)) (parse_wedged_gpu_uuids (rs_stdout gpus) (rs_stdout apps)))) as Hin' by (rewrite Hs; set_solver).
  rewrite elem_of_sorted_names in Hin'. by apply elem_of_bfilter in Hin'.
Qed.

End Verdict.
