(* ===== verification/ProviderLoad.v ===== *)
(** * What a host's owner takes from it

    [services/task/checks/provider_side_load.py] and [cpu_truth.py]: the CPU and disk a host uses outside Lium's
    containers, read from the scrape and, before it costs anything, once more over SSH; and the
    cores a host advertises against those its kernel has.  A quotient never underflows here. *)

From Stdlib Require Import Ascii String.
From stdpp Require Import strings.
From S2P Require Import Prelude Float64 PyValue HostText IncentiveConfig RentedData Effects IsoTime ContainerCleanup StaleContainers GpuUsage.
Import Text.

Local Open Scope string_scope.
Local Open Scope list_scope.
Local Open Scope Z_scope.

Definition PROVIDER_SIDE_CPU_CORES_LIMIT : Z := 2.
Definition PROVIDER_SIDE_DISK_LIMIT_KB : Z := 100 * 1024 * 1024.
Definition CLAIMED_EXCUSE_CORES : Z := PROVIDER_SIDE_CPU_CORES_LIMIT.
Definition JIFFIES_PER_SECOND : Z := 100.
Definition BUILD_DIND_PREFIX : string := "lium-dind-build-".
Definition LIUM_INFRA_CONTAINER_PREFIXES : list string :=
  ["container_"; "health_check_"; "executor-"; "s3fs-backup"; "lium_roce_probe"; "lium_cache_sweep"].
Definition CPU_TRUTH_MARGIN_CORES : Z := 4.

(** [s.split(sep)] for a separator of several characters: the first [skip] characters belong to one found. *)
Fixpoint split_on (sep : list ascii) (skip : nat) (cur l : list ascii) : list (list ascii) :=
  match l with
  | [] => [rev cur]
  | c :: l' =>
      match skip with
      | S k => split_on sep k cur l'
      | O => if chars_prefix sep l then rev cur :: split_on sep (length sep - 1) [] l' else split_on sep O (c :: cur) l'
      end
  end.
Definition split_text (sep s : string) : list string := map of_chars (split_on (chars sep) 0 [] (chars s)).
Example split_text_ex : split_text "@@@" "a@@@@b@@@" = ["a"; "@b"; ""].
Proof. reflexivity. Qed.
(** [s.rstrip("%")] *)
Definition rstrip_percent (s : string) : string :=
  of_chars (rev ((fix go (l : list ascii) := match l with c :: l' => if Ascii.eqb c "%" then go l' else l | [] => [] end) (rev (chars s)))).

Section Load.
Context `{R : Rounding} (str_of : json -> string).

(** ** Numbers *)
Definition num_opp (x : num) : num := match x with Fin q => Fin (- q)%Q | Inf s => Inf (negb s) | NaN => NaN end.
Definition num_sub (x y : num) : num := num_add x (num_opp y).
Definition num_mul (x y : num) : num :=
  match x, y with
  | NaN, _ | _, NaN => NaN
  | Fin a, Fin b => num_of (a * b)%Q
  | Fin a, Inf s | Inf s, Fin a => if Qeqb a 0 then NaN else Inf (if Qltb a 0 then negb s else s)
  | Inf s, Inf t => Inf (negb (Bool.eqb s t))
  end.
(** [max(0.0, x)], [min(x, limit)], [x or 0.0] *)
Definition num_max0 (x : num) : num := if above 0 x then x else Fin 0.
Definition num_min (x : num) (limit : Z) : num := if above limit x then Fin (inject_Z limit) else x.
Definition num_or0 (x : option num) : num := match x with Some y => if num_truthy y then y else Fin 0 | None => Fin 0 end.
Definition num_sum (l : list num) : num := foldl num_add (Fin 0) l.
(** [a / b] for integers, [b] not zero *)
Definition int_quot (a b : Z) : res num := match num_of (inject_Z a / inject_Z b)%Q with Fin q => Ok (Fin q) | _ => Raise OverflowError end.
(** [math.floor(x)] *)
Definition num_floor (x : num) : res Z := match x with Fin q => Ok (Qfloor q) | Inf _ => Raise OverflowError | NaN => Raise ValueError end.

(** ** Containers *)
Record ContainerRow := mkRow { row_container_id : string; row_name : string; row_digest : string; row_cpu_percent : option num }.
(** [measured_cpu_percent] *)
Definition measured_cpu_percent (r : ContainerRow) : res num :=
  match row_cpu_percent r with
  | Some (Fin q) => if Qltb q 0 then Raise ValueError else Ok (Fin q)
  | _ => Raise ValueError
  end.
Definition first12 (s : string) : string := of_chars (take 12 (chars s)).
Definition is_liums (keys : list string) (r : ContainerRow) : bool :=
  in_list (row_name r) keys || in_list (first12 (row_container_id r)) (map first12 keys).
(** [provider_cores_outside_lium] *)
Definition provider_cores_outside_lium (host_cores : num) (rows : list ContainerRow) (lium_container_keys : list string) : res num :=
  percents ← each measured_cpu_percent (List.filter (is_liums lium_container_keys) rows);
  let provider_cores := num_max0 (num_sub host_cores (num_div_by 100 (num_sum percents))) in
  tenths ← num_floor (num_scale 10 (num_round 3 provider_cores));
  int_quot tenths 10.

Record ProviderSideLoad := mkLoad { pl_cpu_cores : option num; pl_disk_kb : option Z }.
Definition is_measured (p : ProviderSideLoad) : bool := match pl_cpu_cores p, pl_disk_kb p with None, None => false | _, _ => true end.
Definition is_cpu_above_limit (p : ProviderSideLoad) : bool := at_least PROVIDER_SIDE_CPU_CORES_LIMIT (num_or0 (pl_cpu_cores p)).
Definition is_disk_above_limit (p : ProviderSideLoad) : bool := PROVIDER_SIDE_DISK_LIMIT_KB <=? default 0 (pl_disk_kb p).
Definition is_above_limits (p : ProviderSideLoad) : bool := is_cpu_above_limit p || is_disk_above_limit p.

(** [docker_containers] *)
Definition dict_of (v : json) : option (list (string * json)) := match v with JObj d => Some d | _ => None end.
Definition text_field (k : string) (d : list (string * json)) : string := py_str str_of (py_or (dget_or JNull k d) (JStr "")).
Definition container_row (d : list (string * json)) : res ContainerRow :=
  cpu ← match dget_or JNull "cpu_percent" d with JNull => Ok None | v => x ← py_float v; Ok (Some x) end;
  Ok (mkRow (text_field "container_id" d) (text_field "name" d) (text_field "digest" d) cpu).
Definition docker_containers (specs : json) : res (list ContainerRow) :=
  docker ← jget "docker" specs;
  match docker with
  | JObj d => entries ← jiter (py_or (dget_or JNull "containers" d) (JList [])); each container_row (omap dict_of entries)
  | _ => Ok []
  end.
(** [infra_container_names] *)
Definition is_infra (excused_by_digest : list string) (r : ContainerRow) : bool :=
  existsb (fun p => startswith p (row_name r)) LIUM_INFRA_CONTAINER_PREFIXES && negb (in_list (row_container_id r) excused_by_digest).
Definition infra_container_names (specs : json) (excused_by_digest : list string) : res (list string) :=
  rows ← docker_containers specs;
  let infra_rows := List.filter (is_infra excused_by_digest) rows in
  Ok (if above (CLAIMED_EXCUSE_CORES * 100) (num_sum (map (fun r => num_or0 (row_cpu_percent r)) infra_rows)) then [] else map row_name infra_rows).
(** [executor_stack_container_ids], [executor_stack_excuse], [stack_excuse_is_over_its_cap] *)
Definition executor_stack_container_ids (specs : json) : res (list string) :=
  docker ← jget "docker" specs;
  let executor_id := match docker with JObj d => text_field "container_id" d | _ => "" end in
  rows ← docker_containers specs;
  let executor_digest := match List.filter (fun r => String.eqb (row_container_id r) executor_id) rows with r :: _ => row_digest r | [] => "" end in
  let twins := if String.eqb executor_digest "" then [] else map row_container_id (List.filter (fun r => String.eqb (row_digest r) executor_digest) rows) in
  Ok (List.filter not_empty (executor_id :: twins)).
Definition executor_stack_excuse (specs : json) : res (nat * num) :=
  stack_ids ← executor_stack_container_ids specs;
  rows ← docker_containers specs;
  let held := List.filter (fun r => in_list (row_container_id r) stack_ids) rows in
  Ok (length held, num_round 2 (num_div_by 100 (num_sum (map (fun r => num_or0 (row_cpu_percent r)) held)))).
Definition num_gt (x y : num) : bool := match x, y with NaN, _ | _, NaN => false | _, _ => negb (num_le x y) end.
Definition stack_excuse_is_over_its_cap (cap : num) (specs : json) : res bool := excuse ← executor_stack_excuse specs; Ok (num_gt excuse.2 cap).

(** [advertised_cpu_count] of [cpu_truth.py] *)
Definition advertised_cpu_count (specs : json) : res (option Z) :=
  cpu ← jget "cpu" specs;
  match (count ← jget "count" (py_or cpu (JObj [])); int_of_json count) with
  | Ok n => Ok (if 0 <? n then Some n else None)
  | Raise TypeError | Raise ValueError => Ok None
  | Raise e => Raise e
  end.

(** [compute_provider_side_load]; [try: .. except (..): pass], the value being [None] before. *)
Definition unless {A} (excepted : list exc) (r : res (option A)) : res (option A) :=
  match r with Ok x => Ok x | Raise e => if bool_decide (e ∈ excepted) then Ok None else Raise e end.
Definition is_readable (x : num) : bool := match x with Fin q => Qleb 0 q | _ => false end.
Definition scraped_cpu_cores (specs : json) (core_count : option Z) (keys : option (list string)) : res (option num) :=
  docker ← jget "docker" specs;
  rows ← docker_containers specs;
  host ← jget "host_cpu_percent" (py_or docker (JObj []));
  host_percent ← py_float host;
  match core_count, keys, rows with
  | Some n, Some keys, _ :: _ =>
      if negb (n =? 0) && is_readable host_percent
      then cores ← py_float (JInt n);
           c ← provider_cores_outside_lium (num_mul (num_div_by 100 host_percent) cores) rows keys; Ok (Some c)
      else Ok None
  | _, _, _ => Ok None
  end.
Definition scraped_disk_kb (specs : json) : res (option Z) :=
  disk ← jget "hard_disk" specs;
  let hard_disk := py_or disk (JObj []) in
  let kb key := v ← jget key hard_disk; int_of_json v in
  used ← kb "used"; parts ← each kb ["images"; "containers"; "volumes"];
  Ok (if (0 <=? used) && forallb (Z.leb 0) parts then Some (pymaxZ 0 (used - foldl Z.add 0 parts)) else None).
Definition compute_provider_side_load (specs : json) (core_count : option Z) (keys : option (list string)) : res ProviderSideLoad :=
  cpu_cores ← unless [KeyError; TypeError; ValueError; AttributeError; OverflowError] (scraped_cpu_cores specs core_count keys);
  disk_kb ← unless [TypeError; ValueError; AttributeError; OverflowError] (scraped_disk_kb specs);
  Ok (mkLoad cpu_cores disk_kb).

(** [parse_resampled_cpu_cores]: [None] is unreadable; a negative or non-finite percentage of a container of
    Lium's raises. *)
Definition four_ints (s : string) : option (Z * Z * Z * Z) :=
  match map py_int (words s) with [Some a; Some b; Some c; Some d] => Some (a, b, c, d) | _ => None end.
Definition stats_row (line : string) : option ContainerRow :=
  match map strip (split "|" line) with
  | [id; name; raw] => x ← float_of_str (rstrip_percent raw); Some (mkRow id name "" (Some x))
  | _ => None
  end.
Fixpoint all_rows (lines : list string) : option (list ContainerRow) :=
  match lines with [] => Some [] | line :: rest => r ← stats_row line; rs ← all_rows rest; Some (r :: rs) end.
Definition parse_resampled_cpu_cores (sample_before container_rows sample_after : string) (keys : list string) : res (option num) :=
  match four_ints sample_before, four_ints sample_after with
  | Some (first_total, first_idle, _, first_dockerd), Some (last_total, last_idle, kernel_cores, last_dockerd) =>
      let total_delta := last_total - first_total in
      let rows := splitlines (strip container_rows) in
      if existsb (HostText.within "STATS_FAILED") rows then Ok None
      else if (total_delta <=? 0) || (kernel_cores <=? 0) || match rows with [] => true | _ => false end then Ok None
      else
        match all_rows rows with
        | None => Ok None
        | Some stats_rows =>
            window_seconds ← int_quot total_delta (JIFFIES_PER_SECOND * kernel_cores);
            dockerd_seconds ← int_quot (last_dockerd - first_dockerd) JIFFIES_PER_SECOND;
            let dockerd_cores := match dockerd_seconds, window_seconds with Fin a, Fin b => num_of (a / b)%Q | _, _ => NaN end in
            let excused_dockerd_cores := num_min (num_max0 dockerd_cores) CLAIMED_EXCUSE_CORES in
            busy ← int_quot (total_delta - (last_idle - first_idle)) total_delta;
            cores ← py_float (JInt kernel_cores);
            c ← provider_cores_outside_lium (num_sub (num_mul busy cores) excused_dockerd_cores) stats_rows keys; Ok (Some c)
        end
  | _, _ => Ok None
  end.

(** ** The check *)
Context (ctx : UsageContext) (has_runner : bool).
(** [ctx.state.specs or {}] *)
Definition specs_here : json := py_or (uc_specs ctx) (JObj []).

(** [late_started_containers_the_backend_owns] *)
Definition late_started_containers_the_backend_owns (known_containers : list string) : P (list string) :=
  rows ← of_res (docker_containers specs_here);
  let candidates := sorted_names (List.filter (fun n => carries_a_rental_prefix n && negb (in_list n known_containers)) (map row_name rows)) in
  match candidates with
  | [] => Ret []
  | _ => verdicts ← gathered (fun n => b ← the_backend_still_owns ctx n; Ret (n, b)) candidates;
         Ret (map fst (List.filter snd (verdicts : list (string * bool))))
  end.
(** [settings.PROVIDER_SIDE_LOAD_*] *)
Record LoadSettings := mkLoadSettings { ENFORCEMENT_ENABLED : bool; STACK_EXCUSE_CORES : num; STACK_EXCUSE_CAP_ENABLED : bool }.
Context (settings : LoadSettings).
Definition builds_here : list string :=
  match rental_of_this_node ctx with Some e => map (fun p => BUILD_DIND_PREFIX +:+ rp_pod_id p) (re_pods e) | None => [] end.
(** [lium_containers] *)
Definition lium_containers : P (option (list string)) :=
  match uc_rented_data ctx with
  | None => Ret None
  | Some _ =>
      let containers := lium_workload_containers ctx ++ builds_here in
      late ← late_started_containers_the_backend_owns containers;
      stack_ids ← of_res (executor_stack_container_ids specs_here);
      capped ← of_res (if STACK_EXCUSE_CAP_ENABLED settings then stack_excuse_is_over_its_cap (STACK_EXCUSE_CORES settings) specs_here else Ok false);
      let stack_ids := if capped : bool then [] else stack_ids in
      infra ← of_res (infra_container_names specs_here stack_ids);
      Ret (Some (List.filter not_empty (containers ++ late ++ stack_ids ++ infra)))
  end.

(** [_resample_cpu_cores] *)
Definition resample_cpu_cores (lium_container_keys : option (list string)) : P (option num) :=
  match lium_container_keys with
  | None => Ret None
  | Some keys =>
      if negb has_runner then Ret None
      else
        result ← call CpuSample;
        if negb (rs_success result) then Ret None
        else match split_text "@@@" (rs_stdout result) with
             | [jiffies_before; container_rows; jiffies_after] => of_res (parse_resampled_cpu_cores jiffies_before container_rows jiffies_after keys)
             | _ => Ret None
             end
  end.
Definition is_below (limit : Z) (x : num) : bool := match x with NaN => false | _ => negb (at_least limit x) end.
(** [measure_provider_side_load] *)
Definition measure_provider_side_load (lium_container_keys : option (list string)) : P ProviderSideLoad :=
  core_count ← of_res (advertised_cpu_count specs_here);
  measured ← of_res (compute_provider_side_load specs_here core_count lium_container_keys);
  if is_below PROVIDER_SIDE_CPU_CORES_LIMIT (num_or0 (pl_cpu_cores measured)) then Ret measured
  else cpu_cores ← resample_cpu_cores lium_container_keys; Ret (mkLoad cpu_cores (pl_disk_kb measured)).

(** [lium_named_cores_outside_snapshot] *)
Definition lium_named_cores_outside_snapshot (specs : json) (lium_container_keys : option (list string)) : res (option num) :=
  match lium_container_keys with
  | None => Ok None
  | Some keys =>
      cores ← unless [TypeError; ValueError; AttributeError; OverflowError]
        (rows ← docker_containers specs;
         Ok (Some (num_sum (map (fun r => num_or0 (row_cpu_percent r))
                      (List.filter (fun r => carries_a_rental_prefix (row_name r) && negb (in_list (row_name r) keys)) rows)))));
      Ok (match cores with Some c => Some (num_round 1 (num_div_by 100 c)) | None => None end)
  end.
(** The payload of an event, without the limits. *)
Record WhatWeSaw := mkSaw {
  executor_stack_containers : nat; executor_stack_cores : num; provider_cpu_cores : option num; provider_disk_gb : option num; is_rented : bool;
  lium_named_outside_snapshot_cores : option num
}.
(** [_what_we_saw] *)
Definition what_we_saw (provider_side_load : ProviderSideLoad) (lium_container_keys : option (list string)) : res WhatWeSaw :=
  let is_rented := match listed_executor ctx with Some e => match re_pods e with [] => false | _ => true end | None => false end in
  excuse ← executor_stack_excuse specs_here;
  disk_gb ← match pl_disk_kb provider_side_load with Some kb => gb ← int_quot kb (1024 * 1024); Ok (Some (num_round 1 gb)) | None => Ok None end;
  outside ← lium_named_cores_outside_snapshot specs_here lium_container_keys;
  Ok (mkSaw excuse.1 excuse.2 (pl_cpu_cores provider_side_load) disk_gb is_rented outside).

Inductive load_impact := DiskObservedOnly | ShadowOnly.
Inductive load_event :=
| NOT_MEASURABLE
| LOAD_OK (what : WhatWeSaw)
| LOAD_ABOVE_LIMIT (impact : option load_impact) (what : WhatWeSaw).
(** The verdict, the specs a later check sees, and the flag [provider_side_load_passed] that scoring gates on. *)
Record LoadResult := mkLoadResult { lr_passed : bool; lr_event : load_event; lr_specs : option json; lr_provider_side_load_passed : bool }.
(** [to_specs_fields] *)
Definition to_specs_fields (p : ProviderSideLoad) : json :=
  JObj (match pl_cpu_cores p with Some c => [("cpu_cores", JFloat c)] | None => [] end
        ++ match pl_disk_kb p with Some kb => [("disk_kb", JInt kb)] | None => [] end).
(** [{**specs, k: v}] *)
Definition with_field (k : string) (v : json) (specs : json) : res json := match specs with JObj d => Ok (JObj (dset k v d)) | _ => Raise TypeError end.
Definition provider_side_load_check : P LoadResult :=
  lium_container_keys ← lium_containers;
  provider_side_load ← measure_provider_side_load lium_container_keys;
  if negb (is_measured provider_side_load) then Ret (mkLoadResult true NOT_MEASURABLE None true)
  else
    specs ← of_res (with_field "provider_side_load" (to_specs_fields provider_side_load) (uc_specs ctx));
    what ← of_res (what_we_saw provider_side_load lium_container_keys);
    if negb (is_above_limits provider_side_load) then Ret (mkLoadResult true (LOAD_OK what) (Some specs) true)
    else
      let enforce := ENFORCEMENT_ENABLED settings && is_cpu_above_limit provider_side_load in
      let impact := if enforce then None else if negb (is_cpu_above_limit provider_side_load) then Some DiskObservedOnly else Some ShadowOnly in
      Ret (mkLoadResult (negb enforce) (LOAD_ABOVE_LIMIT impact what) (Some specs) (negb enforce)).

(** ** The cores of a node ([cpu_truth.py]) *)

(** [_count_cpu_list] *)
Definition cpu_range (part : string) : option Z :=
  if HostText.within "-" part
  then let '(low, high) := partition "-" part in h ← py_int high; l ← py_int low; Some (h - l + 1)
  else _ ← py_int part; Some 1.
Fixpoint count_parts (total : Z) (parts : list string) : option Z :=
  match parts with
  | [] => Some total
  | part :: rest => let part := strip part in if String.eqb part "" then count_parts total rest else n ← cpu_range part; count_parts (total + n) rest
  end.
Definition count_cpu_list (spec : string) : option Z :=
  if String.eqb spec "" then None
  else total ← count_parts 0 (split "," spec); if total =? 0 then None else Some total.
Inductive truth_event :=
| CPU_UNKNOWN (reason : string)
| CPU_MISMATCH (advertised present : Z)
| CPU_OK (advertised present : Z).
(** With the flag [cpu_truth_passed]. *)
Record TruthResult := mkTruth { tr_passed : bool; tr_event : truth_event; tr_cpu_truth_passed : bool }.
Definition cpu_unknown (reason : string) : TruthResult := mkTruth true (CPU_UNKNOWN reason) true.
(** [_read_present] *)
Definition read_present : P (option Z) :=
  r ← call CpuPresent; r ← of_res r;
  Ret (if negb (hr_exit_status r =? 0) then None else count_cpu_list (strip (hr_stdout r))).
(** [asyncssh.Error] and [OSError] *)
Context (is_transport_error : exc -> bool).
Definition cpu_truth_check : P TruthResult :=
  advertised ← of_res (advertised_cpu_count specs_here);
  match advertised with
  | None => Ret (cpu_unknown "advertised CPU count missing from specs")
  | Some advertised =>
      present ← try_except (p ← read_present; Ret (Ok p)) (fun e => if is_transport_error e then Some (Ret (Raise e)) else None);
      Ret (match present with
           | Raise _ => cpu_unknown "ssh transport error"
           | Ok None => cpu_unknown "kernel-present CPU population unreadable"
           | Ok (Some present) =>
               if CPU_TRUTH_MARGIN_CORES <? advertised - present then mkTruth false (CPU_MISMATCH advertised present) false
               else mkTruth true (CPU_OK advertised present) true
           end)
  end.
End Load.
