(* ===== verification/ProviderLoadSafety.v ===== *)
(** * What a withheld payout for the owner's load rests on

    A node fails for the load of its owner only on two readings, with every container that is Lium's
    taken out; and what a reading reports is the exact difference to a tenth of a core. *)

From Stdlib Require Import Ascii String.
From stdpp Require Import strings.
From S2P Require Import Prelude Float64 PyValue HostText IncentiveConfig RentedData Effects IsoTime ContainerCleanup StaleContainers GpuUsage GpuUsageSafety ProviderLoad.
Import Text.

Local Open Scope string_scope.
Local Open Scope list_scope.
Local Open Scope Z_scope.

Section Verdict.
Context (out : Replies) `{R : Rounding} (str_of : json -> string) (ctx : UsageContext) (has_runner : bool) (settings : LoadSettings).
Notation tells := (tells out).
Notation specs := (specs_here ctx).
Ltac ls := auto 20 with lasts.

(** The executor's own container, or one of the same image, and the cores of all of these are within the cap when
    there is one. *)
Definition of_the_stack (key : string) : Prop :=
  exists executor_id rows, docker_containers str_of specs = Ok rows /\
    (exists docker, jget "docker" specs = Ok docker /\ executor_id = match docker with JObj d => text_field str_of "container_id" d | _ => "" end) /\
    (key = executor_id \/ exists mine twin, mine ∈ rows /\ row_container_id mine = executor_id /\ row_digest mine <> "" /\
                            twin ∈ rows /\ row_digest twin = row_digest mine /\ row_container_id twin = key) /\
    (STACK_EXCUSE_CAP_ENABLED settings = true -> forall n cores, executor_stack_excuse str_of specs = Ok (n, cores) -> num_gt cores (STACK_EXCUSE_CORES settings) = false).
(** A container of the scrape with a name of Lium's infrastructure, when all of these together are within two
    cores. *)
Definition of_the_infrastructure (key : string) : Prop :=
  exists rows row excused, docker_containers str_of specs = Ok rows /\ row ∈ rows /\ row_name row = key /\ is_infra excused row = true /\
    above 200 (num_sum (map (fun r => num_or0 (row_cpu_percent r)) (List.filter (is_infra excused) rows))) = false.
Definition earned (key : string) (l : list u_event) : Prop :=
  key ∈ lium_workload_containers ctx \/ key ∈ builds_here ctx \/ (carries_a_rental_prefix key = true /\ owned ctx key l) \/
  of_the_stack key \/ of_the_infrastructure key.
Lemma lasts_earned key : lasts (earned key).
Proof. unfold earned. pose proof (lasts_owned ctx). ls. Qed.
Hint Resolve lasts_earned lasts_owned : lasts.
(** Of the snapshot and of the backend's later word. *)
Definition fair_keys (keys : list string) (l : list u_event) : Prop :=
  (forall k, k ∈ keys -> earned k l) /\ (forall k, k ∈ lium_workload_containers ctx ++ builds_here ctx -> k <> "" -> k ∈ keys).
Lemma lasts_fair keys : lasts (fair_keys keys).
Proof. unfold fair_keys. ls. Qed.
Hint Resolve lasts_fair : lasts.

Lemma late_tells known : tells (fun _ => True) (late_started_containers_the_backend_owns str_of ctx known)
  (fun names l => forall n, n ∈ names -> carries_a_rental_prefix n = true /\ owned ctx n l).
Proof.
  unfold late_started_containers_the_backend_owns. eapply tells_then; [ls|apply tells_any|intros rows]. cbn zeta.
  set (named := List.filter _ _). assert (forall n, n ∈ named -> carries_a_rental_prefix n = true) as Hp.
  { intros n [_ [H _]%andb_true_iff]%elem_of_bfilter. exact H. }
  destruct (sorted_names named) as [|n0 ns] eqn:Hs; [apply tells_ret; set_solver|]. rewrite <- Hs.
  eapply tells_then with (mid := fun vs l => forall y, y ∈ vs -> y.2 = true -> carries_a_rental_prefix y.1 = true /\ owned ctx y.1 l); [ls| |intros verdicts].
  - eapply tells_weaken; [eapply (gathered_tells out (fun _ => True) _ (fun n y l => y.1 = n /\ (y.2 = true -> carries_a_rental_prefix n = true /\ owned ctx n l)))| | |].
    + ls.
    + intros x y. ls.
    + intros n Hn. rewrite elem_of_sorted_names in Hn. eapply tells_then; [ls|apply owns_tells|]. intros b. apply tells_ret. intros l [_ Hb]. split; [done|]. cbn. intros ->. auto.
    + done.
    + intros vs l _ [_ H] y Hy Hy2. destruct (H y Hy) as (n & _ & <- & Hv). auto.
    + ls.
  - apply tells_ret. intros l [_ H] n (y & -> & [Hy ?]%elem_of_bfilter)%list_elem_of_fmap. by apply H.
Qed.
Lemma stack_ids_from ids key : executor_stack_container_ids str_of specs = Ok ids -> key ∈ ids ->
  (STACK_EXCUSE_CAP_ENABLED settings = true -> stack_excuse_is_over_its_cap str_of (STACK_EXCUSE_CORES settings) specs = Ok false) -> of_the_stack key.
Proof.
  unfold executor_stack_container_ids, stack_excuse_is_over_its_cap. intros H Hk Hcap. destruct (jget "docker" specs) as [docker|] eqn:Hd; [|done]. unfold mbind at 1, res_bind at 1 in H.
  destruct (docker_containers str_of specs) as [rows|] eqn:Hr; [|done]. unfold mbind, res_bind in H.
  assert (forall x y : list string, Ok x = Ok y -> x = y) as Hinj by congruence. apply Hinj in H as <-. apply elem_of_bfilter in Hk as [Hk _].
  eexists _, rows. split_and!; [done|by exists docker| |].
  - apply elem_of_cons in Hk as [->|Hk]; [by left|right]. destruct (String.eqb _ "") eqn:He in Hk; [by apply elem_of_nil in Hk|]. apply String.eqb_neq in He.
    destruct (List.filter _ rows) as [|mine rest] eqn:Hm in Hk, He; [done|].
    assert (mine ∈ List.filter (fun r => String.eqb (row_container_id r) (match docker with JObj d => text_field str_of "container_id" d | _ => "" end)) rows) as [? ?%String.eqb_eq]%elem_of_bfilter by (rewrite Hm; set_solver).
    apply list_elem_of_fmap in Hk as (twin & -> & [? ?%String.eqb_eq]%elem_of_bfilter). by exists mine, twin.
  - intros Hc n cores He. specialize (Hcap Hc). rewrite He in Hcap. by injection Hcap.
Qed.
Lemma infra_names_from excused names key : infra_container_names str_of specs excused = Ok names -> key ∈ names -> of_the_infrastructure key.
Proof.
  unfold infra_container_names. destruct (docker_containers str_of specs) as [rows|] eqn:Hr; [|done]. cbn -[num_sum]. intros [= <-] Hk.
  destruct (above _ _) eqn:Ha in Hk; [by apply elem_of_nil in Hk|]. apply list_elem_of_fmap in Hk as (row & -> & [? ?]%elem_of_bfilter). by exists rows, row, excused.
Qed.
Lemma containers_tell : tells (fun _ => True) (lium_containers str_of ctx settings) (fun keys l => forall ks, keys = Some ks -> fair_keys ks l).
Proof.
  unfold lium_containers. destruct (uc_rented_data ctx); [|by apply tells_ret]. cbn zeta.
  eapply tells_then; [ls|apply late_tells|intros late]. eapply tells_then with (mid := fun ids _ => executor_stack_container_ids str_of specs = Ok ids); [ls|by apply tells_of_res|intros ids].
  eapply tells_then with (mid := fun capped _ => (if STACK_EXCUSE_CAP_ENABLED settings then stack_excuse_is_over_its_cap str_of (STACK_EXCUSE_CORES settings) specs else Ok false) = Ok capped); [ls|by apply tells_of_res|intros capped].
  set (stack := if capped : bool then [] else ids). eapply tells_then with (mid := fun infra _ => infra_container_names str_of specs stack = Ok infra); [ls|by apply tells_of_res|intros infra].
  apply tells_ret. intros l [[[[_ Hl] Hi] Hc] Hf] ks [= <-]. split.
  - intros k [Hk _]%elem_of_bfilter. rewrite !elem_of_app in Hk. destruct Hk as [[Hk|Hk]|[Hk|[Hk|Hk]]]; unfold earned; [auto|auto|right; right; left; by apply Hl| |].
    + do 3 right. left. subst stack. destruct capped; [by apply elem_of_nil in Hk|]. eapply stack_ids_from; [exact Hi|exact Hk|]. intros Hcap. by rewrite Hcap in Hc.
    + do 4 right. by eapply infra_names_from.
  - intros k Hk Hne. apply elem_of_bfilter. split; [set_solver|]. unfold not_empty. apply negb_true_iff. by apply String.eqb_neq.
Qed.

(** ** Two readings *)

(** A reading of two cores or more. *)
Definition reads_high (reading : res (option num)) : Prop := exists q, reading = Ok (Some (Fin q)) /\ (2 <= q)%Q.
(** The scrape, and then the node asked once more, with these containers taken out. *)
Definition seen_twice (keys : list string) (l : list u_event) : Prop :=
  (exists core_count, advertised_cpu_count specs = Ok core_count /\ reads_high (scraped_cpu_cores str_of specs core_count (Some keys))) /\
  exists sample, SaidSample sample ∈ l /\ rs_success sample = true /\
    exists before rows after, split_text "@@@" (rs_stdout sample) = [before; rows; after] /\ reads_high (parse_resampled_cpu_cores before rows after keys).

Lemma cores_finite host rows keys c : provider_cores_outside_lium host rows keys = Ok c -> exists q, c = Fin q.
Proof.
  unfold provider_cores_outside_lium, mbind, res_bind, int_quot. intros H. repeat case_match; simplify_eq; eauto.
Qed.
Lemma high_finite c : (exists q, c = Fin q) -> is_below 2 (num_or0 (Some c)) = false -> exists q, c = Fin q /\ (2 <= q)%Q.
Proof.
  intros [q ->]. unfold num_or0, is_below, at_least, num_le, num_truthy. exists q. split; [done|]. apply Qleb_le. by repeat case_match; simplify_eq; apply negb_false_iff in H.
Qed.
Lemma scraped_finite core_count keys c : scraped_cpu_cores str_of specs core_count keys = Ok (Some c) -> exists q, c = Fin q.
Proof. unfold scraped_cpu_cores, mbind, res_bind. intros H. repeat case_match; simplify_eq; by eapply cores_finite. Qed.
Lemma resampled_finite before rows after keys c : parse_resampled_cpu_cores before rows after keys = Ok (Some c) -> exists q, c = Fin q.
Proof. unfold parse_resampled_cpu_cores, mbind, res_bind. intros H. repeat case_match; simplify_eq; by eapply cores_finite. Qed.
Lemma unless_some {A} excepted (r : res (option A)) a : unless excepted r = Ok (Some a) -> r = Ok (Some a).
Proof. unfold unless. destruct r; [done|]. by case_bool_decide. Qed.
Lemma resample_tells keys : tells (fun _ => True) (resample_cpu_cores has_runner keys) (fun c l => forall x, c = Some x ->
  exists ks sample, keys = Some ks /\ SaidSample sample ∈ l /\ rs_success sample = true /\
    exists before rows after, split_text "@@@" (rs_stdout sample) = [before; rows; after] /\ parse_resampled_cpu_cores before rows after ks = Ok (Some x)).
Proof.
  unfold resample_cpu_cores. destruct keys as [ks|]; [|by apply tells_ret]. destruct has_runner; cbn [negb]; [|by apply tells_ret].
  eapply tells_then; [ls|apply tells_sample|intros sample]. destruct (rs_success sample) eqn:Hs; cbn [negb]; [|by apply tells_ret].
  destruct (split_text "@@@" (rs_stdout sample)) as [|a [|b [|c [|d t]]]] eqn:Hp; try by apply tells_ret.
  apply tells_of_res. intros r l Hr [_ Hl] x ->. exists ks, sample. split_and!; [done..|]. by exists a, b, c.
Qed.
Lemma measure_tells keys : tells (fun _ => True) (measure_provider_side_load str_of ctx has_runner keys)
  (fun p l => is_cpu_above_limit p = true -> exists ks, keys = Some ks /\ seen_twice ks l).
Proof.
  unfold measure_provider_side_load.
  eapply tells_then with (mid := fun n _ => advertised_cpu_count specs = Ok n); [ls|by apply tells_of_res|intros n].
  eapply tells_then with (mid := fun p _ => compute_provider_side_load str_of specs n keys = Ok p); [ls|by apply tells_of_res|intros measured].
  destruct (is_below _ _) eqn:Hb.
  { apply tells_ret. intros l _ Ha. unfold is_cpu_above_limit in Ha. unfold is_below in Hb. destruct (num_or0 _); try done; by rewrite Ha in Hb. }
  eapply tells_then; [ls|eapply tells_weaken; [apply resample_tells|done|intros a l _ H; exact H|ls]|intros c]. apply tells_ret.
  intros l [[[_ Hn] Hm] Hc] Ha. unfold is_cpu_above_limit in Ha. cbn [pl_cpu_cores] in Ha. destruct c as [x|]; [|done].
  destruct (Hc x eq_refl) as (ks & sample & -> & ? & ? & before & rows & after & ? & Hx). exists ks. split; [done|]. split.
  - exists n. split; [done|]. unfold compute_provider_side_load, mbind, res_bind in Hm. destruct (unless _ _) as [cpu|] eqn:Hu in Hm; [|done]. destruct (unless _ (scraped_disk_kb _)); [|done].
    injection Hm as <-. cbn [pl_cpu_cores] in Hb. destruct cpu as [y|]; [|done]. apply unless_some in Hu. destruct (high_finite y) as (q & -> & ?); [by eapply scraped_finite|done|]. by exists q.
  - exists sample. split_and!; [done..|]. exists before, rows, after. split; [done|]. destruct (high_finite x) as (q & -> & ?); [by eapply resampled_finite| |by exists q].
    unfold is_below. change PROVIDER_SIDE_CPU_CORES_LIMIT with 2 in Ha. by destruct (num_or0 (Some x)); cbn in Ha |- *; rewrite ?Ha.
Qed.

End Verdict.
