(* ===== verification/LoadPrecision.v ===== *)
(** * How exact the reading of the owner's cores is

    In exact arithmetic, the cores [provider_cores_outside_lium] reports against the difference they stand for. *)

From Stdlib Require Import Ascii String Qabs.
From stdpp Require Import strings.
From S2P Require Import Prelude Float64 PyValue HostText ContainerCleanup StaleContainers GpuUsage ProviderLoad.
Import Text.

Local Open Scope list_scope.
Local Open Scope Z_scope.

Section Exact.
#[local] Existing Instance exact_rounding.
(** No machine has so many. *)
Definition MANY : Q := 18446744073709551616.
Definition readable_row (r : ContainerRow) : Prop := exists q, row_cpu_percent r = Some (Fin q) /\ (0 <= q)%Q.
Definition percent_of (r : ContainerRow) : Q := match row_cpu_percent r with Some (Fin q) => q | _ => 0%Q end.
(** The cores of the host without those of Lium's containers. *)
Definition own_cores (host_cores : Q) (rows : list ContainerRow) (keys : list string) : Q :=
  let own := (host_cores - Qsum (map percent_of (List.filter (is_liums keys) rows)) / 100)%Q in if Qleb own 0 then 0%Q else own.

Lemma num_of_exact q : (Qabs q <= 1208925819614629174706176)%Q -> num_of q = Fin q.
Proof.
  intros [H1 H2]%Qabs_Qle_condition. unfold num_of. rewrite rnd_exact. cbn zeta.
  assert (1208925819614629174706176 < inject_Z (2 ^ 1024))%Q as Hb by (vm_compute; reflexivity).
  rewrite inject_Z_opp. set (big := inject_Z (2 ^ 1024)) in *. clearbody big. qsplit; [lra|lra|done].
Qed.
Lemma rhe_near x : (Qabs (inject_Z (Binary64.rhe x) - x) <= 1 # 2)%Q.
Proof.
  apply Qabs_Qle_condition. unfold Binary64.rhe. cbn zeta. pose proof (Qfloor_le x). pose proof (Qlt_floor x) as Hf. rewrite inject_Z_plus in Hf.
  set (f := Qfloor x) in *. qsplit; try destruct (Z.even f); rewrite ?inject_Z_plus; change (inject_Z 1) with 1%Q in *; lra.
Qed.
Lemma sum_exact l : forall a, (0 <= a)%Q -> (forall q, q ∈ l -> 0 <= q)%Q -> (a + Qsum l <= MANY)%Q -> exists s, foldl num_add (Fin a) (map Fin l) = Fin s /\ (s == a + Qsum l)%Q.
Proof.
  induction l as [|q l IH]; intros a Ha Hl Hs; cbn [map foldl]; [exists a; split; [done|]; cbn; lra|]. cbn [Qsum] in Hs |- *.
  assert (0 <= q)%Q by (apply Hl; set_solver). assert (0 <= Qsum l)%Q by (apply Qsum_nonneg; intros; apply Hl; set_solver).
  cbn [num_add]. rewrite num_of_exact. 2:{ unfold MANY in Hs. apply Qabs_Qle_condition. split; lra. }
  destruct (IH (a + q)%Q) as (s & -> & Hs'); [lra|intros; apply Hl; set_solver|lra|]. exists s. split; [done|lra].
Qed.
Lemma reading_is r : readable_row r -> measured_cpu_percent r = Ok (Fin (percent_of r)) /\ (0 <= percent_of r)%Q.
Proof. intros (q & Hq & Hp). unfold measured_cpu_percent, percent_of. rewrite Hq. cbv beta iota. qsplit; [lra|done]. Qed.
Lemma no_reading r : ~ readable_row r -> measured_cpu_percent r = Raise ValueError.
Proof.
  unfold readable_row, measured_cpu_percent. intros H. destruct (row_cpu_percent r) as [[q| |]|]; try done. qsplit; [done|]. by destruct H; exists q.
Qed.
Lemma percents_read rows : (forall r, r ∈ rows -> readable_row r) -> each measured_cpu_percent rows = Ok (map Fin (map percent_of rows)).
Proof.
  induction rows as [|r rows IH]; intros H; [done|]. cbn [each map]. destruct (reading_is r) as [-> _]; [apply H; set_solver|]. cbn. by rewrite IH by set_solver.
Qed.
Lemma percents_void rows r : r ∈ rows -> ~ readable_row r -> each measured_cpu_percent rows = Raise ValueError.
Proof.
  intros Hin Hr. assert (forall r e, measured_cpu_percent r = Raise e -> e = ValueError) as He.
  { intros x e. unfold measured_cpu_percent. intros H. by repeat case_match; simplify_eq. }
  induction rows as [|x rows IH]; [by apply elem_of_nil in Hin|]. cbn [each]. destruct (measured_cpu_percent x) as [y|e] eqn:Hx; [|by rewrite (He _ _ Hx)]. cbn.
  apply elem_of_cons in Hin as [->|Hin]; [by rewrite (no_reading _ Hr) in Hx|]. by rewrite IH.
Qed.
(** [floor(round(x, 3) * 10)] *)
Definition tenths_of (x : Q) : Z := Qfloor (inject_Z (Binary64.rhe (x * 1000)) / 1000 * 10).
Lemma tenths_near x : (x - (1 # 10) - (1 # 2000) < inject_Z (tenths_of x) / 10 <= x + (1 # 2000))%Q /\ ((2 <= x)%Q -> 20 <= tenths_of x).
Proof.
  unfold tenths_of. pose proof (rhe_near (x * 1000)) as [H1 H2]%Qabs_Qle_condition.
  assert ((2 <= x)%Q -> 2000 <= Binary64.rhe (x * 1000)) as H5.
  { intros Hx. rewrite <- (Binary64.rhe_Z 2000). apply Binary64.rhe_mono. change (inject_Z 2000) with (2 * 1000)%Q. lra. }
  set (n := Binary64.rhe (x * 1000)) in *. clearbody n. assert (inject_Z n / 1000 * 10 == inject_Z n * (1 # 100))%Q as He by field.
  pose proof (Qfloor_le (inject_Z n / 1000 * 10)) as H3. pose proof (Qlt_floor (inject_Z n / 1000 * 10)) as H4. rewrite inject_Z_plus in H4.
  assert ((2 <= x)%Q -> 20 <= Qfloor (inject_Z n / 1000 * 10)) as H6.
  { intros Hx. rewrite <- (Qfloor_Z 20). apply Qfloor_resp_le. rewrite He. specialize (H5 Hx). rewrite Zle_Qle in H5. change (inject_Z 2000) with 2000%Q in H5. change (inject_Z 20) with 20%Q. lra. }
  set (t := Qfloor _) in *. clearbody t. rewrite He in H3, H4. change (inject_Z 1) with 1%Q in H4. split; [|exact H6]. split; [apply Qlt_shift_div_l|apply Qle_shift_div_r]; lra.
Qed.
Lemma reported x : (0 <= x)%Q -> (x <= 2 * MANY)%Q ->
  (tenths ← num_floor (num_scale 10 (num_round 3 (Fin x))); int_quot tenths 10) = Ok (Fin (inject_Z (tenths_of x) / 10)).
Proof.
  unfold MANY. intros H0 Hx. pose proof (rhe_near (x * 1000)) as [H1 H2]%Qabs_Qle_condition. destruct (tenths_near x) as [[H3 H4] _]. unfold tenths_of in *.
  cbn [num_round]. change (10 ^ 3) with 1000. change (inject_Z 1000) with 1000%Q. set (n := Binary64.rhe (x * 1000)) in *. clearbody n.
  assert (inject_Z n / 1000 == inject_Z n * (1 # 1000))%Q as He by field. assert (inject_Z n / 1000 * 10 == inject_Z n * (1 # 100))%Q as He' by field.
  rewrite num_of_exact by (apply Qabs_Qle_condition; rewrite He; split; lra). cbn [num_scale]. rewrite num_of_exact by (apply Qabs_Qle_condition; rewrite He'; split; lra).
  unfold mbind, res_bind. cbn [num_floor]. set (t := Qfloor _) in *. clearbody t. unfold int_quot. change (inject_Z 10) with 10%Q.
  rewrite num_of_exact; [done|]. apply Qabs_Qle_condition. split; lra.
Qed.

(** C13. In exact arithmetic the cores reported for the owner are what the host uses and Lium's containers do not, or
    nothing if that is negative, to the tenth of a core below: never more than half a thousandth above it,
    never more than a tenth and half a thousandth below it, in whole tenths; two cores or more are
    reported whenever the difference is two cores, and never when it is below 1.9995.  A container of Lium's
    without a usable reading voids the reading. *)
Theorem cores_reported_to_a_tenth host rows keys :
  let liums := List.filter (is_liums keys) rows in
  let own := own_cores host rows keys in
  (Qabs host <= MANY)%Q -> (Qsum (map percent_of liums) <= MANY)%Q ->
  ((forall r, r ∈ liums -> readable_row r) -> exists tenths c,
     provider_cores_outside_lium (Fin host) rows keys = Ok (Fin c) /\ (c == inject_Z tenths / 10)%Q /\
     (own - (1 # 10) - (1 # 2000) < c)%Q /\ (c <= own + (1 # 2000))%Q /\ ((2 <= own)%Q -> (2 <= c)%Q)) /\
  (forall r, r ∈ liums -> ~ readable_row r -> provider_cores_outside_lium (Fin host) rows keys = Raise ValueError).
Proof.
  intros liums own Hh Hs. split.
  - intros Hr. unfold provider_cores_outside_lium. fold liums. rewrite (percents_read liums Hr). unfold mbind at 1, res_bind at 1.
    assert (forall q, q ∈ map percent_of liums -> 0 <= q)%Q as Hp.
    { intros q (r & -> & Hin)%list_elem_of_fmap. destruct (Hr r Hin) as (x & Hx & ?). unfold percent_of. by rewrite Hx. }
    destruct (sum_exact (map percent_of liums) 0) as (s & Hsum & Hs'); [lra|done|lra|]. unfold num_sum. rewrite Hsum. cbv zeta. cbn [num_div_by].
    assert (0 <= s)%Q as H0 by (rewrite Hs'; pose proof (Qsum_nonneg _ Hp); lra). assert (s / 100 == s * (1 # 100))%Q as He by field.
    apply Qabs_Qle_condition in Hh as [? ?]. unfold MANY in *. rewrite num_of_exact by (apply Qabs_Qle_condition; rewrite He; split; lra).
    unfold num_sub, num_opp. cbn [num_add]. rewrite num_of_exact by (apply Qabs_Qle_condition; rewrite He; split; lra).
    set (y := (host + - (s / 100))%Q). set (x := if Qleb y 0 then 0%Q else y).
    assert (x == own)%Q as Hx. { subst x own. unfold own_cores. fold liums. cbv zeta. assert (y == host - Qsum (map percent_of liums) / 100)%Q as E by (subst y; rewrite Hs'; field). rewrite E. qsplit; [done|exact E]. }
    assert (num_max0 (Fin y) = Fin x) as ->. { subst x. unfold num_max0, above, at_most, num_le. change (inject_Z 0) with 0%Q. by destruct (Qleb y 0). }
    assert (0 <= x)%Q. { subst x. qsplit; lra. } assert (x <= 2 * MANY)%Q. { subst x y. unfold MANY. rewrite He. qsplit; lra. }
    rewrite reported by done. exists (tenths_of x). eexists. split; [done|]. destruct (tenths_near x) as [[? ?] Ht]. clearbody x own. split_and!; [reflexivity|lra|lra|].
    intros Hown. specialize (Ht ltac:(lra)). rewrite Zle_Qle in Ht. change (inject_Z 20) with 20%Q in Ht. apply Qle_shift_div_l; lra.
  - intros r Hin Hr. unfold provider_cores_outside_lium. fold liums. by rewrite (percents_void liums r Hin Hr).
Qed.
End Exact.
