(* ===== verification/CpuTruth.v ===== *)
(** * The cores a kernel lists

    The text of [/sys/devices/system/cpu/present], as the kernel prints it, against what [count_cpu_list] makes of
    it, and the verdict of the CPU truth check on a node that answers with it. *)

From Stdlib Require Import Ascii String.
From stdpp Require Import strings.
From S2P Require Import Prelude Float64 PyValue HostText RentedData Effects ContainerCleanup StaleContainers GpuUsage GpuUsageSafety ProviderLoad.
Import Text.

Local Open Scope string_scope.
Local Open Scope list_scope.
Local Open Scope Z_scope.

(** ** The list of a kernel *)

(** The most CPUs a kernel is built for ([NR_CPUS] of x86-64). *)
Definition NR_CPUS : Z := 8192.
Definition cpu_id (z : Z) : Prop := 0 <= z < NR_CPUS.
Definition run_of_cpus (r : Z * Z) : Prop := cpu_id r.1 /\ cpu_id r.2 /\ r.1 <= r.2.
Definition run_chars (r : Z * Z) : list ascii :=
  if r.1 =? r.2 then chars (str_of_Z r.1) else chars (str_of_Z r.1) ++ "-"%char :: chars (str_of_Z r.2).
Fixpoint list_chars (runs : list (Z * Z)) : list ascii :=
  match runs with
  | [] => []
  | [r] => run_chars r
  | r :: rest => run_chars r ++ ","%char :: list_chars rest
  end.
Definition newline : ascii := ascii_of_nat 10.
(** [0-19,40-59] and a newline *)
Definition cpu_list (runs : list (Z * Z)) : string := of_chars (list_chars runs ++ [newline]).
Definition cpus_of (runs : list (Z * Z)) : Z := foldr (fun r n => r.2 - r.1 + 1 + n) 0 runs.

(** ** Reading it back *)
Lemma chars_of l : chars (of_chars l) = l.
Proof. apply list_ascii_of_string_of_list_ascii. Qed.
Lemma of_chars_nil l : String.eqb (of_chars l) "" = match l with [] => true | _ => false end.
Proof. by destruct l. Qed.

(** Every id a kernel can print is read back. *)
Definition id_reads (z : Z) : bool :=
  bool_decide (py_int (str_of_Z z) = Some z) && forallb is_digit (chars (str_of_Z z)) && negb (String.eqb (str_of_Z z) "").
Lemma ids_read : forallb (fun n => id_reads (Z.of_nat n)) (seq 0 (Z.to_nat NR_CPUS)) = true.
Proof. vm_compute. reflexivity. Qed.
Lemma id_read z : cpu_id z -> py_int (str_of_Z z) = Some z /\ (forall c, c ∈ chars (str_of_Z z) -> is_digit c = true) /\ chars (str_of_Z z) <> [].
Proof.
  intros Hz. pose proof ids_read as H. rewrite forallb_forall in H. specialize (H (Z.to_nat z)). unfold cpu_id in Hz. rewrite Z2Nat.id in H by lia.
  assert (id_reads z = true) as [[Hi%bool_decide_eq_true Hd]%andb_true_iff Hn%negb_true_iff]%andb_true_iff by (apply H, in_seq; lia).
  split_and!; [done| |by destruct (str_of_Z z)]. intros c Hc. rewrite forallb_forall in Hd. apply Hd. by apply list_elem_of_In.
Qed.
Lemma digit_is c : is_digit c = true -> is_space c = false /\ c <> ","%char /\ c <> "-"%char.
Proof.
  unfold is_digit, is_space. rewrite andb_true_iff, !Z.leb_le. intros [? ?]. split_and!; [|by intros ->|by intros ->].
  apply orb_false_iff. split; apply andb_false_iff; rewrite !Z.leb_gt; lia.
Qed.
Lemma lstrip_id l : (forall c, c ∈ l -> is_space c = false) -> lstrip l = l.
Proof. destruct l as [|c l]; [done|]. intros H. cbn. by rewrite (H c) by set_solver. Qed.
Lemma strip_id l : (forall c, c ∈ l -> is_space c = false) -> strip_chars l = l.
Proof. intros H. unfold strip_chars. rewrite (lstrip_id l H), lstrip_id; [apply rev_involutive|]. intros c Hc. apply H. by apply elem_of_rev. Qed.
Lemma strip_newline l : l <> [] -> (forall c, c ∈ l -> is_space c = false) -> strip_chars (l ++ [newline]) = l.
Proof.
  intros Hne H. unfold strip_chars. destruct l as [|c l]; [done|]. assert (is_space c = false) as Hc by (apply H; set_solver). cbn [app lstrip]. rewrite Hc.
  change (c :: l ++ [newline]) with ((c :: l) ++ [newline]). rewrite rev_app_distr. cbn [rev app lstrip]. change (is_space newline) with true. cbn iota.
  rewrite lstrip_id; [change (rev l ++ [c]) with (rev (c :: l)); apply rev_involutive|].
  intros d Hd. apply H. by apply (elem_of_rev (c :: l) d).
Qed.
Lemma split_one sep l : sep ∉ l -> split_chars sep l = [l].
Proof.
  induction l as [|c l IH]; intros H; [done|]. cbn. destruct (Ascii.eqb_spec c sep) as [->|]; [set_solver|]. by rewrite IH by set_solver.
Qed.
Lemma split_app sep l rest : sep ∉ l -> split_chars sep (l ++ sep :: rest) = l :: split_chars sep rest.
Proof.
  induction l as [|c l IH]; intros H; cbn; [by rewrite Ascii.eqb_refl|]. destruct (Ascii.eqb_spec c sep) as [->|]; [set_solver|]. by rewrite IH by set_solver.
Qed.
Lemma partition_app sep l rest : sep ∉ l -> partition_at sep (l ++ sep :: rest) = (l, rest).
Proof.
  induction l as [|c l IH]; intros H; cbn; [by rewrite Ascii.eqb_refl|]. destruct (Ascii.eqb_spec c sep) as [->|]; [set_solver|]. by rewrite IH by set_solver.
Qed.
Lemma within_char c l : chars_within [c] l = bool_decide (c ∈ l).
Proof.
  induction l as [|d l IH]; [done|]. cbn. rewrite IH. destruct (Ascii.eqb_spec c d) as [->|]; cbn; [|]; symmetry; [apply bool_decide_eq_true|apply bool_decide_ext]; set_solver.
Qed.

(** One run: no space, no comma, not empty, and counted. *)
Lemma run_is_read r : run_of_cpus r ->
  run_chars r <> [] /\ ","%char ∉ run_chars r /\ (forall c, c ∈ run_chars r -> is_space c = false) /\ cpu_range (of_chars (run_chars r)) = Some (r.2 - r.1 + 1).
Proof.
  destruct r as [lo hi]. intros (Hlo & Hhi & Hle). cbn [fst snd] in *. destruct (id_read lo Hlo) as (Rl & Dl & Nl), (id_read hi Hhi) as (Rh & Dh & Nh).
  assert (forall z l, chars (str_of_Z z) = l -> of_chars l = str_of_Z z) as Hback by (intros z l <-; apply string_of_list_ascii_of_string).
  assert (forall c, c ∈ chars (str_of_Z lo) -> is_space c = false /\ c <> ","%char /\ c <> "-"%char) as Cl by (intros; apply digit_is; auto).
  assert (forall c, c ∈ chars (str_of_Z hi) -> is_space c = false /\ c <> ","%char /\ c <> "-"%char) as Ch by (intros; apply digit_is; auto).
  unfold run_chars, cpu_range, HostText.within, HostText.partition. cbn [fst snd]. rewrite chars_of. change (chars "-") with ["-"%char]. rewrite within_char. destruct (Z.eqb_spec lo hi) as [->|Hne].
  - split_and!; [done|naive_solver|naive_solver|]. rewrite bool_decide_eq_false_2 by naive_solver. rewrite (Hback hi _ eq_refl), Rh. cbn. f_equal. lia.
  - split_and!; [by destruct (chars (str_of_Z lo))|set_solver| |].
    + intros c [Hc|[->|Hc]%elem_of_cons]%elem_of_app; [naive_solver|done|naive_solver].
    + rewrite bool_decide_eq_true_2 by set_solver. rewrite partition_app by naive_solver. by rewrite (Hback hi _ eq_refl), (Hback lo _ eq_refl), Rh, Rl.
Qed.
Lemma runs_read runs : Forall run_of_cpus runs -> runs <> [] -> list_chars runs <> [] /\ (forall c, c ∈ list_chars runs -> is_space c = false) /\
  forall total, count_parts total (map of_chars (split_chars "," (list_chars runs))) = Some (total + cpus_of runs).
Proof.
  induction runs as [|r runs IH]; [done|]. intros [Hr Hrs]%Forall_cons _. destruct (run_is_read r Hr) as (N & C & S & Rg).
  assert (forall total parts, count_parts total (of_chars (run_chars r) :: parts) = count_parts (total + (r.2 - r.1 + 1)) parts) as Hone.
  { intros total parts. cbn [count_parts]. unfold strip. rewrite chars_of, (strip_id _ S), of_chars_nil, Rg. by destruct (run_chars r). }
  destruct runs as [|r2 runs].
  - cbn [list_chars]. split_and!; [done|done|]. intros total. rewrite split_one by done. cbn [map]. rewrite Hone. cbn. f_equal. lia.
  - destruct (IH Hrs ltac:(done)) as (N2 & S2 & Ht). cbn [list_chars]. fold (list_chars (r2 :: runs)). split_and!; [by destruct (run_chars r)| |].
    + intros c [Hc|[->|Hc]%elem_of_cons]%elem_of_app; [auto|done|auto].
    + intros total. rewrite split_app by done. cbn [map]. rewrite Hone, Ht. cbn [cpus_of foldr]. f_equal. unfold cpus_of. cbn [foldr]. lia.
Qed.
Lemma cpus_nonneg runs : Forall run_of_cpus runs -> 0 <= cpus_of runs.
Proof. unfold cpus_of. induction 1 as [|r rs (_ & _ & ?) _ IH]; cbn; lia. Qed.
Lemma cpus_positive runs : Forall run_of_cpus runs -> runs <> [] -> 0 < cpus_of runs.
Proof. destruct 1 as [|r rs (_ & _ & ?) Hrs%cpus_nonneg]; [done|]. unfold cpus_of in *. cbn. lia. Qed.
Lemma count_reads runs : Forall run_of_cpus runs -> runs <> [] -> count_cpu_list (strip (cpu_list runs)) = Some (cpus_of runs).
Proof.
  intros H Hne. destruct (runs_read runs H Hne) as (N & S & Ht). unfold cpu_list, strip. rewrite chars_of, (strip_newline _ N S). unfold count_cpu_list, split. rewrite of_chars_nil, chars_of, Ht.
  destruct (list_chars runs); [done|]. unfold mbind, option_bind. pose proof (cpus_positive runs H Hne). destruct (Z.eqb_spec (0 + cpus_of runs) 0); [lia|done].
Qed.

(** C14. On a node whose kernel lists its CPUs, in runs of ids below 8192, the CPU truth check compares the advertised
    count with exactly the number of CPUs in the list: it fails the node, and clears the flag scoring gates
    on, when it advertises more than four cores above that number, and only then. *)
Theorem cpu_truth_counts_the_kernels_cpus out is_transport_error ctx runs advertised stderr l :
  Forall run_of_cpus runs -> runs <> [] -> advertised_cpu_count (specs_here ctx) = Ok (Some advertised) ->
  present_of out (length l) = Ok (mkHost 0 (cpu_list runs) stderr) ->
  exists l', perform (u_handle out) (cpu_truth_check ctx is_transport_error) l = (l', Ok
    (if cpus_of runs + 4 <? advertised then mkTruth false (CPU_MISMATCH advertised (cpus_of runs)) false
     else mkTruth true (CPU_OK advertised (cpus_of runs)) true)).
Proof.
  intros Hr Hne Ha Hp. pose proof (count_reads runs Hr Hne) as Hc. set (text := cpu_list runs) in *. clearbody text.
  unfold cpu_truth_check, read_present. rewrite Ha. cbn. rewrite Hp. cbn -[count_cpu_list strip]. rewrite Hc.
  eexists. f_equal. f_equal. unfold CPU_TRUTH_MARGIN_CORES. destruct (Z.ltb_spec 4 (advertised - cpus_of runs)), (Z.ltb_spec (cpus_of runs + 4) advertised); [done|lia|lia|done].
Qed.
