(* ===== verification/PowerCap.v ===== *)
(** * Power caps of the filler jobs

    [services/gpu_power_limit.py]: a cap is set on each GPU before a filler starts, its
    pre-cap limit kept in Redis until it has been set back.  The host (nvidia-smi over
    SSH) is a parameter that may answer anything; Redis keeps its values, but each call
    may be lost before or after it took effect; the clock and the interleaving of the
    sets that run side by side are inputs too.  A Redis value is what its text loads to
    ([None] for text that does not load).  Only the lines that report a change of limit
    are kept of the log, without their texts. *)

From Stdlib Require Import Ascii String.
From stdpp Require Import gmap strings.
From S2P Require Import Prelude Float64 PyValue HostText Effects JobResult IncentiveConfig Readings.

Local Open Scope string_scope.
Local Open Scope list_scope.
Local Open Scope Z_scope.

(** ** Data *)

Record GpuPowerLimit := mkLimit { pl_gpu_uuid : string; pl_watts : Z }.
Record GpuPowerRestoreRecord := mkRecord {
  rr_gpu_uuid : string;
  rr_watts : Z;
  rr_pod_id : string;
  rr_executor_id : string;
  rr_capped_at : Q;
  rr_capped_to_watts : option Z
}.
Record GpuPowerState := mkPower {
  ps_current_watts : Z;
  ps_min_watts : option Z;
  ps_max_watts : option Z;
  ps_default_watts : option Z
}.
Record GpuPowerReadback := mkReadback { rb_watts : option Z; rb_persistence_enabled : option bool }.
Record CappingJob := mkJob { cj_executor_id : string; cj_pod_id : string }.
Record PlannedGpuCaps := mkPlan {
  pg_state_by_uuid : list (string * GpuPowerState);
  pg_clamped_watts_by_uuid : list (string * Z)
}.
(** The failures of a set, by the branch that words them. *)
Inductive set_failure := SetErrored | SetExited (status : Z) | NotReadBack | DidNotStick (watts : Z) | SessionRefused.
Record PowerLimitSetOutcome := mkOutcome {
  so_failure : option set_failure;
  so_persistence_enabled : option bool;
  so_host_refused : bool
}.
Inductive GpuPowerCapResult := APPLIED | HOST_REFUSED | FAILED.
Record GpuPowerRestoreReadResult := mkReadResult {
  rd_records : list GpuPowerRestoreRecord;
  rd_read_failed : bool;
  rd_missing : list string
}.
Record BelowFloorGpu := mkBelowFloor { bf_gpu_uuid : string; bf_current_watts : Z; bf_default_watts : Z }.

Definition MAX_TRACKED_CAP_REVERTS : nat := 50.
Definition STALE_CAP_GRACE_SECONDS : Z := 30 * 60.
Definition POWER_LIMIT_SET_CONCURRENCY : nat := 8.

Definition ChannelOpenError : exc := OtherError "ChannelOpenError".
Definition GpuPowerRestoreStateError : exc := OtherError "GpuPowerRestoreStateError".
Definition RuntimeError : exc := OtherError "RuntimeError".

(** ** Parsing what nvidia-smi prints *)
Section Parsing.
Context `{R : Rounding}.

Definition MIN_POWER_LIMIT_RATIO : Q := rnd (9 # 10).
Definition PEARL_UNCAPPED_RATIO : Q := rnd (9 # 10).
Definition RENTED_MIN_POWER_LIMIT_RATIO : Q := rnd (9 # 10).

(** [_watts_or_none]: [round] of NaN is a ValueError, of an infinity an OverflowError. *)
Definition watts_or_none (raw : string) : res (option Z) :=
  match float_of_str raw with
  | None | Some NaN => Ok None
  | Some (Inf _) => Raise OverflowError
  | Some (Fin q) => Ok (Some (Binary64.rhe q))
  end.

(** [_parse_power_state_csv] *)
Definition parse_power_line (state_by_uuid : list (string * GpuPowerState)) (line : string)
    : res (list (string * GpuPowerState)) :=
  match map Text.strip (Text.split "," line) with
  | [uuid; current_raw; default_raw; min_raw; max_raw] =>
      current_watts ← watts_or_none current_raw;
      match current_watts with
      | Some current =>
          if String.eqb uuid "" then Ok state_by_uuid
          else
            min_watts ← watts_or_none min_raw;
            max_watts ← watts_or_none max_raw;
            default_watts ← watts_or_none default_raw;
            Ok (dset uuid (mkPower current min_watts max_watts default_watts) state_by_uuid)
      | None => Ok state_by_uuid
      end
  | _ => Ok state_by_uuid
  end.
Definition parse_power_state_csv (stdout : string) : res (list (string * GpuPowerState)) :=
  foldM parse_power_line [] (splitlines stdout).

(** [s.partition(",")], without the separator. *)
Fixpoint partition_comma (l : list ascii) : list ascii * list ascii :=
  match l with
  | [] => ([], [])
  | c :: l' => if Ascii.eqb c "," then ([], l') else let '(a, b) := partition_comma l' in (c :: a, b)
  end.
Definition persistence_by_label (label : string) : option bool :=
  if String.eqb label "enabled" then Some true else if String.eqb label "disabled" then Some false else None.
(** [_parse_power_readback_csv] *)
Definition parse_power_readback_csv (stdout : string) : res GpuPowerReadback :=
  let '(watts_raw, persistence_raw) := partition_comma (Text.chars stdout) in
  watts ← watts_or_none (Text.strip (Text.of_chars watts_raw));
  Ok (mkReadback watts (persistence_by_label (Text.lower (Text.strip (Text.of_chars persistence_raw))))).
End Parsing.

(** [_clamp_watts] *)
Definition clamp_watts (target_watts : Z) (state : GpuPowerState) : Z :=
  let watts := match ps_max_watts state with Some m => pyminZ target_watts m | None => target_watts end in
  match ps_min_watts state with Some m => pymaxZ watts m | None => watts end.

(** ** Calls to the outside *)

Inductive ssh_command :=
| QueryPowerState                       (* POWER_STATE_CMD *)
| EnablePersistence (uuid : string)     (* nvidia-smi -i uuid -pm 1 *)
| SetLimit (uuid : string) (watts : Z)  (* nvidia-smi -i uuid -pl watts *)
| ReadBack (uuid : string).             (* --query-gpu=power.limit,persistence_mode *)

Inductive set_action := Cap | Restore | Raised.
(** The log line of a change of limit: what was asked, and how it ended. *)
Record ChangeLine := mkLine {
  ln_action : set_action;
  ln_executor_uuid : string;
  ln_gpu_uuid : string;
  ln_watts_before : option Z;
  ln_watts_after : Z;
  ln_ok : bool;
  ln_persistence_enabled : option bool
}.

Inductive call_of : Type -> Type :=
| GetRecord (gpu_uuid : string) : call_of (res (option (option GpuPowerRestoreRecord)))
| SetRecord (gpu_uuid : string) (record : GpuPowerRestoreRecord) : call_of (res unit)
| DeleteRecord (gpu_uuid : string) : call_of (res unit)
| GetIndex (pod_id : string) : call_of (res (option (option json)))
| SetIndex (pod_id : string) (gpu_uuids : list string) : call_of (res unit)
| DeleteIndex (pod_id : string) : call_of (res unit)
| GetReverts (executor_id : string) : call_of (res (option (option (list GpuPowerCapRevert))))
| SetReverts (executor_id : string) (reverts : list GpuPowerCapRevert) : call_of (res unit)
| Run (cmd : ssh_command) : call_of (res (Z * string))
| Time : call_of Q
| Logged (line : ChangeLine) : call_of unit.

Record Outside := mkOutside { fate_of : nat -> fate; clock_at : nat -> Q; schedule_at : nat -> list nat }.

Section World.
Context {H : Type} (host_run : H -> ssh_command -> H * res (Z * string)) (out : Outside).

Record World := mkWorld {
  host : H;
  restore_records : gmap string (option GpuPowerRestoreRecord);
  pod_indexes : gmap string (option json);
  revert_histories : gmap string (option (list GpuPowerCapRevert) * Q);
  change_log : list ChangeLine;
  tick : nat
}.
Definition ticked (w : World) : World :=
  mkWorld (host w) (restore_records w) (pod_indexes w) (revert_histories w) (change_log w) (S (tick w)).
Definition with_records (m : gmap string (option GpuPowerRestoreRecord)) (w : World) : World :=
  mkWorld (host w) m (pod_indexes w) (revert_histories w) (change_log w) (tick w).
Definition with_indexes (m : gmap string (option json)) (w : World) : World :=
  mkWorld (host w) (restore_records w) m (revert_histories w) (change_log w) (tick w).
Definition with_histories (m : gmap string (option (list GpuPowerCapRevert) * Q)) (w : World) : World :=
  mkWorld (host w) (restore_records w) (pod_indexes w) m (change_log w) (tick w).
Definition with_line (l : ChangeLine) (w : World) : World :=
  mkWorld (host w) (restore_records w) (pod_indexes w) (revert_histories w) (change_log w ++ [l]) (tick w).
Definition with_host (h : H) (w : World) : World :=
  mkWorld h (restore_records w) (pod_indexes w) (revert_histories w) (change_log w) (tick w).

Definition read_redis {A} (w : World) (v : A) : World * res A :=
  match fate_of out (tick w) with Done => (ticked w, Ok v) | _ => (ticked w, Raise RedisDown) end.
Definition write_redis (f : World -> World) (w : World) : World * res unit :=
  match fate_of out (tick w) with
  | Done => (ticked (f w), Ok tt)
  | Lost => (ticked w, Raise RedisDown)
  | DoneUnanswered => (ticked (f w), Raise RedisDown)
  end.

(** A history expires with its key. *)
Definition history_at (now : Q) (o : option (option (list GpuPowerCapRevert) * Q)) : option (option (list GpuPowerCapRevert)) :=
  match o with Some (h, expires) => if Qleb expires now then None else Some h | None => None end.

Definition handle (X : Type) (c : call_of X) : World -> World * X :=
  match c in call_of X return World -> World * X with
  | GetRecord g => fun w => read_redis w (restore_records w !! g)
  | SetRecord g r => fun w => write_redis (with_records (<[g := Some r]> (restore_records w))) w
  | DeleteRecord g => fun w => write_redis (with_records (delete g (restore_records w))) w
  | GetIndex p => fun w => read_redis w (pod_indexes w !! p)
  | SetIndex p us => fun w => write_redis (with_indexes (<[p := Some (JList (map JStr us))]> (pod_indexes w))) w
  | DeleteIndex p => fun w => write_redis (with_indexes (delete p (pod_indexes w))) w
  | GetReverts e => fun w => read_redis w (history_at (clock_at out (tick w)) (revert_histories w !! e))
  | SetReverts e rs => fun w =>
      write_redis (with_histories
        (<[e := (Some rs, (clock_at out (tick w) + inject_Z CAP_REVERT_WINDOW_SECONDS)%Q)]> (revert_histories w))) w
  | Run cmd => fun w => let '(h, answer) := host_run (host w) cmd in (ticked (with_host h w), answer)
  | Time => fun w => (ticked w, clock_at out (tick w))
  | Logged l => fun w => (with_line l w, tt)
  end.

Definition sequentially {A} (p : prog call_of A) : act World A := perform handle p.
End World.
#[global] Arguments World : clear implicits.

(** ** One verified set *)
Section Sets.
Context `{R : Rounding}.
Notation P := (prog call_of).

(** [_query_power_state]; a pre-run probe that holds the section stands for the query. *)
Definition query_power_state (host_probe : option string) : P (list (string * GpuPowerState)) :=
  match host_probe with
  | Some stdout => of_res (parse_power_state_csv stdout)
  | None =>
      answer ← call (Run QueryPowerState);
      match answer with
      | Raise e => Exc e
      | Ok (status, stdout) =>
          if negb (status =? 0) then Exc RuntimeError else of_res (parse_power_state_csv stdout)
      end
  end.

(** [_enable_persistence_mode]: never raises. *)
Definition enable_persistence_mode (uuid : string) : P unit :=
  _ ← call (Run (EnablePersistence uuid)); Ret tt.

(** [_read_back_power_state] *)
Definition read_back_power_state (uuid : string) : P GpuPowerReadback :=
  answer ← call (Run (ReadBack uuid));
  match answer with
  | Raise e => if decide (e = ChannelOpenError) then Exc e else Ret (mkReadback None None)
  | Ok (status, stdout) =>
      if negb (status =? 0) then Ret (mkReadback None None) else of_res (parse_power_readback_csv stdout)
  end.

(** [_set_power_limit] *)
Definition set_power_limit (uuid : string) (watts : Z) : P PowerLimitSetOutcome :=
  answer ← call (Run (SetLimit uuid watts));
  match answer with
  | Raise e => if decide (e = ChannelOpenError) then Exc e else Ret (mkOutcome (Some SetErrored) None false)
  | Ok (status, _) =>
      if negb (status =? 0) then Ret (mkOutcome (Some (SetExited status)) None true)
      else
        readback ← read_back_power_state uuid;
        match rb_watts readback with
        | None => Ret (mkOutcome (Some NotReadBack) (rb_persistence_enabled readback) false)
        | Some found =>
            if negb (found =? watts)
            then Ret (mkOutcome (Some (DidNotStick found)) (rb_persistence_enabled readback) true)
            else Ret (mkOutcome None (rb_persistence_enabled readback) false)
        end
  end.

Definition succeeded (o : PowerLimitSetOutcome) : bool := match so_failure o with None => true | Some _ => false end.

(** The common signature of the two setters. *)
Definition setter : Type := set_action -> string -> string -> option Z -> Z -> P PowerLimitSetOutcome.

(** [_set_and_log_power_limit] *)
Definition set_and_log_power_limit : setter := fun action executor_id gpu_uuid watts_before watts_after =>
  _ ← enable_persistence_mode gpu_uuid;
  set_outcome ← set_power_limit gpu_uuid watts_after;
  _ ← call (Logged (mkLine action executor_id gpu_uuid watts_before watts_after (succeeded set_outcome)
                      (so_persistence_enabled set_outcome)));
  Ret set_outcome.

(** [_set_alone] *)
Definition set_alone : setter := fun action executor_id gpu_uuid watts_before watts_after =>
  try_except (set_and_log_power_limit action executor_id gpu_uuid watts_before watts_after)
    (fun e => if decide (e = ChannelOpenError)
              then Some (_ ← call (Logged (mkLine action executor_id gpu_uuid watts_before watts_after false None));
                         Ret (mkOutcome (Some SessionRefused) None false))
              else None).

(** ** Restore records *)

(** [_ensure_restore_record] *)
Definition ensure_restore_record (gpu_uuid : string) (pre_cap_watts : Z) (pod_id executor_id : string) : P bool :=
  existing ← call (GetRecord gpu_uuid);
  match existing with
  | Raise _ => Ret false
  | Ok (Some _) => Ret true
  | Ok None =>
      now ← call Time;
      stored ← call (SetRecord gpu_uuid (mkRecord gpu_uuid pre_cap_watts pod_id executor_id now None));
      Ret (match stored with Ok _ => true | Raise _ => false end)
  end.

Definition refreshed (record : GpuPowerRestoreRecord) (capped_to_watts : option Z) (capped_by : option CappingJob)
    : GpuPowerRestoreRecord :=
  mkRecord (rr_gpu_uuid record) (rr_watts record)
    (match capped_by with Some j => cj_pod_id j | None => rr_pod_id record end)
    (match capped_by with Some j => cj_executor_id j | None => rr_executor_id record end)
    (rr_capped_at record) capped_to_watts.
(** [_set_applied_cap_on_restore_record] *)
Definition set_applied_cap_on_restore_record (gpu_uuid : string) (capped_to_watts : option Z) (capped_by : option CappingJob)
    : P unit :=
  raw ← call (GetRecord gpu_uuid);
  match raw with
  | Ok (Some (Some record)) =>
      _ ← call (SetRecord gpu_uuid (refreshed record capped_to_watts capped_by)); Ret tt
  | _ => Ret tt
  end.

(** [read_gpu_power_restore_records] *)
Definition read_record_step (require_complete : bool) (acc : GpuPowerRestoreReadResult) (gpu_uuid : string)
    : P GpuPowerRestoreReadResult :=
  raw ← call (GetRecord gpu_uuid);
  match raw with
  | Raise _ =>
      if require_complete then Exc GpuPowerRestoreStateError
      else Ret (mkReadResult (rd_records acc) true (rd_missing acc))
  | Ok None => Ret (mkReadResult (rd_records acc) (rd_read_failed acc) (rd_missing acc ++ [gpu_uuid]))
  | Ok (Some None) => if require_complete then Exc GpuPowerRestoreStateError else Ret acc
  | Ok (Some (Some record)) =>
      if require_complete && negb (String.eqb (rr_gpu_uuid record) gpu_uuid) then Exc GpuPowerRestoreStateError
      else Ret (mkReadResult (rd_records acc ++ [record]) (rd_read_failed acc) (rd_missing acc))
  end.
Definition read_gpu_power_restore_records (gpu_uuids : list string) (require_complete : bool)
    : P GpuPowerRestoreReadResult :=
  pfold (read_record_step require_complete) (mkReadResult [] false []) gpu_uuids.

(** [_delete_pod_index] *)
Definition delete_pod_index (pod_id : string) (require_complete : bool) : P unit :=
  gone ← call (DeleteIndex pod_id);
  match gone with
  | Ok _ => Ret tt
  | Raise _ => if require_complete then Exc GpuPowerRestoreStateError else Ret tt
  end.

(** [restore_one] of [_restore_records]: whether it restored the GPU, and whether its
    record could not be cleared. *)
Definition restore_one (state_by_uuid : list (string * GpuPowerState)) (record : GpuPowerRestoreRecord) (set : setter)
    : P (bool * bool) :=
  let watts_before := ps_current_watts <$> dget (rr_gpu_uuid record) state_by_uuid in
  _ ← (match rr_capped_to_watts record with
       | Some _ => set_applied_cap_on_restore_record (rr_gpu_uuid record) None None
       | None => Ret tt
       end);
  outcome ← set Restore (rr_executor_id record) (rr_gpu_uuid record) watts_before (rr_watts record);
  if negb (succeeded outcome) then Ret (false, false)
  else
    gone ← call (DeleteRecord (rr_gpu_uuid record));
    Ret (match gone with Ok _ => (true, false) | Raise _ => (false, true) end).

(** [raise_one] of [raise_low_power_limits_to_default] *)
Definition raise_one (executor_id : string) (target : BelowFloorGpu) (set : setter) : P (bool * bool) :=
  outcome ← set Raised executor_id (bf_gpu_uuid target) (Some (bf_current_watts target)) (bf_default_watts target);
  Ret (succeeded outcome, false).
End Sets.

(** ** The operations *)
Section Operations.
Context `{R : Rounding} {H : Type} (host_run : H -> ssh_command -> H * res (Z * string)) (out : Outside).
(** [str(v)] of a JSON value that is not a string. *)
Context (str_of_other : json -> string).
Notation M := (act (World H)).
Notation run := (sequentially host_run out).

(** [guarded] of [_set_side_by_side]: [None] for a session the host refused. *)
Definition guarded (p : prog call_of (bool * bool)) : prog call_of (option (bool * bool)) :=
  try_except (r ← p; Ret (Some r)) (fun e => if decide (e = ChannelOpenError) then Some (Ret None) else None).

(** The exception that leaves [gather]: the tasks run on, and are run to their end here. *)
Fixpoint all_ok {A} (os : list (res A)) : res (list A) :=
  match os with
  | [] => Ok []
  | o :: os' => a ← o; l ← all_ok os'; Ok (a :: l)
  end.

Fixpoint set_refused {T} (set_one : T -> setter -> prog call_of (bool * bool)) (targets : list T)
    (acc : Z * bool) : prog call_of (Z * bool) :=
  match targets with
  | [] => Ret acc
  | t :: rest =>
      r ← set_one t set_alone;
      set_refused set_one rest (acc.1 + (if r.1 : bool then 1 else 0), acc.2 || r.2)
  end.

(** [_set_side_by_side]: the count of GPUs set, and whether a record could not be cleared. *)
Definition set_side_by_side {T} (targets : list T) (set_one : T -> setter -> prog call_of (bool * bool)) (concurrency : nat)
    : M (Z * bool) := fun w =>
  let '(w1, os) := gather (handle host_run out) concurrency (schedule_at out (tick w))
    (map (fun t => guarded (set_one t set_and_log_power_limit)) targets) w in
  match all_ok os with
  | Raise e => (w1, Raise e)
  | Ok outcomes =>
      let done := Z.of_nat (length (List.filter (fun o => match o with Some (true, _) => true | _ => false end) outcomes)) in
      let clear_failed := existsb (fun o => match o with Some (_, true) => true | _ => false end) outcomes in
      let refused := map fst (List.filter (fun to => match to.2 with None => true | _ => false end) (zip targets outcomes)) in
      run (set_refused set_one refused (done, clear_failed)) w1
  end.

(** [_restore_records] *)
Definition restore_records_of (records : list GpuPowerRestoreRecord) (state_by_uuid : list (string * GpuPowerState))
    (concurrency : nat) (require_complete : bool) : M Z :=
  r ← set_side_by_side records (restore_one state_by_uuid) concurrency;
  if require_complete && r.2 then raise GpuPowerRestoreStateError else mret r.1.

(** Below the floor a rented GPU must hold, or not known to be above it. *)
Definition below_rented_floor (state_by_uuid : list (string * GpuPowerState)) (gpu_uuid : string) : bool :=
  match dget gpu_uuid state_by_uuid with
  | Some (mkPower current _ _ (Some default_watts)) => Qltb (inject_Z current) (fmul RENTED_MIN_POWER_LIMIT_RATIO (fint default_watts))
  | _ => true
  end.

(** [restore_tracked_gpu_power_limits] *)
Definition restore_tracked_gpu_power_limits (gpu_uuids : list string) (host_probe : option string) (concurrency : nat)
    (require_complete : bool) : M Z :=
  read_result ← run (read_gpu_power_restore_records gpu_uuids require_complete);
  let check_missing := require_complete && match rd_missing read_result with [] => false | _ => true end in
  let no_records := match rd_records read_result with [] => true | _ => false end in
  if no_records && negb check_missing then mret 0
  else
    state_by_uuid ← run (try_except (query_power_state host_probe)
      (fun _ => Some (if check_missing then Exc GpuPowerRestoreStateError else Ret [])));
    if check_missing && existsb (below_rented_floor state_by_uuid) (rd_missing read_result) then raise GpuPowerRestoreStateError
    else if no_records then mret 0
    else
      restored ← restore_records_of (rd_records read_result) state_by_uuid concurrency require_complete;
      if require_complete && negb (restored =? Z.of_nat (length (rd_records read_result))) then raise RuntimeError
      else mret restored.

(** [restore_all_host_gpu_power_limits] *)
Definition restore_all_host_gpu_power_limits (host_probe : option string) (concurrency : nat) : M Z :=
  state_by_uuid ← run (try_except (r ← query_power_state host_probe; Ret (Some r)) (fun _ => Some (Ret None)));
  match state_by_uuid with
  | None => mret 0
  | Some state_by_uuid =>
      read_result ← run (read_gpu_power_restore_records (dkeys state_by_uuid) false);
      match rd_records read_result with
      | [] => mret 0
      | records => restore_records_of records state_by_uuid concurrency false
      end
  end.

(** [raise_low_power_limits_to_default] *)
Definition below_floor (state_by_uuid : list (string * GpuPowerState)) (gpu_uuid : string) : list BelowFloorGpu :=
  match dget gpu_uuid state_by_uuid with
  | Some (mkPower current _ _ (Some default_watts)) =>
      if Qleb (fmul MIN_POWER_LIMIT_RATIO (fint default_watts)) (inject_Z current) then []
      else [mkBelowFloor gpu_uuid current default_watts]
  | _ => []
  end.
Definition raise_low_power_limits_to_default (executor_id : string) (gpu_uuids : option (list string)) (concurrency : nat) : M Z :=
  state_by_uuid ← run (try_except (r ← query_power_state None; Ret (Some r)) (fun _ => Some (Ret None)));
  match state_by_uuid with
  | None => mret 0
  | Some state_by_uuid =>
      let target_uuids := match gpu_uuids with Some (u :: us) => u :: us | _ => dkeys state_by_uuid end in
      match flat_map (below_floor state_by_uuid) target_uuids with
      | [] => mret 0
      | targets => r ← set_side_by_side targets (raise_one executor_id) concurrency; mret r.1
      end
  end.

(** The GPUs a stored pod index names. *)
Definition strings_of (v : json) : res (list string) :=
  l ← jiter v; Ok (map (fun u => match u with JStr s => s | _ => str_of_other u end) l).
Definition is_uuid_list (v : json) : bool :=
  match v with
  | JList l => negb (existsb (fun u => match u with JStr s => String.eqb s "" | _ => true end) l)
  | _ => false
  end.
Definition decode_index (raw : option json) (require_complete : bool) : option (list string) :=
  match raw with
  | None => None
  | Some v =>
      if require_complete && negb (is_uuid_list v) then None
      else match strings_of v with Ok l => Some l | Raise _ => None end
  end.

(** [restore_filler_pod_gpu_power_limits] *)
Definition restore_filler_pod_gpu_power_limits (pod_id : string) (require_complete : bool) : M Z :=
  raw_index ← run (call (GetIndex pod_id));
  match raw_index with
  | Raise _ => if require_complete then raise GpuPowerRestoreStateError else mret 0
  | Ok None => mret 0
  | Ok (Some raw) =>
      match decode_index raw require_complete with
      | None =>
          if require_complete then raise GpuPowerRestoreStateError
          else _ ← run (delete_pod_index pod_id false); mret 0
      | Some capped_uuids =>
          restored ← restore_tracked_gpu_power_limits capped_uuids None POWER_LIMIT_SET_CONCURRENCY require_complete;
          _ ← run (delete_pod_index pod_id require_complete);
          mret restored
      end
  end.

(** [clear_filler_pod_applied_caps] *)
Definition clear_step (cleared : list (string * Z)) (gpu_uuid : string) : prog call_of (list (string * Z)) :=
  raw ← call (GetRecord gpu_uuid);
  _ ← set_applied_cap_on_restore_record gpu_uuid None None;
  Ret (match raw with
       | Ok (Some (Some record)) =>
           match rr_capped_to_watts record with Some watts => dset gpu_uuid watts cleared | None => cleared end
       | _ => cleared
       end).
Definition clear_filler_pod_applied_caps (pod_id : string) : prog call_of (list (string * Z)) :=
  raw_index ← call (GetIndex pod_id);
  match raw_index with
  | Raise _ => Ret []
  | Ok None => Ret []
  | Ok (Some None) => Ret []
  | Ok (Some (Some v)) =>
      match strings_of v with
      | Raise _ => Ret []
      | Ok capped_uuids => pfold clear_step [] capped_uuids
      end
  end.

(** [restore_filler_pod_applied_caps] *)
Definition restore_filler_pod_applied_caps (claims : list (string * Z)) : prog call_of unit :=
  pfold (fun _ c => set_applied_cap_on_restore_record c.1 (Some c.2) None) tt claims.

(** [_undo_partial_apply] *)
Definition undo_partial_apply (gpu_uuids : list string) (pod_id : string) : M unit :=
  _ ← run (pfold (fun _ g => set_applied_cap_on_restore_record g None None) tt gpu_uuids);
  _ ← restore_tracked_gpu_power_limits gpu_uuids None POWER_LIMIT_SET_CONCURRENCY false;
  run (delete_pod_index pod_id false).

(** [_plan_gpu_caps] *)
Definition clamped_watts_by_uuid (state_by_uuid : list (string * GpuPowerState)) (gpu_power_limits : list GpuPowerLimit)
    : option (list (string * Z)) :=
  fold_left (fun acc t => d ← acc; s ← dget (pl_gpu_uuid t) state_by_uuid; Some (dset (pl_gpu_uuid t) (clamp_watts (pl_watts t) s) d))
    gpu_power_limits (Some []).
Definition plan_gpu_caps (gpu_power_limits : list GpuPowerLimit) : prog call_of (option PlannedGpuCaps) :=
  state_by_uuid ← try_except (r ← query_power_state None; Ret (Some r)) (fun _ => Some (Ret None));
  Ret (s ← state_by_uuid; c ← clamped_watts_by_uuid s gpu_power_limits; Some (mkPlan s c)).

(** The loops of [apply_filler_gpu_power_limits]: the records, then the caps. *)
Fixpoint ensure_records (planned : PlannedGpuCaps) (pod_id executor_id : string) (gpu_power_limits : list GpuPowerLimit)
    : prog call_of bool :=
  match gpu_power_limits with
  | [] => Ret true
  | t :: rest =>
      match dget (pl_gpu_uuid t) (pg_state_by_uuid planned) with
      | None => Exc KeyError
      | Some state =>
          stored ← ensure_restore_record (pl_gpu_uuid t) (ps_current_watts state) pod_id executor_id;
          if stored : bool then ensure_records planned pod_id executor_id rest else Ret false
      end
  end.
(** all_set, host_refused and the GPUs capped with persistence. *)
Definition cap_step (planned : PlannedGpuCaps) (executor_id : string) (acc : bool * bool * list string) (t : GpuPowerLimit)
    : prog call_of (bool * bool * list string) :=
  let '(all_set, host_refused, persistent) := acc in
  match dget (pl_gpu_uuid t) (pg_state_by_uuid planned), dget (pl_gpu_uuid t) (pg_clamped_watts_by_uuid planned) with
  | Some state, Some watts =>
      outcome ← set_alone Cap executor_id (pl_gpu_uuid t) (Some (ps_current_watts state)) watts;
      Ret (if negb (succeeded outcome) then (false, host_refused || so_host_refused outcome, persistent)
           else if match so_persistence_enabled outcome with Some true => true | _ => false end
           then (all_set, host_refused, persistent ++ [pl_gpu_uuid t])
           else (all_set, host_refused, persistent))
  | _, _ => Exc KeyError
  end.

Definition set_caps (planned : PlannedGpuCaps) (gpu_power_limits : list GpuPowerLimit) (pod_id executor_id : string)
    : M GpuPowerCapResult :=
  caps ← run (pfold (cap_step planned executor_id) (true, false, []) gpu_power_limits);
  let '(all_set, host_refused, persistent) := caps in
  if negb all_set
  then _ ← undo_partial_apply (map pl_gpu_uuid gpu_power_limits) pod_id; mret (if host_refused : bool then HOST_REFUSED else FAILED)
  else
    _ ← run (pfold (fun _ g => set_applied_cap_on_restore_record g (dget g (pg_clamped_watts_by_uuid planned))
                                 (Some (mkJob executor_id pod_id))) tt persistent);
    mret APPLIED.

(** [apply_filler_gpu_power_limits] *)
Definition apply_filler_gpu_power_limits (gpu_power_limits : list GpuPowerLimit) (pod_id executor_id : string)
    : M GpuPowerCapResult :=
  planned ← run (plan_gpu_caps gpu_power_limits);
  match planned with
  | None => mret FAILED
  | Some planned =>
      let target_uuids := map pl_gpu_uuid gpu_power_limits in
      recorded ← run (ensure_records planned pod_id executor_id gpu_power_limits);
      if negb recorded then _ ← undo_partial_apply target_uuids pod_id; mret FAILED
      else
        indexed ← run (call (SetIndex pod_id target_uuids));
        match indexed with
        | Raise _ => _ ← undo_partial_apply target_uuids pod_id; mret FAILED
        | Ok _ => set_caps planned gpu_power_limits pod_id executor_id
        end
  end.
End Operations.
