(* ===== verification/PowerRestore.v ===== *)
(** * The way back from a power cap

    What the operations of [PowerCap] keep, whatever the host, Redis and the schedule
    do: a stored pre-cap limit is never changed, and its record goes only after the
    limit has been set back and read back; a cap is set only on a GPU whose pre-cap
    limit is stored. *)

From Stdlib Require Import String.
From stdpp Require Import gmap strings.
From S2P Require Import Prelude Float64 PyValue Effects JobResult IncentiveConfig Readings PowerCap.

Local Open Scope string_scope.
Local Open Scope list_scope.
Local Open Scope Z_scope.

Section WayBack.
Context `{R : Rounding} {H : Type} (host_run : H -> ssh_command -> H * res (Z * string)) (out : Outside).
Context (str_of_other : json -> string).
Notation hdl := (handle host_run out).
Notation run := (sequentially host_run out).

(** Every record is one this code wrote: it loads, and is kept under its own GPU. *)
Definition well_kept (m : gmap string (option GpuPowerRestoreRecord)) : Prop :=
  forall g o, m !! g = Some o -> exists r, o = Some r /\ rr_gpu_uuid r = g.
(** The pre-cap limit stored for a GPU. *)
Definition stored_limit (w : World H) (g : string) : option Z := o ← restore_records w !! g; rr_watts <$> o.
(** A line says that a GPU was set back to a limit and read back there. *)
Definition says_restored (g : string) (watts : Z) (l : ChangeLine) : Prop :=
  ln_action l = Restore /\ ln_gpu_uuid l = g /\ ln_watts_after l = watts /\ ln_ok l = true.
Definition restored_in (new : list ChangeLine) (g : string) (watts : Z) : Prop := exists l, l ∈ new /\ says_restored g watts l.

(** ** The protocol of the code that runs side by side

    [V] gives the limits that may be stored, [V0] those that were stored at the start
    and must not be lost; [may_clear] says whether records may be deleted. *)
Section Protocols.
Context (may_clear : bool) (V0 V : string -> option Z) (old : list ChangeLine).
Context (HV0 : forall g v, V0 g = Some v -> V g = Some v).

Definition frozen_inv (w : World H) : Prop :=
  well_kept (restore_records w) /\
  (forall g v, stored_limit w g = Some v -> V g = Some v) /\
  exists new, change_log w = old ++ new /\
    (forall g v, V0 g = Some v -> stored_limit w g = Some v \/ (may_clear = true /\ restored_in new g v)) /\
    (forall l, l ∈ new -> ln_action l = Cap -> may_clear = false /\ is_Some (stored_limit w (ln_gpu_uuid l))).

(** A program knows lines of the log, and GPUs that have a record. *)
Definition frozen : Protocol call_of (World H) := {|
  knows := list ChangeLine * list string;
  holds k w := (exists new, change_log w = old ++ new /\ k.1 ⊆ new) /\
               (may_clear = false -> forall g, g ∈ k.2 -> is_Some (stored_limit w g));
  inv := frozen_inv;
  allowed k X c := match c with
    | SetRecord g r => rr_gpu_uuid r = g /\ V g = Some (rr_watts r)
    | DeleteRecord g => may_clear = true /\ exists v, V g = Some v /\ restored_in k.1 g v
    | Logged l => ln_action l = Cap -> may_clear = false /\ ln_gpu_uuid l ∈ k.2
    | _ => True
    end;
  answers k X c := match c in call_of X return X -> Prop with
    | GetRecord g => fun x =>
        (forall o, x = Ok (Some o) -> exists r, o = Some r /\ rr_gpu_uuid r = g /\ V g = Some (rr_watts r)) /\
        (x = Ok None -> may_clear = false -> V0 g = None)
    | _ => fun _ => True
    end;
  learns k X c := match c in call_of X return X -> list ChangeLine * list string with
    | GetRecord g => fun x => match x with Ok (Some _) => (k.1, g :: k.2) | _ => k end
    | SetRecord g _ => fun x => match x with Ok _ => (k.1, g :: k.2) | _ => k end
    | Logged l => fun _ => (l :: k.1, k.2)
    | _ => fun _ => k
    end
|}.

Lemma read_redis_world {A} (w w' : World H) (v : A) x :
  read_redis out w v = (w', x) -> w' = ticked w /\ (forall a, x = Ok a -> a = v).
Proof. unfold read_redis. destruct (fate_of _ _); intros; simplify_eq; split; try done; congruence. Qed.
Lemma write_redis_world (f : World H -> World H) w w' x :
  write_redis out f w = (w', x) -> w' = ticked w \/ w' = ticked (f w).
Proof. unfold write_redis. destruct (fate_of _ _); intros; simplify_eq; auto. Qed.

Lemma stored_limit_insert w g r k :
  stored_limit (with_records (<[g := Some r]> (restore_records w)) w) k = if decide (k = g) then Some (rr_watts r) else stored_limit w k.
Proof.
  unfold stored_limit; cbn. destruct (decide (k = g)) as [->|Hne]; [by rewrite lookup_insert_eq|]. by rewrite lookup_insert_ne.
Qed.
Lemma stored_limit_delete w g k :
  stored_limit (with_records (delete g (restore_records w)) w) k = if decide (k = g) then None else stored_limit w k.
Proof.
  unfold stored_limit; cbn. destruct (decide (k = g)) as [->|Hne]; [by rewrite lookup_delete_eq|]. by rewrite lookup_delete_ne.
Qed.
Lemma well_kept_insert m g r : well_kept m -> rr_gpu_uuid r = g -> well_kept (<[g := Some r]> m).
Proof. intros Hm Hr k o. rewrite lookup_insert_Some. intros [[-> <-]|[_ Hk]]; eauto. Qed.
Lemma well_kept_delete m g : well_kept m -> well_kept (delete g m).
Proof. intros Hm k o. rewrite lookup_delete_Some. intros [_ Hk]; eauto. Qed.

(** A call that leaves the records and the log alone. *)
Lemma frozen_same k X (c : call_of X) w w' x :
  restore_records w' = restore_records w -> change_log w' = change_log w ->
  frozen_inv w -> holds frozen k w -> answers frozen k c x -> learns frozen k c x = k ->
  frozen_inv w' /\ answers frozen k c x /\ holds frozen (learns frozen k c x) w' /\
    forall k', holds frozen k' w -> holds frozen k' w'.
Proof.
  intros Hr Hl Hi Hk Ha ->. cbn in *. unfold frozen_inv, stored_limit in *. rewrite Hr, Hl. destruct Hi as (? & ? & ?), Hk. by split_and!.
Qed.

Lemma get_record_sound k g w w' x :
  frozen_inv w -> holds frozen k w -> hdl _ (GetRecord g) w = (w', x) ->
  frozen_inv w' /\ answers frozen k (GetRecord g) x /\ holds frozen (learns frozen k (GetRecord g) x) w' /\
    forall k', holds frozen k' w -> holds frozen k' w'.
Proof.
  intros Hi Hk Hc. cbn in Hc. apply read_redis_world in Hc as [-> Hx]. pose proof Hi as (Hw & HV & new & Hl & Hn & Hcap).
  assert (forall o, x = Ok (Some o) -> exists r, restore_records w !! g = Some (Some r) /\ o = Some r /\ rr_gpu_uuid r = g) as Hget.
  { intros o Ho. pose proof (eq_sym (Hx _ Ho)) as Hg. destruct (Hw g o Hg) as (r & -> & Hu). eauto. }
  split_and!; [done| | |done].
  - split; [|intros Hnone Hno].
    + intros o Ho. destruct (Hget o Ho) as (r & Hg & -> & Hu). exists r. split_and!; [done..|].
      apply HV. unfold stored_limit. by rewrite Hg.
    + destruct (V0 g) as [v|] eqn:Hv; [|done]. exfalso. destruct (Hn g v Hv) as [Hs|[? _]]; [|congruence].
      unfold stored_limit in Hs. by rewrite <- (Hx _ Hnone) in Hs.
  - destruct x as [[o|]|e]; [|done..]. destruct Hk as [Hk1 Hk2]. split; [done|]. intros Hno g' [->|Hin]%elem_of_cons; [|by apply Hk2].
    destruct (Hget o eq_refl) as (r & Hg & -> & _). change (stored_limit (ticked w)) with (stored_limit w).
    unfold stored_limit. rewrite Hg. by eexists.
Qed.

Lemma set_record_sound k g r w w' x :
  frozen_inv w -> holds frozen k w -> rr_gpu_uuid r = g -> V g = Some (rr_watts r) -> hdl _ (SetRecord g r) w = (w', x) ->
  frozen_inv w' /\ holds frozen (learns frozen k (SetRecord g r) x) w' /\ forall k', holds frozen k' w -> holds frozen k' w'.
Proof.
  intros Hi Hk Hu HV Hc. cbn in Hc. unfold write_redis in Hc.
  set (w1 := with_records (<[g := Some r]> (restore_records w)) w) in *.
  assert (frozen_inv (ticked w1) /\ holds frozen (k.1, g :: k.2) (ticked w1) /\
    forall k', holds frozen k' w -> holds frozen k' (ticked w1)) as (Hi1 & Hk1 & Hm1).
  { destruct Hi as (Hw & HVs & new & Hl & Hn & Hcap). unfold frozen_inv, holds; cbn.
    change (stored_limit (ticked w1)) with (stored_limit w1). split_and!.
    + by apply well_kept_insert.
    + intros g' v. unfold w1. rewrite stored_limit_insert. case_decide; [intros; simplify_eq; done|apply HVs].
    + exists new. split_and!; [done| |].
      { intros g' v Hg. unfold w1. rewrite stored_limit_insert.
        case_decide; [subst; left; apply HV0 in Hg; congruence|by apply Hn]. }
      intros l Hin Hl'. destruct (Hcap l Hin Hl') as [? Hs]. split; [done|]. unfold w1. rewrite stored_limit_insert.
      case_decide; [by eexists|done].
    + apply Hk.
    + intros Hno g' Hin. unfold w1. rewrite stored_limit_insert. case_decide; [by eexists|].
      apply elem_of_cons in Hin as [|]; [done|by apply Hk].
    + intros k' [? Hk']. split; [done|]. intros Hno g' Hin. unfold w1. rewrite stored_limit_insert.
      case_decide; [by eexists|by apply Hk']. }
  destruct (fate_of out (tick w)); simplify_eq; (split_and!; [done| |done]); [done|done|by apply Hm1].
Qed.

Lemma delete_record_sound k g w w' x :
  frozen_inv w -> holds frozen k w -> allowed frozen k (DeleteRecord g) -> hdl _ (DeleteRecord g) w = (w', x) ->
  frozen_inv w' /\ holds frozen k w' /\ forall k', holds frozen k' w -> holds frozen k' w'.
Proof.
  intros Hi Hk (Hdel & v0 & HV & Hr) Hc. cbn in Hc. apply write_redis_world in Hc as [-> | ->]; [done|].
  destruct Hi as (Hw & HVs & new & Hl & Hn & Hcap). unfold holds, frozen; cbn. rewrite Hdel. split_and!; [|apply Hk|done|].
  2:{ intros k' [Hk' _]. by split. }
  unfold frozen_inv. change (stored_limit (ticked ?w)) with (stored_limit w). split_and!.
  - by apply well_kept_delete.
  - intros g' v. rewrite stored_limit_delete. case_decide; [done|apply HVs].
  - exists new. split_and!; [done| |intros l Hin Hc; destruct (Hcap l Hin Hc); congruence].
    intros g' v Hg. rewrite stored_limit_delete. case_decide; [|by apply Hn].
    subst. right. split; [done|]. apply HV0 in Hg. simplify_eq.
    destruct Hk as [(new' & Hl' & Hsub) _]. rewrite Hl in Hl'. apply app_inv_head in Hl' as <-.
    destruct Hr as (l & Hin & Hs). exists l. split; [by apply Hsub|done].
Qed.

Lemma logged_sound k l (w : World H) :
  frozen_inv w -> holds frozen k w -> allowed frozen k (Logged l) ->
  frozen_inv (with_line l w) /\ holds frozen (l :: k.1, k.2) (with_line l w) /\
  forall k', holds frozen k' w -> holds frozen k' (with_line l w).
Proof.
  intros (Hw & HVs & new & Hl & Hn & Hcap) Hk Ha. split_and!.
  - split_and!; [done|done|]. exists (new ++ [l]). cbn. rewrite Hl. split_and!; [by rewrite (assoc_L app)| |].
    + intros g v Hg. destruct (Hn g v Hg) as [|[? (l' & ? & ?)]]; [by left|right]. split; [done|]. exists l'. split; [|done]. set_solver.
    + intros l' [Hin| ->%list_elem_of_singleton]%elem_of_app Hc; [by apply Hcap|]. destruct (Ha Hc) as [Hno Hin].
      split; [done|]. by apply Hk.
  - destruct Hk as [(new' & Hl' & Hsub) Hk]. split; [|done]. exists (new' ++ [l]). cbn. rewrite Hl', (assoc_L app). split; [done|]. set_solver.
  - intros k' [(new' & Hl' & Hsub) Hk']. split; [|done]. exists (new' ++ [l]). cbn. rewrite Hl', (assoc_L app). split; [done|]. set_solver.
Qed.

#[local] Instance frozen_sound : Sound hdl frozen.
Proof.
  intros k X c w w' x Hi Hk Ha Hc. destruct c; cbn [handle] in Hc.
  - by apply get_record_sound.
  - destruct Ha as [Hu HV]. destruct (set_record_sound _ _ _ _ _ _ Hi Hk Hu HV Hc) as (? & ? & ?). by split_and!.
  - destruct (delete_record_sound _ _ _ _ _ Hi Hk Ha Hc) as (? & ? & ?). by split_and!.
  - apply read_redis_world in Hc as [-> _]. by apply frozen_same.
  - apply write_redis_world in Hc as [-> | ->]; by apply frozen_same.
  - apply write_redis_world in Hc as [-> | ->]; by apply frozen_same.
  - apply read_redis_world in Hc as [-> _]. by apply frozen_same.
  - apply write_redis_world in Hc as [-> | ->]; by apply frozen_same.
  - destruct (host_run (host w) cmd) as [h answer]. simplify_eq. by apply frozen_same.
  - simplify_eq. by apply frozen_same.
  - simplify_eq. destruct (logged_sound k line w Hi Hk Ha) as (? & ? & ?). by split_and!.
Qed.

(** ** Programs that keep to it *)
Notation ok := (safe frozen).
Definition any {A} (o : res A) (k : knows frozen) : Prop := True.
(** A set that succeeded is known by its line. *)
Definition set_known (action : set_action) (g : string) (watts : Z) (o : res PowerLimitSetOutcome) (k : knows frozen) : Prop :=
  forall r, o = Ok r -> succeeded r = true ->
    exists l, l ∈ k.1 /\ ln_action l = action /\ ln_gpu_uuid l = g /\ ln_watts_after l = watts /\ ln_ok l = true.

Lemma ok_of_res {A} (r : res A) post k : post r k -> ok post k (of_res r).
Proof using Type. by destruct r. Qed.

Lemma ok_any_bind {A B} (p : prog call_of A) (f : A -> prog call_of B) k :
  ok any k p -> (forall a k', ok any k' (f a)) -> ok any k (p ≫= f).
Proof using Type. intros Hp Hf. apply safe_bind. eapply safe_weaken; [|done]. intros [a|e] k' _; [apply Hf|done]. Qed.

(** What a program knows only grows. *)
Lemma ok_grows {A} (post : res A -> knows frozen -> Prop) k p :
  ok post k p -> ok (fun o k' => post o k' /\ k.1 ⊆ k'.1 /\ k.2 ⊆ k'.2) k p.
Proof using Type. clear HV0.
  intros Hp. assert (forall k0 : knows frozen, k0.1 ⊆ k.1 -> k0.2 ⊆ k.2 -> ok (fun o k' => post o k' /\ k0.1 ⊆ k'.1 /\ k0.2 ⊆ k'.2) k p) as Hg;
    [|by apply Hg].
  revert k Hp. induction p as [a|e|X c f IH]; intros k Hp k0 H1 H2; [done|done|]. destruct Hp as [Ha Hf]. split; [done|].
  intros x Hx. apply IH; [by apply Hf| |]; destruct c; cbn; try done; try (destruct x as [[]|]; set_solver); set_solver.
Qed.

Lemma query_power_state_ok k probe : ok any k (query_power_state probe).
Proof using Type.
  unfold query_power_state. destruct probe; [by apply ok_of_res|]. apply safe_call; [done|]. intros [[status stdout]|e] _; [|done].
  case_match; [done|by apply ok_of_res].
Qed.
Lemma delete_pod_index_ok k pod strict : ok any k (delete_pod_index pod strict).
Proof. apply safe_call; [done|]. intros [[]|e] _; [done|by destruct strict]. Qed.

Lemma read_back_ok k g : ok any k (read_back_power_state g).
Proof using Type.
  apply safe_call; [done|]. intros [[status stdout]|e] _; [|by case_decide]. case_match; [done|by apply ok_of_res].
Qed.

Lemma set_power_limit_ok k g watts : ok any k (set_power_limit g watts).
Proof using Type.
  apply safe_call; [done|]. intros [[status stdout]|e] _; [|by case_decide]. case_match; [done|].
  apply ok_any_bind; [apply read_back_ok|]. intros rb k'. destruct (rb_watts rb); [by case_match|done].
Qed.

Definition may_log (action : set_action) (g : string) (k : knows frozen) : Prop :=
  action = Cap -> may_clear = false /\ g ∈ k.2.
Definition sets_ok (set : setter) : Prop := forall k action exec g before watts,
  may_log action g k -> ok (set_known action g watts) k (set action exec g before watts).

Lemma set_and_log_ok_grown k action exec g before watts :
  may_log action g k ->
  ok (fun o k' => set_known action g watts o k' /\ may_log action g k') k (set_and_log_power_limit action exec g before watts).
Proof using Type. clear HV0.
  intros Hlog. unfold set_and_log_power_limit. apply safe_bind, safe_call; [done|]. intros answer _. apply safe_bind.
  eapply safe_weaken; [|apply ok_grows, (set_power_limit_ok _ g watts)]. intros [r|e] k' (_ & _ & Hk2).
  - assert (may_log action g k') as Hlog' by (intros Ha; destruct (Hlog Ha); split; [done|by apply Hk2]).
    apply safe_call; [exact Hlog'|]. intros [] _. split; [|exact Hlog']. intros r' [= <-] Hs. eexists. split; [left|]. by split_and!.
  - split; [intros ? [=]|]. intros Ha; destruct (Hlog Ha); split; [done|by apply Hk2].
Qed.
Lemma set_and_log_ok : sets_ok set_and_log_power_limit.
Proof. intros k action exec g before watts Hlog. eapply safe_weaken; [|by apply set_and_log_ok_grown]. by intros o k' []. Qed.
Lemma set_alone_ok : sets_ok set_alone.
Proof.
  intros k action exec g before watts Hlog. apply safe_try.
  eapply safe_weaken; [|by apply (set_and_log_ok_grown _ action exec g before watts)]. intros [r|e] k' [Hr Hlog']; [done|].
  case_decide; [|done]. apply safe_call; [exact Hlog'|]. by intros [] _ r [= <-].
Qed.

Lemma set_applied_cap_ok k g watts by_ : ok any k (set_applied_cap_on_restore_record g watts by_).
Proof using Type.
  apply safe_call; [done|]. intros [[o|]|e] Hx; [|done..]. destruct (proj1 Hx o eq_refl) as (r & -> & Hu & HV).
  by apply safe_call.
Qed.

Lemma restore_one_ok k states record (set : setter) :
  may_clear = true -> V (rr_gpu_uuid record) = Some (rr_watts record) ->
  sets_ok set ->
  ok any k (restore_one states record set).
Proof.
  intros Hdel HV Hset. unfold restore_one. apply ok_any_bind.
  { destruct (rr_capped_to_watts record); [apply set_applied_cap_ok|done]. }
  intros [] k1. apply safe_bind. eapply safe_weaken; [|by apply Hset]. intros [outcome|e] k2 Hk2; [|done].
  destruct (succeeded outcome) eqn:Hs; [|done]. apply safe_call; [|done]. split; [done|].
  exists (rr_watts record). split; [done|]. destruct (Hk2 _ eq_refl Hs) as (l & Hin & Hl). exists l. by split.
Qed.
Lemma raise_one_ok k exec target (set : setter) :
  sets_ok set ->
  ok any k (raise_one exec target set).
Proof.
  intros Hset. unfold raise_one. apply ok_any_bind; [|done]. eapply safe_weaken; [|by apply Hset]. done.
Qed.

(** The records a read returns carry the stored limits. *)
Definition carries (r : GpuPowerRestoreRecord) : Prop := V (rr_gpu_uuid r) = Some (rr_watts r).
Lemma read_records_ok k uuids strict :
  ok (fun o k' => match o with Ok r => Forall carries (rd_records r) | Raise _ => True end) k
    (read_gpu_power_restore_records uuids strict).
Proof.
  unfold read_gpu_power_restore_records.
  apply (safe_fold frozen (fun r k' => Forall carries (rd_records r)) (fun _ => True)); [|done].
  intros acc g k' _ Hacc. apply safe_call; [done|]. intros [[o|]|e] Hx; [|done|by destruct strict].
  destruct (proj1 Hx o eq_refl) as (r & -> & Hu & HV). rewrite Hu, (proj2 (String.eqb_eq g g) eq_refl), andb_false_r.
  apply Forall_app_2; [done|]. apply Forall_cons_2; [|done]. unfold carries. by rewrite Hu.
Qed.

Lemma ok_any_fold {S A} (f : S -> A -> prog call_of S) s l k :
  (forall s x k, ok any k (f s x)) -> ok any k (pfold f s l).
Proof.
  intros Hf. eapply safe_weaken; [|apply (safe_fold frozen (fun _ _ => True) (fun _ => True) f l s k)]; [by intros [] ?| |done].
  intros s' x k' _ _. eapply safe_weaken; [|apply Hf]. by intros [] ?.
Qed.

Lemma clear_claims_ok k pod : ok any k (clear_filler_pod_applied_caps str_of_other pod).
Proof.
  apply safe_call; [done|]. intros [[[v|]|]|e] _; [|done..]. destruct (strings_of _ v); [|done].
  apply ok_any_fold. intros. apply safe_call; [done|]. intros raw _. apply ok_any_bind; [apply set_applied_cap_ok|done].
Qed.
Lemma put_back_claims_ok k claims : ok any k (restore_filler_pod_applied_caps claims).
Proof. apply ok_any_fold. intros. apply set_applied_cap_ok. Qed.

(** ** The operations keep the invariant *)
Definition keeps {A} (m : act (World H) A) (post : res A -> Prop) : Prop :=
  forall w w' o, frozen_inv w -> m w = (w', o) -> frozen_inv w' /\ post o.
Notation anyway := (fun _ => True).

Lemma keeps_weaken {A} (m : act (World H) A) (p q : res A -> Prop) : keeps m p -> (forall o, p o -> q o) -> keeps m q.
Proof. intros Hm Hpq w w' o Hi Hw. destruct (Hm w w' o Hi Hw). eauto. Qed.

Lemma keeps_bind {A B} (m : act (World H) A) (f : A -> act (World H) B) p :
  keeps m p -> (forall a, p (Ok a) -> keeps (f a) anyway) -> keeps (m ≫= f) anyway.
Proof using Type. clear HV0.
  intros Hm Hf w w' o Hi Hw. unfold mbind, act_bind in Hw. destruct (m w) as [w1 [a|e]] eqn:Em.
  - destruct (Hm _ _ _ Hi Em) as [Hi1 Hp]. by eapply Hf.
  - simplify_eq. destruct (Hm _ _ _ Hi Em). done.
Qed.
Lemma keeps_ret {A} (a : A) : keeps (mret a) anyway.
Proof using Type. intros w w' o Hi Hw. unfold mret, act_ret in Hw. by simplify_eq. Qed.
Lemma keeps_raise {A} e : keeps (raise (A:=A) e) anyway.
Proof using Type. intros w w' o Hi Hw. unfold raise in Hw. by simplify_eq. Qed.

Lemma holds_nothing w : frozen_inv w -> holds frozen ([], []) w.
Proof using Type. clear HV0. intros (_ & _ & new & Hl & _). split; [|set_solver]. exists new. split; [done|]. set_solver. Qed.

Lemma keeps_run {A} (p : prog call_of A) (post : res A -> Prop) :
  ok (fun o _ => post o) ([], []) p -> keeps (run p) post.
Proof.
  intros Hp w w' o Hi Hw. pose proof (holds_nothing w Hi) as Hk.
  destruct (perform_safe hdl frozen _ _ _ _ _ _ Hi Hk Hp Hw) as (Hi' & (k' & Hpost & _) & _). done.
Qed.
Lemma keeps_run_any {A} (p : prog call_of A) : ok any ([], []) p -> keeps (run p) anyway.
Proof. intros Hp. apply keeps_run. exact Hp. Qed.

Lemma set_refused_ok {T} (set_one : T -> setter -> prog call_of (bool * bool)) targets acc k :
  (forall t k, t ∈ targets -> ok any k (set_one t set_alone)) -> ok any k (set_refused set_one targets acc).
Proof.
  revert acc k. induction targets as [|t ts IH]; intros acc k Ht; [done|]. cbn [set_refused].
  apply ok_any_bind; [apply Ht; left|]. intros r k'. apply IH. intros. apply Ht. by right.
Qed.

Lemma set_side_by_side_keeps {T} (targets : list T) (set_one : T -> setter -> prog call_of (bool * bool)) n :
  (forall t (set : setter) k, t ∈ targets -> 
     sets_ok set ->
     ok any k (set_one t set)) ->
  keeps (set_side_by_side host_run out targets set_one n) anyway.
Proof.
  intros Hset w w' o Hi Hw. unfold set_side_by_side in Hw.
  destruct (gather _ _ _ _ w) as [w1 os] eqn:Hg.
  assert (frozen_inv w1) as Hi1.
  { eapply (gather_safe hdl frozen (map (fun _ _ _ => True) targets)); [exact Hi| |exact Hg].
    apply Forall2_fmap, Forall_Forall2_diag, Forall_forall. intros t Ht. exists ([], []). split; [by apply holds_nothing|].
    apply safe_try, safe_bind. eapply safe_weaken; [|apply Hset; [done|apply set_and_log_ok]].
    intros [r|e] k _; [done|]. by case_decide. }
  destruct (all_ok os) as [outcomes|e]; [|by simplify_eq]. eapply keeps_run_any; [|exact Hi1|exact Hw].
  apply set_refused_ok. intros t k ([t' o'] & -> & Hin)%list_elem_of_fmap. apply Hset; [|apply set_alone_ok].
  apply list_elem_of_In, filter_In in Hin as [Hin _]. apply list_elem_of_In in Hin. by apply elem_of_zip_l in Hin.
Qed.

Lemma read_records_keeps uuids strict :
  keeps (run (read_gpu_power_restore_records uuids strict))
    (fun o => match o with Ok r => Forall carries (rd_records r) | Raise _ => True end).
Proof. apply keeps_run. apply read_records_ok. Qed.

Lemma query_or_keeps {A} probe (f : list (string * GpuPowerState) -> A) (h : exc -> option (prog call_of A)) :
  (forall e, h e = None \/ exists o, h e = Some (of_res o)) ->
  keeps (run (try_except (r ← query_power_state probe; Ret (f r)) h)) anyway.
Proof.
  intros Hh. apply keeps_run_any, safe_try, safe_bind. eapply safe_weaken; [|apply query_power_state_ok].
  intros [r|e] k _; [done|]. destruct (Hh e) as [->|[o ->]]; [done|by apply ok_of_res].
Qed.

(** ** The stages of an apply *)

Lemma ensure_records_ok k planned pod exec limits :
  may_clear = false ->
  (forall t, t ∈ limits -> exists s, dget (pl_gpu_uuid t) (pg_state_by_uuid planned) = Some s /\
     (V0 (pl_gpu_uuid t) = None -> V (pl_gpu_uuid t) = Some (ps_current_watts s))) ->
  ok (fun o k' => exists b, o = Ok b /\ (b = true -> forall t, t ∈ limits -> pl_gpu_uuid t ∈ k'.2)) k
    (ensure_records planned pod exec limits).
Proof using Type. clear HV0.
  intros Hno. revert k. induction limits as [|t ts IH]; intros k Ht; cbn [ensure_records].
  { exists true. split; [done|]. set_solver. }
  destruct (Ht t) as (st & -> & HV); [left|]. apply safe_bind. set (g := pl_gpu_uuid t) in *.
  assert (ok (fun o k' => exists b, o = Ok b /\ (b = true -> g ∈ k'.2)) k (ensure_restore_record g (ps_current_watts st) pod exec)) as He.
  { apply safe_call; [done|]. intros [[o|]|e] Hx; [|destruct Hx as [_ Hx]|exists false; done].
    - exists true. split; [done|]. intros _. left.
    - apply safe_call; [done|]. intros now _. apply safe_call; [split; [done|]; apply HV, Hx; done|].
      intros [[]|e] _; [exists true|exists false]; (split; [done|]); [intros _; left|done]. }
  eapply safe_weaken; [|exact He]. intros o k' (b & -> & Hb). destruct b; [|exists false; done].
  eapply safe_weaken; [|apply ok_grows, IH; intros; apply Ht; by right].
  intros o k2 ((b & -> & Hb2) & _ & Hk2). exists b. split; [done|]. intros -> t' [->|Hin]%elem_of_cons; [by apply Hk2, Hb|by apply Hb2].
Qed.

(** A line that says that a GPU was capped at its planned limit. *)
Definition says_capped (planned : PlannedGpuCaps) (t : GpuPowerLimit) (l : ChangeLine) : Prop :=
  ln_action l = Cap /\ ln_gpu_uuid l = pl_gpu_uuid t /\ dget (pl_gpu_uuid t) (pg_clamped_watts_by_uuid planned) = Some (ln_watts_after l) /\
  ln_ok l = true.

Lemma caps_ok k planned exec acc limits :
  may_clear = false -> (forall t, t ∈ limits -> pl_gpu_uuid t ∈ k.2) ->
  ok (fun o k' => forall acc', o = Ok acc' -> acc'.1.1 = true ->
        acc.1.1 = true /\ forall t, t ∈ limits -> exists l, l ∈ k'.1 /\ says_capped planned t l) k
    (pfold (cap_step planned exec) acc limits).
Proof using Type. clear HV0.
  intros Hno. revert acc k. induction limits as [|t ts IH]; intros [[all_set refused] pers] k Ht; cbn [pfold].
  { intros acc' [= <-] Hs. split; [done|]. set_solver. }
  apply safe_bind. cbn [cap_step]. destruct (dget _ (pg_state_by_uuid planned)) as [st|]; [|intros ? [=]].
  destruct (dget _ (pg_clamped_watts_by_uuid planned)) as [watts|] eqn:Hwatts; [|intros ? [=]]. apply safe_bind.
  eapply safe_weaken; [|apply ok_grows, set_alone_ok; intros _; split; [done|apply Ht; left]].
  intros [outcome|e] k1 (Hout & Hk1 & Hk2); [|intros ? [=]].
  change (ok ?q k1 (Ret ?a)) with (q (Ok a) k1). cbv beta iota.
  match goal with |- ok _ _ (pfold _ ?a _) => set (acc1 := a) end.
  eapply safe_weaken; [|apply ok_grows, (IH acc1); intros; apply Hk2, Ht; by right].
  intros o k2 (H2 & Hg1 & _) acc' -> Hs. destruct (H2 _ eq_refl Hs) as [Hacc Hts]. subst acc1.
  destruct (succeeded outcome) eqn:Hsucc; [|done].
  split; [by destruct (so_persistence_enabled outcome) as [[]|]|].
  intros t' [->|Hin]%elem_of_cons; [|by apply Hts]. destruct (Hout _ eq_refl Hsucc) as (l & Hl & ? & ? & ? & ?).
  exists l. split; [by apply Hg1|]. split_and!; congruence.
Qed.

Hypothesis Hclear : may_clear = true.

Lemma restore_records_of_keeps records states n strict :
  Forall carries records -> keeps (restore_records_of host_run out records states n strict) anyway.
Proof.
  intros Hr. unfold restore_records_of. eapply keeps_bind.
  - apply set_side_by_side_keeps. intros r set k Hin Hset. apply restore_one_ok; [done| |done].
    rewrite Forall_forall in Hr. by apply Hr.
  - intros a _. case_match; [apply keeps_raise|apply keeps_ret].
Qed.

Lemma restore_tracked_keeps uuids probe n strict :
  keeps (restore_tracked_gpu_power_limits host_run out uuids probe n strict) anyway.
Proof.
  unfold restore_tracked_gpu_power_limits. eapply keeps_bind; [apply read_records_keeps|]. intros rr Hrr. cbn in Hrr.
  destruct (_ && negb _); [apply keeps_ret|]. eapply keeps_bind.
  - apply keeps_run_any, safe_try. eapply safe_weaken; [|apply query_power_state_ok]. intros [r|e] k _; [done|]. cbv beta iota. by destruct (strict && _).
  - intros states _. destruct (_ && existsb _ _); [apply keeps_raise|]. destruct (rd_records rr) eqn:Hrec; [apply keeps_ret|].
    eapply keeps_bind; [by apply restore_records_of_keeps|]. intros a _. case_match; [apply keeps_raise|apply keeps_ret].
Qed.

Lemma restore_all_keeps probe n : keeps (restore_all_host_gpu_power_limits host_run out probe n) anyway.
Proof.
  unfold restore_all_host_gpu_power_limits. eapply keeps_bind.
  - apply (query_or_keeps probe Some). intros e. right. by exists (Ok None).
  - intros [states|] _; [|apply keeps_ret]. eapply keeps_bind; [apply read_records_keeps|]. intros rr Hrr. cbn in Hrr.
    destruct (rd_records rr) eqn:Hrec; [apply keeps_ret|by apply restore_records_of_keeps].
Qed.

Lemma raise_low_keeps exec uuids n : keeps (raise_low_power_limits_to_default host_run out exec uuids n) anyway.
Proof.
  unfold raise_low_power_limits_to_default. eapply keeps_bind.
  - apply (query_or_keeps None Some). intros e. right. by exists (Ok None).
  - intros [states|] _; [|apply keeps_ret]. case_match; [apply keeps_ret|].
    eapply keeps_bind; [|intros; apply keeps_ret]. apply set_side_by_side_keeps. intros. by apply raise_one_ok.
Qed.

Lemma restore_filler_pod_keeps pod strict :
  keeps (restore_filler_pod_gpu_power_limits host_run out str_of_other pod strict) anyway.
Proof.
  unfold restore_filler_pod_gpu_power_limits. eapply keeps_bind; [by apply keeps_run_any, safe_call|].
  intros [[raw|]|e] _; [|apply keeps_ret|destruct strict; [apply keeps_raise|apply keeps_ret]]. case_match.
  - eapply keeps_bind; [apply restore_tracked_keeps|]. intros n _.
    eapply keeps_bind; [apply keeps_run_any, delete_pod_index_ok|]. intros; apply keeps_ret.
  - destruct strict; [apply keeps_raise|].
    eapply keeps_bind; [apply keeps_run_any, delete_pod_index_ok|]. intros; apply keeps_ret.
Qed.

Lemma undo_keeps uuids pod : keeps (undo_partial_apply host_run out uuids pod) anyway.
Proof.
  unfold undo_partial_apply. eapply keeps_bind.
  { apply keeps_run_any, ok_any_fold. intros. apply set_applied_cap_ok. }
  intros _ _. eapply keeps_bind; [apply restore_tracked_keeps|]. intros _ _. apply keeps_run_any, delete_pod_index_ok.
Qed.
End Protocols.

(** ** The way back *)
Definition no_cap (new : list ChangeLine) : Prop := forall l, l ∈ new -> ln_action l <> Cap.
(** From one world to a later one, no stored limit is lost unless it was restored. *)
Definition way_back (w w' : World H) : Prop :=
  well_kept (restore_records w') /\ exists new, change_log w' = change_log w ++ new /\
    forall g v, stored_limit w g = Some v -> stored_limit w' g = Some v \/ restored_in new g v.

Lemma way_back_refl w : well_kept (restore_records w) -> way_back w w.
Proof. intros Hw. split; [done|]. exists []. rewrite app_nil_r. by split; [|left]. Qed.
Lemma restored_in_app g v l1 l2 : restored_in l1 g v \/ restored_in l2 g v -> restored_in (l1 ++ l2) g v.
Proof. intros [(l & ? & ?)|(l & ? & ?)]; exists l; split; set_solver. Qed.
Lemma way_back_trans w1 w2 w3 : way_back w1 w2 -> way_back w2 w3 -> way_back w1 w3.
Proof.
  intros (H2 & n1 & L1 & K1) (H3 & n2 & L2 & K2). split; [done|]. exists (n1 ++ n2). rewrite L2, L1, (assoc_L app).
  split; [done|]. intros g v Hg. destruct (K1 g v Hg) as [Hs|Hr]; [|right; apply restored_in_app; by left].
  destruct (K2 g v Hs) as [|Hr]; [by left|right; apply restored_in_app; by right].
Qed.

Lemma frozen_start may w : well_kept (restore_records w) -> frozen_inv may (stored_limit w) (stored_limit w) (change_log w) w.
Proof. intros Hw. split_and!; [done|done|]. exists []. rewrite app_nil_r. split_and!; [done|by left|set_solver]. Qed.

Lemma frozen_way_back may V w w' :
  frozen_inv may (stored_limit w) V (change_log w) w' -> way_back w w'.
Proof.
  intros (Hw & _ & new & Hl & Hn & _). split; [done|]. exists new. split; [done|]. intros g v Hg.
  destruct (Hn g v Hg) as [|[_ ?]]; [by left|by right].
Qed.

(** What the host reports to the query a plan starts with. *)
Definition reported (w : World H) : option (list (string * GpuPowerState)) :=
  match (host_run (host w) QueryPowerState).2 with
  | Ok (status, stdout) =>
      if negb (status =? 0) then None else match parse_power_state_csv stdout with Ok s => Some s | Raise _ => None end
  | Raise _ => None
  end.
(** The limit a cap started in [w] has to be undone to: the stored one, else the reported one. *)
Definition limit_to_keep (w : World H) (g : string) : option Z :=
  match stored_limit w g with
  | Some v => Some v
  | None => states ← reported w; ps_current_watts <$> dget g states
  end.
(** Every cap that was tried since [w] can still be undone, or has been. *)
Definition caps_undoable (w w' : World H) : Prop :=
  well_kept (restore_records w') /\ exists new, change_log w' = change_log w ++ new /\
    (forall g v, stored_limit w g = Some v -> stored_limit w' g = Some v \/ restored_in new g v) /\
    (forall l, l ∈ new -> ln_action l = Cap -> exists v, limit_to_keep w (ln_gpu_uuid l) = Some v /\
       (stored_limit w' (ln_gpu_uuid l) = Some v \/ restored_in new (ln_gpu_uuid l) v)).

Lemma caps_undoable_mid w w' :
  frozen_inv false (stored_limit w) (limit_to_keep w) (change_log w) w' -> caps_undoable w w'.
Proof.
  intros (Hw & HV & new & Hl & Hn & Hcap). split; [done|]. exists new. split_and!; [done| |].
  - intros g v Hg. destruct (Hn g v Hg) as [|[? _]]; [by left|done].
  - intros l Hin Hc. destruct (Hcap l Hin Hc) as [_ [v Hs]]. exists v. split; [by apply HV|by left].
Qed.

Lemma clearing_way_back {A} (m : act (World H) A) w w' o :
  (forall V0 V old, (forall g v, V0 g = Some v -> V g = Some v) -> keeps true V0 V old m (fun _ => True)) ->
  well_kept (restore_records w) -> m w = (w', o) ->
  way_back w w' /\ forall l new, change_log w' = change_log w ++ new -> l ∈ new -> ln_action l <> Cap.
Proof.
  intros Hm Hw Hrun. destruct (Hm _ _ _ (fun _ _ H => H) w w' o (frozen_start true w Hw) Hrun) as [Hi _].
  split; [by eapply frozen_way_back|]. intros l new Hl Hin Hc. destruct Hi as (_ & _ & new' & Hl' & _ & Hcap).
  rewrite Hl in Hl'. apply app_inv_head in Hl' as <-. by destruct (Hcap l Hin Hc).
Qed.

Lemma caps_undoable_trans {A} (m : act (World H) A) w wm w' o :
  (forall V0 V old, (forall g v, V0 g = Some v -> V g = Some v) -> keeps true V0 V old m (fun _ => True)) ->
  caps_undoable w wm -> m wm = (w', o) -> caps_undoable w w'.
Proof.
  intros Hm (Hw & new & Hl & Hn & Hcap) Hrun.
  destruct (clearing_way_back m wm w' o Hm Hw Hrun) as [(Hw' & new2 & Hl2 & Hn2) Hno].
  split; [done|]. exists (new ++ new2). rewrite Hl2, Hl, (assoc_L app). split_and!; [done| |].
  - intros g v Hg. destruct (Hn g v Hg) as [Hs|]; [|right; apply restored_in_app; by left].
    destruct (Hn2 g v Hs); [by left|right; apply restored_in_app; by right].
  - intros l [Hin|Hin]%elem_of_app Hc; [|by destruct (Hno l new2 Hl2 Hin)].
    destruct (Hcap l Hin Hc) as (v & Hv & [Hs|]); exists v; (split; [done|]); [|right; apply restored_in_app; by left].
    destruct (Hn2 _ v Hs); [by left|right; apply restored_in_app; by right].
Qed.

(** *** Planning *)
Lemma plan_spec limits w w1 o :
  run (plan_gpu_caps limits) w = (w1, o) ->
  restore_records w1 = restore_records w /\ change_log w1 = change_log w /\
  (o = Ok None \/ exists states clamped, o = Ok (Some (mkPlan states clamped)) /\ reported w = Some states /\
     clamped_watts_by_uuid states limits = Some clamped).
Proof.
  unfold sequentially, plan_gpu_caps, query_power_state, reported. cbn. destruct (host_run (host w) QueryPowerState) as [h [[status stdout]|e]]; cbn.
  2:{ intros; simplify_eq; auto. }
  destruct (negb (status =? 0)); cbn; [intros; simplify_eq; auto|].
  destruct (parse_power_state_csv stdout) as [states|e]; cbn; [|intros; simplify_eq; auto].
  intros; simplify_eq. split_and!; [done|done|]. destruct (clamped_watts_by_uuid states limits) as [c|] eqn:Hc; cbn; [right|by left]. eauto.
Qed.

Definition clamp_step (states : list (string * GpuPowerState)) (acc : option (list (string * Z))) (t : GpuPowerLimit)
    : option (list (string * Z)) :=
  d ← acc; s ← dget (pl_gpu_uuid t) states; Some (dset (pl_gpu_uuid t) (clamp_watts (pl_watts t) s) d).

Lemma clamp_fold_spec states limits acc d c :
  acc = Some d -> fold_left (clamp_step states) limits acc = Some c ->
  (forall t, t ∈ limits -> exists s, dget (pl_gpu_uuid t) states = Some s) /\
  (forall g, g ∉ map pl_gpu_uuid limits -> dget g c = dget g d) /\
  (NoDup (map pl_gpu_uuid limits) -> forall t s, t ∈ limits -> dget (pl_gpu_uuid t) states = Some s ->
     dget (pl_gpu_uuid t) c = Some (clamp_watts (pl_watts t) s)).
Proof.
  intros ->. revert d. induction limits as [|t ts IH]; intros d Hc; cbn in Hc; [simplify_eq; split_and!; set_solver|].
  destruct (dget (pl_gpu_uuid t) states) as [s|] eqn:Hs; cbn in Hc.
  2:{ exfalso. clear -Hc. induction ts; [done|]. by apply IHts. }
  destruct (IH _ Hc) as (IH1 & IH2 & IH3). split_and!.
  - intros t' [->|Hin]%elem_of_cons; eauto.
  - intros g Hg. cbn in Hg. apply not_elem_of_cons in Hg as [Hne Hg]. rewrite IH2 by done. by apply dget_dset_ne.
  - cbn. intros [Hn Hnd]%NoDup_cons t' s' [->|Hin]%elem_of_cons Hs'; [|by apply IH3].
    rewrite IH2 by done. simplify_eq. apply dget_dset_eq.
Qed.

(** *** The pod index stays while the caps are set *)
Definition index_kept (m : gmap string (option json)) : Protocol call_of (World H) := {|
  knows := unit;
  holds _ _ := True;
  inv w := pod_indexes w = m;
  allowed _ _ c := match c with SetIndex _ _ | DeleteIndex _ => False | _ => True end;
  answers _ _ _ _ := True;
  learns _ _ _ _ := tt
|}.
#[local] Instance index_kept_sound m : Sound hdl (index_kept m).
Proof.
  intros k X c w w' x Hi _ Ha Hc. destruct c; cbn [handle] in Hc; try done;
    try (apply read_redis_world in Hc as [-> _]; done); try (apply write_redis_world in Hc as [-> | ->]; done).
  - destruct (host_run (host w) cmd). by simplify_eq.
  - by simplify_eq.
  - by simplify_eq.
Qed.

Lemma index_kept_of_res {A} m (r : res A) : safe (index_kept m) (fun _ _ => True) tt (of_res r).
Proof. by destruct r. Qed.
Lemma index_kept_bind {A B} m (p : prog call_of A) (f : A -> prog call_of B) :
  safe (index_kept m) (fun _ _ => True) tt p -> (forall a, safe (index_kept m) (fun _ _ => True) tt (f a)) ->
  safe (index_kept m) (fun _ _ => True) tt (p ≫= f).
Proof. intros Hp Hf. apply safe_bind. eapply safe_weaken; [|done]. intros [a|e] [] _; [apply Hf|done]. Qed.

Lemma index_kept_set m action exec g before watts :
  safe (index_kept m) (fun _ _ => True) tt (set_alone action exec g before watts).
Proof.
  apply safe_try. eapply safe_weaken with (post := fun _ _ => True).
  { intros [r|e] [] _; [done|]. case_decide; [|done]. by apply safe_call. }
  unfold set_and_log_power_limit, enable_persistence_mode, set_power_limit, read_back_power_state.
  apply index_kept_bind; [by apply safe_call|intros _]. apply index_kept_bind; [|intros r; by apply safe_call].
  apply safe_call; [done|]. intros [[status stdout]|e] _; [|by case_decide]. case_match; [done|].
  apply index_kept_bind; [|intros rb; destruct (rb_watts rb); [by case_match|done]].
  apply safe_call; [done|]. intros [[status' stdout']|e] _; [|by case_decide]. case_match; [done|apply index_kept_of_res].
Qed.
Lemma index_kept_stamp m g watts by_ : safe (index_kept m) (fun _ _ => True) tt (set_applied_cap_on_restore_record g watts by_).
Proof. apply safe_call; [done|]. intros [[[r|]|]|e] _; [by apply safe_call|done..]. Qed.
Lemma index_kept_fold {S A} m (f : S -> A -> prog call_of S) s l :
  (forall s x, safe (index_kept m) (fun _ _ => True) tt (f s x)) -> safe (index_kept m) (fun _ _ => True) tt (pfold f s l).
Proof. intros Hf. revert s. induction l as [|x l IH]; intros s; [done|]. apply index_kept_bind; [apply Hf|apply IH]. Qed.
Lemma index_kept_run {A} (p : prog call_of A) w w' o :
  safe (index_kept (pod_indexes w)) (fun _ _ => True) tt p -> run p w = (w', o) -> pod_indexes w' = pod_indexes w.
Proof. intros Hp Hr. by destruct (perform_safe hdl (index_kept (pod_indexes w)) _ p tt w w' o eq_refl I Hp Hr). Qed.

Lemma index_kept_cap m planned exec acc t : safe (index_kept m) (fun _ _ => True) tt (cap_step planned exec acc t).
Proof.
  unfold cap_step. destruct acc as [[all_set refused] pers]. destruct (dget _ _); [|done]. destruct (dget _ _); [|done].
  apply index_kept_bind; [apply index_kept_set|done].
Qed.

(** *** The apply as a whole *)
Definition capped_and_kept (limits : list GpuPowerLimit) (pod_id : string) (w w' : World H) : Prop :=
  exists states clamped new, reported w = Some states /\ clamped_watts_by_uuid states limits = Some clamped /\
    change_log w' = change_log w ++ new /\
    pod_indexes w' !! pod_id = Some (Some (JList (map JStr (map pl_gpu_uuid limits)))) /\
    forall t, t ∈ limits -> is_Some (stored_limit w' (pl_gpu_uuid t)) /\
      stored_limit w' (pl_gpu_uuid t) = limit_to_keep w (pl_gpu_uuid t) /\
      exists l, l ∈ new /\ says_capped (mkPlan states clamped) t l.

Lemma limit_to_keep_stored w g v : stored_limit w g = Some v -> limit_to_keep w g = Some v.
Proof. unfold limit_to_keep. by intros ->. Qed.

Notation mid w := (frozen_inv false (stored_limit w) (limit_to_keep w) (change_log w)).
Notation frz w := (frozen false (stored_limit w) (limit_to_keep w) (change_log w)).

Lemma mid_step {A} w (p : prog call_of A) post k w1 w2 o :
  mid w w1 -> holds (frz w) k w1 -> safe (frz w) post k p -> run p w1 = (w2, o) ->
  mid w w2 /\ exists k', post o k' /\ holds (frz w) k' w2 /\ k.1 ⊆ k'.1 /\ k.2 ⊆ k'.2.
Proof.
  intros Hi Hk Hp Hr. apply ok_grows in Hp.
  destruct (@perform_safe _ _ hdl (frz w) (frozen_sound _ _ _ _ (limit_to_keep_stored w)) _ _ p k w1 w2 o Hi Hk Hp Hr)
    as (Hi2 & (k' & (Hpost & H1 & H2) & Hk') & _). split; [done|]. exists k'. by split_and!.
Qed.

Lemma undo_undoable {A} w wm w' (o : res A) uuids pod (a : A) :
  caps_undoable w wm -> (undo_partial_apply host_run out uuids pod ≫= fun _ => mret a) wm = (w', o) ->
  caps_undoable w w' /\ (o = Ok a \/ exists e, o = Raise e).
Proof.
  intros Hu Hr. split.
  - eapply caps_undoable_trans; [|exact Hu|exact Hr]. intros V0 V old HV.
    eapply keeps_bind; [by apply undo_keeps|]. intros. apply keeps_ret.
  - unfold mbind, act_bind in Hr. destruct (undo_partial_apply _ _ _ _ _) as [w2 [[]|e]]; [left|right]; cbn in Hr; unfold mret, act_ret in Hr; simplify_eq; eauto.
Qed.

Lemma set_caps_spec planned limits pod exec w k3 w3 w' o :
  mid w w3 -> holds (frz w) k3 w3 -> (forall t, t ∈ limits -> pl_gpu_uuid t ∈ k3.2) ->
  set_caps host_run out planned limits pod exec w3 = (w', o) ->
  caps_undoable w w' /\ (o = Ok APPLIED -> exists new, change_log w' = change_log w ++ new /\ pod_indexes w' = pod_indexes w3 /\
    forall t, t ∈ limits -> is_Some (stored_limit w' (pl_gpu_uuid t)) /\
      stored_limit w' (pl_gpu_uuid t) = limit_to_keep w (pl_gpu_uuid t) /\ exists l, l ∈ new /\ says_capped planned t l).
Proof.
  intros Hi3 Hk3 Hb Hr. unfold set_caps in Hr.
  unfold mbind at 1, act_bind in Hr. destruct (run (pfold _ _ _) w3) as [w4 o4] eqn:Hcaps.
  destruct (mid_step w _ _ _ _ _ _ Hi3 Hk3 (caps_ok _ _ _ _ _ planned exec (true, false, []) limits eq_refl
    Hb) Hcaps) as (Hi4 & k4 & Hpost4 & Hk4 & _ & Hk34).
  pose proof (index_kept_run _ _ _ _ (index_kept_fold _ _ _ _ (fun acc t => index_kept_cap _ planned exec acc t)) Hcaps) as Hx4.
  destruct o4 as [[[all_set refused] persistent]|e].
  2:{ simplify_eq. split; [by apply caps_undoable_mid|done]. }
  destruct all_set; cbn [negb] in Hr.
  2:{ destruct (undo_undoable w w4 w' o _ pod (if refused : bool then HOST_REFUSED else FAILED) (caps_undoable_mid _ _ Hi4) Hr)
        as [Hu [->|[e ->]]]; (split; [done|]); by destruct refused. }
  destruct (Hpost4 _ eq_refl eq_refl) as [_ Hcapped]. unfold mbind, act_bind in Hr.
  destruct (run (pfold _ _ _) w4) as [w5 o5] eqn:Hstamp.
  assert (safe (frz w) (fun _ _ => True) k4 (pfold (fun (_ : unit) g => set_applied_cap_on_restore_record g
    (dget g (pg_clamped_watts_by_uuid planned)) (Some (mkJob exec pod))) tt persistent)) as Hs5.
  { eapply safe_weaken; [|apply ok_any_fold; intros; apply set_applied_cap_ok]. done. }
  destruct (mid_step w _ _ _ _ _ _ Hi4 Hk4 Hs5 Hstamp) as (Hi5 & k5 & _ & Hk5 & Hk45 & Hk45').
  pose proof (index_kept_run _ _ _ _ (index_kept_fold _ _ _ _ (fun _ g => index_kept_stamp _ g _ _)) Hstamp) as Hx5.
  destruct o5 as [[]|e]; unfold mret, act_ret in Hr; simplify_eq; (split; [by apply caps_undoable_mid|]); [|done].
  intros _. destruct Hk5 as [(new & Hl & Hsub) Hst]. exists new. rewrite Hx5, Hx4. split_and!; [done..|].
  intros t Ht. assert (is_Some (stored_limit w' (pl_gpu_uuid t))) as [v Hv] by (apply Hst; [done|]; apply Hk45', Hk34, Hb, Ht).
  destruct Hi5 as (_ & HV & _). split_and!; [by eexists|by rewrite Hv, (HV _ _ Hv)|].
  destruct (Hcapped t Ht) as (l & Hin & Hl'). exists l. split; [|done]. by apply Hsub, Hk45.
Qed.

Lemma apply_spec limits pod exec w w' o :
  well_kept (restore_records w) -> apply_filler_gpu_power_limits host_run out limits pod exec w = (w', o) ->
  caps_undoable w w' /\ (o = Ok APPLIED -> capped_and_kept limits pod w w').
Proof.
  intros Hw Hr. unfold apply_filler_gpu_power_limits in Hr. unfold mbind at 1, act_bind in Hr.
  destruct (run (plan_gpu_caps limits) w) as [w1 o1] eqn:Hplan.
  destruct (plan_spec limits w w1 o1 Hplan) as (Hrec & Hlog & Hcase).
  assert (mid w w1) as Hi1.
  { split_and!; [by rewrite Hrec| |].
    - intros g v Hg. apply limit_to_keep_stored. unfold stored_limit in *. by rewrite Hrec in Hg.
    - exists []. rewrite app_nil_r. split_and!; [done| |set_solver]. intros g v Hg. left. unfold stored_limit in *. by rewrite Hrec. }
  assert (holds (frz w) ([], []) w1) as Hk1 by by apply holds_nothing.
  destruct Hcase as [->|(states & clamped & -> & Hrep & Hclamp)].
  { unfold mret, act_ret in Hr. simplify_eq. split; [by apply caps_undoable_mid|done]. }
  destruct (clamp_fold_spec states limits _ [] clamped eq_refl Hclamp) as (Hall & _ & _).
  set (planned := mkPlan states clamped) in *.
  unfold mbind at 1, act_bind in Hr. destruct (run (ensure_records _ _ _ _) w1) as [w2 o2] eqn:Hens.
  assert (forall t, t ∈ limits -> exists s, dget (pl_gpu_uuid t) (pg_state_by_uuid planned) = Some s /\
    (stored_limit w (pl_gpu_uuid t) = None -> limit_to_keep w (pl_gpu_uuid t) = Some (ps_current_watts s))) as Hkeep.
  { intros t Ht. destruct (Hall t Ht) as [s Hs]. exists s. split; [done|]. intros Hnone. unfold limit_to_keep.
    rewrite Hnone, Hrep. cbn. by rewrite Hs. }
  destruct (mid_step w _ _ _ _ _ _ Hi1 Hk1 (ensure_records_ok _ _ _ _ _ planned pod exec limits eq_refl Hkeep) Hens)
    as (Hi2 & k2 & Hpost & Hk2 & _).
  cbv beta in Hpost. destruct Hpost as (b & -> & Hb).
  destruct b; cbn [negb] in Hr.
  2:{ destruct (undo_undoable w w2 w' o _ pod FAILED (caps_undoable_mid _ _ Hi2) Hr) as [Hu [->|[e ->]]]; by split. }
  specialize (Hb eq_refl). unfold mbind at 1, act_bind in Hr.
  destruct (run (call (SetIndex _ _)) w2) as [w3 o3] eqn:Hidx.
  assert (safe (frz w) (fun _ _ => True) k2 (call (SetIndex pod (map pl_gpu_uuid limits)))) as Hs3 by by split.
  destruct (mid_step w _ _ _ _ _ _ Hi2 Hk2 Hs3 Hidx) as (Hi3 & k3 & _ & Hk3 & _ & Hk23).
  destruct o3 as [[[]|e]|e].
  3:{ simplify_eq. split; [by apply caps_undoable_mid|done]. }
  2:{ destruct (undo_undoable w w3 w' o _ pod FAILED (caps_undoable_mid _ _ Hi3) Hr) as [Hu [->|[e' ->]]]; by split. }
  assert (pod_indexes w3 !! pod = Some (Some (JList (map JStr (map pl_gpu_uuid limits))))) as Hi3x.
  { unfold sequentially in Hidx. cbn in Hidx. unfold write_redis in Hidx.
    destruct (fate_of out (tick w2)); cbn in Hidx; simplify_eq. cbn. apply lookup_insert_eq. }
  destruct (set_caps_spec planned limits pod exec w k3 w3 w' o Hi3 Hk3 (fun t Ht => Hk23 _ (Hb t Ht)) Hr) as [Hu Happ].
  split; [done|]. intros Ho. destruct (Happ Ho) as (new & Hl & Hx & Ht). exists states, clamped, new. rewrite Hx. by split_and!.
Qed.

(** ** Sequences of operations *)

Inductive power_op :=
| ApplyCaps (limits : list GpuPowerLimit) (pod_id executor_id : string)
| RestorePod (pod_id : string) (require_complete : bool)
| RestoreTracked (gpu_uuids : list string) (host_probe : option string) (concurrency : nat) (require_complete : bool)
| RestoreAll (host_probe : option string) (concurrency : nat)
| RaiseLow (executor_id : string) (gpu_uuids : option (list string)) (concurrency : nat)
| ClearClaims (pod_id : string)
| PutBackClaims (claims : list (string * Z)).

(** The world an operation leaves, whether it returns or raises. *)
Definition run_op (w : World H) (op : power_op) : World H :=
  match op with
  | ApplyCaps limits pod exec => (apply_filler_gpu_power_limits host_run out limits pod exec w).1
  | RestorePod pod strict => (restore_filler_pod_gpu_power_limits host_run out str_of_other pod strict w).1
  | RestoreTracked uuids probe n strict => (restore_tracked_gpu_power_limits host_run out uuids probe n strict w).1
  | RestoreAll probe n => (restore_all_host_gpu_power_limits host_run out probe n w).1
  | RaiseLow exec uuids n => (raise_low_power_limits_to_default host_run out exec uuids n w).1
  | ClearClaims pod => (run (clear_filler_pod_applied_caps str_of_other pod) w).1
  | PutBackClaims claims => (run (restore_filler_pod_applied_caps claims) w).1
  end.

Lemma keeps_op {A} (m : act (World H) A) w :
  (forall V0 V old, (forall g v, V0 g = Some v -> V g = Some v) -> keeps true V0 V old m (fun _ => True)) ->
  well_kept (restore_records w) -> way_back w (m w).1.
Proof. intros Hm Hw. destruct (m w) as [w' o] eqn:Hr. by destruct (clearing_way_back m w w' o Hm Hw Hr). Qed.

Lemma run_op_way_back w op : well_kept (restore_records w) -> way_back w (run_op w op).
Proof.
  intros Hw. destruct op; cbn [run_op].
  - destruct (apply_filler_gpu_power_limits _ _ _ _ _ w) as [w' o] eqn:Hr.
    destruct (apply_spec _ _ _ _ _ _ Hw Hr) as [(Hw' & new & Hl & Hn & _) _]. split; [done|]. by exists new.
  - apply keeps_op; [|done]. intros. by apply restore_filler_pod_keeps.
  - apply keeps_op; [|done]. intros. by apply restore_tracked_keeps.
  - apply keeps_op; [|done]. intros. by apply restore_all_keeps.
  - apply keeps_op; [|done]. intros. by apply raise_low_keeps.
  - apply keeps_op; [|done]. intros. apply keeps_run_any; [done|apply clear_claims_ok].
  - apply keeps_op; [|done]. intros. apply keeps_run_any; [done|apply put_back_claims_ok].
Qed.


End WayBack.
