(* ===== verification/PowerRoundTrip.v ===== *)
(** * A filler's caps, set and given back

    The life of a filler on a host that does what nvidia-smi documents, with a Redis that
    answers: its caps are applied, its claims cleared when it stops, its limits restored
    when it is gone.  The host is still a parameter; [honest_host] states what the round
    trip relies on. *)

From Stdlib Require Import String.
From stdpp Require Import gmap strings.
From S2P Require Import Prelude Float64 PyValue Effects JobResult IncentiveConfig Readings PowerCap PowerRestore.

Local Open Scope string_scope.
Local Open Scope list_scope.
Local Open Scope Z_scope.

Section RoundTrip.
Context `{R : Rounding} {H : Type} (host_run : H -> ssh_command -> H * res (Z * string)) (out : Outside).
Context (str_of_other : json -> string).
Context (limit_of : H -> string -> option Z) (in_range : string -> Z -> Prop).
Notation hdl := (handle host_run out).
Notation run := (sequentially host_run out).
Notation same_limits h h' := (forall g : string, limit_of h' g = limit_of h g).

(** nvidia-smi as documented: a limit within the hardware range is set and stays until
    the next set, queries report it, and leave it alone. *)
Record honest_host : Prop := {
  honest_persistence : forall h g, same_limits h (host_run h (EnablePersistence g)).1;
  honest_set : forall h g v u, limit_of h g = Some u -> in_range g v ->
    exists s, (host_run h (SetLimit g v)).2 = Ok (0, s) /\
      forall g', limit_of (host_run h (SetLimit g v)).1 g' = if decide (g' = g) then Some v else limit_of h g';
  honest_readback : forall h g v, limit_of h g = Some v ->
    (exists s rb, (host_run h (ReadBack g)).2 = Ok (0, s) /\ parse_power_readback_csv s = Ok rb /\ rb_watts rb = Some v) /\
    same_limits h (host_run h (ReadBack g)).1;
  honest_query : forall h, exists s states, (host_run h QueryPowerState).2 = Ok (0, s) /\
    parse_power_state_csv s = Ok states /\ same_limits h (host_run h QueryPowerState).1 /\
    (forall g, ps_current_watts <$> dget g states = limit_of h g) /\
    (forall g st v, dget g states = Some st -> in_range g (clamp_watts v st));
  honest_range : forall h g v, limit_of h g = Some v -> in_range g v
}.
Context (Hhost : honest_host) (Hredis : forall n, fate_of out n = Done).

Definition same_redis (w w' : World H) : Prop :=
  restore_records w' = restore_records w /\ pod_indexes w' = pod_indexes w.

(** ** One set *)
Lemma set_alone_honest action exec g before v u w :
  limit_of (host w) g = Some u -> in_range g v ->
  exists w' o, run (set_alone action exec g before v) w = (w', Ok o) /\ succeeded o = true /\ same_redis w w' /\
    forall g', limit_of (host w') g' = if decide (g' = g) then Some v else limit_of (host w) g'.
Proof.
  intros Hu Hv. unfold sequentially, set_alone, set_and_log_power_limit, enable_persistence_mode, set_power_limit, read_back_power_state. cbn.
  pose proof (honest_persistence Hhost (host w) g) as H1. destruct (host_run (host w) (EnablePersistence g)) as [h1 a1]. cbn in *.
  destruct (honest_set Hhost h1 g v u) as (s & Hs & H2); [by rewrite H1|done|].
  destruct (host_run h1 (SetLimit g v)) as [h2 a2]. cbn in *. subst a2. cbn.
  destruct (honest_readback Hhost h2 g v) as [(s3 & rb & Hs3 & Hrb & Hw) H3]; [by rewrite H2, decide_True|].
  destruct (host_run h2 (ReadBack g)) as [h3 a3]. cbn in *. subst a3. cbn. rewrite Hrb. cbn. rewrite Hw. rewrite Z.eqb_refl. cbn.
  eexists _, _. split_and!; [done|done|done|]. intros g'. cbn. by rewrite H3, H2, H1.
Qed.

(** ** The records *)

(** The record of a GPU keeps its limit. *)
Definition kept_under (cur : string -> option Z) (w : World H) (g : string) : Prop :=
  exists r, restore_records w !! g = Some (Some r) /\ rr_gpu_uuid r = g /\ cur g = Some (rr_watts r).
Definition unclaimed (w : World H) (g : string) : Prop :=
  forall r, restore_records w !! g = Some (Some r) -> rr_capped_to_watts r = None.

Lemma redis_read {A} (w : World H) (v : A) : read_redis out w v = (ticked w, Ok v).
Proof. unfold read_redis. by rewrite Hredis. Qed.
Lemma redis_write (f : World H -> World H) w : write_redis out f w = (ticked (f w), Ok tt).
Proof. unfold write_redis. by rewrite Hredis. Qed.

Lemma run_call_bind {X A} (c : call_of X) (f : X -> prog call_of A) w :
  run (call c ≫= f) w = let '(w', x) := hdl X c w in run (f x) w'.
Proof. done. Qed.

Lemma run_bind {A B} (p : prog call_of A) (f : A -> prog call_of B) w w1 a :
  run p w = (w1, Ok a) -> run (p ≫= f) w = run (f a) w1.
Proof. intros Hp. unfold sequentially in *. rewrite perform_bind. unfold mbind, act_bind. by rewrite Hp. Qed.

Lemma ensure_honest planned pod exec cur limits w :
  (forall t, t ∈ limits -> exists s, dget (pl_gpu_uuid t) (pg_state_by_uuid planned) = Some s /\ cur (pl_gpu_uuid t) = Some (ps_current_watts s)) ->
  (forall t, t ∈ limits -> restore_records w !! pl_gpu_uuid t = None \/ kept_under cur w (pl_gpu_uuid t)) ->
  exists w', run (ensure_records planned pod exec limits) w = (w', Ok true) /\ host w' = host w /\ pod_indexes w' = pod_indexes w /\
    (forall t, t ∈ limits -> kept_under cur w' (pl_gpu_uuid t)) /\
    forall g, restore_records w' !! g = restore_records w !! g \/ (g ∈ map pl_gpu_uuid limits /\ restore_records w !! g = None).
Proof.
  revert w. induction limits as [|t ts IH]; intros w Hst Hrec; cbn [ensure_records].
  { exists w. split_and!; [done..|set_solver|by left]. }
  destruct (Hst t) as (st & -> & Hcur); [left|]. set (g := pl_gpu_uuid t) in *.
  assert (exists w1, run (ensure_restore_record g (ps_current_watts st) pod exec) w = (w1, Ok true) /\ host w1 = host w /\
    pod_indexes w1 = pod_indexes w /\ kept_under cur w1 g /\
    forall g', restore_records w1 !! g' = restore_records w !! g' \/ (g' = g /\ restore_records w !! g' = None))
    as (w1 & Hrun & Hh1 & Hx1 & Hk1 & Hr1).
  { unfold sequentially, ensure_restore_record. cbn. rewrite redis_read. cbn. destruct (Hrec t) as [Hnone|Hkept]; [left| |].
    - fold g in Hnone. rewrite Hnone. cbn. rewrite redis_write. cbn. eexists. split_and!; [done..| |].
      + eexists. split_and!; [apply lookup_insert_eq|done|done].
      + intros g'. cbn. destruct (decide (g' = g)) as [->|Hne]; [by right|left]. by rewrite lookup_insert_ne.
    - destruct Hkept as (r & Hr & ? & ?). fold g in Hr. rewrite Hr. cbn. eexists. split_and!; [done..| |by left]. by exists r. }
  rewrite (run_bind _ _ _ _ _ Hrun).
  destruct (IH w1) as (w2 & Hrun2 & Hh2 & Hx2 & Hk2 & Hr2).
  { intros t' Ht'. apply Hst. by right. }
  { intros t' Ht'. destruct (Hr1 (pl_gpu_uuid t')) as [Heq|[-> _]]; [|by right].
    unfold kept_under. rewrite Heq. apply Hrec. by right. }
  exists w2. split_and!; [done|congruence|congruence| |].
  - intros t' [->|Ht']%elem_of_cons; [|by apply Hk2]. fold g. destruct (Hr2 g) as [Heq|[_ Hnone]].
    + unfold kept_under. rewrite Heq. exact Hk1.
    + destruct Hk1 as (r & Hr & _). congruence.
  - intros g'. cbn. destruct (Hr2 g') as [Heq|[Hin Hnone]], (Hr1 g') as [Heq1|[-> Hn1]]; [left; congruence|right; split; [left|done]|right|right].
    + split; [by right|congruence].
    + split; [left|done].
Qed.

(** A stamp on a record leaves its limit. *)
Lemma stamp_honest g watts by_ w :
  exists w', run (set_applied_cap_on_restore_record g watts by_) w = (w', Ok tt) /\ host w' = host w /\
    pod_indexes w' = pod_indexes w /\ (forall g', g' <> g -> restore_records w' !! g' = restore_records w !! g') /\
    (forall cur, kept_under cur w g -> kept_under cur w' g) /\
    (forall r, restore_records w !! g = Some (Some r) -> forall r', restore_records w' !! g = Some (Some r') -> rr_capped_to_watts r' = watts).
Proof.
  unfold sequentially, set_applied_cap_on_restore_record. cbn. rewrite redis_read.
  destruct (restore_records w !! g) as [[r|]|] eqn:Hg; cbn.
  2,3: eexists; split_and!; [done..|]; intros; congruence.
  rewrite redis_write. cbn. eexists. split_and!; [done..| | |].
  - intros g' Hne. cbn. by rewrite lookup_insert_ne.
  - intros cur (r0 & Hr0 & Hu & Hc). rewrite Hg in Hr0. simplify_eq. eexists. cbn. by rewrite lookup_insert_eq.
  - intros r0 _ r'. cbn. rewrite lookup_insert_eq. intros [= <-]. done.
Qed.

(** Programs that only touch the records of [G], and leave their limits. *)
Definition stamps_only (cur : string -> option Z) (G : list string) (w w' : World H) : Prop :=
  host w' = host w /\ pod_indexes w' = pod_indexes w /\ (forall g, g ∉ G -> restore_records w' !! g = restore_records w !! g) /\
  (forall g, kept_under cur w g -> kept_under cur w' g).

Lemma stamps_honest (f : string -> option Z) by_ cur gs G w :
  gs ⊆ G ->
  exists w', run (pfold (fun (_ : unit) g => set_applied_cap_on_restore_record g (f g) by_) tt gs) w = (w', Ok tt) /\ stamps_only cur G w w'.
Proof.
  revert w. induction gs as [|g gs IH]; intros w Hsub; [by exists w|]. rewrite pfold_cons.
  destruct (stamp_honest g (f g) by_ w) as (w1 & Hrun & Hh & Hx & Ho & Hk & _).
  rewrite (run_bind _ _ _ _ _ Hrun). destruct (IH w1) as (w2 & Hrun2 & Hh2 & Hx2 & Ho2 & Hk2); [set_solver|].
  exists w2. split; [done|]. split_and!; [congruence|congruence| |].
  - intros g' Hg'. rewrite Ho2 by done. apply Ho. set_solver.
  - intros g' Hg'. apply Hk2. destruct (decide (g' = g)) as [->|Hne]; [by apply Hk|]. unfold kept_under. by rewrite Ho.
Qed.

Lemma clears_honest cur gs G cleared w :
  gs ⊆ G ->
  exists w' cl, run (pfold clear_step cleared gs) w = (w', Ok cl) /\ stamps_only cur G w w' /\
    (forall g, g ∈ gs \/ unclaimed w g -> unclaimed w' g).
Proof.
  revert w cleared. induction gs as [|g gs IH]; intros w cleared Hsub; [exists w; eexists; split_and!; [done|done|set_solver]|].
  rewrite pfold_cons.
  assert (exists w1 c1, run (clear_step cleared g) w = (w1, Ok c1) /\ host w1 = host w /\ pod_indexes w1 = pod_indexes w /\
    (forall g', g' <> g -> restore_records w1 !! g' = restore_records w !! g') /\ (forall cur, kept_under cur w g -> kept_under cur w1 g) /\
    unclaimed w1 g) as (w1 & c1 & Hrun & Hh & Hx & Ho & Hk & Hu).
  { unfold clear_step. rewrite run_call_bind. cbn [handle]. rewrite redis_read.
    destruct (stamp_honest g None None (ticked w)) as (w1 & Hrun & Hh & Hx & Ho & Hk & Hu).
    rewrite (run_bind _ _ _ _ _ Hrun). eexists w1, _. split_and!; [done..|]. intros r' Hr'. cbn in Hu.
    destruct (restore_records w !! g) as [[r|]|] eqn:Hg; [by eapply Hu|exfalso..].
    all: unfold sequentially, set_applied_cap_on_restore_record in Hrun; cbn in Hrun; rewrite redis_read in Hrun; cbn in Hrun;
      rewrite Hg in Hrun; cbn in Hrun; simplify_eq; cbn in Hr'; congruence. }
  rewrite (run_bind _ _ _ _ _ Hrun). destruct (IH w1 c1) as (w2 & cl & Hrun2 & (Hh2 & Hx2 & Ho2 & Hk2) & Hu2); [set_solver|].
  exists w2, cl. split_and!; [done| |].
  - split_and!; [congruence|congruence| |].
    + intros g' Hg'. rewrite Ho2 by done. apply Ho. set_solver.
    + intros g' Hg'. apply Hk2. destruct (decide (g' = g)) as [->|Hne]; [by apply Hk|]. unfold kept_under. by rewrite Ho.
  - intros g' Hg'. apply Hu2. destruct (decide (g' = g)) as [->|Hne]; [by right|]. destruct Hg' as [Hin|Hun].
    + apply elem_of_cons in Hin as [|]; [done|by left].
    + right. unfold unclaimed. by rewrite Ho.
Qed.

(** ** The caps *)
Lemma cap_step_honest planned exec all rf pers t w s v u :
  dget (pl_gpu_uuid t) (pg_state_by_uuid planned) = Some s -> dget (pl_gpu_uuid t) (pg_clamped_watts_by_uuid planned) = Some v ->
  in_range (pl_gpu_uuid t) v -> limit_of (host w) (pl_gpu_uuid t) = Some u ->
  exists w' new, run (cap_step planned exec (all, rf, pers) t) w = (w', Ok (all, rf, pers ++ new)) /\ new ⊆ [pl_gpu_uuid t] /\
    same_redis w w' /\ forall g, limit_of (host w') g = if decide (g = pl_gpu_uuid t) then Some v else limit_of (host w) g.
Proof.
  intros Hs Hv Hr Hu. unfold cap_step. rewrite Hs, Hv.
  destruct (set_alone_honest Cap exec (pl_gpu_uuid t) (Some (ps_current_watts s)) v u w Hu Hr) as (w' & o & Hrun & Ho & Hsame & Hl).
  rewrite (run_bind _ _ _ _ _ Hrun), Ho. cbn [negb].
  exists w'. destruct (so_persistence_enabled o) as [[]|]; eexists; (split; [|split_and!; [|exact Hsame|exact Hl]]).
  1: done. 1: done. all: try (rewrite <- (app_nil_r pers) at 1; done); set_solver.
Qed.

Lemma caps_honest planned exec limits all rf pers w :
  (forall t, t ∈ limits -> exists s v u, dget (pl_gpu_uuid t) (pg_state_by_uuid planned) = Some s /\
     dget (pl_gpu_uuid t) (pg_clamped_watts_by_uuid planned) = Some v /\ in_range (pl_gpu_uuid t) v /\
     limit_of (host w) (pl_gpu_uuid t) = Some u) ->
  exists w' new, run (pfold (cap_step planned exec) (all, rf, pers) limits) w = (w', Ok (all, rf, pers ++ new)) /\
    new ⊆ map pl_gpu_uuid limits /\ same_redis w w' /\
    (forall g, g ∉ map pl_gpu_uuid limits -> limit_of (host w') g = limit_of (host w) g) /\
    (forall t, t ∈ limits -> limit_of (host w') (pl_gpu_uuid t) = dget (pl_gpu_uuid t) (pg_clamped_watts_by_uuid planned)).
Proof.
  revert pers w. induction limits as [|t ts IH]; intros pers w Ht.
  { exists w, []. rewrite app_nil_r. split_and!; [done|set_solver|done|done|set_solver]. }
  rewrite pfold_cons. destruct (Ht t) as (s & v & u & Hs & Hv & Hr & Hu); [left|].
  destruct (cap_step_honest planned exec all rf pers t w s v u Hs Hv Hr Hu) as (w1 & n1 & Hrun & Hn1 & [Hr1 Hx1] & Hl1).
  rewrite (run_bind _ _ _ _ _ Hrun). destruct (IH (pers ++ n1) w1) as (w2 & n2 & Hrun2 & Hn2 & [Hr2 Hx2] & Ho2 & Hl2).
  { intros t' Ht'. destruct (Ht t') as (s' & v' & u' & ? & ? & ? & Hu'); [by right|]. rewrite Hl1. case_decide; eauto 8. }
  exists w2, (n1 ++ n2). rewrite (assoc_L app). split_and!; [done|set_solver|split; congruence| |].
  - intros g Hg. cbn in Hg. rewrite Ho2 by set_solver. rewrite Hl1, decide_False by set_solver. done.
  - intros t' Ht'. destruct (decide (pl_gpu_uuid t' ∈ map pl_gpu_uuid ts)) as [Hin|Hout].
    + apply list_elem_of_fmap in Hin as (t2 & He & Ht2). rewrite He. by apply Hl2.
    + apply elem_of_cons in Ht' as [->|Ht']; [|by destruct Hout; apply list_elem_of_fmap_2].
      rewrite Ho2 by done. rewrite Hl1, decide_True by done. done.
Qed.

(** ** Giving the limits back, side by side *)
Section GivingBack.
Context (G : list string) (cur : string -> option Z) (R0 : gmap string (option GpuPowerRestoreRecord)).
Context (I0 : gmap string (option json)) (Hcur : forall g v, cur g = Some v -> in_range g v).

(** What a restore learns: a GPU is back at its limit, its record is gone. *)
Inductive fact := Back (g : string) | Gone (g : string).
Definition fact_holds (w : World H) (f : fact) : Prop :=
  match f with Back g => limit_of (host w) g = cur g | Gone g => restore_records w !! g = None end.

Definition giving_back : Protocol call_of (World H) := {|
  knows := list fact;
  holds k w := forall f, f ∈ k -> fact_holds w f;
  inv w := (forall g, g ∉ G -> limit_of (host w) g = cur g) /\
           (forall g, is_Some (cur g) -> is_Some (limit_of (host w) g)) /\
           (forall g, g ∉ G -> restore_records w !! g = R0 !! g) /\ pod_indexes w = I0;
  allowed k X c := match c with
    | SetRecord _ _ | SetIndex _ _ | DeleteIndex _ => False
    | DeleteRecord g => g ∈ G
    | Run (SetLimit g v) => g ∈ G /\ cur g = Some v
    | Run (ReadBack g) => is_Some (cur g)
    | _ => True
    end;
  answers k X c := match c in call_of X return X -> Prop with
    | Run (SetLimit g v) => fun x => exists s, x = Ok (0, s)
    | Run (ReadBack g) => fun x => Back g ∈ k ->
        exists s rb, x = Ok (0, s) /\ parse_power_readback_csv s = Ok rb /\ rb_watts rb = cur g
    | DeleteRecord g => fun x => x = Ok tt
    | _ => fun _ => True
    end;
  learns k X c := match c in call_of X return X -> list fact with
    | Run (SetLimit g v) => fun _ => Back g :: k
    | DeleteRecord g => fun _ => Gone g :: k
    | _ => fun _ => k
    end
|}.

Lemma giving_back_same k X (c : call_of X) w w' x :
  restore_records w' = restore_records w -> pod_indexes w' = pod_indexes w -> same_limits (host w) (host w') ->
  inv giving_back w -> holds giving_back k w -> answers giving_back k c x -> learns giving_back k c x = k ->
  inv giving_back w' /\ answers giving_back k c x /\ holds giving_back (learns giving_back k c x) w' /\
    forall k', holds giving_back k' w -> holds giving_back k' w'.
Proof.
  intros Hr Hx Hl (H1 & H2 & H3 & H4) Hk Ha ->. cbn. rewrite Hr, Hx.
  assert (forall f, fact_holds w f -> fact_holds w' f) as Hf by (intros [g|g]; cbn; [by rewrite Hl|by rewrite Hr]).
  split_and!; [intros g Hg; rewrite Hl; by apply H1|intros g Hg; rewrite Hl; by apply H2|done|done|done| |].
  - intros f Hf'. by apply Hf, Hk.
  - intros k' Hk' f Hf'. by apply Hf, Hk'.
Qed.

#[local] Instance giving_back_sound : Sound hdl giving_back.
Proof.
  intros k X c w w' x Hi Hk Ha Hc. destruct c; cbn [handle] in Hc; try done.
  1,3,4: rewrite redis_read in Hc; simplify_eq; by apply giving_back_same.
  - rewrite redis_write in Hc. simplify_eq. cbn in Ha. destruct Hi as (H1 & H2 & H3 & H4).
    assert (forall f, fact_holds w f -> fact_holds (ticked (with_records (delete gpu_uuid (restore_records w)) w)) f) as Hf.
    { intros [g|g]; cbn; [done|]. intros Hg. rewrite lookup_delete_None. by right. }
    split_and!; [split_and!; [done|done| |done]|done| |].
    + intros g Hg. cbn. rewrite lookup_delete_ne by set_solver. by apply H3.
    + intros f [->|Hin]%elem_of_cons; [apply lookup_delete_eq|by apply Hf, Hk].
    + intros k' Hk' f Hin. by apply Hf, Hk'.
  - rewrite redis_write in Hc. simplify_eq. by apply giving_back_same.
  - destruct cmd as [|g|g v|g].
    + pose proof (honest_query Hhost (host w)) as (s & states & _ & _ & Hl & _).
      destruct (host_run (host w) QueryPowerState). simplify_eq. by apply giving_back_same.
    + pose proof (honest_persistence Hhost (host w) g) as Hl. destruct (host_run (host w) (EnablePersistence g)).
      simplify_eq. by apply giving_back_same.
    + destruct Ha as [HG Hv]. pose proof Hi as (H1 & H2 & H3 & H4). destruct (H2 g) as [u Hu]; [by eexists|].
      destruct (honest_set Hhost (host w) g v u Hu (Hcur g v Hv)) as (s & Hs & Hl).
      destruct (host_run (host w) (SetLimit g v)) as [h a]. cbn in Hs, Hl. simplify_eq.
      assert (forall f, fact_holds w f -> fact_holds (ticked (with_host h w)) f) as Hf.
      { intros [g'|g']; cbn; [|done]. rewrite Hl. by case_decide; [subst|]. }
      split_and!; [split_and!| | |].
      * intros g' Hg'. cbn. rewrite Hl, decide_False by set_solver. by apply H1.
      * intros g' Hg'. cbn. rewrite Hl. case_decide; [by eexists|by apply H2].
      * done.
      * done.
      * by exists s.
      * intros f [->|Hin]%elem_of_cons; [cbn; by rewrite Hl, decide_True|by apply Hf, Hk].
      * intros k' Hk' f Hin. by apply Hf, Hk'.
    + destruct Hi as (H1 & H2 & H3 & H4). destruct (H2 g Ha) as [u Hu].
      destruct (honest_readback Hhost (host w) g u Hu) as [(s & rb & Hs & Hrb & Hw) Hl].
      destruct (host_run (host w) (ReadBack g)) as [h a]. cbn in Hs, Hl. simplify_eq.
      apply giving_back_same; try done. cbn. intros Hb. exists s, rb. split_and!; [done|done|]. rewrite Hw, <- Hu. by apply (Hk (Back g)).
  - simplify_eq. by apply giving_back_same.
  - simplify_eq. by apply giving_back_same.
Qed.

Lemma set_gives_back k action exec g before v :
  g ∈ G -> cur g = Some v ->
  safe giving_back (fun o k' => exists out, o = Ok out /\ succeeded out = true /\ Back g ∈ k') k
    (set_and_log_power_limit action exec g before v).
Proof.
  intros HG Hc. unfold set_and_log_power_limit. apply safe_bind, safe_call; [done|]. intros a1 _. apply safe_bind.
  unfold set_power_limit. apply safe_call; [done|]. intros a2 (s & ->). cbn [negb Z.eqb]. apply safe_bind.
  unfold read_back_power_state. apply safe_call; [cbn; by rewrite Hc|].
  intros a3 Ha3. destruct Ha3 as (s3 & rb & -> & Hrb & Hw); [left|]. cbn [negb Z.eqb]. rewrite Hrb. cbn [of_res].
  change (safe giving_back ?q ?k0 (Ret ?a)) with (q (Ok a) k0). cbv beta iota. rewrite Hw, Hc, Z.eqb_refl. cbn [negb].
  change (safe giving_back ?q ?k0 (Ret ?a)) with (q (Ok a) k0). cbv beta iota.
  apply safe_call; [done|]. intros [] _. eexists. split_and!; [done|done|left].
Qed.

(** A restore of an unclaimed record succeeds and clears it. *)
Lemma restore_one_gives_back k states r :
  rr_gpu_uuid r ∈ G -> cur (rr_gpu_uuid r) = Some (rr_watts r) -> rr_capped_to_watts r = None ->
  safe giving_back (fun o k' => o = Ok (Some (true, false)) /\ Back (rr_gpu_uuid r) ∈ k' /\ Gone (rr_gpu_uuid r) ∈ k') k
    (guarded (restore_one states r set_and_log_power_limit)).
Proof.
  intros HG Hc Hn. apply safe_try, safe_bind. unfold restore_one. rewrite Hn. apply safe_bind.
  change (safe giving_back ?q ?k0 (Ret ?a)) with (q (Ok a) k0). cbv beta iota. apply safe_bind.
  eapply safe_weaken; [|by apply set_gives_back]. intros o k' (out' & -> & Hs & Hb). rewrite Hs. cbn [negb].
  apply safe_call; [done|]. intros x ->. split_and!; [done|by right|left].
Qed.

(** The restore of all records of [G]. *)
Lemma give_back_all records states n w w' o :
  inv giving_back w ->
  (forall r, r ∈ records -> rr_gpu_uuid r ∈ G /\ cur (rr_gpu_uuid r) = Some (rr_watts r) /\ rr_capped_to_watts r = None) ->
  set_side_by_side host_run out records (restore_one states) n w = (w', o) ->
  o = Ok (Z.of_nat (length records), false) /\ inv giving_back w' /\
  forall r, r ∈ records -> limit_of (host w') (rr_gpu_uuid r) = cur (rr_gpu_uuid r) /\ restore_records w' !! rr_gpu_uuid r = None.
Proof.
  intros Hi Hr Hrun. unfold set_side_by_side in Hrun. destruct (gather _ _ _ _ w) as [w1 os] eqn:Hg.
  set (posts := map (fun r o (k : list fact) => o = Ok (Some (true, false)) /\ Back (rr_gpu_uuid r) ∈ k /\ Gone (rr_gpu_uuid r) ∈ k) records).
  assert (inv giving_back w1 /\ Forall2 (fun post o => exists k, holds giving_back k w1 /\ post o k) posts os) as [Hi1 Hos].
  { eapply (gather_safe hdl giving_back posts) in Hg as (? & ? & _); [done|exact Hi|].
    apply Forall2_fmap, Forall_Forall2_diag, Forall_forall. intros r Hin. exists []. split; [intros f Hf; by apply not_elem_of_nil in Hf|].
    destruct (Hr r Hin) as (? & ? & ?). by apply restore_one_gives_back. }
  apply Forall2_fmap_l in Hos.
  assert (os = map (fun _ => Ok (Some (true, false))) records) as ->.
  { clear -Hos. induction Hos as [|r o rs os (k & _ & -> & _) _ IH]; cbn; [done|by rewrite IH]. }
  assert (all_ok (map (fun _ : GpuPowerRestoreRecord => Ok (Some (true, false))) records) = Ok (map (fun _ => Some (true, false)) records)) as Hall.
  { clear. induction records as [|r rs IH]; cbn; [done|]. by rewrite IH. }
  rewrite Hall in Hrun.
  assert (forall (rs : list GpuPowerRestoreRecord),
    List.filter (fun to : GpuPowerRestoreRecord * option (bool * bool) => match to.2 with None => true | _ => false end)
      (zip rs (map (fun _ => Some (true, false)) rs)) = [] /\
    length (List.filter (fun o : option (bool * bool) => match o with Some (true, _) => true | _ => false end) (map (fun _ => Some (true, false)) rs)) = length rs /\
    existsb (fun o : option (bool * bool) => match o with Some (_, true) => true | _ => false end) (map (fun _ => Some (true, false)) rs) = false) as Hcount.
  { clear. induction rs as [|r rs (IH1 & IH2 & IH3)]; [done|]. cbn. by rewrite IH1, IH2, IH3. }
  destruct (Hcount records) as (E1 & E2 & E3). rewrite E1, E2, E3 in Hrun. cbn in Hrun. unfold sequentially in Hrun. cbn in Hrun. simplify_eq.
  split_and!; [done|done|]. intros r Hin. clear -Hos Hin.
  induction records as [|r0 rs IH]; [by apply not_elem_of_nil in Hin|]. apply Forall2_cons in Hos as [(k & Hk & _ & Hb & Hgo) Hos].
  apply elem_of_cons in Hin as [->|Hin]; [|by apply IH]. split; [by apply (Hk (Back _))|by apply (Hk (Gone _))].
Qed.
End GivingBack.

(** ** The end of a filler *)
Lemma read_honest cur strict G acc w :
  (forall g, g ∈ G -> kept_under cur w g /\ unclaimed w g) ->
  exists w' rs, run (pfold (read_record_step strict) acc G) w =
      (w', Ok (mkReadResult (rd_records acc ++ rs) (rd_read_failed acc) (rd_missing acc))) /\
    host w' = host w /\ same_redis w w' /\ map rr_gpu_uuid rs = G /\
    forall r, r ∈ rs -> cur (rr_gpu_uuid r) = Some (rr_watts r) /\ rr_capped_to_watts r = None.
Proof.
  revert acc w. induction G as [|g G IH]; intros acc w Hg.
  { exists w, []. rewrite app_nil_r. split_and!; [by destruct acc|done|done|done|set_solver]. }
  rewrite pfold_cons. destruct (Hg g) as [(r & Hr & Hu & Hc) Hun]; [left|].
  assert (run (read_record_step strict acc g) w = (ticked w, Ok (mkReadResult (rd_records acc ++ [r]) (rd_read_failed acc) (rd_missing acc)))) as Hstep.
  { unfold sequentially, read_record_step. cbn. rewrite redis_read. cbn. rewrite Hr. by rewrite Hu, String.eqb_refl, andb_false_r. }
  rewrite (run_bind _ _ _ _ _ Hstep).
  destruct (IH (mkReadResult (rd_records acc ++ [r]) (rd_read_failed acc) (rd_missing acc)) (ticked w)) as (w' & rs & Hrun & Hh & [Hr' Hx'] & Hm & Hall).
  { intros g' Hg'. apply Hg. by right. }
  exists w', (r :: rs). cbn [rd_records rd_read_failed rd_missing] in Hrun. rewrite <- (assoc_L app) in Hrun. split_and!; [exact Hrun|done|done|cbn; congruence|].
  intros r' [->|Hin]%elem_of_cons; [|by apply Hall]. rewrite Hu. split; [done|]. by apply Hun.
Qed.

Lemma query_honest probe w :
  probe = None -> exists w' states, run (query_power_state probe) w = (w', Ok states) /\ same_redis w w' /\ same_limits (host w) (host w') /\
    (forall g, ps_current_watts <$> dget g states = limit_of (host w) g) /\
    (forall g st v, dget g states = Some st -> in_range g (clamp_watts v st)) /\ dget "" states = None.
Proof.
  intros ->. unfold sequentially, query_power_state. cbn. destruct (honest_query Hhost (host w)) as (s & states & Hs & Hp & Hl & Hcur & Hrange).
  destruct (host_run (host w) QueryPowerState) as [h a]. cbn in *. subst a. cbn. rewrite Hp. cbn. eexists _, _. split_and!; [done..|].
  apply (foldM_inv (fun d => dget "" d = None)) in Hp; [done| |done]. intros d line d' _ Hd Hline. unfold parse_power_line in Hline.
  destruct (map _ _) as [|u [|c [|df [|mn [|mx [|]]]]]]; try by simplify_eq.
  apply bind_ok in Hline as (cw & _ & Hline). destruct cw; [|by simplify_eq].
  destruct (String.eqb_spec u "") as [->|Hu]; [by simplify_eq|].
  apply bind_ok in Hline as (? & _ & Hline). apply bind_ok in Hline as (? & _ & Hline). apply bind_ok in Hline as (? & _ & Hline).
  simplify_eq. by rewrite dget_dset_ne.
Qed.

Lemma decode_index_honest G strict :
  "" ∉ G -> decode_index str_of_other (Some (JList (map JStr G))) strict = Some G.
Proof.
  intros Hne. unfold decode_index. assert (is_uuid_list (JList (map JStr G)) = true) as ->.
  { cbn. clear -Hne. induction G as [|g G IH]; [done|]. cbn. destruct (String.eqb_spec g "") as [->|]; [set_solver|]. apply IH. set_solver. }
  rewrite andb_false_r. unfold strings_of. cbn. by rewrite map_map, map_id.
Qed.

Lemma run_try {A} (p : prog call_of A) h w w' a : run p w = (w', Ok a) -> run (try_except p h) w = (w', Ok a).
Proof.
  unfold sequentially. revert w. induction p as [b|e|X c k IH]; intros w Hp; cbn in *; [done|done|].
  destruct (hdl X c w) as [w1 x]. by apply IH.
Qed.

Lemma act_bind_eq {A B} (m : act (World H) A) (f : A -> act (World H) B) w w1 a : m w = (w1, Ok a) -> (m ≫= f) w = f a w1.
Proof. unfold mbind, act_bind. by intros ->. Qed.

Lemma restore_tracked_honest G cur strict n w :
  (forall g, g ∈ G -> kept_under cur w g /\ unclaimed w g) ->
  (forall g, is_Some (cur g) -> is_Some (limit_of (host w) g)) -> (forall g v, cur g = Some v -> in_range g v) ->
  (forall g, g ∉ G -> limit_of (host w) g = cur g) ->
  exists w', restore_tracked_gpu_power_limits host_run out G None n strict w = (w', Ok (Z.of_nat (length G))) /\
    (forall g, limit_of (host w') g = cur g) /\ pod_indexes w' = pod_indexes w /\
    (forall g, g ∈ G -> restore_records w' !! g = None) /\ (forall g, g ∉ G -> restore_records w' !! g = restore_records w !! g).
Proof.
  intros Hkept Hsome Hrange Hout.
  destruct (read_honest cur strict G (mkReadResult [] false []) w Hkept) as (w1 & rs & Hread & Hh1 & [Hr1 Hx1] & Hm & Hall).
  unfold restore_tracked_gpu_power_limits, read_gpu_power_restore_records. rewrite (act_bind_eq _ _ _ _ _ Hread).
  cbn [rd_missing rd_records app]. rewrite andb_false_r. cbn [negb]. rewrite andb_true_r.
  assert (length rs = length G) as Hlen by (rewrite <- Hm; by rewrite length_map).
  destruct rs as [|r0 rs0] eqn:Hrs.
  { destruct G as [|g0 G0]; [|done]. exists w1. rewrite Hh1, Hx1, Hr1. split_and!; [done| |done|set_solver|done].
    intros g. apply Hout. set_solver. }
  rewrite <- Hrs in *. clear r0 rs0 Hrs.
  destruct (query_honest None w1 eq_refl) as (w2 & states & Hq & [Hr2 Hx2] & Hl2 & _).
  rewrite (act_bind_eq _ _ _ _ _ (run_try _ _ _ _ _ Hq)). cbn [andb]. unfold restore_records_of.
  destruct (set_side_by_side host_run out rs (restore_one states) n w2) as [w3 o3] eqn:Hside.
  destruct (give_back_all G cur (restore_records w) (pod_indexes w) Hrange rs states n w2 w3 o3) as (-> & (H1 & _ & H3 & H4) & Hback); [| |done|].
  { split_and!.
    - intros g Hg. rewrite Hl2, Hh1. by apply Hout.
    - intros g Hg. rewrite Hl2, Hh1. by apply Hsome.
    - intros g _. by rewrite Hr2, Hr1.
    - by rewrite Hx2, Hx1. }
  { intros r Hr. destruct (Hall r Hr). split_and!; [|done|done]. rewrite <- Hm. by apply list_elem_of_fmap_2. }
  exists w3. unfold mbind, act_bind. rewrite Hside. cbn [fst snd]. rewrite andb_false_r. unfold mret, act_ret. rewrite Hlen, Z.eqb_refl, andb_false_r.
  assert (forall g, g ∈ G -> exists r, r ∈ rs /\ g = rr_gpu_uuid r) as HG.
  { intros g Hg. rewrite <- Hm in Hg. apply list_elem_of_fmap in Hg as (r & -> & Hr). eauto. }
  split_and!; [done| |done| |done].
  - intros g. destruct (decide (g ∈ G)) as [Hg|Hg]; [|by apply H1]. destruct (HG g Hg) as (r & Hr & ->). by apply Hback.
  - intros g Hg. destruct (HG g Hg) as (r & Hr & ->). by apply Hback.
Qed.

Lemma restore_pod_honest pod G cur strict w :
  pod_indexes w !! pod = Some (Some (JList (map JStr G))) -> "" ∉ G ->
  (forall g, g ∈ G -> kept_under cur w g /\ unclaimed w g) ->
  (forall g, is_Some (cur g) -> is_Some (limit_of (host w) g)) -> (forall g v, cur g = Some v -> in_range g v) ->
  (forall g, g ∉ G -> limit_of (host w) g = cur g) ->
  exists w', restore_filler_pod_gpu_power_limits host_run out str_of_other pod strict w = (w', Ok (Z.of_nat (length G))) /\
    (forall g, limit_of (host w') g = cur g) /\ pod_indexes w' = delete pod (pod_indexes w) /\
    (forall g, g ∈ G -> restore_records w' !! g = None) /\ (forall g, g ∉ G -> restore_records w' !! g = restore_records w !! g).
Proof.
  intros Hidx Hne Hkept Hsome Hrange Hout. unfold restore_filler_pod_gpu_power_limits. unfold mbind at 1, act_bind.
  unfold sequentially at 1. cbn [perform call handle]. rewrite redis_read, Hidx, (decode_index_honest G strict Hne).
  destruct (restore_tracked_honest G cur strict POWER_LIMIT_SET_CONCURRENCY (ticked w) Hkept Hsome Hrange Hout)
    as (w2 & Htr & Hl2 & Hx2 & Hg2 & Ho2).
  exists (ticked (with_indexes (delete pod (pod_indexes w2)) w2)). rewrite (act_bind_eq _ _ _ _ _ Htr). unfold mbind, act_bind, sequentially. cbn.
  rewrite redis_write. cbn. by rewrite Hx2.
Qed.

(** ** The start of a filler *)
Lemma clamp_fold_total states limits d :
  (forall t, t ∈ limits -> is_Some (dget (pl_gpu_uuid t) states)) -> is_Some (fold_left (clamp_step states) limits (Some d)).
Proof.
  revert d. induction limits as [|t ts IH]; intros d Ht; [by eexists|]. cbn. destruct (Ht t) as [s Hs]; [left|]. rewrite Hs. cbn.
  apply IH. intros t' Ht'. apply Ht. by right.
Qed.

Lemma plan_honest limits w :
  (forall t, t ∈ limits -> is_Some (limit_of (host w) (pl_gpu_uuid t))) ->
  exists w' states clamped, run (plan_gpu_caps limits) w = (w', Ok (Some (mkPlan states clamped))) /\ same_redis w w' /\ same_limits (host w) (host w') /\
    (forall g, ps_current_watts <$> dget g states = limit_of (host w) g) /\
    (forall g st v, dget g states = Some st -> in_range g (clamp_watts v st)) /\ dget "" states = None /\
    clamped_watts_by_uuid states limits = Some clamped.
Proof.
  intros Hon. destruct (query_honest None w eq_refl) as (w' & states & Hq & Hs & Hl & Hc & Hr & Hn).
  destruct (clamp_fold_total states limits []) as [clamped Hcl].
  { intros t Ht. destruct (Hon t Ht) as [u Hu]. specialize (Hc (pl_gpu_uuid t)). rewrite Hu in Hc.
    destruct (dget (pl_gpu_uuid t) states); [by eexists|done]. }
  exists w', states, clamped. split_and!; try done. unfold plan_gpu_caps.
  erewrite run_bind; [|apply run_try; rewrite (run_bind _ _ _ _ _ Hq); done]. change (clamped_watts_by_uuid states limits = Some clamped) in Hcl.
  unfold sequentially. cbn. by rewrite Hcl.
Qed.

Lemma apply_honest limits pod exec w :
  NoDup (map pl_gpu_uuid limits) ->
  (forall t, t ∈ limits -> is_Some (limit_of (host w) (pl_gpu_uuid t)) /\ restore_records w !! pl_gpu_uuid t = None) ->
  let G := map pl_gpu_uuid limits in
  exists w' states, apply_filler_gpu_power_limits host_run out limits pod exec w = (w', Ok APPLIED) /\ "" ∉ G /\
    (forall g, ps_current_watts <$> dget g states = limit_of (host w) g) /\
    (forall t, t ∈ limits -> exists s, dget (pl_gpu_uuid t) states = Some s /\
       limit_of (host w') (pl_gpu_uuid t) = Some (clamp_watts (pl_watts t) s)) /\
    (forall g, g ∉ G -> limit_of (host w') g = limit_of (host w) g) /\
    pod_indexes w' = <[pod := Some (JList (map JStr G))]> (pod_indexes w) /\
    (forall g, g ∈ G -> kept_under (limit_of (host w)) w' g) /\
    (forall g, g ∉ G -> restore_records w' !! g = restore_records w !! g).
Proof.
  intros Hnd Hon G. destruct (plan_honest limits w) as (w1 & states & clamped & Hp & [Hr1 Hx1] & Hl1 & Hcur & Hrng & Hempty & Hcl).
  { intros t Ht. by apply Hon. }
  destruct (clamp_fold_spec states limits _ [] clamped eq_refl Hcl) as (Hst & _ & Hcl'). specialize (Hcl' Hnd).
  unfold apply_filler_gpu_power_limits. rewrite (act_bind_eq _ _ _ _ _ Hp). set (planned := mkPlan states clamped).
  destruct (ensure_honest planned pod exec (limit_of (host w)) limits w1) as (w2 & He & Hh2 & Hx2 & Hk2 & Hr2).
  { intros t Ht. destruct (Hst t Ht) as [s Hs]. exists s. split; [done|]. by rewrite <- Hcur, Hs. }
  { intros t Ht. left. rewrite Hr1. by apply Hon. }
  rewrite (act_bind_eq _ _ _ _ _ He). cbn [negb]. fold G.
  set (w3 := ticked (with_indexes (<[pod := Some (JList (map JStr G))]> (pod_indexes w2)) w2)).
  assert (run (call (SetIndex pod G)) w2 = (w3, Ok (Ok tt))) as Hset by (unfold sequentially; cbn; by rewrite redis_write).
  rewrite (act_bind_eq _ _ _ _ _ Hset). unfold set_caps.
  destruct (caps_honest planned exec limits true false [] w3) as (w4 & pers & Hc4 & Hpers & [Hr4 Hx4] & Hl4 & Hl4').
  { intros t Ht. destruct (Hst t Ht) as [s Hs], (Hon t Ht) as [[u Hu] _]. exists s, (clamp_watts (pl_watts t) s), u.
    split_and!; [done|by apply Hcl'|by eapply Hrng|]. cbn. by rewrite Hh2, Hl1. }
  rewrite (act_bind_eq _ _ _ _ _ Hc4). cbn [app negb].
  destruct (stamps_honest (fun g => dget g (pg_clamped_watts_by_uuid planned)) (Some (mkJob exec pod)) (limit_of (host w)) pers G w4 Hpers)
    as (w5 & Hs5 & Hh5 & Hx5 & Ho5 & Hk5).
  rewrite (act_bind_eq _ _ _ _ _ Hs5). exists w5, states. rewrite Hh5, Hx5, Hx4. cbn [pod_indexes w3 ticked with_indexes]. rewrite Hx2, Hx1.
  split_and!; [done| |done| | |done| |].
  - intros (t & He' & Ht)%list_elem_of_fmap. destruct (Hst t Ht) as [s Hs]. congruence.
  - intros t Ht. destruct (Hst t Ht) as [s Hs]. exists s. split; [done|]. rewrite Hl4' by done. by apply Hcl'.
  - intros g Hg. rewrite Hl4 by done. cbn. by rewrite Hh2, Hl1.
  - intros g (t & -> & Ht)%list_elem_of_fmap. apply Hk5. unfold kept_under. rewrite Hr4. by apply Hk2.
  - intros g Hg. rewrite Ho5, Hr4 by done. cbn. destruct (Hr2 g) as [->|[? _]]; [by rewrite Hr1|done].
Qed.

End RoundTrip.
