(* ===== verification/PowerCheck.v ===== *)
(** * The power limit check and the caps a host reverted

    [services/task/checks/gpu_power_limit.py], with the revert detection and history of
    [services/gpu_power_limit.py]: a GPU below 90% of its default limit fails the node,
    unless the low limit is a cap this validator set itself.  The measurements an event
    carries as evidence are left out. *)

From Stdlib Require Import String.
From stdpp Require Import gmap strings.
From S2P Require Import Prelude Float64 PyValue Effects JobResult IncentiveConfig Readings Pipeline GpuDrop PowerCap PowerRestore.

Local Open Scope string_scope.
Local Open Scope list_scope.
Local Open Scope Z_scope.

Section Check.
Context `{R : Rounding} {H : Type} (host_run : H -> ssh_command -> H * res (Z * string)) (out : Outside).
Context (str_of_other : json -> string).
Notation P := (prog call_of).
Notation M := (act (World H)).
Notation run := (sequentially host_run out).

(** ** Reverts *)

Definition num_lt (x y : num) : bool := match x, y with NaN, _ | _, NaN => false | _, _ => negb (num_le y x) end.

(** [_uncapped_run_threshold_watts] *)
Definition uncapped_run_threshold_watts (record : GpuPowerRestoreRecord) (default_watts : option num) : num :=
  match default_watts with
  | None => Fin (inject_Z (rr_watts record))
  | Some d => if num_le d (Fin 0) then Fin (inject_Z (rr_watts record)) else num_scale PEARL_UNCAPPED_RATIO d
  end.

(** [int(x)]: towards zero; NaN is a ValueError, an infinity an OverflowError. *)
Definition int_of_num (x : num) : res Z :=
  match x with
  | Fin q => Ok (if Qleb 0 q then Qfloor q else Qceiling q)
  | Inf _ => Raise OverflowError
  | NaN => Raise ValueError
  end.

(** [detect_cap_revert] *)
Definition detect_cap_revert (record : GpuPowerRestoreRecord) (current_watts : num) (default_watts : option num) (observed_at : Q)
    : res (option GpuPowerCapRevert) :=
  match rr_capped_to_watts record with
  | None => Ok None
  | Some capped =>
      if num_le current_watts (Fin (inject_Z capped)) then Ok None
      else if num_lt current_watts (uncapped_run_threshold_watts record default_watts) then Ok None
      else
        found ← int_of_num current_watts;
        Ok (Some (mkRevert observed_at (rr_pod_id record) (rr_gpu_uuid record) capped found))
  end.

(** [_read_revert_history]: the history and whether Redis did not answer. *)
Definition read_revert_history (executor_id : string) : P (list GpuPowerCapRevert * bool) :=
  raw ← call (GetReverts executor_id);
  Ret (match raw with
       | Raise _ => ([], true)
       | Ok (Some (Some h)) => (h, false)
       | Ok _ => ([], false)
       end).

(** [l[-n:]] for a positive n. *)
Definition last_n {A} (n : nat) (l : list A) : list A := drop (length l - n) l.

(** [record_cap_reverts] *)
Definition record_cap_reverts (executor_id : string) (reverted_gpus : list GpuPowerCapRevert) : P unit :=
  read_result ← read_revert_history executor_id;
  if read_result.2 : bool then Ret tt
  else
    now ← call Time;
    let kept := reverts_inside_window read_result.1 now in
    let new_reverts := reverts_of_jobs_not_already_recorded reverted_gpus kept in
    match new_reverts with
    | [] => Ret tt
    | _ => _ ← call (SetReverts executor_id (last_n MAX_TRACKED_CAP_REVERTS (kept ++ new_reverts))); Ret tt
    end.

(** ** Measurements *)

Record GpuPowerMeasurement := mkMeasurement {
  gm_uuid : option string;
  gm_power_limit : option num;
  gm_power_default_limit : option num
}.
Definition ValidationError : exc := OtherError "ValidationError".

(** [_to_float] *)
Definition to_float (v : json) : res (option num) :=
  match v with
  | JNull => Ok None
  | _ => match py_float v with
         | Ok x => Ok (Some x)
         | Raise e => if decide (e = TypeError \/ e = ValueError) then Ok None else Raise e
         end
  end.
(** A field of type [str | None]. *)
Definition optional_str (v : json) : res (option string) :=
  match v with JNull => Ok None | JStr s => Ok (Some s) | _ => Raise ValidationError end.

Definition measure (detail : json) : res GpuPowerMeasurement :=
  current ← (v ← jget "power_limit" detail; to_float v);
  default ← (v ← jget "power_default_limit" detail; to_float v);
  _ ← (v ← jget "power_max_limit" detail; to_float v);
  name ← jget "name" detail;
  uuid ← jget "uuid" detail;
  _ ← (v ← jget "power_min_limit" detail; to_float v);
  _ ← optional_str name;
  uuid ← optional_str uuid;
  Ok (mkMeasurement uuid current default).

(** [x / y] for a y that is not zero or below. *)
Definition num_div (x y : num) : num :=
  match x, y with
  | NaN, _ | _, NaN => NaN
  | Fin a, Fin b => num_of (a / b)%Q
  | Fin _, Inf _ => Fin 0
  | Inf s, Fin _ => Inf s
  | Inf _, Inf _ => NaN
  end.

Inductive reading := Incomplete | Below | Enough.
Definition judge_reading (m : GpuPowerMeasurement) : reading :=
  match gm_power_limit m, gm_power_default_limit m with
  | Some current, Some default =>
      if num_le default (Fin 0) then Incomplete
      else if num_lt (num_div current default) (Fin MIN_POWER_LIMIT_RATIO) then Below else Enough
  | _, _ => Incomplete
  end.

(** ** The check *)

Definition POWER_CHECK_ID : string := "gpu.validate.power_limit".
Definition DEFAULT_JOB_OWNER_LIUM : string := "lium".
Record PowerInput := mkPowerInput {
  pi_executor_uuid : string;
  (** the owner of the node's default job, when there is data on rentals *)
  pi_default_job_owner : option (option string);
  pi_gpu_details : list json
}.
Context (restore_stale_caps : bool).

Definition penalty (reason warning : string) : CheckResult :=
  mkCheckResult false (message reason "warning" "policy" POWER_CHECK_ID [])
    (mkUpdates [("score", JFloat (Fin 0)); ("job_score", JFloat (Fin 0)); ("score_warning", JStr warning)] None) false None [].

(** [_record_reverts_of_our_live_cap] *)
Definition live_step (live : list (string * GpuPowerMeasurement)) (detail : json) : res (list (string * GpuPowerMeasurement)) :=
  uuid ← jget "uuid" detail;
  if negb (truthy uuid) then Ok live
  else
    let u := match uuid with JStr s => s | _ => str_of_other uuid end in
    name ← jget "name" detail;
    current ← (v ← jget "power_limit" detail; to_float v);
    default ← (v ← jget "power_default_limit" detail; to_float v);
    _ ← (v ← jget "power_max_limit" detail; to_float v);
    _ ← optional_str name;
    Ok (dset u (mkMeasurement (Some u) current default) live).
Definition revert_step (executor_uuid : string) (live : list (string * GpuPowerMeasurement)) (observed_at : Q)
    (reverts : list GpuPowerCapRevert) (record : GpuPowerRestoreRecord) : res (list GpuPowerCapRevert) :=
  if negb (String.eqb (rr_executor_id record) executor_uuid) then Ok reverts
  else match dget (rr_gpu_uuid record) live with
  | Some (mkMeasurement _ (Some current) default) =>
      revert ← detect_cap_revert record current default observed_at;
      Ok (match revert with Some v => reverts ++ [v] | None => reverts end)
  | _ => Ok reverts
  end.
Definition record_reverts_of_our_live_cap (i : PowerInput) : P unit :=
  if negb restore_stale_caps then Ret tt
  else
    live ← of_res (foldM live_step [] (pi_gpu_details i));
    match live with
    | [] => Ret tt
    | _ =>
        read_result ← read_gpu_power_restore_records (dkeys live) false;
        observed_at ← call Time;
        reverts ← of_res (foldM (revert_step (pi_executor_uuid i) live observed_at) [] (rd_records read_result));
        match reverts with [] => Ret tt | _ => record_cap_reverts (pi_executor_uuid i) reverts end
    end.

(** [_rescue_stale_lium_caps]: the event of a pass, or None. *)
Definition uuids_of (rejected : list GpuPowerMeasurement) : list string :=
  flat_map (fun m => match gm_uuid m with Some u => if String.eqb u "" then [] else [u] | None => [] end) rejected.
(** [time.time() - record.capped_at >= STALE_CAP_GRACE_SECONDS], each with its own time. *)
Definition stale_step (stale : list GpuPowerRestoreRecord) (record : GpuPowerRestoreRecord) : P (list GpuPowerRestoreRecord) :=
  now ← call Time;
  Ret (if Qleb (inject_Z STALE_CAP_GRACE_SECONDS) (fsub now (rr_capped_at record)) then stale ++ [record] else stale).
Definition rescue_stale_lium_caps (i : PowerInput) (rejected : list GpuPowerMeasurement) : M (option ValidationEvent) :=
  let rejected_uuids := uuids_of rejected in
  if (length rejected_uuids <? length rejected)%nat then mret None
  else
    read_result ← run (read_gpu_power_restore_records rejected_uuids false);
    let own_records := List.filter (fun r => String.eqb (rr_executor_id r) (pi_executor_uuid i)) (rd_records read_result) in
    let uncovered := List.filter (fun u => negb (in_list u (map rr_gpu_uuid own_records))) rejected_uuids in
    match uncovered with
    | _ :: _ =>
        mret (if rd_read_failed read_result
              then Some (message "GPU_POWER_LIMIT_STATE_UNAVAILABLE" "warning" "env" POWER_CHECK_ID
                     [("executor_uuid", JStr (pi_executor_uuid i)); ("unmatched_gpu_uuids", strings_json uncovered)])
              else None)
    | [] =>
        stale_records ← run (pfold stale_step [] own_records);
        records_restored ←
          (if restore_stale_caps && match stale_records with [] => false | _ => true end
              && match pi_default_job_owner i with Some _ => true | None => false end
           then restore_tracked_gpu_power_limits host_run out (map rr_gpu_uuid stale_records) None POWER_LIMIT_SET_CONCURRENCY false
           else mret 0);
        mret (Some (message "GPU_POWER_LIMIT_RESTORED_STALE_CAP" "warning" "policy" POWER_CHECK_ID
          [("executor_uuid", JStr (pi_executor_uuid i)); ("records_found", JInt (Z.of_nat (length own_records)));
           ("records_eligible_for_restore", JInt (Z.of_nat (length stale_records))); ("records_restored", JInt records_restored)]))
    end.

(** The readings of every GPU: those below the floor, and whether one is incomplete. *)
Definition reading_step (acc : list GpuPowerMeasurement * bool) (detail : json) : res (list GpuPowerMeasurement * bool) :=
  m ← measure detail;
  Ok (match judge_reading m with
      | Incomplete => (acc.1, true)
      | Below => (acc.1 ++ [m], acc.2)
      | Enough => acc
      end).

(** [GpuPowerLimitCheck.run] *)
Definition power_limit_check (i : PowerInput) : M CheckResult :=
  if decide (pi_default_job_owner i = Some (Some DEFAULT_JOB_OWNER_LIUM))
  then
    _ ← run (record_reverts_of_our_live_cap i);
    mret (passed_with (message "GPU_POWER_LIMIT_SKIPPED_LIUM_FILLER" "info" "policy" POWER_CHECK_ID
                         [("executor_uuid", JStr (pi_executor_uuid i))]) nothing)
  else
    readings ← run (of_res (foldM reading_step ([], false) (pi_gpu_details i)));
    let '(rejected, incomplete) := readings in
    match rejected with
    | _ :: _ =>
        rescued ← rescue_stale_lium_caps i rejected;
        mret (match rescued with
              | Some event => passed_with event nothing
              | None => penalty "GPU_POWER_LIMIT_BELOW_DEFAULT" " WARNING: GPU power limit is below 90% of the default power limit"
              end)
    | [] =>
        mret (if incomplete : bool then penalty "GPU_POWER_LIMIT_UNREADABLE" " WARNING: GPU power limit could not be read"
              else passed_with (message "GPU_POWER_LIMIT_OK" "info" "env" POWER_CHECK_ID []) nothing)
    end.
End Check.

(** ** Every job counts once *)
Section RevertFacts.
Context `{R : Rounding} {H : Type} (host_run : H -> ssh_command -> H * res (Z * string)) (out : Outside).
Notation run := (sequentially host_run out).

Definition history_ok (h : list GpuPowerCapRevert) : Prop := (length h <= MAX_TRACKED_CAP_REVERTS)%nat /\ NoDup (map pr_pod_id h).
Definition histories_ok (w : World H) : Prop := forall e h x, revert_histories w !! e = Some (Some h, x) -> history_ok h.

Lemma not_seen_pods seen l :
  NoDup (map pr_pod_id (reverts_not_seen seen l)) /\ (forall p, p ∈ map pr_pod_id (reverts_not_seen seen l) -> p ∉ seen) /\
  (forall v, v ∈ l -> pr_pod_id v ∈ seen \/ pr_pod_id v ∈ map pr_pod_id (reverts_not_seen seen l)).
Proof.
  revert seen. induction l as [|v l IH]; intros seen; cbn; [split_and!; [constructor|set_solver|set_solver]|].
  destruct (in_list (pr_pod_id v) seen) eqn:Hin.
  - apply bool_decide_eq_true in Hin. destruct (IH seen) as (? & ? & Hc). split_and!; [done|done|].
    intros v' [->|Hv']%elem_of_cons; [by left|by apply Hc].
  - apply bool_decide_eq_false in Hin. destruct (IH (seen ++ [pr_pod_id v])) as (Hnd & Hns & Hc). cbn. split_and!.
    + constructor; [|done]. intros Hv%Hns. set_solver.
    + intros p [->|Hp%Hns]%elem_of_cons; set_solver.
    + intros v' [->|Hv']%elem_of_cons; [right; left|]. destruct (Hc v' Hv') as [Hs|Hs]; [|right; by right].
      apply elem_of_app in Hs as [|Hs]; [by left|right]. apply list_elem_of_singleton in Hs as ->. left.
Qed.

Lemma NoDup_map_filter {A B} (f : A -> B) (p : A -> bool) l : NoDup (map f l) -> NoDup (map f (List.filter p l)).
Proof.
  induction l as [|x l IH]; cbn; [done|]. intros [Hn Hd]%NoDup_cons. destruct (p x); [|by apply IH]. cbn. constructor; [|by apply IH].
  intros (y & Hy & Hin)%list_elem_of_fmap. apply Hn. rewrite Hy. apply list_elem_of_fmap_2.
  apply list_elem_of_In, filter_In in Hin as [Hin _]. by apply list_elem_of_In.
Qed.

Lemma last_n_ok n (l : list GpuPowerCapRevert) :
  (n <= MAX_TRACKED_CAP_REVERTS)%nat -> NoDup (map pr_pod_id l) -> history_ok (last_n n l).
Proof.
  intros Hn Hd. unfold last_n. split; [rewrite length_drop; lia|]. rewrite <- (take_drop (length l - n) l), map_app in Hd.
  by apply NoDup_app in Hd as (_ & _ & Hd).
Qed.

Lemma recorded_history_ok reverted kept :
  NoDup (map pr_pod_id kept) -> history_ok (last_n MAX_TRACKED_CAP_REVERTS (kept ++ reverts_of_jobs_not_already_recorded reverted kept)).
Proof.
  intros Hd. apply last_n_ok; [done|]. destruct (not_seen_pods (map pr_pod_id kept) reverted) as (Hn & Hs & _).
  rewrite map_app. apply NoDup_app. split_and!; [done| |done]. intros p Hp Hq. by apply (Hs p).
Qed.

(** The history the call reads, and what of it is inside the window. *)
Definition history_read (w : World H) (e : string) : list GpuPowerCapRevert :=
  match history_at (clock_at out (tick w)) (revert_histories w !! e) with Some (Some h) => h | _ => [] end.
Definition kept_history (w : World H) (e : string) : list GpuPowerCapRevert :=
  reverts_inside_window (history_read w e) (clock_at out (S (tick w))).

Lemma kept_history_pods w e : histories_ok w -> NoDup (map pr_pod_id (kept_history w e)).
Proof.
  intros Hok. apply NoDup_map_filter. unfold history_read, history_at. destruct (revert_histories w !! e) as [[[h|] x]|] eqn:Hw.
  - destruct (Qleb x _); [constructor|]. by apply (Hok e h x).
  - destruct (Qleb x _); constructor.
  - constructor.
Qed.

#[local] Arguments reverts_inside_window : simpl never.
#[local] Arguments last_n : simpl never.

(** A host that raised the cap of a job is charged once for the job: the history of an
    executor never has two entries of one job nor more than fifty, whatever Redis does;
    with Redis answering and room left, every reverted job is in the history afterwards. *)
Theorem reverts_counted_once e reverted w w' o :
  histories_ok w -> run (record_cap_reverts e reverted) w = (w', o) ->
  o = Ok tt /\ histories_ok w' /\
  ((forall n, fate_of out n = Done) ->
   (length (kept_history w e ++ reverts_of_jobs_not_already_recorded reverted (kept_history w e)) <= MAX_TRACKED_CAP_REVERTS)%nat ->
   forall v, v ∈ reverted -> exists h x, revert_histories w' !! e = Some (Some h, x) /\ pr_pod_id v ∈ map pr_pod_id h).
Proof.
  intros Hok Hrun. unfold record_cap_reverts, read_revert_history, sequentially in Hrun. cbn in Hrun. unfold read_redis in Hrun.
  pose proof (kept_history_pods w e Hok) as Hnd.
  destruct (fate_of out (tick w)) eqn:Hf; cbn in Hrun.
  2,3: simplify_eq; split_and!; [done|done|]; intros Hall; by rewrite Hall in Hf.
  assert (Hread : (match history_at (clock_at out (tick w)) (revert_histories w !! e) with
    | Some (Some h) => (h, false) | _ => ([], false) end) = (history_read w e, false)).
  { unfold history_read. by destruct (history_at _ _) as [[]|]. }
  rewrite Hread in Hrun. cbn in Hrun. fold (kept_history w e) in Hrun.
  destruct (not_seen_pods (map pr_pod_id (kept_history w e)) reverted) as (_ & _ & Hseen).
  fold (reverts_of_jobs_not_already_recorded reverted (kept_history w e)) in Hseen.
  pose proof (recorded_history_ok reverted (kept_history w e) Hnd) as Hnew.
  destruct (reverts_of_jobs_not_already_recorded reverted (kept_history w e)) as [|v0 new] eqn:Hr; cbn in Hrun.
  - injection Hrun as <- <-. split_and!; [done|exact Hok|]. intros _ _ v Hv. destruct (Hseen v Hv) as [Hin|Hin]; [|by apply not_elem_of_nil in Hin].
    apply list_elem_of_fmap in Hin as (v' & Hp & Hin). rewrite Hp. unfold kept_history, history_read, history_at in Hin.
    apply list_elem_of_In, filter_In in Hin as [Hin _]. apply list_elem_of_In in Hin.
    destruct (revert_histories w !! e) as [[[h|] x]|] eqn:Hw; [destruct (Qleb x _)|destruct (Qleb x _)|]; try by apply not_elem_of_nil in Hin.
    exists h, x. split; [done|by apply list_elem_of_fmap_2].
  - unfold write_redis in Hrun. cbn in Hrun.
    assert (Hin' : forall x, histories_ok (with_histories (<[e := (Some (last_n MAX_TRACKED_CAP_REVERTS (kept_history w e ++ v0 :: new)), x)]> (revert_histories w)) w)).
    { intros x e' h x' Hl. cbn in Hl. apply lookup_insert_Some in Hl as [[-> [= <- _]]|[_ Hl]]; [done|by eapply Hok]. }
    destruct (fate_of out (S (S (tick w)))) eqn:Hf2; cbn in Hrun; injection Hrun as <- <-.
    + split_and!; [done|by eapply Hin'|]. intros _ Hlen v Hv. eexists _, _. split; [cbn; apply lookup_insert_eq|].
      unfold last_n. replace (length (kept_history w e ++ v0 :: new) - MAX_TRACKED_CAP_REVERTS)%nat with 0%nat by lia.
      rewrite drop_0, map_app. apply elem_of_app. by apply Hseen.
    + split_and!; [done|exact Hok|]. intros Hall. by rewrite Hall in Hf2.
    + split_and!; [done|by eapply Hin'|]. intros Hall. by rewrite Hall in Hf2.
Qed.
End RevertFacts.

(** ** The verdict *)
Section Verdict.
Context `{R : Rounding} {H : Type} (host_run : H -> ssh_command -> H * res (Z * string)) (out : Outside).
Context (restore_stale_caps : bool).
Notation run := (sequentially host_run out).

(** Redis holds a record for the GPU that this executor's cap wrote. *)
Definition own_record (w : World H) (executor_uuid g : string) (r : GpuPowerRestoreRecord) : Prop :=
  restore_records w !! g = Some (Some r) /\ rr_executor_id r = executor_uuid.

Lemma read_records_any G acc w :
  exists w' rr, run (pfold (read_record_step false) acc G) w = (w', Ok rr) /\
    (forall r, r ∈ rd_records rr -> r ∈ rd_records acc \/ exists g, g ∈ G /\ restore_records w !! g = Some (Some r)) /\
    (forall g r, g ∈ G -> restore_records w !! g = Some (Some r) -> r ∈ rd_records rr \/ rd_read_failed rr = true) /\
    (forall r, r ∈ rd_records acc -> r ∈ rd_records rr) /\
    (rd_read_failed acc = true -> rd_read_failed rr = true) /\
    ((forall n, fate_of out n = Done) -> rd_read_failed rr = rd_read_failed acc).
Proof.
  revert acc w. induction G as [|g G IH]; intros acc w.
  { exists w, acc. split_and!; [done|by left|set_solver|done|done|done]. }
  rewrite pfold_cons.
  assert (exists acc1, run (read_record_step false acc g) w = (ticked w, Ok acc1) /\
    (forall r, r ∈ rd_records acc1 -> r ∈ rd_records acc \/ restore_records w !! g = Some (Some r)) /\
    (forall r, restore_records w !! g = Some (Some r) -> r ∈ rd_records acc1 \/ rd_read_failed acc1 = true) /\
    (forall r, r ∈ rd_records acc -> r ∈ rd_records acc1) /\ (rd_read_failed acc = true -> rd_read_failed acc1 = true) /\
    ((forall n, fate_of out n = Done) -> rd_read_failed acc1 = rd_read_failed acc)) as (acc1 & Hstep & S1 & S2 & S3 & S4 & S5).
  { unfold sequentially, read_record_step. cbn. unfold read_redis. destruct (fate_of out (tick w)) eqn:Hf.
    1: destruct (restore_records w !! g) as [[r|]|] eqn:Hg.
    all: cbn; eexists; split_and!; [done|..]; cbn; intros; try by auto.
    - apply elem_of_app in H0 as [|Hr]; [by left|right]. apply list_elem_of_singleton in Hr. congruence.
    - simplify_eq. left. set_solver.
    - set_solver.
    - by rewrite H0 in Hf.
    - by rewrite H0 in Hf. }
  destruct (IH acc1 (ticked w)) as (w' & rr & Hrun & I1 & I2 & I3 & I4 & I5).
  exists w', rr. unfold sequentially in *. rewrite perform_bind. unfold mbind, act_bind. rewrite Hstep. split_and!; [done|..].
  - intros r Hr. destruct (I1 r Hr) as [Ha|(g' & Hg' & Hl)]; [|right; exists g'; split; [by right|done]].
    destruct (S1 r Ha) as [|Hl]; [by left|right]. exists g. split; [left|done].
  - intros g' r [->|Hg']%elem_of_cons Hl; [|by eapply I2]. destruct (S2 r Hl) as [|Hf]; [left; by apply I3|right; by apply I4].
  - auto.
  - auto.
  - intros Hd. by rewrite (I5 Hd), (S5 Hd).
Qed.

Lemma uuids_of_cons m ms :
  uuids_of (m :: ms) = match gm_uuid m with Some u => if String.eqb u "" then [] else [u] | None => [] end ++ uuids_of ms.
Proof. done. Qed.
Lemma uuids_of_length ms : (length (uuids_of ms) <= length ms)%nat.
Proof.
  induction ms as [|m ms IH]; [done|]. rewrite uuids_of_cons, length_app. cbn [length].
  destruct (gm_uuid m) as [u|]; [destruct (String.eqb u "")|]; cbn [length]; lia.
Qed.
Lemma uuids_of_all rejected :
  (length (uuids_of rejected) <? length rejected)%nat = false <-> forall m, m ∈ rejected -> exists u, gm_uuid m = Some u /\ u <> "".
Proof.
  rewrite Nat.ltb_ge. induction rejected as [|m ms IH]; [set_solver|]. pose proof (uuids_of_length ms) as Hle.
  rewrite uuids_of_cons, length_app. cbn [length]. setoid_rewrite elem_of_cons.
  destruct (gm_uuid m) as [u|] eqn:Hu; [destruct (String.eqb_spec u "")|]; cbn [length].
  - split; [lia|]. intros Hall. destruct (Hall m) as (u' & ? & ?); [by left|congruence].
  - assert (S (length ms) <= 1 + length (uuids_of ms) <-> length ms <= length (uuids_of ms))%nat as -> by lia.
    rewrite IH. split; [|eauto]. intros Hall m' [->|Hm']; eauto.
  - split; [lia|]. intros Hall. destruct (Hall m) as (u' & ? & ?); [by left|congruence].
Qed.
Lemma elem_of_uuids m ms u : m ∈ ms -> gm_uuid m = Some u -> u <> "" -> u ∈ uuids_of ms.
Proof.
  intros Hm Hu Hne. apply list_elem_of_In, in_flat_map. exists m. split; [by apply list_elem_of_In|]. rewrite Hu.
  destruct (String.eqb_spec u ""); [done|by left].
Qed.
Lemma uuids_of_elem ms u : u ∈ uuids_of ms -> exists m, m ∈ ms /\ gm_uuid m = Some u.
Proof.
  intros (m & Hm & Hin)%list_elem_of_In%in_flat_map. exists m. split; [by apply list_elem_of_In|].
  destruct (gm_uuid m) as [u'|]; [|done]. destruct (String.eqb_spec u' ""); [done|]. destruct Hin as [->|[]]. done.
Qed.

(** A rescue, when it returns: an event when every rejected GPU is covered. *)
Lemma rescue_spec i rejected w w' e :
  well_kept (restore_records w) -> rescue_stale_lium_caps host_run out restore_stale_caps i rejected w = (w', Ok e) ->
  let covered m := exists u r, gm_uuid m = Some u /\ u <> "" /\ own_record w (pi_executor_uuid i) u r in
  ((forall m, m ∈ rejected -> covered m) -> is_Some e) /\
  ((forall n, fate_of out n = Done) -> is_Some e -> forall m, m ∈ rejected -> covered m).
Proof.
  intros Hw Hr covered. unfold rescue_stale_lium_caps in Hr.
  destruct (length (uuids_of rejected) <? length rejected)%nat eqn:Hlen.
  { unfold mret, act_ret in Hr. simplify_eq. split; [|intros _ [? [=]]]. intros Hall. exfalso.
    apply not_false_iff_true in Hlen. apply Hlen, uuids_of_all. intros m Hm. destruct (Hall m Hm) as (u & r & ? & ? & _). eauto. }
  rewrite uuids_of_all in Hlen.
  destruct (read_records_any (uuids_of rejected) (mkReadResult [] false []) w) as (w1 & rr & Hread & Hrec & Hcov & _ & _ & Hdone).
  unfold read_gpu_power_restore_records in Hr. unfold mbind at 1, act_bind in Hr. rewrite Hread in Hr.
  set (own := List.filter (fun r => String.eqb (rr_executor_id r) (pi_executor_uuid i)) (rd_records rr)) in *.
  assert (Hown : forall u, u ∈ map rr_gpu_uuid own <-> exists r, r ∈ rd_records rr /\ own_record w (pi_executor_uuid i) u r).
  { intros u. rewrite list_elem_of_fmap. split.
    - intros (r & -> & Hin). subst own. apply list_elem_of_In, filter_In in Hin as [Hin He]. apply list_elem_of_In in Hin.
      apply String.eqb_eq in He. exists r. split; [done|]. destruct (Hrec r Hin) as [Hn|(g & _ & Hl)]; [by apply not_elem_of_nil in Hn|].
      destruct (Hw g _ Hl) as (r' & [= <-] & ->). done.
    - intros (r & Hin & Hl & He). exists r. destruct (Hw u _ Hl) as (r' & [= <-] & Hu). split; [done|]. subst own.
      apply list_elem_of_In, filter_In. split; [by apply list_elem_of_In|by apply String.eqb_eq]. }
  destruct (List.filter (fun u => negb (in_list u (map rr_gpu_uuid own))) (uuids_of rejected)) as [|u0 us] eqn:Hunc.
  - assert (is_Some e) as He.
    { apply act_bind_ok in Hr as (w2 & stale & _ & Hr). apply act_bind_ok in Hr as (w3 & n & _ & Hr).
      unfold mret, act_ret in Hr. simplify_eq. by eexists. }
    split; [done|]. intros _ _ m Hm. destruct (Hlen m Hm) as (u & Hu & Hne).
    assert (u ∈ map rr_gpu_uuid own) as Hin.
    { destruct (in_list u (map rr_gpu_uuid own)) eqn:Hi; [by apply bool_decide_eq_true in Hi|]. exfalso.
      assert (u ∈ List.filter (fun u => negb (in_list u (map rr_gpu_uuid own))) (uuids_of rejected)) as Hf.
      { apply list_elem_of_In, filter_In. split; [by eapply list_elem_of_In, elem_of_uuids|by rewrite Hi]. }
      rewrite Hunc in Hf. by apply not_elem_of_nil in Hf. }
    apply Hown in Hin as (r & _ & Ho). by exists u, r.
  - assert (u0 ∈ uuids_of rejected /\ u0 ∉ map rr_gpu_uuid own) as [Hu0 Hout].
    { assert (u0 ∈ List.filter (fun u => negb (in_list u (map rr_gpu_uuid own))) (uuids_of rejected)) as Hf by (rewrite Hunc; left).
      apply list_elem_of_In, filter_In in Hf as [Hf Hi]. split; [by apply list_elem_of_In|].
      apply negb_true_iff in Hi. by apply bool_decide_eq_false in Hi. }
    destruct (uuids_of_elem _ _ Hu0) as (m & Hm & Hgm). unfold mret, act_ret in Hr. simplify_eq. split.
    + intros Hall. destruct (Hall m Hm) as (u & r & Hu & Hne & Ho). simplify_eq. destruct Ho as [Hl He].
      destruct (Hcov u0 r Hu0 Hl) as [Hin|Hf]; [|rewrite Hf; by eexists]. destruct Hout. apply Hown. exists r. done.
    + intros Hd [ev He]. by rewrite (Hdone Hd) in He.
Qed.

(** The power limit check never fails a node over a cap Lium set itself: with every
    GPU below the floor covered by a record of this executor's caps, it passes, whatever
    Redis and the host do; and with Redis answering, a node with a GPU below the floor
    passes only then. With no GPU below the floor it passes just when every GPU reports
    its limit; a node that fails gets no score. *)
Theorem power_limit_verdict str_of_other i w w' r rejected incomplete :
  well_kept (restore_records w) -> pi_default_job_owner i <> Some (Some DEFAULT_JOB_OWNER_LIUM) ->
  foldM reading_step ([], false) (pi_gpu_details i) = Ok (rejected, incomplete) ->
  power_limit_check host_run out str_of_other restore_stale_caps i w = (w', Ok r) ->
  let covered m := exists u rec, gm_uuid m = Some u /\ u <> "" /\ own_record w (pi_executor_uuid i) u rec in
  (rejected = [] -> cr_passed r = negb incomplete) /\
  (rejected <> [] -> (forall m, m ∈ rejected -> covered m) -> cr_passed r = true) /\
  (rejected <> [] -> (forall n, fate_of out n = Done) -> cr_passed r = true -> forall m, m ∈ rejected -> covered m) /\
  (cr_passed r = false -> dget "score" (up_attrs (cr_updates r)) = Some (JFloat (Fin 0)) /\
     dget "job_score" (up_attrs (cr_updates r)) = Some (JFloat (Fin 0))).
Proof.
  intros Hw Howner Hread Hr covered. unfold power_limit_check in Hr. rewrite decide_False in Hr by done.
  apply act_bind_ok in Hr as (w1 & [rej inc] & Hrun & Hr). rewrite Hread in Hrun. cbn in Hrun. injection Hrun as <- <- <-.
  destruct rejected as [|m0 ms].
  - unfold mret, act_ret in Hr. simplify_eq. split_and!; [|done|done|]; destruct incomplete; cbn; done.
  - apply act_bind_ok in Hr as (w2 & e & Hres & Hr). unfold mret, act_ret in Hr.
    destruct (rescue_spec i (m0 :: ms) w w2 e Hw Hres) as [H1 H2]. simplify_eq. split_and!; [done| | |].
    + intros _ Hall. by destruct (H1 Hall) as [ev ->].
    + intros _ Hd Hp. apply H2; [done|]. destruct e; [by eexists|done].
    + destruct e; done.
Qed.
End Verdict.
