(* ===== verification/PowerWitnesses.v ===== *)
(** * Concrete power caps

    A host with one GPU, used to show that the hypotheses of the power cap theorems can
    hold, and that a host can make an apply raise. *)

From Stdlib Require Import String.
From stdpp Require Import gmap strings.
From S2P Require Import Prelude Float64 PyValue Effects JobResult IncentiveConfig Readings Pipeline GpuDrop PowerCap PowerRestore PowerRoundTrip PowerCheck.

Local Open Scope string_scope.
Local Open Scope list_scope.
Local Open Scope Z_scope.

#[local] Existing Instance binary64_rounding.

(** ** A host with one GPU, between 100 W and 450 W *)
Definition gpu_limit (h : Z) : Z := Z.max 100 (Z.min 450 h).
Definition power_line (v : Z) : string := "GPU-0, " ++ Text.str_of_Z v ++ ".00, 450.00, 100.00, 450.00".
Definition readback_line (v : Z) : string := Text.str_of_Z v ++ ".00, Enabled".
Definition one_gpu_host (h : Z) (c : ssh_command) : Z * res (Z * string) :=
  match c with
  | QueryPowerState => (h, Ok (0, power_line (gpu_limit h)))
  | EnablePersistence _ => (h, Ok (0, "Enabled"))
  | SetLimit g v => if String.eqb g "GPU-0" then (v, Ok (0, "All done.")) else (h, Ok (6, ""))
  | ReadBack g => (h, Ok (if String.eqb g "GPU-0" then 0 else 6, readback_line (gpu_limit h)))
  end.
Definition one_gpu_limit (h : Z) (g : string) : option Z := if String.eqb g "GPU-0" then Some (gpu_limit h) else None.
Definition one_gpu_range (g : string) (v : Z) : Prop := 100 <= v <= 450.

Definition answers_well (v : Z) : bool :=
  match parse_power_state_csv (power_line v), parse_power_readback_csv (readback_line v) with
  | Ok [(g, mkPower c (Some 100) (Some 450) (Some 450))], Ok (mkReadback (Some r) (Some true)) =>
      String.eqb g "GPU-0" && (c =? v) && (r =? v)
  | _, _ => false
  end.
Lemma all_answer_well : forallb answers_well (map (fun n => Z.of_nat n + 100) (seq 0 351)) = true.
Proof. vm_compute. reflexivity. Qed.

Lemma in_range_answers v : 100 <= v <= 450 ->
  parse_power_state_csv (power_line v) = Ok [("GPU-0", mkPower v (Some 100) (Some 450) (Some 450))] /\
  parse_power_readback_csv (readback_line v) = Ok (mkReadback (Some v) (Some true)).
Proof.
  intros Hv. assert (answers_well v = true) as Ha.
  { apply (proj1 (forallb_forall _ _) all_answer_well v), in_map_iff. exists (Z.to_nat (v - 100)). split; [lia|]. apply in_seq. lia. }
  unfold answers_well in Ha. destruct (parse_power_state_csv _) as [states|]; [|done].
  repeat (case_match; try done). apply andb_true_iff in Ha as [[->%String.eqb_eq ->%Z.eqb_eq]%andb_true_iff ->%Z.eqb_eq]. done.
Qed.

Lemma gpu_limit_range h : 100 <= gpu_limit h <= 450.
Proof. unfold gpu_limit. lia. Qed.
Lemma gpu_limit_id v : 100 <= v <= 450 -> gpu_limit v = v.
Proof. unfold gpu_limit. lia. Qed.

Lemma one_gpu_honest : honest_host one_gpu_host one_gpu_limit one_gpu_range.
Proof.
  split.
  - done.
  - intros h g v u Hg Hv. unfold one_gpu_limit in *. cbn. destruct (String.eqb_spec g "GPU-0") as [->|]; [|done]. eexists. split; [done|].
    intros g'. cbn. destruct (String.eqb_spec g' "GPU-0") as [->|Hne]; [by rewrite decide_True, gpu_limit_id|by rewrite decide_False].
  - intros h g v Hg. unfold one_gpu_limit in *. cbn. destruct (String.eqb_spec g "GPU-0") as [->|]; [|done]. simplify_eq.
    destruct (in_range_answers (gpu_limit h) (gpu_limit_range h)) as [_ Hr]. split; [|done]. eexists _, _. by split_and!.
  - intros h. destruct (in_range_answers (gpu_limit h) (gpu_limit_range h)) as [Hq _]. eexists _, _. split_and!; [done|exact Hq|done| |].
    + intros g. unfold one_gpu_limit. cbn. destruct (String.eqb_spec g "GPU-0") as [->|Hne]; [by rewrite decide_True|by rewrite decide_False].
    + intros g st v. cbn. case_decide; [|done]. intros [= <-]. unfold clamp_watts, one_gpu_range. cbn.
      rewrite pymaxZ_max, pyminZ_min. lia.
  - intros h g v. unfold one_gpu_limit. case_match; [|done]. intros [= <-]. apply gpu_limit_range.
Qed.

(** ** Worlds *)
Definition answering (n : nat) : fate := Done.
(** Every third call is lost, every other third is done unanswered. *)
Definition flaky (n : nat) : fate := match (n mod 3)%nat with 0%nat => Done | 1%nat => Lost | _ => DoneUnanswered end.
Definition outside (f : nat -> fate) : Outside := mkOutside f (fun n => inject_Z (1000 + Z.of_nat n)) (fun _ => [0; 0; 0; 0]%nat).
Definition no_str (v : json) : string := "?".
Definition fresh_world : World Z := mkWorld 400 ∅ ∅ ∅ [] 0%nat.
Definition filler_cap : GpuPowerLimit := mkLimit "GPU-0" 250.
(** A cap of an earlier filler, never undone: the GPU had 400 W. *)
Definition leftover : GpuPowerRestoreRecord := mkRecord "GPU-0" 400 "pod-1" "exec-1" 0%Q (Some 250).
Definition leftovers : gmap string (option GpuPowerRestoreRecord) := {["GPU-0" := Some leftover]}.
Definition capped_world : World Z := mkWorld 250 leftovers {["pod-1" := Some (JList [JStr "GPU-0"])]} ∅ [] 0%nat.

Lemma capped_world_kept : well_kept (restore_records capped_world).
Proof. intros g o Hg. change (leftovers !! g = Some o) in Hg. unfold leftovers in Hg. apply lookup_singleton_Some in Hg as [<- <-]. by exists leftover. Qed.




(** ** Reverts and the check *)
Definition a_revert (pod : string) : GpuPowerCapRevert := mkRevert 1000%Q pod "GPU-0" 250 450.

Lemma reverts_counted_once_witness :
  let r := sequentially one_gpu_host (outside answering) (record_cap_reverts "exec-1" [a_revert "p"; a_revert "q"; a_revert "p"]) fresh_world in
  histories_ok fresh_world /\ r.2 = Ok tt /\ histories_ok r.1 /\
  ((forall n, fate_of (outside answering) n = Done) ->
   (length (kept_history (outside answering) fresh_world "exec-1" ++ reverts_of_jobs_not_already_recorded
      [a_revert "p"; a_revert "q"; a_revert "p"] (kept_history (outside answering) fresh_world "exec-1")) <= MAX_TRACKED_CAP_REVERTS)%nat ->
   forall v, v ∈ [a_revert "p"; a_revert "q"; a_revert "p"] ->
     exists h x, revert_histories r.1 !! "exec-1" = Some (Some h, x) /\ pr_pod_id v ∈ map pr_pod_id h).
Proof.
  intros r. assert (histories_ok fresh_world) as H0.
  { intros e h x Hh. change ((∅ : gmap string (option (list GpuPowerCapRevert) * Q)) !! e = Some (Some h, x)) in Hh. by rewrite lookup_empty in Hh. }
  split; [exact H0|].
  exact (reverts_counted_once one_gpu_host (outside answering) "exec-1" _ fresh_world r.1 r.2 H0 (surjective_pairing r)).
Defined.

Definition low_detail : json :=
  JObj [("uuid", JStr "GPU-0"); ("name", JStr "GPU"); ("power_limit", JInt 250); ("power_default_limit", JInt 450); ("power_max_limit", JInt 450)].
Definition idle_node : PowerInput := mkPowerInput "exec-1" (Some None) [low_detail].
Definition low_reading : GpuPowerMeasurement := mkMeasurement (Some "GPU-0") (Some (Fin 250)) (Some (Fin 450)).
Definition no_result : CheckResult := penalty "" "".

Lemma power_limit_verdict_witness :
  let r := power_limit_check one_gpu_host (outside flaky) no_str true idle_node capped_world in
  match r.2 with Ok c => cr_passed c = true | Raise _ => False end /\
  let c := match r.2 with Ok c => c | Raise _ => no_result end in
  let covered m := exists u rec, gm_uuid m = Some u /\ u <> "" /\ own_record capped_world "exec-1" u rec in
  ([low_reading] = [] -> cr_passed c = negb false) /\
  ([low_reading] <> [] -> (forall m, m ∈ [low_reading] -> covered m) -> cr_passed c = true) /\
  ([low_reading] <> [] -> (forall n, fate_of (outside flaky) n = Done) -> cr_passed c = true -> forall m, m ∈ [low_reading] -> covered m) /\
  (cr_passed c = false -> dget "score" (up_attrs (cr_updates c)) = Some (JFloat (Fin 0)) /\
     dget "job_score" (up_attrs (cr_updates c)) = Some (JFloat (Fin 0))).
Proof.
  intros r. split; [vm_compute; reflexivity|]. intros c covered.
  assert (r = (r.1, Ok c)) as Hr by (vm_compute; reflexivity).
  exact (power_limit_verdict one_gpu_host (outside flaky) true no_str idle_node capped_world r.1 c [low_reading] false
    capped_world_kept ltac:(discriminate) ltac:(vm_compute; reflexivity) Hr).
Defined.

(** A host whose readback prints an infinity makes the apply raise before it undoes its
    caps: the record and the index stay. *)
Definition inf_host (h : Z) (c : ssh_command) : Z * res (Z * string) :=
  match c with ReadBack _ => (h, Ok (0, "inf, Enabled")) | _ => one_gpu_host h c end.
Example apply_raises_on_infinity :
  let r := apply_filler_gpu_power_limits inf_host (outside answering) [filler_cap] "pod-1" "exec-1" fresh_world in
  r.2 = Raise OverflowError /\ host r.1 = 250 /\ is_Some (pod_indexes r.1 !! "pod-1") /\ is_Some (restore_records r.1 !! "GPU-0").
Proof. vm_compute. split_and!; [reflexivity|reflexivity|by eexists|by eexists]. Qed.
