(* ===== verification/RolloutWitnesses.v ===== *)
(** * A rollout, cycle by cycle

    A validator that sees the executor image change once, and a node whose renter resets its GPUs:
    concrete runs on which the theorems of [RolloutTracker] and [RolloutVerdicts] apply. *)

From Stdlib Require Import Ascii String.
From stdpp Require Import gmap strings.
From S2P Require Import Prelude Float64 PyValue Effects IsoTime JobResult IncentiveConfig IncentiveBase Fixtures DefaultIncentive RolloutTracker RentedData RolloutVerdicts.

Local Open Scope string_scope.
Local Open Scope list_scope.
Local Open Scope Z_scope.

#[local] Existing Instance binary64_rounding.

Definition all_done (n : nat) : fate := Done.
Definition noon : datetime := mkTime 2026 11 17 12 0 0 0.
Definition digest_of (c : ascii) : json := JStr ("sha256:" ++ Text.of_chars (replicate 64 c)).
Definition old_image : json := digest_of "a".
Definition new_image : json := digest_of "b".
Definition cycle_at (block : Z) (at_start at_end : json) : Cycle := mkCycle block at_start noon at_end noon (fun _ => 1).
(** The image changes during the second cycle. *)
Definition four_cycles : list Cycle :=
  [cycle_at 100 old_image old_image; cycle_at 200 old_image new_image; cycle_at 300 new_image new_image; cycle_at 400 new_image new_image].

Lemma grace_windows_never_chain_witness :
  (run_cycles all_done (grace_cycles_of 5) four_cycles (mkStore None 0)).2 = [false; true; true; false] /\ (2 <= 2)%nat.
Proof.
  split; [vm_compute; reflexivity|].
  apply (grace_windows_never_chain all_done (grace_cycles_of 5) 5 four_cycles (mkStore None 0) no_rollout None
           (run_cycles all_done (grace_cycles_of 5) four_cycles (mkStore None 0)).1 [false; true; true; false] [false] 2 [false]).
  - reflexivity.
  - split; [split; done|]. left. done.
  - done.
  - cbn. split_and!; try done; intros b [= <-]; lia.
  - repeat constructor.
  - vm_compute. reflexivity.
  - reflexivity.
Defined.

Lemma rollout_state_round_trip_witness :
  let s := mkRollout new_image old_image (Some noon) (Some 200) (Some 300) 2 1 false in from_json (Some (to_json s)) = Ok s.
Proof. apply (rollout_state_round_trip (mkRollout new_image old_image (Some noon) (Some 200) (Some 300) 2 1 false)). split; [|done]. by intros t [= <-]. Defined.

(** A cycle scores the rented node; ten minutes later its scrape is held for the renter's reset. *)
Definition ten_minutes (n : nat) : Z := 600 * Z.of_nat n.
Definition scored_cycle : results_of_cycle := [("alice", [rented_result])].
Definition held_result : JobResult := set_failure_reason_code (Some SCRAPE_GPU_RESET_IN_PROGRESS) (set_score 0 (set_job_score 0 rented_result)).
Definition held_cycle : results_of_cycle := [("alice", [held_result; idle_result])].
Definition rentals : RentedExecutorsResponse := mkRentals [("bbbb", mkRented "alice" "10.0.0.9" "8080" [])] [] [] [] [] [] [] [] [] [] None [] [] [] [] [].
Definition after_scoring : KeptStore := (perform (handle_kept all_done ten_minutes) (remember_rented_scored_results scored_cycle) (mkKept ∅ 0)).1.
Definition carried_cycle : KeptStore * res results_of_cycle :=
  perform (handle_kept all_done ten_minutes) (carry_scores_over_renter_gpu_resets 1 1 held_cycle (Some rentals) (Some rentals) []) after_scoring.
Definition carried_result : JobResult := match carried_cycle.2 with Ok [(_, r :: _)] => r | _ => held_result end.

