(* ===== verification/SettlementWitnesses.v ===== *)
(** * Settlement with an outage

    Concrete runs of the delayed settlement: a backend that is down for a while, Redis that works, a
    chain that takes every submission. *)

From Stdlib Require Import Ascii String.
From stdpp Require Import strings.
From S2P Require Import Prelude Float64 PyValue Effects IsoTime JobResult DelayedSettlement SettlementDelivery SettlementWindows.

Local Open Scope string_scope.
Local Open Scope list_scope.
Local Open Scope Z_scope.

#[local] Existing Instance binary64_rounding.

Definition report_at (id : string) (burner : string) : CycleReport :=
  build_report [("alice", 1%Q)] [] burner id 720 (mkTime 2026 11 17 12 5 0 0) "enforce".
Definition first_id : string := "2026-11-17 12:00:00".
Definition second_id : string := "2026-11-17 13:00:00".
(** The backend answers from the [up]-th call on; the blocks go through the tempos 2 and 3. *)
Definition outage (up : nat) : Outside :=
  mkOutside (fun _ => Done) (fun n => if (n <? up)%nat then NoReply else Receipt)
    (fun _ => Ok (Some (mkSettled [first_id] [("alice", 1%Q)]))) (fun _ => Ok 360)
    (fun n => Ok (if (n <? 14)%nat then 720 else 1080)) (fun _ => Ok true).
Definition start : World := mkWorld [] [] None fresh_mem [] [] [] [] 0.

(** The backend is down, both budgets cut at once; a restart and another cycle follow. *)
Definition cut_off : World * res unit :=
  perform (handle (outage 100)) (report_cycle_scores (Some "burn") (report_at first_id) 0 0) start.
Definition later : list action := [Restart [] []; Cycle (Some "burn") (report_at second_id) 5 50].
Lemma cycle_report_never_lost_witness :
  cycle_reports (live (outage 100) cut_off.1 later) = [report_at second_id "burn"; report_at first_id "burn"] /\
  accounted (report_at first_id "burn") (live (outage 100) cut_off.1 later).
Proof.
  split; [vm_compute; reflexivity|].
  apply (cycle_report_never_lost (outage 100) "burn" (report_at first_id) 0 0 start cut_off.1 cut_off.2 later); [vm_compute; reflexivity|done].
Defined.

Definition with_kept : World := mkWorld [report_at second_id "burn"; report_at first_id "burn"] [] None fresh_mem [] [] [] [] 0.
Lemma kept_reports_drain_witness :
  exists enough w', perform (handle (outage 0)) (report_cycle_scores (Some "burn") (report_at "now") 0 enough) with_kept = (w', Ok tt) /\
    cycles_answered w' = [report_at first_id "burn"; report_at second_id "burn"; report_at "now" "burn"].
Proof.
  destruct (kept_reports_drain (outage 0) "burn" (report_at "now") with_kept) as [enough H]; [done|done|].
  destruct (H 0%nat enough (Nat.le_refl _)) as (w' & Hr & _ & Ha). exists enough, w'. split; [exact Hr|exact Ha].
Defined.

(** A window is accepted while the backend is down; the next waits until it is back. *)
Definition enforce : action := SyncWeights SETTLEMENT_ENFORCE false 0.
Definition ticks : list action := [CountCycle true; enforce; enforce; enforce; enforce; enforce].
Definition settled_chain : list event := chain (live (outage 30) start ticks).
Lemma windows_wait_for_reports_witness :
  settled_chain = [Accepted (Some 2) [("alice", 1%Q)]; Acked 2; Accepted (Some 3) [("alice", 1%Q)]; Acked 3] /\
  Acked 2 ∈ [Accepted (Some 2) [("alice", 1%Q)]; Acked 2].
Proof.
  split; [vm_compute; reflexivity|].
  apply (windows_wait_for_reports (outage 30) start ticks) with (j := 3) (v := [("alice", 1%Q)]) (after := [Acked 3]) (v' := [("alice", 1%Q)]).
  - reflexivity.
  - intros l1 s ids l2 H. assert (no_restart : forallb (fun a => match a with Restart _ _ => false | _ => true end) ticks = true) by reflexivity.
    rewrite H, forallb_app in no_restart. cbn in no_restart. by rewrite andb_false_r in no_restart.
  - vm_compute. reflexivity.
  - by left.
Defined.
