(* ===== verification/ResetWitnesses.v ===== *)
(** * A GPU reset on a host with two GPUs

    A pod that holds both GPUs of a host, joined by NVLink: one run in which the reset works, one in
    which the driver refuses it and the first start fails, and the models the host's cards are taken for. *)

From Stdlib Require Import Ascii String.
From stdpp Require Import strings relations.
From S2P Require Import Prelude Float64 PyValue HostText JobResult IncentiveConfig Readings Effects GpuReset GpuResetSafety GpuModels.

Local Open Scope string_scope.
Local Open Scope list_scope.
Local Open Scope Z_scope.

Definition newline : string := String (ascii_of_nat 10) "".
Definition says (exit : Z) (text : string) : res SSHResult := Ok (mkResult exit text "" (Raise ValueError)).
Definition container_json : json :=
  JObj [("Id", JStr "c0ffee"); ("State", JObj [("Pid", JInt 4242)]);
        ("HostConfig", JObj [("DeviceRequests", JList [JObj [("Capabilities", JList [JList [JStr "gpu"]]); ("DeviceIDs", JList [JStr "GPU-0"; JStr "GPU-1"])]])])].
(** [reset_exit] is what the driver's reset exits with. *)
Definition answer (reset_exit : Z) (c : command) : res SSHResult :=
  match c with
  | DockerInspect _ => Ok (mkResult 0 "{}" "" (Ok container_json))
  | CgroupsOf _ => says 0 "4242 0::/docker/c0ffee"
  | OwnCgroup => says 0 "0::/system.slice/ssh"
  | HostGpus => says 0 ("0, GPU-0, 00000000:01:00.0, Disabled" ++ newline ++ "1, GPU-1, 00000000:02:00.0, Disabled")
  | Topology => says 0 ("GPU0 GPU1" ++ newline ++ "GPU0 X NV12" ++ newline ++ "GPU1 NV12 X")
  | ResetUnitProcs => says 0 "0"
  | IsActive _ => says 3 "inactive"
  | SystemdProbe => says 0 "no-systemd"
  | ResetGpus _ => says reset_exit ""
  | CureGpu _ => says 0 "ctx open/close OK"
  | _ => says 0 ""
  end.
Definition host (reset_exit : Z) (first_start : res unit) : Outside :=
  mkOutside (fun _ => answer reset_exit) (fun n => if (n <? 25)%nat then first_start else Ok tt).
Definition request : Request := mkRequest "pod" ["GPU-0"; "GPU-1"] (Some [0]) false None None.
Definition py_repr (v : json) : string := "".
Definition idle : World := mkWorld [] fresh_locals 0.
Definition run_on (out : Outside) : World * res GpuResetReport := perform (handle out) (reset_pod_gpus py_repr request) idle.
Definition works : Outside := host 0 (Ok tt).
Definition refuses : Outside := host 1 (Raise (OtherError "DockerError")).
Definition report_of (out : Outside) : GpuResetReport := match (run_on out).2 with Ok r => r | Raise _ => fresh_report end.
Definition log_of (out : Outside) : list event := log (run_on out).1.

Lemma nvlink_widening_ends_witness :
  widened_targets ["GPU-0"] ["GPU-0"; "GPU-1"; "GPU-2"] [("GPU-0", ["GPU-1"]); ("GPU-1", ["GPU-0"])] = Ok ["GPU-0"; "GPU-1"] /\
  reached [("GPU-0", ["GPU-1"]); ("GPU-1", ["GPU-0"])] ["GPU-0"] "GPU-1".
Proof.
  split; [vm_compute; reflexivity|].
  destruct (nvlink_widening_ends ["GPU-0"] ["GPU-0"; "GPU-1"; "GPU-2"] [("GPU-0", ["GPU-1"]); ("GPU-1", ["GPU-0"])]) as [_ H]; [set_solver|].
  cbn in H. apply H. set_solver.
Defined.


Lemma stopped_pod_comes_back_witness :
  since_stop (log_of refuses) = Some [Raise (OtherError "DockerError"); Ok tt] /\ rr_ok (report_of refuses) = false /\
  exists rep, (run_on refuses).2 = Ok rep.
Proof.
  split; [vm_compute; reflexivity|]. split; [vm_compute; reflexivity|].
  destruct (stopped_pod_comes_back refuses py_repr request idle (run_on refuses).1 (run_on refuses).2 [Raise (OtherError "DockerError"); Ok tt])
    as (rep & Hr & _); [reflexivity|vm_compute; reflexivity|vm_compute; reflexivity|]. by exists rep.
Defined.

Lemma ok_only_for_a_reset_witness : rr_ok (report_of works) = true /\ did_reset (log_of works).
Proof.
  split; [vm_compute; reflexivity|].
  apply (ok_only_for_a_reset works py_repr request idle (run_on works).1 (report_of works)); [reflexivity|vm_compute; reflexivity|vm_compute; reflexivity].
Defined.

Lemma only_pod_gpus_are_reset_witness :
  exists uuids, uuids <> [] /\ "nvidia-smi -r -i GPU-0,GPU-1" = reset_text uuids /\ may_reset py_repr request (take 21 (log_of works)) uuids.
Proof.
  apply (only_pod_gpus_are_reset works py_repr request idle (run_on works).1 (run_on works).2 (take 21 (log_of works))
           (ResetGpus "nvidia-smi -r -i GPU-0,GPU-1") (says 0 "") [Started (Ok tt)]); vm_compute; reflexivity.
Defined.

Lemma probe_fits_the_card_witness :
  @precheck_gpu_spec binary64_rounding (Some "NVIDIA B200") 183359 = Ok tt /\
  exists size, @matmul_probe_vram_mb binary64_rounding (Some "NVIDIA B200") (Some 183359) = Some size /\ 0 <= size <= 183359.
Proof. split; [vm_compute; reflexivity|]. apply (@probe_fits_the_card binary64_rounding "NVIDIA B200" 183359); [lia|]. vm_compute. reflexivity. Defined.

(** An unknown card of 48 GB. *)
Lemma unknown_card_scored_as_cheapest_witness :
  @reference_gpu_model binary64_rounding (Some "NVIDIA RTX 9999") (Some 49140%Q) = Some "NVIDIA Quadro RTX 8000" /\
  din "NVIDIA Quadro RTX 8000" GPU_MODEL_RATES = true.
Proof.
  assert (Hr : @reference_gpu_model binary64_rounding (Some "NVIDIA RTX 9999") (Some 49140%Q) = Some "NVIDIA Quadro RTX 8000") by (vm_compute; reflexivity).
  split; [exact Hr|].
  pose proof (@unknown_card_scored_as_cheapest binary64_rounding "NVIDIA RTX 9999" 49140%Q) as H. rewrite Hr in H.
  apply H; [reflexivity|vm_compute; reflexivity|vm_compute; reflexivity].
Defined.
