(* ===== verification/CleanupWitnesses.v ===== *)
(** * A node with something left on it

    A rental that ended left its container, which holds a GPU, and its volume; another left only a volume; the
    disk is nearly full and a filler's cache lies on it. *)

From Stdlib Require Import Ascii String.
From stdpp Require Import strings.
From S2P Require Import Prelude Float64 PyValue HostText IncentiveConfig RentedData Effects IsoTime ContainerCleanup StaleContainers ContainerSafety ReapQueue ReapDelivery.

Local Open Scope string_scope.
Local Open Scope list_scope.
Local Open Scope Z_scope.

Definition uuid_of (last : string) : string := "aaaaaaaa-bbbb-cccc-dddd-eeeeeeeeeee" +:+ last.
Definition leftover : string := "pod_" +:+ uuid_of "1".
Definition end_of_line : string := String (ascii_of_nat 10) "".
Definition quoted (s : string) : string := String (ascii_of_nat 34) s +:+ String (ascii_of_nat 34) "".
Definition ps_line : string := "[" +:+ quoted leftover +:+ "," +:+ quoted (uuid_of "1") +:+ "]".
Definition replies (text : string) : res HostResult := Ok (mkHost 0 text "").
(** [lines]: how often the node lists the container. *)
Definition node_answers (lines : nat) (c : host_command) : res HostResult :=
  match c with
  | PsRental => replies (String.concat end_of_line (repeat ps_line lines))
  | InspectCreated _ => replies "0"
  | HostClock => replies "86400"
  | VolumeLsDangling => replies ("volume_" +:+ uuid_of "2")
  | VolumeLs => replies "dphn_cache_1"
  | ClockAndVolumesCreated _ => replies ("86400" +:+ end_of_line +:+ "volume_" +:+ uuid_of "2" +:+ " 1970-01-01T00:00:00Z")
  | DfAvailable _ => replies ("Filesystem 1B-blocks Used Available" +:+ end_of_line +:+ "/dev/sda 200 100 100")
  | _ => replies ""
  end.
Definition closed_rental : PodRentalActive := mkPodRental false (Some "STOPPED") (Some "exec-1") (Some 0).
(** A clock of one second a step, after [start]. *)
Definition at_second (start n : nat) : datetime :=
  let s := Z.of_nat (start + n) in mkTime 1970 1 2 0 (s / 60 mod 60) (s mod 60) 0.
Definition leftover_node (lines : nat) (record : option PodRentalActive) : Answers :=
  mkAnswers (fun _ => node_answers lines) (fun _ => []) (at_second 0) (fun _ => 0%Q)
    (fun _ _ => Ok record) (fun _ _ => Ok None) (fun _ => Ok 0) (fun _ => Done).
Definition tenants : RentedExecutorsResponse :=
  mkRentals [("exec-2", mkRented "alice" "10.0.0.9" "8080" [mkPod (uuid_of "9") "" None None])] [] [] [] [] [] [] [] [] [] None [] [] [] [] [].
Definition gpu_process : json := JObj [("pid", JInt 7); ("container_name", JStr leftover)].
Definition leftover_context : CheckContext := mkCheckContext "exec-1" (Some tenants) [gpu_process] [] true false.
Definition cleaner : Cleaner :=
  mkCleaner 15 false (fun s => if String.eqb s ps_line then Ok (JList [JStr leftover; JStr (uuid_of "1")]) else Raise ValueError)
    (fun s => if String.eqb s "1970-01-01T00:00:00Z" then Ok (Some 0) else Raise ValueError).
Definition new_node : Node := mkNode [] (mkClean [] [] [] O O [] [] [] [] []) (fun _ => []) O.
Definition cleaned (out : Answers) : Node * res (CleanupEvent * option StateUpdate) :=
  perform (handle out) (@stale_container_check leftover_context binary64_rounding cleaner 100) new_node.
Definition ended_node : Answers := leftover_node 1 (Some closed_rental).
Definition past (n : nat) : list happening := take n (happened (cleaned ended_node).1).
Definition later (n : nat) : list happening := drop n (happened (cleaned ended_node).1).



Definition update_of (o : res (CleanupEvent * option StateUpdate)) : StateUpdate :=
  match o with Ok (_, Some u) => u | _ => mkStateUpdate [] [] [] end.
Definition event_of (o : res (CleanupEvent * option StateUpdate)) : CleanupEvent :=
  match o with Ok (e, _) => e | _ => mkCleanupEvent [] [] false None O None None end.
Lemma only_ended_workloads_are_spared_witness :
  gone leftover (happened (cleaned ended_node).1) /\ backend_ended leftover_context leftover (happened (cleaned ended_node).1).
Proof.
  apply (@only_ended_workloads_are_spared ended_node leftover_context binary64_rounding cleaner 100 new_node (cleaned ended_node).1
           (event_of (cleaned ended_node).2) (update_of (cleaned ended_node).2) leftover); [reflexivity|vm_compute; reflexivity|].
  exists gpu_process. split_and!; [apply list_elem_of_In; by left|vm_compute; by intros ?%elem_of_nil|reflexivity].
Defined.

(** The same node when every call to it, to the backend and to Redis fails. *)
Definition dead_node : Answers :=
  mkAnswers (fun _ _ => Raise (OtherError "ConnectionLost")) (fun _ => []) (at_second 0) (fun _ => 0%Q)
    (fun _ _ => Raise (OtherError "timeout")) (fun _ _ => Raise (OtherError "timeout")) (fun _ => Raise RedisDown) (fun _ => Lost).

(** The container comes back and is removed again: its GPU process counts then. *)
Definition twice : list Visit := repeat (mkVisit leftover_context cleaner 100) 2.
Definition outcome (i : nat) : res (CleanupEvent * option StateUpdate) := default (Raise ValueError) (@visits binary64_rounding ended_node twice new_node !! i).
Lemma spared_at_most_once_witness :
  spares (mkVisit leftover_context cleaner 100) (outcome 0) leftover /\ ce_removed (event_of (outcome 1)) = [leftover] /\
  ~ spares (mkVisit leftover_context cleaner 100) (outcome 1) leftover.
Proof.
  assert (spares (mkVisit leftover_context cleaner 100) (outcome 0) leftover) as H0.
  { exists (event_of (outcome 0)), (update_of (outcome 0)). split; [vm_compute; reflexivity|].
    exists gpu_process. split_and!; [apply list_elem_of_In; by left|vm_compute; by intros ?%elem_of_nil|reflexivity]. }
  split_and!; [exact H0|vm_compute; reflexivity|]. intros H1.
  enough (0%nat = 1%nat) by discriminate.
  apply (@spared_at_most_once binary64_rounding ended_node twice new_node 0 1 (mkVisit leftover_context cleaner 100) (mkVisit leftover_context cleaner 100)
           (outcome 0) (outcome 1) leftover leftover); [repeat constructor|reflexivity|reflexivity|vm_compute; reflexivity|vm_compute; reflexivity|exact H0|exact H1|reflexivity].
Defined.

(** A reap waits behind another; the next cycle removes a third container and reports all of them. *)
Definition queue_node : Node := mkNode [] (vars new_node)
  (fun h => match h with ReapedStates => [(uuid_of "2", encode (mkReap (at_second 0 1) None)); (uuid_of "3", encode (mkReap (at_second 0 2) None))] | GpuExempt => [] end) O.
Definition quiet_node : Answers := mkAnswers (fun _ => node_answers 0) (fun _ => []) (at_second 10) (fun _ => 0%Q) (fun _ _ => Ok None) (fun _ _ => Ok None) (fun _ => Ok 0) (fun _ => Done).
Definition one_turn : list Turn := [mkTurn leftover_context [leftover] []].

(** A node that lists one container twelve times makes the check ask the backend twelve times in a run,
    two more than the cap: the slot reserved for a name is spent again each time the name was removed. *)
Example repeated_listing_exceeds_the_cap :
  let asked h := match h with PodAsked id _ => String.eqb id (uuid_of "1") | _ => false end in
  length (List.filter asked (happened (cleaned (leftover_node 12 None)).1)) = (LIUM_WORKLOAD_LOOKUPS_PER_CYCLE + 2)%nat.
Proof. vm_compute. reflexivity. Qed.
