(* ===== verification/UsageWitnesses.v ===== *)
(** * A filler the snapshot missed

    A node on which a filler started after the fleet snapshot was read: its GPU process is vouched for when the
    backend places the run there, and foreign when it places it elsewhere. *)

From Stdlib Require Import Ascii String.
From stdpp Require Import strings.
From S2P Require Import Prelude Float64 PyValue HostText IncentiveConfig RentedData Effects IsoTime ContainerCleanup StaleContainers GpuUsage GpuUsageSafety.

Local Open Scope string_scope.
Local Open Scope list_scope.
Local Open Scope Z_scope.

Definition run_id : string := "aaaaaaaa-bbbb-cccc-dddd-eeeeeeeeeee5".
Definition late_filler : string := "filler_" +:+ run_id.
Definition snapshot : RentedExecutorsResponse :=
  mkRentals [("exec-2", mkRented "bob" "10.0.0.2" "8080" [mkPod "aaaaaaaa-bbbb-cccc-dddd-eeeeeeeeeee9" "" None None])] [] [] [] [] [] [] [] [] [] None [] [] [] [] [].
Definition card : json := JObj [("uuid", JStr "GPU-1"); ("gpu_utilization", JInt 0); ("memory_utilization", JInt 3)].
Definition filler_process : json :=
  JObj [("pid", JInt 7); ("container_name", JStr late_filler); ("info", JStr "0::/../docker-1.scope")].
Definition usage_context : UsageContext :=
  mkUsageContext "exec-1" "10.0.0.1" "8080" "alice" false (Some snapshot) (JObj []) [card] [filler_process] true false.
Definition quiet_run : RunResult := mkRun true "".
(** The backend says that the run is on the executor [owner]. *)
Definition replies_for (owner : string) : Replies :=
  mkReplies (fun _ => Ok []) (fun _ => quiet_run) (fun _ => quiet_run) (fun _ _ => quiet_run) (fun _ => quiet_run) (fun _ => Raise ValueError) (fun _ _ => Ok None)
    (fun _ _ => Ok (Some (mkFillerRun true (Some owner) (Some "RUNNING")))) (fun _ _ => Ok None) (fun _ => Ok tt) (fun _ => mkTime 2026 1 1 0 0 0 0).
Definition other_str (v : json) : string := "".
Definition no_json (s : string) : res json := Raise ValueError.
Definition checked (owner : string) : list u_event * res UsageResult :=
  perform (u_handle (replies_for owner)) (@gpu_usage_check binary64_rounding usage_context other_str no_json) [].
Definition result_of (owner : string) : UsageResult := match (checked owner).2 with Ok r => r | Raise _ => mkUsage false GPU_RESET_IN_PROGRESS end.


