(* ===== verification/LoadWitnesses.v ===== *)
(** * A node whose owner mines beside Lium

    A node of eight cores on which a container of the owner's holds three: the scrape and the second reading agree.
    And a node that advertises 176 cores and has forty. *)

From Stdlib Require Import Ascii String Qabs.
From stdpp Require Import strings.
From S2P Require Import Prelude Float64 PyValue HostText IncentiveConfig RentedData Effects IsoTime ContainerCleanup StaleContainers GpuUsage GpuUsageSafety ProviderLoad ProviderLoadSafety LoadPrecision CpuTruth UsageWitnesses.

Local Open Scope string_scope.
Local Open Scope list_scope.
Local Open Scope Z_scope.

Definition container (id name digest : string) (percent : Z) : json :=
  JObj [("container_id", JStr id); ("name", JStr name); ("digest", JStr digest); ("cpu_percent", JInt percent)].
Definition mined_specs : json :=
  JObj [("cpu", JObj [("count", JInt 8)]);
        ("docker", JObj [("container_id", JStr "aaaabbbbccccdddd"); ("host_cpu_percent", JInt 50);
                         ("containers", JList [container "aaaabbbbccccdddd" "executor-executor-1" "sha256:1" 10; container "eeeeffff00001111" "miner" "sha256:2" 300])])].
Definition mined_context : UsageContext :=
  mkUsageContext "exec-1" "10.0.0.1" "8080" "alice" false (Some snapshot) mined_specs [] [] false false.
Definition lines (l : list string) : string := String.concat (String newline "") l.
Definition second_reading : RunResult :=
  mkRun true (lines ["1000 500 8 0"; "@@@"; "aaaabbbbcccc|executor-executor-1|10.00%"; "eeeeffff0000|miner|300.00%"; "@@@"; "2000 900 8 0"; ""]).
Definition kernel_runs : list (Z * Z) := [(0, 19); (40, 59)].
Definition load_replies (sample : RunResult) : Replies :=
  mkReplies (fun _ => Ok []) (fun _ => quiet_run) (fun _ => quiet_run) (fun _ _ => quiet_run) (fun _ => sample) (fun _ => Ok (mkHost 0 (cpu_list kernel_runs) "")) (fun _ _ => Ok None)
    (fun _ _ => Ok None) (fun _ _ => Ok None) (fun _ => Ok tt) (fun _ => mkTime 2026 1 1 0 0 0 0).
Definition enforced : LoadSettings := mkLoadSettings true (Fin 8) true.
Definition loaded (sample : RunResult) : list u_event * res LoadResult :=
  perform (u_handle (load_replies sample)) (@provider_side_load_check binary64_rounding other_str mined_context true enforced) [].
Definition load_of (sample : RunResult) : LoadResult := match (loaded sample).2 with Ok r => r | Raise _ => mkLoadResult true NOT_MEASURABLE None true end.

(** A second reading that is not one withholds nothing. *)
Example unreadable_second_reading : lr_passed (load_of quiet_run) = true.
Proof. vm_compute. reflexivity. Qed.

Definition stack_row : ContainerRow := mkRow "aaaabbbbcccc" "executor-executor-1" "" (Some (Fin 10)).
Lemma cores_reported_to_a_tenth_witness : exists tenths c,
  @provider_cores_outside_lium exact_rounding (Fin (24 # 5)) [stack_row] ["aaaabbbbccccdddd"] = Ok (Fin c) /\ (c == inject_Z tenths / 10)%Q /\ (c <= (47 # 10) + (1 # 2000))%Q /\ (2 <= c)%Q.
Proof.
  destruct (cores_reported_to_a_tenth (24 # 5) [stack_row] ["aaaabbbbccccdddd"]) as [H _]; [vm_compute; discriminate|vm_compute; discriminate|].
  destruct H as (tenths & c & H1 & H2 & _ & H3 & H4).
  - intros r [->|?%elem_of_nil]%elem_of_cons; [|done]. exists 10%Q. split; [reflexivity|vm_compute; discriminate].
  - exists tenths, c. split_and!; [exact H1|exact H2|eapply Qle_trans; [exact H3|vm_compute; discriminate]|apply H4; vm_compute; discriminate].
Defined.

Definition spoofed_context : UsageContext :=
  mkUsageContext "exec-1" "10.0.0.1" "8080" "alice" false None (JObj [("cpu", JObj [("count", JInt 176)])]) [] [] false false.
Lemma cpu_truth_counts_the_kernels_cpus_witness : exists l',
  perform (u_handle (load_replies quiet_run)) (cpu_truth_check spoofed_context (fun _ => true)) [] = (l', Ok (mkTruth false (CPU_MISMATCH 176 40) false)).
Proof.
  apply (cpu_truth_counts_the_kernels_cpus (load_replies quiet_run) (fun _ => true) spoofed_context kernel_runs 176 "" []);
    [repeat constructor; vm_compute; try discriminate; reflexivity|discriminate|vm_compute; reflexivity|reflexivity].
Defined.

(** What a malformed scrape does: a percentage that is no number, met where nothing catches it, aborts the run; so
    does a [cpu] that is no dict.  A container of the owner's without a percentage voids nothing. *)
Definition with_specs (specs : json) : UsageContext :=
  mkUsageContext "exec-1" "10.0.0.1" "8080" "alice" false (Some snapshot) specs [] [] false false.
Definition load_with (specs : json) : res LoadResult :=
  (perform (u_handle (load_replies quiet_run)) (@provider_side_load_check binary64_rounding other_str (with_specs specs) true enforced) []).2.
Definition bad_percent : json := JObj [("docker", JObj [("containers", JList [JObj [("name", JStr "x"); ("cpu_percent", JStr "n/a")]])])].
Example bad_percent_aborts : load_with bad_percent = Raise ValueError.
Proof. vm_compute. reflexivity. Qed.
Example bad_cpu_aborts : (perform (u_handle (load_replies quiet_run)) (cpu_truth_check (with_specs (JObj [("cpu", JStr "x86")])) (fun _ => true)) []).2 = Raise AttributeError.
Proof. vm_compute. reflexivity. Qed.
Example foreign_row_without_percent :
  @provider_cores_outside_lium binary64_rounding (Fin 3) [mkRow "eeeeffff0000" "miner" "" None] ["aaaabbbbccccdddd"] = Ok (Fin 3).
Proof. vm_compute. reflexivity. Qed.
